(* ===== verification/_CoqProject ===== *)
-Q . S2P
Prelude.v
CString.v
Buffer.v
BufferList.v
HttpRequest.v
HttpContext.v
HttpResponse.v
Timing.v
HttpServer.v
Favicon.v
Channel.v
Poller.v
EventLoop.v
EventLoopThread.v
TcpConnection.v
HttpConnection.v
TimerQueue.v
Connector.v
TcpServer.v
TcpClient.v
SharedLoop.v
ConnectionUp.v
HttpService.v
PooledServer.v
ServiceLifecycle.v
Defaults.v
ServiceRefinement.v
PooledLifecycle.v
ServiceServing.v
InetAddress.v
Calendar.v
TimeZone.v
LogStream.v
Units.v
Seconds.v
LoopObject.v
ServerBoot.v
ConnectionApi.v
Descriptors.v
HttpText.v
Logging.v
Streaming.v
Sync.v
ThreadPool.v
Monitor.v
Files.v
AsyncLogging.v
Any.v
ProcessInfo.v
Handles.v
CommandLine.v
