(* ===== verification/Prelude.v ===== *)
(** * MyTinyHttpd: a verification library

    MyTinyHttpd is a static-file HTTP server in C++ on a network library of its
    own in the style of a reactor: an event loop per thread dispatches the
    readiness of descriptors to channels, a TCP server spreads connections over
    the loops, and an HTTP layer parses requests out of a connection's input
    buffer and appends replies to its output buffer.  Below are small libraries:
    logging, a thread pool, dates and time zones.

    ** How the code is modelled

    Definitions follow the functions of the sources one by one and keep their
    names.  A function that can abort or throw returns an [outcome] (this file):
    [Ok], or [Fail] with the assertion, exception, fatal log or undefined
    behaviour that stops it.  The default build is Debug, so assertions are live.
    Objects are records with the members of the class; a method takes the object
    and returns it.  Pointers to shared objects are keys of an explicit heap
    (channels, timers).  Machine integers are [Z] with the wrap-around of their
    width written out ([wrapU], [wrapS], [+#] and [-#] for [size_t]) where the
    code can reach it.  The operating system answers from a script or through a
    type class with laws, so theorems hold for all its answers.  Threads are step
    relations whose steps are the critical sections.

    ** The files

    - [Prelude]: outcomes, machine integers, lists indexed by [Z], tactics and
      rewrite databases.  [CString]: bytes and the C library functions used.
    - [Buffer] (net/buffer.h, net/buffer.cc, net/endian.h): the growable I/O
      buffer with its three regions, over a block with explicit capacity.
      The abstract specification is a queue of bytes: [buffer_refines_queue].
      Network-order integers: [buffer_int_roundtrip].  Every sequence of calls,
      legal or not, keeps the indices in order: [buffer_calls_typed].
      [BufferList] (net/buffer_list.h/.cc): a list of buffers and the vector for
      writing them, [fill_iovec_exact].
    - [HttpRequest] (http/http_request.h) and [HttpContext] (http/http_context.h/.cc):
      the request and its incremental parser, a loop with fuel on the buffer.
      The reference is [parse], a function on bytes: [parse_request_refines]
      shows that the loop with fuel at least the number of unread bytes plus two
      terminates with the answer of [parse] (each iteration but the last two
      consumes a line), and [parse_request_terminates_iff] in which contexts it
      terminates at all.  On [parse] rest the grammar of request lines
      ([process_request_line_grammar]), the round trip with a printer of
      requests ([parse_request_roundtrip]) and the independence of how the bytes
      are cut into segments ([feed_any_segmentation]).
    - [HttpResponse] (http/http_response.h/.cc): the response's append states.
      [Timing] (net/timing.h, net/timing_wheel.h/.cc, net/timing_list.h/.cc): the two
      strategies that close idle connections, Modules [Wheel] and [TList], and
      the class [Timing] that the server uses: [wheel_closes_idle],
      [timing_list_finds_overdue].  [Defaults] (net/default_poller.cc,
      net/default_timing.cc): the poller and the strategy that the program picks,
      as instances of the same interfaces.  [HttpText] (http/http_request.cc,
      http/http_response.h): the text of a request for debugging, the status codes
      and the setters of the configuration.
    - [HttpServer] (http/http_server.h/.cc, the configuration part of
      mytinyhttpd/mytinyhttpd.cc): the default handler, over a [FileSystem]
      class.  [handle] is the abstract handler, a function to structured
      replies: [on_request_replies], [reply_framed], [put_get_delete]; the
      callback from bytes to bytes: [on_message_serves],
      [on_message_bad_request].  [Favicon]: the icon, [favicon_cut_off].
    - [CommandLine] (utils/program_options.h/.cc, [main] of
      mytinyhttpd/mytinyhttpd.cc): which options exclude each other and what
      [main] does with them, [main_dispatch].
    - [Channel] (net/channel.h/.cc), [Poller] (net/poller.h/.cc, net/epoll_poller.h/.cc,
      net/poll_poller.h/.cc; Modules [EPoll] and [PPoll]): registration of interest.
      The abstract specification is a registry of one channel per descriptor;
      both pollers refine it ([epoll_watches_registered],
      [poll_watches_registered]) and are instances of [PollerInv], the interface
      that the connection is verified against.
    - [EventLoop] (net/event_loop.h/.cc): the loop's thread, other threads, the
      functor queue and the wake-up descriptor as a step relation:
      [functors_once_in_order], [no_lost_wakeup], [one_turn_serves_queue].
      [LoopObject]: constructing and destroying a loop with its poller, timer
      queue and wake-up channel, its calls routed through the checks of the
      thread, and timers by delay: [loop_lifetime].
      [EventLoopThread] (net/event_loop_thread.h/.cc, base/thread.h/.cc): the
      owner, the new thread and others, interleaved: [start_loop_hands_over],
      [destroy_returns_iff_looping].
    - [TcpConnection] (net/tcp_connnection.h/.cc): the connection over any poller
      with [PollerInv], a socket that answers writes from a script, and the
      loop's queue: [output_in_order], [output_drains], [close_then_destroy].
      [HttpConnection] composes it with the server's callbacks, the parser and
      the timing strategy; the reference is a server on bytes without buffers:
      [http_connection_refines], [http_connection_serves].
      [ConnectionApi]: the overloads of [Send], the default callbacks and the
      callback for much buffered output, [high_water_mark_crossing].
    - [HttpService]: the whole server in one loop, as it runs without pool
      threads: acceptor, map of connections, every connection with its channel in
      the one poller, functor queue, files and timing object, turn by turn of
      [EventLoop::Loop].  [SharedLoop] carries the theorems on one connection
      over to a shared poller: the other registrations are a frame, and
      [frame_inv] is a [PollerInv] again.  [ServiceLifecycle] is the invariant of
      the reference service: one [ConnectDestroyed] for each closed connection,
      the last functor that refers to it.  [ServiceRefinement]:
      [service_refines], [closed_destroyed].  [ServiceServing] keeps an account
      of each connection and shows exact replies on every one whatever the
      interleaving; [ServerBoot] constructs loop, acceptor and server and starts
      them, and from there on gives [server_serves].
    - [PooledServer]: the server with pool threads.  The base loop accepts
      connections and keeps their map, each pool thread has a loop with poller,
      channels and queue, and a step is one event, functor or timer in one thread,
      a [Send] of another thread, or the end of an object.  [ConnectionUp] says
      what every handler of a connection keeps, whatever the socket answers and
      the user's callbacks call.  [PooledLifecycle] gives each connection a phase
      (waiting, up, closed, removed, destroyed) and shows [pool_lifecycle] for all
      interleavings; the bytes that connections take in are bounded by the size of
      a vector, and there are fewer than [2 ^ 31] connections.
    - [TimerQueue] (net/timer_queue.h/.cc, net/timer.h/.cc, net/timer_id.h): timers in a
      heap whose addresses are reused, callbacks that add and cancel timers:
      [timer_queue_serves], [cancelled_timer_never_runs].
    - [Connector] (net/connector.h/.cc), [TcpServer] (net/tcp_server.h/.cc,
      net/acceptor.h/.cc, net/event_loop_thread_pool.h/.cc): [connector_no_leak],
      [server_keeps_connections].  [TcpClient] (net/tcp_client.h/.cc) runs the
      models of connector and connection on one queue of functors:
      [client_one_connection].
    - [InetAddress] (net/inet_address.h/.cc, net/socket.h/.cc, net/socket_ops.h/.cc):
      addresses as bytes of their structures, over [inet_pton] and [inet_ntop] as
      a class with laws: [address_text_roundtrip], [self_connect_iff_same_text].
      [Descriptors]: the flags of sockets in the two builds, [builds_agree], and
      SIGPIPE.
    - [Calendar] (utils/date.h/.cc, utils/timestamp.h/.cc, the UTC part of
      utils/timezone.cc): [date_julian_roundtrip], [utc_roundtrip].  [Seconds]:
      timestamps as [double] seconds and back, [seconds_roundtrip], and the
      comparison of ages in net/timing_list.cc, [age_comparison_exact].
      [TimeZone] (utils/timezone.h/.cc, [File] of utils/file.cc): zone files and
      local times, [find_localtime_in_force].
    - [LogStream] (base/log_stream.h/.cc, utils/slice.h): [format_integer_decimal].
      [Units] ([FormatSi] and [FormatIec] of base/log_stream.cc): [double]s as
      mantissa and exponent with the rounding written out: [format_si_digits],
      [format_iec_digits].  [Streaming]: the other operators of the stream, with
      [%.12g] written out, [put_double_whole], [put_double_integer].
      [Logging] (base/logging.h/.cc, base/current_thread.h/.cc): log statements of
      several threads with their caches, against a reference without caches:
      [log_lines_uncached].  [Sync] (base/mutex.h, base/condition.h/.cc,
      base/atomic.h, base/singleton.h, base/thread_local.h,
      base/thread_local_singleton.h): [mutex_holder_exact].
      [ThreadPool] (base/thread_pool.h/.cc, the blocking queues, the latch):
      [thread_pool_fifo].  [Monitor] (base/condition.h): conditions with their
      wake-ups and what waits on them, the queues, the latch and the pool:
      [pool_never_stalls], [bounded_queue_never_stalls], [latch_releases_all].
      [Files] (utils/file.h/.cc): reading, appending and
      flushing files.  [Handles] (utils/file.h): which object closes which
      descriptor or stream, [GzipFile] over zlib as a class: [gzip_closed_once].
      [AsyncLogging] (base/async_logging.h/.cc, base/log_file.h/.cc): the
      double-buffered logger, [async_logging_in_order], [overload_keeps_two], and
      the names of its files, [log_files_distinct].  [Any] (utils/any.h, utils/weak_callback.h).
      [ProcessInfo] (base/process_info.h/.cc): what is read off the texts of
      /proc, [procname_exact].

    Theorems whose names end in [aborts], [lost], [not_exact], [not_confined],
    [indeterminate], [undefined], [diverges], [overtakes], [overruns] or [stale],
    with [reset_keeps_body], [head_two_content_lengths], [resize_keeps_loops],
    [process_request_line_no_path], [bad_config_aborts_help],
    [socket_move_closes_twice], [long_line_loses_its_end], [connection_names],
    [read_stops_at_front], [seconds_loses_a_microsecond],
    [send_buffer_doubled], [start_read_after_close], [force_close_race] and
    [favicon_cut_off], state where the code does less than its callers expect, for
    all the inputs concerned.

    ** Bounds and fuel

    The buffer's vector has at most [2 ^ 63 - 1] bytes, the only bound of its
    theorems.  [ParseRequest] and [feed] take fuel; the theorems ask for the
    number of unread bytes plus two.  [convert_loop] has 64 rounds of fuel and a
    64-bit number has at most 20 digits; [read_loop] gets one more than the
    file's length and each round reads at least one byte; [lower_bound_loop] gets
    the length of the table and halves it.  Dates range over the years -4799 to
    999999, where the [int] arithmetic of date.cc does not overflow.  Times of the
    timer queue stay below [time_max], so that [int64_t] sums fit.

    ** What is not modelled

    System calls are inputs or classes with laws: connecting, reading and writing
    sockets, the file system, /proc, the clock, zlib.  The libraries that parse
    JSON and the command line are parameters.  Not modelled are what [fflush]
    leaves to the system, tests and benchmarks.  [main] also sets eight pool
    threads, and then [timing_] is shared between them without a lock, which is a
    data race: the theorem on the replies of the whole server, [server_serves], is
    for a server without pool threads, and with them [pool_lifecycle] is about
    connections whose callbacks use no shared object.  In it other threads only
    [Send]; that they may not shut down or close a connection is
    [force_close_race].  Scheduling fairness is not assumed: liveness
    is stated as steps the component can take on its own. *)

From stdpp Require Import base tactics list numbers strings.
From Stdlib Require Import ZArith Lia.

#[global] Open Scope Z_scope.

(** ** Outcomes of C++ code

    A C++ function either returns a value, or stops the program or unwinds:
    the repository's default build type is [Debug] without [NDEBUG], so a false
    [assert] aborts; [LOG_FATAL] and [LOG_SYSFATAL] abort in [Logger::~Logger];
    an exception leaves the function; and a use of the language or of its
    library outside of its contract is undefined behaviour. *)
Inductive failure : Set :=
| AssertionFailed (cond : string)
| Exception (what : string)
| UndefinedBehaviour (why : string)
| FatalLog (msg : string).

Inductive outcome (A : Type) : Type :=
| Ok (a : A)
| Fail (f : failure).
Arguments Ok {A} a.
Arguments Fail {A} f.

#[global] Instance failure_eq_dec : EqDecision failure.
Proof. solve_decision. Defined.

#[global] Instance outcome_ret : MRet outcome := @Ok.
#[global] Instance outcome_bind : MBind outcome := λ A B k m,
  match m with Ok a => k a | Fail f => Fail f end.
#[global] Instance outcome_fmap : FMap outcome := λ A B g m,
  match m with Ok a => Ok (g a) | Fail f => Fail f end.

Definition cassert (cond : string) (b : bool) : outcome unit :=
  if b then Ok tt else Fail (AssertionFailed cond).

Definition is_ok {A} (m : outcome A) : bool :=
  match m with Ok _ => true | Fail _ => false end.

(** [returns m P]: [m] returns, and what it returns satisfies [P]. *)
Definition returns {A} (m : outcome A) (P : A → Prop) : Prop :=
  match m with Ok a => P a | Fail _ => False end.

Lemma bind_Ok {A B} (m : outcome A) (k : A → outcome B) (b : B) :
  (m ≫= k) = Ok b ↔ ∃ a, m = Ok a ∧ k a = Ok b.
Proof. destruct m; cbn; split; [eauto | by intros (? & [= ->] & ?) | done | by intros (? & ? & ?)]. Qed.

Lemma cassert_Ok cond b : cassert cond b = Ok tt ↔ b = true.
Proof. destruct b; cbn; naive_solver. Qed.

Lemma returns_Ok {A} (a : A) P : P a → returns (Ok a) P.
Proof. done. Qed.

Lemma returns_bind {A B} (m : outcome A) (k : A → outcome B) (P : A → Prop) (Q : B → Prop) :
  returns m P → (∀ a, P a → returns (k a) Q) → returns (m ≫= k) Q.
Proof. destruct m; cbn; naive_solver. Qed.

Lemma returns_impl {A} (m : outcome A) (P Q : A → Prop) :
  returns m P → (∀ a, P a → Q a) → returns m Q.
Proof. destruct m; cbn; naive_solver. Qed.

Lemma returns_ok_iff {A} (m : outcome A) P :
  returns m P ↔ ∃ a, m = Ok a ∧ P a.
Proof. destruct m; cbn; split; [eauto | by intros (? & [= ->] & ?) | done | by intros (? & ? & ?)]. Qed.

(** Take a successful run apart, one bind and one assertion at a time. *)
Ltac inv_ok :=
  repeat match goal with
  | H : (_ ≫= _) = Ok _ |- _ => apply bind_Ok in H as (? & ? & ?)
  | H : cassert _ _ = Ok _ |- _ => apply cassert_Ok in H
  | H : Ok _ = Ok _ |- _ => injection H as H; subst
  | H : Fail _ = Ok _ |- _ => discriminate H
  | H : Ok _ = Fail _ |- _ => discriminate H
  | H : mret _ = Ok _ |- _ => unfold mret, outcome_ret in H
  | x : unit |- _ => destruct x
  end.

(** Run a computation forward, discharging each assertion. *)
Ltac step_assert tac :=
  match goal with
  | |- context [cassert ?c ?b] =>
      let H := fresh in
      assert (b = true) as H by tac;
      rewrite H; clear H; cbn [cassert mbind outcome_bind]
  end.

(** ** Fixed-width integers

    Values are kept as [Z]; [wrapU w] and [wrapS w] are the conversions to a
    [w]-bit unsigned and signed type (two's complement). *)
Definition wrapU (w x : Z) : Z := x `mod` 2 ^ w.
Definition wrapS (w x : Z) : Z := (x + 2 ^ (w - 1)) `mod` 2 ^ w - 2 ^ (w - 1).

(** [size_t] is 64 bits wide. *)
Definition SIZE_MAX : Z := 2 ^ 64 - 1.
Definition add64 (a b : Z) : Z := wrapU 64 (a + b).
Definition sub64 (a b : Z) : Z := wrapU 64 (a - b).

Declare Scope cpp_scope.
Delimit Scope cpp_scope with cpp.
Infix "+#" := add64 (at level 50, left associativity) : cpp_scope.
Infix "-#" := sub64 (at level 50, left associativity) : cpp_scope.
#[global] Open Scope cpp_scope.

Lemma wrapU_small w x : 0 ≤ x < 2 ^ w → wrapU w x = x.
Proof. apply Z.mod_small. Qed.

Lemma wrapU_range w x : 0 ≤ w → 0 ≤ wrapU w x < 2 ^ w.
Proof. intros. apply Z.mod_pos_bound. lia. Qed.

Lemma wrapS_range w x : 0 < w → - 2 ^ (w - 1) ≤ wrapS w x < 2 ^ (w - 1).
Proof.
  intros Hw. unfold wrapS.
  assert (2 ^ w = 2 * 2 ^ (w - 1)) as Hp.
  { rewrite <-Z.pow_succ_r by lia. f_equal. lia. }
  pose proof (Z.mod_pos_bound (x + 2 ^ (w - 1)) (2 ^ w)) as Hb.
  assert (0 < 2 ^ (w - 1)) by lia. lia.
Qed.

Lemma wrapS_small w x : 0 < w → - 2 ^ (w - 1) ≤ x < 2 ^ (w - 1) → wrapS w x = x.
Proof.
  intros Hw Hx. unfold wrapS.
  assert (2 ^ w = 2 * 2 ^ (w - 1)) as Hp.
  { rewrite <-Z.pow_succ_r by lia. f_equal. lia. }
  rewrite Z.mod_small; lia.
Qed.

(** Signed and unsigned views of the same bits. *)
Lemma wrapS_wrapU w x : 0 < w → wrapS w (wrapU w x) = wrapS w x.
Proof.
  intros Hw. unfold wrapS, wrapU. f_equal.
  rewrite Z.add_mod_idemp_l; [done | lia].
Qed.

Lemma wrapU_wrapS w x : 0 < w → wrapU w (wrapS w x) = wrapU w x.
Proof.
  intros Hw. unfold wrapS, wrapU.
  rewrite Zminus_mod_idemp_l. f_equal. lia.
Qed.

Lemma add64_small a b : 0 ≤ a + b < 2 ^ 64 → a +# b = a + b.
Proof. apply wrapU_small. Qed.

Lemma sub64_small a b : 0 ≤ a - b < 2 ^ 64 → a -# b = a - b.
Proof. apply wrapU_small. Qed.

Create Rewrite HintDb size.
#[export] Hint Rewrite add64_small sub64_small using lia : size.

(** ** Arrays: lists indexed by [Z] *)
Section zlist.
Context {A : Type}.
Implicit Types l data : list A.

Definition zlen l : Z := Z.of_nat (length l).
Definition ztake (n : Z) l : list A := take (Z.to_nat n) l.
Definition zdrop (n : Z) l : list A := drop (Z.to_nat n) l.
(** The [n] elements from index [i] on. *)
Definition zsub (i n : Z) l : list A := ztake n (zdrop i l).
(** [l] with the elements from index [i] on overwritten by [data]. *)
Definition zstore (i : Z) data l : list A :=
  ztake i l ++ data ++ zdrop (i + zlen data) l.

Lemma zlen_nonneg l : 0 ≤ zlen l.
Proof. unfold zlen. lia. Qed.

Lemma zlen_nil : zlen ([] : list A) = 0.
Proof. done. Qed.

Lemma zlen_cons x l : zlen (x :: l) = zlen l + 1.
Proof. unfold zlen. cbn. lia. Qed.

Lemma zlen_app l1 l2 : zlen (l1 ++ l2) = zlen l1 + zlen l2.
Proof. unfold zlen. rewrite length_app. lia. Qed.

Lemma zlen_replicate n (x : A) : 0 ≤ n → zlen (replicate (Z.to_nat n) x) = n.
Proof. intros. unfold zlen. rewrite length_replicate. lia. Qed.

Lemma zlen_ztake n l : 0 ≤ n ≤ zlen l → zlen (ztake n l) = n.
Proof. unfold zlen, ztake. rewrite length_take. lia. Qed.

Lemma zlen_zdrop n l : 0 ≤ n ≤ zlen l → zlen (zdrop n l) = zlen l - n.
Proof. unfold zlen, zdrop. rewrite length_drop. lia. Qed.

Lemma zlen_zsub i n l : 0 ≤ i → 0 ≤ n → i + n ≤ zlen l → zlen (zsub i n l) = n.
Proof.
  intros. unfold zsub. rewrite zlen_ztake; [done|]. rewrite zlen_zdrop; lia.
Qed.

Lemma zlen_zstore i data l :
  0 ≤ i → i + zlen data ≤ zlen l → zlen (zstore i data l) = zlen l.
Proof.
  intros. unfold zstore. pose proof (zlen_nonneg data).
  rewrite !zlen_app, zlen_ztake, zlen_zdrop by lia. lia.
Qed.

Lemma ztake_zdrop n l : ztake n l ++ zdrop n l = l.
Proof. apply take_drop. Qed.

Lemma ztake_all n l : zlen l ≤ n → ztake n l = l.
Proof. unfold zlen, ztake. intros. apply take_ge. lia. Qed.

Lemma ztake_0 n l : n ≤ 0 → ztake n l = [].
Proof. unfold ztake. intros. by replace (Z.to_nat n) with 0%nat by lia. Qed.

Lemma zdrop_0 n l : n ≤ 0 → zdrop n l = l.
Proof. unfold zdrop. intros. by replace (Z.to_nat n) with 0%nat by lia. Qed.

Lemma zdrop_all n l : zlen l ≤ n → zdrop n l = [].
Proof. unfold zlen, zdrop. intros. apply drop_ge. lia. Qed.

Lemma ztake_app n l1 l2 :
  0 ≤ n → ztake n (l1 ++ l2) = ztake n l1 ++ ztake (n - zlen l1) l2.
Proof.
  intros. unfold ztake, zlen. rewrite take_app.
  do 2 f_equal. lia.
Qed.

Lemma zdrop_app n l1 l2 :
  0 ≤ n → zdrop n (l1 ++ l2) = zdrop n l1 ++ zdrop (n - zlen l1) l2.
Proof.
  intros. unfold zdrop, zlen. rewrite drop_app.
  do 2 f_equal. lia.
Qed.

Lemma zdrop_zdrop i j l : 0 ≤ i → 0 ≤ j → zdrop i (zdrop j l) = zdrop (i + j) l.
Proof. intros. unfold zdrop. rewrite drop_drop. f_equal. lia. Qed.

Lemma ztake_ztake i j l : 0 ≤ i → i ≤ j → ztake i (ztake j l) = ztake i l.
Proof. intros. unfold ztake. rewrite take_take. f_equal. lia. Qed.

Lemma zdrop_ztake i j l :
  0 ≤ i → i ≤ j → zdrop i (ztake j l) = ztake (j - i) (zdrop i l).
Proof.
  intros. unfold zdrop, ztake. rewrite skipn_firstn_comm. f_equal. lia.
Qed.

Lemma zsub_app i n m l :
  0 ≤ i → 0 ≤ n → 0 ≤ m → zsub i (n + m) l = zsub i n l ++ zsub (i + n) m l.
Proof.
  intros. unfold zsub.
  rewrite <-(ztake_zdrop n (ztake (n + m) (zdrop i l))).
  rewrite ztake_ztake, zdrop_ztake, zdrop_zdrop by lia.
  do 2 f_equal; [lia | f_equal; lia].
Qed.

Lemma zsub_zsub i n j m l :
  0 ≤ i → 0 ≤ j → 0 ≤ m → j + m ≤ n → zsub j m (zsub i n l) = zsub (i + j) m l.
Proof.
  intros. unfold zsub. rewrite zdrop_ztake, zdrop_zdrop, ztake_ztake by lia.
  do 2 f_equal. lia.
Qed.

Lemma zsub_0 i n l : n ≤ 0 → zsub i n l = [].
Proof. intros. unfold zsub. by apply ztake_0. Qed.

Lemma zdrop_zsub i n j l :
  0 ≤ i → 0 ≤ j ≤ n → zdrop j (zsub i n l) = zsub (i + j) (n - j) l.
Proof.
  intros. unfold zsub. rewrite zdrop_ztake, zdrop_zdrop by lia.
  do 2 f_equal. lia.
Qed.

Lemma ztake_zsub i n j l :
  0 ≤ i → 0 ≤ j ≤ n → ztake j (zsub i n l) = zsub i j l.
Proof. intros. unfold zsub. by rewrite ztake_ztake by lia. Qed.

(** Reading back what was stored, and what was left alone. *)
Lemma zsub_zstore_eq i data l :
  0 ≤ i → i ≤ zlen l → zsub i (zlen data) (zstore i data l) = data.
Proof.
  intros. unfold zsub, zstore. pose proof (zlen_nonneg data).
  rewrite zdrop_app by lia. rewrite zlen_ztake by lia.
  rewrite (zdrop_all i (ztake i l)) by (rewrite zlen_ztake; lia).
  rewrite zdrop_0 by lia. rewrite app_nil_l, ztake_app by lia.
  rewrite ztake_all, ztake_0, app_nil_r by lia. done.
Qed.

Lemma zsub_zstore_before i data l j n :
  0 ≤ j → 0 ≤ n → j + n ≤ i → i ≤ zlen l →
  zsub j n (zstore i data l) = zsub j n l.
Proof.
  intros. unfold zsub, zstore.
  rewrite zdrop_app by lia. rewrite zlen_ztake by lia.
  rewrite zdrop_ztake, ztake_app by lia.
  rewrite zlen_ztake by (rewrite zlen_zdrop by lia; lia).
  rewrite (ztake_0 (n - (i - j))) by lia. rewrite app_nil_r.
  by rewrite ztake_ztake by lia.
Qed.

Lemma zsub_zstore_after i data l j n :
  0 ≤ i → 0 ≤ n → i + zlen data ≤ j → i + zlen data ≤ zlen l →
  zsub j n (zstore i data l) = zsub j n l.
Proof.
  intros. unfold zsub, zstore. pose proof (zlen_nonneg data).
  rewrite app_assoc, zdrop_app by lia.
  rewrite zlen_app, zlen_ztake by lia.
  rewrite (zdrop_all j (_ ++ _)) by (rewrite zlen_app, zlen_ztake; lia).
  rewrite app_nil_l, zdrop_zdrop by lia. do 2 f_equal. lia.
Qed.
End zlist.

Create Rewrite HintDb zlen.
#[export] Hint Rewrite @zlen_app @zlen_nil @zlen_cons : zlen.
#[export] Hint Rewrite @zlen_zsub @zlen_zstore @zlen_ztake @zlen_zdrop @zlen_replicate
  using lia : zlen.
