(* ===== verification/CString.v ===== *)
(** * Bytes and the C and C++ library routines the server calls

    A [char] is an [ascii]; a byte string (a [std::string], a [Slice], a range
    of a buffer) is a [list ascii].  This file models the standard routines the
    sources use on them: [std::find], [std::search], [memcmp], [isspace],
    [strtol] in base 10 and the [printf] conversions of integers. *)

From stdpp Require Import base tactics list numbers strings sets.
From Stdlib Require Import ZArith Lia Ascii.
From S2P Require Import Prelude.

Abbreviation bytes := (list ascii).

(** The bytes of a string literal. *)
Definition str (s : string) : bytes := String.list_ascii_of_string s.

Definition CR : ascii := "013"%char.
Definition LF : ascii := "010"%char.
Definition CRLF : bytes := [CR; LF].

(** The value of a byte, as an [unsigned char]. *)
Definition byte_val (c : ascii) : Z := Z.of_N (N_of_ascii c).
Definition byte_of (z : Z) : ascii := ascii_of_N (Z.to_N (z `mod` 256)).

Lemma byte_val_range c : 0 ≤ byte_val c < 256.
Proof. unfold byte_val. pose proof (N_ascii_bounded c). lia. Qed.

Lemma byte_val_of z : byte_val (byte_of z) = z `mod` 256.
Proof.
  unfold byte_val, byte_of. pose proof (Z.mod_pos_bound z 256).
  rewrite N_ascii_embedding; lia.
Qed.

Lemma byte_of_val c : byte_of (byte_val c) = c.
Proof.
  unfold byte_of. rewrite Z.mod_small by apply byte_val_range.
  unfold byte_val. by rewrite N2Z.id, ascii_N_embedding.
Qed.

(** ** Searching *)

(** [std::find(first, last, c) - first]: the length of the range when [c] is
    not in it. *)
Fixpoint std_find (c : ascii) (l : bytes) : Z :=
  match l with
  | [] => 0
  | x :: t => if bool_decide (x = c) then 0 else 1 + std_find c t
  end.

(** Whether the range starts with [p]. *)
Definition starts_with (p l : bytes) : bool := bool_decide (take (length p) l = p).

(** [std::search(first, last, p, p + |p|) - first]. *)
Fixpoint std_search (p l : bytes) : Z :=
  match l with
  | [] => 0
  | x :: t => if starts_with p (x :: t) then 0 else 1 + std_search p t
  end.

Lemma std_find_bound c l : 0 ≤ std_find c l ≤ zlen l.
Proof. induction l; cbn; autorewrite with zlen; [lia|]. case_bool_decide; lia. Qed.

Lemma std_find_absent c l : std_find c l = zlen l ↔ c ∉ l.
Proof.
  induction l as [|x t IH]; cbn; autorewrite with zlen; [set_solver|].
  pose proof (std_find_bound c t). pose proof (zlen_nonneg t).
  case_bool_decide; subst; [split; [lia | set_solver]|].
  rewrite elem_of_cons. split.
  - intros ? [?|?]; [done|]. apply IH; [lia|done].
  - intros ?. enough (std_find c t = zlen t) by lia. apply IH. tauto.
Qed.

Lemma std_find_notin c l : c ∉ ztake (std_find c l) l.
Proof.
  induction l as [|x t IH]; cbn; [set_solver|].
  pose proof (std_find_bound c t).
  case_bool_decide; subst; [set_solver|].
  unfold ztake. replace (Z.to_nat (1 + std_find c t)) with (S (Z.to_nat (std_find c t))) by lia.
  cbn. rewrite elem_of_cons. intros [?|?]; [done|]. by apply IH.
Qed.

Lemma std_find_split c l :
  std_find c l < zlen l →
  l = ztake (std_find c l) l ++ c :: zdrop (std_find c l + 1) l.
Proof.
  induction l as [|x t IH]; cbn; autorewrite with zlen; [lia|].
  pose proof (std_find_bound c t). case_bool_decide; subst; intros; [done|].
  unfold ztake, zdrop.
  replace (Z.to_nat (1 + std_find c t)) with (S (Z.to_nat (std_find c t))) by lia.
  replace (Z.to_nat (1 + std_find c t + 1)) with (S (Z.to_nat (std_find c t + 1))) by lia.
  cbn. f_equal. apply IH. lia.
Qed.

(** The position found is the first one. *)
Lemma std_find_app_cons c l1 l2 : c ∉ l1 → std_find c (l1 ++ c :: l2) = zlen l1.
Proof.
  induction l1 as [|x t IH]; cbn; autorewrite with zlen; intros Hn.
  - by rewrite bool_decide_true.
  - rewrite bool_decide_false by set_solver. rewrite IH by set_solver. lia.
Qed.

Lemma starts_with_spec p l : starts_with p l = true ↔ ∃ t, l = p ++ t.
Proof.
  unfold starts_with. rewrite bool_decide_eq_true. split.
  - intros H. exists (drop (length p) l). by rewrite <-H at 1; rewrite take_drop.
  - intros [t ->]. by rewrite take_app_length.
Qed.

Lemma starts_with_app p l l2 : zlen p ≤ zlen l → starts_with p (l ++ l2) = starts_with p l.
Proof.
  unfold starts_with, zlen. intros. apply bool_decide_ext.
  rewrite take_app_le by lia. done.
Qed.

Lemma std_search_bound p l : 0 ≤ std_search p l ≤ zlen l.
Proof. induction l; cbn; autorewrite with zlen; [lia|]. destruct (starts_with _ _); lia. Qed.

(** A hit is an occurrence. *)
Lemma std_search_found p l :
  std_search p l < zlen l →
  l = ztake (std_search p l) l ++ p ++ zdrop (std_search p l + zlen p) l.
Proof.
  induction l as [|x t IH]; cbn; autorewrite with zlen; [lia|].
  pose proof (std_search_bound p t). pose proof (zlen_nonneg p).
  destruct (starts_with p (x :: t)) eqn:E; intros.
  - apply starts_with_spec in E as [t' E]. rewrite E, ztake_0 by lia.
    rewrite zdrop_app by lia. rewrite zdrop_all, zdrop_0 by lia. done.
  - unfold ztake, zdrop.
    replace (Z.to_nat (1 + std_search p t)) with (S (Z.to_nat (std_search p t))) by lia.
    replace (Z.to_nat (1 + std_search p t + zlen p))
      with (S (Z.to_nat (std_search p t + zlen p))) by lia.
    cbn. f_equal. apply IH. lia.
Qed.

(** The whole pattern lies within the range. *)
Lemma std_search_fits p l :
  std_search p l < zlen l → std_search p l + zlen p ≤ zlen l.
Proof.
  intros H. pose proof (std_search_found p l H) as E.
  pose proof (std_search_bound p l). pose proof (zlen_nonneg p).
  apply (f_equal zlen) in E. revert E. rewrite !zlen_app, zlen_ztake by lia.
  pose proof (zlen_nonneg (zdrop (std_search p l + zlen p) l)). lia.
Qed.

(** More input at the end does not move a hit. *)
Lemma std_search_app p l l2 :
  std_search p l < zlen l → std_search p (l ++ l2) = std_search p l.
Proof.
  induction l as [|x t IH]; cbn -[starts_with]; autorewrite with zlen; [lia|].
  intros Hlt. destruct (starts_with p (x :: t)) eqn:E.
  - apply starts_with_spec in E as [t' E].
    assert (starts_with p (x :: t ++ l2) = true) as ->; [|done].
    apply starts_with_spec. exists (t' ++ l2).
    change (x :: t ++ l2) with ((x :: t) ++ l2). by rewrite E, app_assoc.
  - pose proof (std_search_bound p t).
    assert (Hf : std_search p t < zlen t) by lia.
    pose proof (std_search_fits p t Hf). pose proof (zlen_nonneg t).
    change (x :: t ++ l2) with ((x :: t) ++ l2).
    rewrite starts_with_app by (autorewrite with zlen; lia).
    rewrite E. rewrite IH by lia. done.
Qed.

(** ** Character classes and numbers *)

(** [isspace] in the C locale. *)
Definition isspace (c : ascii) : bool :=
  (byte_val c =? 32) || ((9 <=? byte_val c) && (byte_val c <=? 13)).

Definition isdigit (c : ascii) : bool := (48 <=? byte_val c) && (byte_val c <=? 57).

Fixpoint drop_while (f : ascii → bool) (l : bytes) : bytes :=
  match l with
  | [] => []
  | x :: t => if f x then drop_while f t else l
  end.

Fixpoint take_while (f : ascii → bool) (l : bytes) : bytes :=
  match l with
  | [] => []
  | x :: t => if f x then x :: take_while f t else []
  end.

Definition digit_val (c : ascii) : Z := byte_val c - 48.
Definition digit_of (d : Z) : ascii := byte_of (d + 48).

(** The number a run of digits denotes. *)
Definition dec_value_from (v : Z) (ds : bytes) : Z :=
  foldl (λ v c, 10 * v + digit_val c) v ds.
Definition dec_value (ds : bytes) : Z := dec_value_from 0 ds.

Definition LONG_MAX : Z := 2 ^ 63 - 1.
Definition LONG_MIN : Z := - 2 ^ 63.
Definition clamp_long (z : Z) : Z := Z.max LONG_MIN (Z.min LONG_MAX z).

(** [strtol(s, nullptr, 10)]: leading white space, an optional sign, digits;
    saturates at the ends of [long]; 0 without a digit. *)
Definition strtol10 (s : bytes) : Z :=
  let s := drop_while isspace s in
  let '(neg, s) :=
    match s with
    | "-"%char :: t => (true, t)
    | "+"%char :: t => (false, t)
    | _ => (false, s)
    end in
  let v := dec_value (take_while isdigit s) in
  clamp_long (if neg : bool then - v else v).

(** The decimal digits of [n], most significant first ([%zd], [%u]); [fuel]
    bounds the number of digits. *)
Fixpoint dec_loop (fuel : nat) (n : Z) (acc : bytes) : bytes :=
  match fuel with
  | O => acc
  | S fuel =>
      let acc := digit_of (n `mod` 10) :: acc in
      if n / 10 =? 0 then acc else dec_loop fuel (n / 10) acc
  end.
Definition fmt_u (n : Z) : bytes := dec_loop (S (Z.to_nat (Z.log2 n))) n [].
(** [%d]. *)
Definition fmt_d (n : Z) : bytes :=
  if n <? 0 then "-"%char :: fmt_u (- n) else fmt_u n.

Lemma digit_val_of d : 0 ≤ d < 10 → digit_val (digit_of d) = d.
Proof.
  intros. unfold digit_val, digit_of. rewrite byte_val_of, Z.mod_small; lia.
Qed.

Lemma isdigit_of d : 0 ≤ d < 10 → isdigit (digit_of d) = true.
Proof.
  intros. unfold isdigit, digit_of. rewrite byte_val_of, Z.mod_small by lia. lia.
Qed.

Lemma isdigit_not_space c : isdigit c = true → isspace c = false.
Proof. unfold isdigit, isspace. lia. Qed.

Lemma dec_loop_value fuel n acc v :
  0 ≤ n < 2 ^ Z.of_nat (S fuel) →
  ∃ ds, dec_loop (S fuel) n acc = ds ++ acc ∧ ds ≠ [] ∧
    Forall (λ c, isdigit c = true) ds ∧
    dec_value_from v ds = v * 10 ^ zlen ds + n.
Proof.
  revert n acc v. induction fuel as [|fuel IH]; intros n acc v Hn.
  - assert (n = 0 ∨ n = 1) as Hn' by lia.
    exists [digit_of (n `mod` 10)]. unfold dec_value_from. cbn [foldl].
    rewrite digit_val_of by (apply Z.mod_pos_bound; lia).
    destruct Hn' as [-> | ->];
      (do 2 (split; [done|]); split; [by apply Forall_cons, conj, Forall_nil_2|]);
      autorewrite with zlen; change (10 ^ (0 + 1)) with 10; rewrite Z.mod_small; lia.
  - assert (0 ≤ n `mod` 10 < 10) by (apply Z.mod_pos_bound; lia).
    cbn [dec_loop]. destruct (Z.eqb_spec (n / 10) 0) as [E|E].
    + exists [digit_of (n `mod` 10)]. do 2 (split; [done|]); split.
      * apply Forall_cons; split; [by apply isdigit_of | apply Forall_nil_2].
      * unfold dec_value_from; cbn [foldl]. rewrite digit_val_of by done.
        pose proof (Z_div_mod_eq_full n 10).
        rewrite Z.mod_small by lia. autorewrite with zlen.
        change (10 ^ (0 + 1)) with 10. lia.
    + destruct (IH (n / 10) (digit_of (n `mod` 10) :: acc) v) as (ds & Hds & Hne & Hall & Hv).
      { split; [apply Z.div_pos; lia|]. apply Z.div_lt_upper_bound; [lia|].
        rewrite Nat2Z.inj_succ, Z.pow_succ_r in Hn by lia. lia. }
      exists (ds ++ [digit_of (n `mod` 10)]). split; [|split; [|split]].
      * change (dec_loop (S fuel) (n / 10) (digit_of (n `mod` 10) :: acc)
          = (ds ++ [digit_of (n `mod` 10)]) ++ acc).
        rewrite Hds, <-app_assoc. done.
      * by destruct ds.
      * apply Forall_app; split; [done|].
        apply Forall_cons; split; [by apply isdigit_of | apply Forall_nil_2].
      * unfold dec_value_from in *. rewrite foldl_app, Hv. cbn.
        rewrite digit_val_of by done. autorewrite with zlen.
        rewrite Z.add_0_l, Z.pow_add_r by (pose proof (zlen_nonneg ds); lia).
        pose proof (Z_div_mod_eq_full n 10). lia.
Qed.

Lemma fmt_u_spec n :
  0 ≤ n →
  fmt_u n ≠ [] ∧ Forall (λ c, isdigit c = true) (fmt_u n) ∧ dec_value (fmt_u n) = n.
Proof.
  intros Hn. unfold fmt_u.
  destruct (dec_loop_value (Z.to_nat (Z.log2 n)) n [] 0) as (ds & -> & Hne & Hall & Hv).
  { split; [done|]. rewrite Nat2Z.inj_succ, Z2Nat.id by apply Z.log2_nonneg.
    destruct (decide (n = 0)) as [->|]; [done|]. apply Z.log2_spec. lia. }
  rewrite app_nil_r. split_and!; [done..|]. unfold dec_value. lia.
Qed.

Lemma take_while_all f l : Forall (λ c, f c = true) l → take_while f l = l.
Proof. induction 1 as [|x l Hx _ IH]; cbn; [done|]. by rewrite Hx, IH. Qed.

Lemma drop_while_head f x l : f x = false → drop_while f (x :: l) = x :: l.
Proof. intros H. cbn. by rewrite H. Qed.

(** What [printf] writes for a number, [strtol] reads back. *)
Lemma strtol10_fmt_u n : 0 ≤ n ≤ LONG_MAX → strtol10 (fmt_u n) = n.
Proof.
  intros Hn. destruct (fmt_u_spec n) as (Hne & Hall & Hv); [lia|].
  destruct (fmt_u n) as [|c ds] eqn:E; [done|].
  pose proof (Forall_inv Hall) as Hc. unfold strtol10.
  rewrite drop_while_head by by apply isdigit_not_space.
  assert (c ≠ "-"%char ∧ c ≠ "+"%char) as [Hm Hp]
    by (split; intros ->; vm_compute in Hc; done).
  assert ((match c :: ds with
          | "-"%char :: t => (true, t)
          | "+"%char :: t => (false, t)
          | _ => (false, c :: ds)
          end) = (false, c :: ds)) as ->.
  { destruct c as [[] [] [] [] [] [] [] []]; done. }
  rewrite take_while_all by done. rewrite Hv.
  unfold clamp_long, LONG_MAX, LONG_MIN in *. lia.
Qed.

(** ** How long a number's text is *)
Lemma dec_loop_len f n acc k :
  0 ≤ n < 10 ^ k → 1 ≤ k → zlen (dec_loop f n acc) ≤ k + zlen acc.
Proof.
  revert n acc k. induction f as [|f IH]; intros n acc k Hn Hk; cbn [dec_loop]; [lia|].
  destruct (Z.eqb_spec (n / 10) 0) as [|E]; [autorewrite with zlen; lia|].
  assert (1 ≤ n / 10) by (pose proof (Z.div_pos n 10 ltac:(lia) ltac:(lia)); lia).
  assert (1 < k) by (destruct (decide (k = 1)) as [->|]; [|lia]; assert (n / 10 < 1) by (apply Z.div_lt_upper_bound; lia); lia).
  etrans; [apply (IH _ _ (k - 1)); [|lia]|autorewrite with zlen; lia].
  split; [lia|]. apply Z.div_lt_upper_bound; [lia|]. rewrite <-Z.pow_succ_r by lia. replace (Z.succ (k - 1)) with k by lia. lia.
Qed.

Lemma fmt_u_len n k : 0 ≤ n < 10 ^ k → 1 ≤ k → zlen (fmt_u n) ≤ k.
Proof. intros. unfold fmt_u. etrans; [by apply dec_loop_len|]. change (zlen (@nil ascii)) with 0. lia. Qed.

Lemma dec_value_bound ds v :
  Forall (λ c, isdigit c = true) ds → dec_value_from v ds < (v + 1) * 10 ^ zlen ds.
Proof.
  intros Hd. revert v. induction Hd as [|c ds Hc _ IH]; intros v; [change (v < (v + 1) * 1); lia|].
  unfold dec_value_from in *. cbn [foldl]. eapply Z.lt_le_trans; [apply IH|].
  rewrite zlen_cons, (Z.add_comm (zlen ds)), Z.pow_add_r by (pose proof (zlen_nonneg ds); lia).
  change (10 ^ 1) with 10. rewrite Z.mul_assoc. apply Z.mul_le_mono_nonneg_r; [apply Z.pow_nonneg; lia|].
  unfold isdigit in Hc. unfold digit_val. lia.
Qed.

Lemma fmt_u_len_ge n k : 10 ^ k ≤ n → 0 ≤ k → k < zlen (fmt_u n).
Proof.
  intros Hn Hk. assert (0 < 10 ^ k) by (apply Z.pow_pos_nonneg; lia).
  destruct (fmt_u_spec n) as (_ & Hd & Hv); [lia|]. pose proof (dec_value_bound _ 0 Hd) as Hb. unfold dec_value in Hv.
  rewrite Hv, Z.add_0_l, Z.mul_1_l in Hb. apply (Z.pow_lt_mono_r_iff 10); [lia|apply zlen_nonneg|lia].
Qed.

Lemma fmt_u_inj m n : 0 ≤ m → 0 ≤ n → fmt_u m = fmt_u n → m = n.
Proof. intros Hm Hn E. destruct (fmt_u_spec m Hm) as (_ & _ & <-). destruct (fmt_u_spec n Hn) as (_ & _ & <-). by rewrite E. Qed.
