(* ===== verification/Buffer.v ===== *)
(** * [net::Buffer] (net/buffer.h, net/buffer.cc, net/endian.h)

    The application-level buffer of a connection: one heap block cut in three
    by [reader_index_] and [writer_index_] (prependable, readable, writable).
    The block is modelled whole: [mem] holds every byte of the allocation, so
    its length is the vector's [capacity()], and [vsize] is the vector's
    [size()].  Pointers into the block are offsets from [begin()].  The
    abstraction is [contents], the readable bytes: a FIFO of bytes. *)

From stdpp Require Import base tactics list numbers strings sets.
From Stdlib Require Import ZArith Lia Ascii.
From S2P Require Import Prelude.
From S2P Require Import CString.

Record Buffer := MkBuffer {
  mem : bytes;
  vsize : Z;
  reader_index_ : Z;
  writer_index_ : Z;
}.

Definition kCheapPrepend : Z := 8.
Definition kInitialSize : Z := 1024.

(** [boost::container::vector<char>::max_size()]; a request beyond it throws. *)
Definition vector_max_size : Z := 2 ^ 63 - 1.

(** [vector<char>(n)]: [n] value-initialised elements, capacity [n]. *)
Definition vector_new (n : Z) : outcome bytes :=
  if n <=? vector_max_size then Ok (replicate (Z.to_nat n) "000"%char)
  else Fail (Exception "length_error").

Definition capacity (b : Buffer) : Z := zlen (mem b).

Definition readable_bytes (b : Buffer) : Z := writer_index_ b -# reader_index_ b.
Definition writable_bytes (b : Buffer) : Z := vsize b -# writer_index_ b.
Definition prependable_bytes (b : Buffer) : Z := reader_index_ b.

Definition Buffer_new (initial_size : Z) : outcome Buffer :=
  m ← vector_new (kCheapPrepend +# initial_size);
  let b := MkBuffer m (kCheapPrepend +# initial_size) kCheapPrepend kCheapPrepend in
  cassert "readable_bytes() == 0" (readable_bytes b =? 0);;
  cassert "writable_bytes() == initial_size" (writable_bytes b =? initial_size);;
  cassert "prependable_bytes() == kCheapPrepend" (prependable_bytes b =? kCheapPrepend);;
  Ok b.

(** [swap(x)]: both objects after the exchange. *)
Definition swap (this x : Buffer) : Buffer * Buffer := (x, this).

(** [Buffer(Buffer&& x)]: the new object and what is left in [x]. *)
Definition Buffer_move (x : Buffer) : Buffer * Buffer := swap (MkBuffer [] 0 0 0) x.

Definition Peek (b : Buffer) : Z := reader_index_ b.
Definition OffsetofWrite (b : Buffer) : Z := writer_index_ b.

(** The bytes in [[first, last)]. *)
Definition range (b : Buffer) (first last : Z) : bytes := zsub first (last - first) (mem b).

(** The readable bytes: the abstraction of a buffer. *)
Definition contents (b : Buffer) : bytes := range b (reader_index_ b) (writer_index_ b).

Definition FindCrlf (b : Buffer) : option Z :=
  let crlf := Peek b + std_search CRLF (range b (Peek b) (OffsetofWrite b)) in
  if crlf =? OffsetofWrite b then None else Some crlf.

Definition FindCrlf_from (b : Buffer) (start : Z) : outcome (option Z) :=
  cassert "Peek() <= start" (Peek b <=? start);;
  cassert "start <= OffsetofWrite()" (start <=? OffsetofWrite b);;
  let crlf := start + std_search CRLF (range b start (OffsetofWrite b)) in
  Ok (if crlf =? OffsetofWrite b then None else Some crlf).

(** [memchr(start, c, n)]. *)
Definition memchr (b : Buffer) (start : Z) (c : ascii) (n : Z) : option Z :=
  let i := std_find c (zsub start n (mem b)) in
  if i =? n then None else Some (start + i).

Definition FindEol (b : Buffer) : option Z := memchr b (Peek b) LF (readable_bytes b).

Definition FindEol_from (b : Buffer) (start : Z) : outcome (option Z) :=
  cassert "Peek() <= start" (Peek b <=? start);;
  cassert "start <= OffsetofWrite()" (start <=? OffsetofWrite b);;
  Ok (memchr b start LF (OffsetofWrite b - start)).

Definition RetrieveAll (b : Buffer) : Buffer :=
  MkBuffer (mem b) (vsize b) kCheapPrepend kCheapPrepend.

Definition Retrieve (len : Z) (b : Buffer) : outcome Buffer :=
  cassert "len <= readable_bytes()" (len <=? readable_bytes b);;
  if len <? readable_bytes b then
    Ok (MkBuffer (mem b) (vsize b) (reader_index_ b +# len) (writer_index_ b))
  else Ok (RetrieveAll b).

(** [end - Peek()] is a [ptrdiff_t], converted to [size_t]. *)
Definition RetrieveUntil (last : Z) (b : Buffer) : outcome Buffer :=
  cassert "Peek() <= end" (Peek b <=? last);;
  cassert "end <= OffsetofWrite()" (last <=? OffsetofWrite b);;
  Retrieve (wrapU 64 (last - Peek b)) b.

Definition RetrieveInt64 := Retrieve 8.
Definition RetrieveInt32 := Retrieve 4.
Definition RetrieveInt16 := Retrieve 2.
Definition RetrieveInt8 := Retrieve 1.

Definition RetrieveAsString (len : Z) (b : Buffer) : outcome (bytes * Buffer) :=
  cassert "len <= readable_bytes()" (len <=? readable_bytes b);;
  let result := zsub (Peek b) len (mem b) in
  b ← Retrieve len b;
  Ok (result, b).

Definition RetrieveAllAsString (b : Buffer) : outcome (bytes * Buffer) :=
  RetrieveAsString (readable_bytes b) b.

(** [Slice(Peek(), static_cast<int>(readable_bytes()))]: the length passes
    through a 32-bit [int] on its way back to [size_t]. *)
Definition ToSlice_size (b : Buffer) : Z := wrapU 64 (wrapS 32 (readable_bytes b)).
Definition ToSlice (b : Buffer) : outcome bytes :=
  if Peek b + ToSlice_size b <=? capacity b then Ok (zsub (Peek b) (ToSlice_size b) (mem b))
  else Fail (UndefinedBehaviour "slice longer than the buffer").

(** [std::copy(first, last, d_first)] within one array: [d_first] must not be
    in [[first, last)]. *)
Definition copy_within (first last d_first : Z) (m : bytes) : outcome bytes :=
  if (first <=? d_first) && (d_first <? last)
  then Fail (UndefinedBehaviour "std::copy: overlapping ranges")
  else Ok (zstore d_first (zsub first (last - first) m) m).

(** [MoveReadableFront(dst)] into another buffer ... *)
Definition MoveReadableFront (this dst : Buffer) : outcome Buffer :=
  cassert "kCheapPrepend <= reader_index_" (kCheapPrepend <=? reader_index_ this);;
  let readable := readable_bytes this in
  let m := zstore kCheapPrepend (range this (reader_index_ this) (writer_index_ this)) (mem dst) in
  let dst := MkBuffer m (vsize dst) kCheapPrepend (kCheapPrepend +# readable) in
  cassert "readable == dst.readable_bytes()" (readable =? readable_bytes dst);;
  Ok dst.

(** ... and onto itself, [MoveReadaleFront()]. *)
Definition MoveReadaleFront (b : Buffer) : outcome Buffer :=
  cassert "kCheapPrepend <= reader_index_" (kCheapPrepend <=? reader_index_ b);;
  let readable := readable_bytes b in
  m ← copy_within (reader_index_ b) (writer_index_ b) kCheapPrepend (mem b);
  let dst := MkBuffer m (vsize b) kCheapPrepend (kCheapPrepend +# readable) in
  cassert "readable == dst.readable_bytes()" (readable =? readable_bytes dst);;
  Ok dst.

Definition MakeSpace (len : Z) (b : Buffer) : outcome Buffer :=
  cassert "writable_bytes() < len" (writable_bytes b <? len);;
  if writable_bytes b +# prependable_bytes b <? len +# kCheapPrepend then
    if writer_index_ b +# len <? capacity b then
      (* buffer_.resize(writer_index_ + len, default_init): the new elements
         are whatever the block holds *)
      Ok (MkBuffer (mem b) (writer_index_ b +# len) (reader_index_ b) (writer_index_ b))
    else
      temp ← Buffer_new (writer_index_ b +# len);
      temp ← MoveReadableFront b temp;
      Ok (swap b temp).1
  else MoveReadaleFront b.

Definition EnsureWritableBytes (len : Z) (b : Buffer) : outcome Buffer :=
  b ← (if writable_bytes b <? len then MakeSpace len b else Ok b);
  cassert "writable_bytes() >= len" (len <=? writable_bytes b);;
  Ok b.

Definition HasWritten (len : Z) (b : Buffer) : outcome Buffer :=
  cassert "len <= writable_bytes()" (len <=? writable_bytes b);;
  Ok (MkBuffer (mem b) (vsize b) (reader_index_ b) (writer_index_ b +# len)).

Definition Unwrite (len : Z) (b : Buffer) : outcome Buffer :=
  cassert "len <= readable_bytes()" (len <=? readable_bytes b);;
  Ok (MkBuffer (mem b) (vsize b) (reader_index_ b) (writer_index_ b -# len)).

(** [std::copy(data, data + len, begin() + off)] from memory outside the block. *)
Definition copy_in (off : Z) (data : bytes) (b : Buffer) : Buffer :=
  MkBuffer (zstore off data (mem b)) (vsize b) (reader_index_ b) (writer_index_ b).

Definition Append (data : bytes) (b : Buffer) : outcome Buffer :=
  b ← EnsureWritableBytes (zlen data) b;
  HasWritten (zlen data) (copy_in (OffsetofWrite b) data b).

(** [Append(std::ifstream& is, long len)]: [ifs] holds the unread bytes of the
    stream; the second result is the stream after [is.read]. *)
Definition Append_ifstream (ifs : bytes) (len : Z) (b : Buffer) : outcome (Buffer * bytes) :=
  b ← EnsureWritableBytes (wrapU 64 len) b;
  let got := ztake len ifs in
  let b := copy_in (OffsetofWrite b) got b in
  if zlen got =? len then
    b ← HasWritten (wrapU 64 len) b;
    Ok (b, zdrop len ifs)
  else Ok (b, zdrop len ifs).

Definition Prepend (data : bytes) (b : Buffer) : outcome Buffer :=
  cassert "len <= prependable_bytes()" (zlen data <=? prependable_bytes b);;
  let r := reader_index_ b -# zlen data in
  Ok (MkBuffer (zstore r data (mem b)) (vsize b) r (writer_index_ b)).

Definition Shrink (reserve : Z) (b : Buffer) : outcome Buffer :=
  temp ← Buffer_new kInitialSize;
  temp ← EnsureWritableBytes (readable_bytes b +# reserve) temp;
  s ← ToSlice b;
  temp ← Append s temp;
  (* temp.buffer_.shrink_to_fit() *)
  let temp := MkBuffer (ztake (vsize temp) (mem temp)) (vsize temp)
                (reader_index_ temp) (writer_index_ temp) in
  Ok (swap b temp).1.

(** ** Integers in network byte order *)

(** The object representation of an [n]-byte integer on the little-endian host. *)
Fixpoint le_bytes (n : nat) (v : Z) : bytes :=
  match n with
  | O => []
  | S n => byte_of v :: le_bytes n (v / 256)
  end.
Fixpoint le_val (l : bytes) : Z :=
  match l with
  | [] => 0
  | c :: t => byte_val c + 256 * le_val t
  end.

(** [htobe16/32/64] and [be16/32/64toh] on that host: reverse the bytes. *)
Definition byte_swap (n : nat) (v : Z) : Z := le_val (rev (le_bytes n v)).
Definition HostToNetwork64 := byte_swap 8.
Definition HostToNetwork32 := byte_swap 4.
Definition HostToNetwork16 := byte_swap 2.
Definition NetworkToHost64 := byte_swap 8.
Definition NetworkToHost32 := byte_swap 4.
Definition NetworkToHost16 := byte_swap 2.

Definition AppendInt64 (x : Z) (b : Buffer) : outcome Buffer :=
  let be64 := wrapS 64 (HostToNetwork64 (wrapU 64 x)) in
  Append (le_bytes 8 (wrapU 64 be64)) b.
Definition AppendInt32 (x : Z) (b : Buffer) : outcome Buffer :=
  let be32 := wrapS 32 (HostToNetwork32 (wrapU 32 x)) in
  Append (le_bytes 4 (wrapU 32 be32)) b.
Definition AppendInt16 (x : Z) (b : Buffer) : outcome Buffer :=
  let be16 := wrapS 16 (HostToNetwork16 (wrapU 16 x)) in
  Append (le_bytes 2 (wrapU 16 be16)) b.
Definition AppendInt8 (x : Z) (b : Buffer) : outcome Buffer :=
  Append (le_bytes 1 (wrapU 8 x)) b.

Definition PeekInt64 (b : Buffer) : outcome Z :=
  cassert "readable_bytes() >= sizeof(int64_t)" (8 <=? readable_bytes b);;
  let be64 := wrapS 64 (le_val (zsub (Peek b) 8 (mem b))) in
  Ok (wrapS 64 (NetworkToHost64 (wrapU 64 be64))).
Definition PeekInt32 (b : Buffer) : outcome Z :=
  cassert "readable_bytes() >= sizeof(int32_t)" (4 <=? readable_bytes b);;
  let be32 := wrapS 32 (le_val (zsub (Peek b) 4 (mem b))) in
  Ok (wrapS 32 (NetworkToHost32 (wrapU 32 be32))).
Definition PeekInt16 (b : Buffer) : outcome Z :=
  cassert "readable_bytes() >= sizeof(int16_t)" (2 <=? readable_bytes b);;
  let be16 := wrapS 16 (le_val (zsub (Peek b) 2 (mem b))) in
  Ok (wrapS 16 (NetworkToHost16 (wrapU 16 be16))).
Definition PeekInt8 (b : Buffer) : outcome Z :=
  cassert "readable_bytes() >= sizeof(int8_t)" (1 <=? readable_bytes b);;
  Ok (wrapS 8 (le_val (zsub (Peek b) 1 (mem b)))).

Definition ReadInt64 (b : Buffer) : outcome (Z * Buffer) :=
  result ← PeekInt64 b; b ← RetrieveInt64 b; Ok (result, b).
Definition ReadInt32 (b : Buffer) : outcome (Z * Buffer) :=
  result ← PeekInt32 b; b ← RetrieveInt32 b; Ok (result, b).
Definition ReadInt16 (b : Buffer) : outcome (Z * Buffer) :=
  result ← PeekInt16 b; b ← RetrieveInt16 b; Ok (result, b).
Definition ReadInt8 (b : Buffer) : outcome (Z * Buffer) :=
  result ← PeekInt8 b; b ← RetrieveInt8 b; Ok (result, b).

Definition PrependInt64 (x : Z) (b : Buffer) : outcome Buffer :=
  let be64 := wrapS 64 (HostToNetwork64 (wrapU 64 x)) in
  Prepend (le_bytes 8 (wrapU 64 be64)) b.
Definition PrependInt32 (x : Z) (b : Buffer) : outcome Buffer :=
  let be32 := wrapS 32 (HostToNetwork32 (wrapU 32 x)) in
  Prepend (le_bytes 4 (wrapU 32 be32)) b.
Definition PrependInt16 (x : Z) (b : Buffer) : outcome Buffer :=
  let be16 := wrapS 16 (HostToNetwork16 (wrapU 16 x)) in
  Prepend (le_bytes 2 (wrapU 16 be16)) b.
Definition PrependInt8 (x : Z) (b : Buffer) : outcome Buffer :=
  Prepend (le_bytes 1 (wrapU 8 x)) b.

(** ** Reading from a file descriptor *)

(** What [readv] reports: an error number, or the bytes it scattered. *)
Inductive readv_result :=
| ReadvError (errno : Z)
| ReadvOk (data : bytes).

Definition sizeof_extrabuf : Z := 65536.

(** The number of bytes the [iovec]s passed to [readv] can take. *)
Definition iov_capacity (b : Buffer) : Z :=
  if writable_bytes b <? sizeof_extrabuf
  then writable_bytes b + sizeof_extrabuf else writable_bytes b.

(** [ReadFromFd(fd, &old_errno)]: the return value, [*old_errno] when it is
    set, and the buffer. *)
Definition ReadFromFd (r : readv_result) (b : Buffer) : outcome (Z * option Z * Buffer) :=
  let writable := writable_bytes b in
  match r with
  | ReadvError e => Ok (-1, Some e, b)
  | ReadvOk data =>
      let n := zlen data in
      if n <=? writable then
        let b := copy_in (writer_index_ b) data b in
        Ok (n, None, MkBuffer (mem b) (vsize b) (reader_index_ b) (writer_index_ b +# n))
      else
        let b := copy_in (writer_index_ b) (ztake writable data) b in
        let extrabuf := zdrop writable data in
        b ← Append extrabuf (MkBuffer (mem b) (vsize b) (reader_index_ b) (vsize b));
        Ok (n, None, b)
  end.

(** ** The representation invariant *)

Record wf (b : Buffer) : Prop := MkWf {
  wf_reader : 0 ≤ reader_index_ b;
  wf_readable : reader_index_ b ≤ writer_index_ b;
  wf_writable : writer_index_ b ≤ vsize b;
  wf_vector : vsize b ≤ capacity b;
  wf_max : capacity b ≤ vector_max_size;
}.

(** The indices leave the reserved space in front free: growing relies on it. *)
Definition cheap (b : Buffer) : Prop := kCheapPrepend ≤ reader_index_ b.

(** A vector that holds [n] more bytes stays below [max_size()]. *)
Definition room (b : Buffer) (n : Z) : Prop :=
  kCheapPrepend + writer_index_ b + n ≤ vector_max_size.

#[global] Instance wf_dec b : Decision (wf b).
Proof.
  refine (cast_if (decide (0 ≤ reader_index_ b ∧ reader_index_ b ≤ writer_index_ b ∧
    writer_index_ b ≤ vsize b ∧ vsize b ≤ capacity b ∧ capacity b ≤ vector_max_size)));
  abstract (first [split; tauto | intros []; tauto]).
Defined.

Ltac buf :=
  unfold readable_bytes, writable_bytes, prependable_bytes, Peek, OffsetofWrite, RetrieveAll, copy_in,
    cheap, room, kCheapPrepend, kInitialSize, vector_max_size, sizeof_extrabuf in *;
  repeat match goal with H : wf _ |- _ => destruct H end;
  unfold capacity, vector_max_size in *;
  cbn [mem vsize reader_index_ writer_index_] in *.

(** Close a linear goal about indices. *)
Ltac buf_lia := buf; autorewrite with size zlen in *; lia.

(** A test on indices whose result is known. *)
Ltac btest :=
  match goal with
  | |- context [cassert ?c ?b] =>
      let H := fresh in
      assert (b = true) as H by buf_lia;
      rewrite H; clear H; cbn [cassert mbind outcome_bind]
  | |- context [if ?b then _ else _] =>
      let H := fresh in
      first
        [ assert (b = true) as H by buf_lia
        | assert (b = false) as H by buf_lia ];
      rewrite H; clear H; cbn [mbind outcome_bind]
  end.

Lemma readable_bytes_wf b : wf b → readable_bytes b = writer_index_ b - reader_index_ b.
Proof. intros. buf_lia. Qed.

Lemma writable_bytes_wf b : wf b → writable_bytes b = vsize b - writer_index_ b.
Proof. intros. buf_lia. Qed.

#[export] Hint Rewrite readable_bytes_wf writable_bytes_wf using assumption : size.

Lemma zlen_contents b : wf b → zlen (contents b) = readable_bytes b.
Proof.
  intros. rewrite readable_bytes_wf by done. unfold contents, range.
  buf. rewrite zlen_zsub; lia.
Qed.

Lemma Buffer_new_spec n :
  0 ≤ n → kCheapPrepend + n ≤ vector_max_size →
  ∃ b, Buffer_new n = Ok b ∧ wf b ∧ cheap b ∧ contents b = [] ∧
       writable_bytes b = n ∧ writer_index_ b = kCheapPrepend ∧ vsize b = kCheapPrepend + n.
Proof.
  intros Hn Hm. unfold Buffer_new, vector_new.
  rewrite add64_small by buf_lia. btest.
  do 3 btest. eexists; split; [done|].
  split; [constructor; buf; rewrite ?zlen_replicate; lia|].
  split; [done|]. split; [by apply zsub_0|]. by split; [buf_lia|].
Qed.

Lemma RetrieveAll_spec b :
  wf b → kCheapPrepend ≤ vsize b →
  wf (RetrieveAll b) ∧ cheap (RetrieveAll b) ∧ contents (RetrieveAll b) = [].
Proof.
  intros. split; [constructor; buf; lia|]. split; [done|]. by apply zsub_0.
Qed.

Lemma Retrieve_spec n b :
  wf b → kCheapPrepend ≤ vsize b → 0 ≤ n ≤ readable_bytes b →
  ∃ b', Retrieve n b = Ok b' ∧ wf b' ∧ vsize b' = vsize b ∧ (cheap b → cheap b') ∧
        contents b' = zdrop n (contents b) ∧ writer_index_ b' ≤ Z.max (writer_index_ b) kCheapPrepend.
Proof.
  intros Hwf Hs Hn. unfold Retrieve. btest. rewrite readable_bytes_wf in Hn |- * by done.
  destruct (Z.ltb_spec n (writer_index_ b - reader_index_ b)).
  - eexists; split; [done|]. rewrite add64_small by buf_lia.
    split; [constructor; buf; lia|]. split; [done|]. split; [buf; lia|].
    split; [|cbn; lia]. unfold contents, range; cbn.
    rewrite zdrop_zsub by (buf; lia). f_equal. lia.
  - eexists; split; [done|]. destruct (RetrieveAll_spec b) as (?&?&->); [done..|].
    do 3 (split; [done|]). split; [|cbn; lia]. symmetry. apply zdrop_all.
    rewrite zlen_contents, readable_bytes_wf by done. lia.
Qed.

Lemma RetrieveUntil_spec p b :
  wf b → kCheapPrepend ≤ vsize b → reader_index_ b ≤ p ≤ writer_index_ b →
  ∃ b', RetrieveUntil p b = Ok b' ∧ wf b' ∧ vsize b' = vsize b ∧ (cheap b → cheap b') ∧
        contents b' = zdrop (p - reader_index_ b) (contents b) ∧
        writer_index_ b' ≤ Z.max (writer_index_ b) kCheapPrepend.
Proof.
  intros. unfold RetrieveUntil. do 2 btest. rewrite wrapU_small by buf_lia.
  apply Retrieve_spec; [done..|]. rewrite readable_bytes_wf by done. unfold Peek. lia.
Qed.

Lemma RetrieveAsString_spec n b :
  wf b → kCheapPrepend ≤ vsize b → 0 ≤ n ≤ readable_bytes b →
  ∃ b', RetrieveAsString n b = Ok (ztake n (contents b), b') ∧ wf b' ∧ vsize b' = vsize b ∧
        (cheap b → cheap b') ∧ contents b' = zdrop n (contents b) ∧
        writer_index_ b' ≤ Z.max (writer_index_ b) kCheapPrepend.
Proof.
  intros Hwf Hs Hn. unfold RetrieveAsString. btest.
  destruct (Retrieve_spec n b) as (b' & -> & ?); [done..|].
  exists b'. cbn. split; [|done]. do 2 f_equal.
  rewrite readable_bytes_wf in Hn by done.
  unfold contents, range, Peek. rewrite ztake_zsub by (buf; lia). done.
Qed.

(** Growing keeps the readable bytes and makes room. *)
Lemma MoveReadaleFront_spec b :
  wf b → cheap b → kCheapPrepend < reader_index_ b →
  ∃ b', MoveReadaleFront b = Ok b' ∧ wf b' ∧ cheap b' ∧ contents b' = contents b ∧
        vsize b' = vsize b ∧ writer_index_ b' = kCheapPrepend + readable_bytes b.
Proof.
  intros Hwf Hc Hlt. unfold MoveReadaleFront. btest. unfold copy_within. btest.
  rewrite readable_bytes_wf by done.
  set (d := zsub _ _ _).
  assert (zlen d = writer_index_ b - reader_index_ b) as Hd
    by (subst d; rewrite zlen_zsub; buf; lia).
  rewrite add64_small by buf_lia.
  assert (∀ m s r w, readable_bytes (MkBuffer m s r w) = w -# r) as Hr by done.
  rewrite Hr, sub64_small by buf_lia.
  replace (_ =? _) with true by lia. cbn [cassert mbind outcome_bind].
  eexists; split; [done|]. cbn.
  split; [constructor; buf; rewrite ?zlen_zstore; lia|]. split; [done|].
  split; [|split; [done|lia]].
  unfold contents, range; cbn.
  replace (kCheapPrepend + (writer_index_ b - reader_index_ b) - kCheapPrepend)
    with (zlen d) by lia.
  apply zsub_zstore_eq; buf; lia.
Qed.

Lemma MoveReadableFront_spec b dst :
  wf b → wf dst → cheap b → kCheapPrepend + readable_bytes b ≤ vsize dst →
  ∃ b', MoveReadableFront b dst = Ok b' ∧ wf b' ∧ cheap b' ∧ contents b' = contents b ∧
        vsize b' = vsize dst ∧ writer_index_ b' = kCheapPrepend + readable_bytes b.
Proof.
  intros Hwf Hwd Hc Hfit. unfold MoveReadableFront. do 2 btest.
  rewrite readable_bytes_wf in Hfit |- * by done.
  set (d := range _ _ _).
  assert (zlen d = writer_index_ b - reader_index_ b) as Hd
    by (subst d; unfold range; rewrite zlen_zsub; buf; lia).
  rewrite add64_small by (destruct Hwd; buf_lia).
  eexists; split; [done|]. cbn.
  split; [destruct Hwd; constructor; buf; rewrite ?zlen_zstore; lia|]. split; [done|].
  split; [|split; [done|lia]].
  unfold contents, range; cbn.
  replace (kCheapPrepend + (writer_index_ b - reader_index_ b) - kCheapPrepend)
    with (zlen d) by lia.
  apply zsub_zstore_eq; destruct Hwd; buf; lia.
Qed.

Lemma MakeSpace_spec n b :
  wf b → cheap b → room b n → writable_bytes b < n →
  ∃ b', MakeSpace n b = Ok b' ∧ wf b' ∧ cheap b' ∧ contents b' = contents b ∧
        n ≤ vsize b' - writer_index_ b' ∧ writer_index_ b' ≤ writer_index_ b ∧
        kCheapPrepend ≤ vsize b'.
Proof.
  intros Hwf Hc Hroom Hlt. unfold MakeSpace. btest.
  rewrite writable_bytes_wf in * by done.
  unfold prependable_bytes. rewrite !add64_small by buf_lia.
  destruct (Z.ltb_spec (vsize b - writer_index_ b + reader_index_ b) (n + kCheapPrepend)).
  - destruct (Z.ltb_spec (writer_index_ b + n) (capacity b)).
    + eexists; split; [done|]. split; [constructor; buf; lia|].
      split; [done|]. split; [done|]. buf; lia.
    + destruct (Buffer_new_spec (writer_index_ b + n)) as (t & -> & Hwt & _ & _ & _ & _ & Hvt);
        [buf; lia..|]. cbn [mbind outcome_bind].
      destruct (MoveReadableFront_spec b t) as (t' & -> & Hw' & ? & ? & Hv' & Hi');
        [done..|rewrite readable_bytes_wf by done; buf; lia|].
      cbn [mbind outcome_bind]. eexists; split; [done|]. cbn.
      rewrite readable_bytes_wf in Hi' by done.
      do 3 (split; [done|]). buf; lia.
  - destruct (MoveReadaleFront_spec b) as (b' & -> & Hw' & ? & ? & Hv' & Hi');
      [done..|buf; lia|]. eexists; split; [done|].
    rewrite readable_bytes_wf in Hi' by done. do 3 (split; [done|]). buf; lia.
Qed.

Lemma EnsureWritableBytes_spec n b :
  wf b → 0 ≤ n → kCheapPrepend ≤ vsize b → (n ≤ writable_bytes b ∨ cheap b ∧ room b n) →
  ∃ b', EnsureWritableBytes n b = Ok b' ∧ wf b' ∧ (cheap b → cheap b') ∧
        contents b' = contents b ∧ n ≤ vsize b' - writer_index_ b' ∧
        writer_index_ b' ≤ writer_index_ b ∧ kCheapPrepend ≤ vsize b'.
Proof.
  intros Hwf Hn Hs Hor. unfold EnsureWritableBytes.
  destruct (Z.ltb_spec (writable_bytes b) n) as [Hlt|Hge].
  - destruct Hor as [?|[Hc Hroom]]; [lia|].
    destruct (MakeSpace_spec n b) as (b' & -> & Hw' & ? & ? & ? & ? & ?); [done..|].
    cbn [mbind outcome_bind]. exists b'.
    rewrite writable_bytes_wf by done. replace (_ <=? _) with true by lia. done.
  - cbn [mbind outcome_bind]. exists b.
    rewrite writable_bytes_wf in * by done. replace (_ <=? _) with true by lia. done.
Qed.

Lemma copy_in_contents d b :
  wf b → zlen d ≤ vsize b - writer_index_ b →
  wf (copy_in (writer_index_ b) d b) ∧ contents (copy_in (writer_index_ b) d b) = contents b ∧
  contents (MkBuffer (mem (copy_in (writer_index_ b) d b)) (vsize b) (reader_index_ b)
              (writer_index_ b + zlen d)) = contents b ++ d ∧
  wf (MkBuffer (mem (copy_in (writer_index_ b) d b)) (vsize b) (reader_index_ b)
        (writer_index_ b + zlen d)).
Proof.
  intros Hwf Hd. pose proof (zlen_nonneg d).
  assert (zlen (zstore (writer_index_ b) d (mem b)) = zlen (mem b)) as Hl
    by (rewrite zlen_zstore; buf; lia).
  split; [constructor; buf; rewrite ?Hl; lia|]. split.
  { unfold contents, range; cbn. apply zsub_zstore_before; buf; lia. }
  split; [|constructor; buf; rewrite ?Hl; lia].
  unfold contents, range; cbn.
  replace (writer_index_ b + zlen d - reader_index_ b)
    with ((writer_index_ b - reader_index_ b) + zlen d) by lia.
  rewrite zsub_app by (buf; lia). f_equal.
  - apply zsub_zstore_before; buf; lia.
  - replace (reader_index_ b + (writer_index_ b - reader_index_ b))
      with (writer_index_ b) by lia. apply zsub_zstore_eq; buf; lia.
Qed.

Lemma Append_spec d b :
  wf b → kCheapPrepend ≤ vsize b →
  (zlen d ≤ writable_bytes b ∨ cheap b ∧ room b (zlen d)) →
  ∃ b', Append d b = Ok b' ∧ wf b' ∧ (cheap b → cheap b') ∧ kCheapPrepend ≤ vsize b' ∧
        contents b' = contents b ++ d ∧ writer_index_ b' ≤ writer_index_ b + zlen d.
Proof.
  intros Hwf Hs Hor. unfold Append. pose proof (zlen_nonneg d).
  destruct (EnsureWritableBytes_spec (zlen d) b) as (b1 & -> & Hw1 & Hc1 & Hcon & Hfit & Hle & Hs1);
    [done..|]. cbn [mbind outcome_bind]. unfold HasWritten, OffsetofWrite.
  destruct (copy_in_contents d b1) as (Hw2 & Hcon2 & Hcon3 & Hw3); [done|lia|].
  rewrite writable_bytes_wf by done. cbn [vsize copy_in writer_index_ reader_index_ mem].
  replace (_ <=? _) with true by lia. cbn [cassert mbind outcome_bind].
  rewrite add64_small by (buf; lia).
  eexists; split; [done|]. split; [done|]. split; [exact Hc1|].
  split; [done|]. cbn [writer_index_]. split; [|lia]. by rewrite <-Hcon, <-Hcon3.
Qed.

(** Growing never brings the reader nearer to the end of the block. *)
Definition no_tighter (b b' : Buffer) : Prop :=
  reader_index_ b' ≤ reader_index_ b ∧ capacity b ≤ capacity b'.

Lemma no_tighter_trans b1 b2 b3 : no_tighter b1 b2 → no_tighter b2 b3 → no_tighter b1 b3.
Proof. unfold no_tighter. lia. Qed.

Lemma copy_in_no_tighter d b w :
  wf b → zlen d ≤ vsize b - writer_index_ b →
  no_tighter b (MkBuffer (mem (copy_in (writer_index_ b) d b)) (vsize b) (reader_index_ b) w).
Proof.
  intros [] ?. unfold no_tighter, capacity in *. cbn [mem copy_in reader_index_].
  rewrite zlen_zstore; lia.
Qed.

Lemma MakeSpace_no_tighter n b b' :
  wf b → cheap b → room b n → 0 ≤ n → MakeSpace n b = Ok b' → no_tighter b b'.
Proof.
  intros Hwf Hc Hr Hn. unfold MakeSpace. intros H. inv_ok.
  rewrite writable_bytes_wf in * by done. unfold prependable_bytes in *.
  rewrite !add64_small in * by (buf; lia).
  destruct (Z.ltb_spec (vsize b - writer_index_ b + reader_index_ b) (n + kCheapPrepend)).
  - destruct (Z.ltb_spec (writer_index_ b + n) (capacity b)); inv_ok; [done|].
    destruct (Buffer_new_spec (writer_index_ b + n)) as (t & Ht & [] & _ & _ & _ & _ & Hvt);
      [buf; lia..|]. simplify_eq. rewrite Ht in *. simplify_eq.
    unfold MoveReadableFront in *. inv_ok. unfold no_tighter, capacity; cbn [swap fst mem reader_index_].
    split; [done|].
    assert (zlen (range b (reader_index_ b) (writer_index_ b)) = writer_index_ b - reader_index_ b)
      by (destruct Hwf; unfold capacity, range in *; rewrite zlen_zsub; lia).
    rewrite zlen_zstore; unfold capacity in *; buf; lia.
  - unfold MoveReadaleFront, copy_within in *. inv_ok.
    destruct (_ && _); inv_ok. unfold no_tighter, capacity; cbn [mem reader_index_].
    split; [done|]. rewrite zlen_zstore; [done|buf; lia|]. rewrite zlen_zsub; buf; lia.
Qed.

Lemma Append_no_tighter d b b' :
  wf b → cheap b → kCheapPrepend ≤ vsize b → room b (zlen d) → Append d b = Ok b' → no_tighter b b'.
Proof.
  intros Hwf Hc Hs Hr. pose proof (zlen_nonneg d) as Hz. unfold Append. intros H.
  apply bind_Ok in H as (b1 & He & H).
  destruct (EnsureWritableBytes_spec (zlen d) b) as (b1' & He' & Hw1 & _ & _ & Hfit & _);
    [auto..|]. rewrite He' in He. injection He as ->.
  apply (no_tighter_trans _ b1).
  - unfold EnsureWritableBytes in He'. inv_ok.
    destruct (_ <? _); [by eapply MakeSpace_no_tighter | by inv_ok].
  - unfold HasWritten in H. inv_ok. by apply (copy_in_no_tighter d b1).
Qed.

Lemma ReadFromFd_no_tighter d b n e b' :
  wf b → cheap b → kCheapPrepend ≤ vsize b → room b (zlen d) →
  ReadFromFd (ReadvOk d) b = Ok (n, e, b') → no_tighter b b'.
Proof.
  intros Hwf Hc Hs Hr. unfold ReadFromFd. pose proof (zlen_nonneg d).
  rewrite writable_bytes_wf by done.
  destruct (Z.leb_spec (zlen d) (vsize b - writer_index_ b)); intros H'; inv_ok.
  - by apply copy_in_no_tighter.
  - match goal with H : Append ?e ?b0 = Ok ?x |- _ =>
      rename H into Ha; set (b0' := b0) in *; rename x into b1 end.
    simplify_eq. set (w := vsize b - writer_index_ b) in *.
    assert (zlen (ztake w d) = w) as Ht by (subst w; rewrite zlen_ztake; buf; lia).
    assert (no_tighter b b0') as Hnt by (apply (copy_in_no_tighter (ztake w d) b (vsize b)); [done|lia]).
    apply (no_tighter_trans _ b0'); [done|].
    destruct (copy_in_contents (ztake w d) b) as (_ & _ & _ & Hw'); [done|lia|].
    rewrite Ht in Hw'. replace (writer_index_ b + w) with (vsize b) in Hw' by (subst w; lia).
    eapply Append_no_tighter; [exact Hw'|done|done| |exact Ha].
    unfold room in *. subst b0'. cbn [writer_index_ vsize copy_in].
    rewrite zlen_zdrop by (subst w; buf; lia). subst w. lia.
Qed.

(** What callers rely on: a buffer that can grow. *)
Record good (b : Buffer) : Prop := MkGood {
  good_wf : wf b;
  good_cheap : cheap b;
  good_size : kCheapPrepend ≤ vsize b;
}.
#[export] Hint Resolve good_wf good_cheap good_size : core.

Lemma Buffer_new_good n :
  0 ≤ n → kCheapPrepend + n ≤ vector_max_size →
  ∃ b, Buffer_new n = Ok b ∧ good b ∧ contents b = [] ∧ writable_bytes b = n ∧
       writer_index_ b = kCheapPrepend.
Proof.
  intros Hn Hm. destruct (Buffer_new_spec n) as (b & -> & ? & ? & ? & ? & ? & Hv); [done..|].
  exists b. split; [done|]. split; [|done]. constructor; [done..|]. rewrite Hv. lia.
Qed.

Lemma Append_good d b :
  good b → room b (zlen d) →
  ∃ b', Append d b = Ok b' ∧ good b' ∧ contents b' = contents b ++ d ∧
        writer_index_ b' ≤ writer_index_ b + zlen d.
Proof.
  intros Hg Hr. destruct (Append_spec d b) as (b' & -> & ? & Hc & ? & ? & ?); [auto..|].
  exists b'. split; [done|]. split; [constructor; auto|done].
Qed.

Lemma Retrieve_good n b :
  good b → 0 ≤ n ≤ zlen (contents b) →
  ∃ b', Retrieve n b = Ok b' ∧ good b' ∧ contents b' = zdrop n (contents b) ∧
        writer_index_ b' ≤ writer_index_ b.
Proof.
  intros Hg Hn. rewrite zlen_contents in Hn by auto.
  destruct (Retrieve_spec n b) as (b' & -> & ? & Hv & ? & ? & ?); [auto..|].
  exists b'. split; [done|]. split; [constructor; [auto..|rewrite Hv; auto]|].
  split; [done|]. destruct Hg as [[] ? ?]. buf. lia.
Qed.

Lemma RetrieveUntil_good p b :
  good b → reader_index_ b ≤ p ≤ writer_index_ b →
  ∃ b', RetrieveUntil p b = Ok b' ∧ good b' ∧
        contents b' = zdrop (p - reader_index_ b) (contents b) ∧
        writer_index_ b' ≤ writer_index_ b.
Proof.
  intros Hg Hp. destruct (RetrieveUntil_spec p b) as (b' & -> & ? & Hv & ? & ? & ?); [auto..|].
  exists b'. split; [done|]. split; [constructor; [auto..|rewrite Hv; auto]|].
  split; [done|]. destruct Hg as [[] ? ?]. buf. lia.
Qed.

Lemma RetrieveAllAsString_good b :
  good b → ∃ b', RetrieveAllAsString b = Ok (contents b, b') ∧ good b' ∧ contents b' = [] ∧
                 writer_index_ b' ≤ writer_index_ b.
Proof.
  intros Hg. unfold RetrieveAllAsString.
  pose proof (zlen_contents b (good_wf _ Hg)) as Hz. pose proof (zlen_nonneg (contents b)).
  destruct (RetrieveAsString_spec (readable_bytes b) b) as (b' & -> & ? & Hv & ? & Hc & ?);
    [auto..|lia|].
  rewrite <-Hz in *. exists b'. split; [by rewrite ztake_all|].
  split; [constructor; [auto..|rewrite Hv; auto]|].
  split; [by rewrite Hc, zdrop_all|]. destruct Hg as [[] ? ?]. buf. lia.
Qed.

Lemma FindCrlf_spec b :
  wf b →
  FindCrlf b =
    (if std_search CRLF (contents b) =? zlen (contents b) then None
     else Some (reader_index_ b + std_search CRLF (contents b))).
Proof.
  intros Hwf. unfold FindCrlf. fold (contents b).
  rewrite zlen_contents, readable_bytes_wf by done. unfold contents at 1 2, Peek, OffsetofWrite.
  change (range b (reader_index_ b) (writer_index_ b)) with (contents b).
  destruct (Z.eqb_spec (std_search CRLF (contents b)) (writer_index_ b - reader_index_ b)).
  - by replace (_ =? _) with true by lia.
  - by replace (_ =? _) with false by lia.
Qed.

Lemma ReadFromFd_good d b :
  good b → room b (zlen d) →
  ∃ b', ReadFromFd (ReadvOk d) b = Ok (zlen d, None, b') ∧ good b' ∧
        contents b' = contents b ++ d ∧ writer_index_ b' ≤ writer_index_ b + zlen d.
Proof.
  intros [Hwf Hc Hs] Hr. unfold ReadFromFd. pose proof (zlen_nonneg d).
  rewrite writable_bytes_wf by done.
  destruct (Z.leb_spec (zlen d) (vsize b - writer_index_ b)).
  - destruct (copy_in_contents d b) as (? & ? & Hcon & Hw'); [done|lia|].
    cbn [vsize copy_in writer_index_ reader_index_ mem].
    rewrite add64_small by (buf; lia). eexists; split; [done|].
    split; [by constructor|]. split; [done|]. cbn. lia.
  - assert (zlen (ztake (vsize b - writer_index_ b) d) = vsize b - writer_index_ b) as Ht
      by (rewrite zlen_ztake; buf; lia).
    destruct (copy_in_contents (ztake (vsize b - writer_index_ b) d) b) as (? & ? & Hcon & Hw');
      [done|lia|].
    rewrite Ht in Hcon, Hw'. rewrite Zplus_minus in Hcon, Hw'.
    cbn [vsize copy_in writer_index_ reader_index_ mem] in *.
    edestruct (Append_good (zdrop (vsize b - writer_index_ b) d)) as (b' & -> & Hg & Hcon' & Hle);
      [constructor; [exact Hw'|done..]| |].
    { unfold room in *. cbn [writer_index_]. rewrite zlen_zdrop by (buf; lia). lia. }
    cbn [mbind outcome_bind]. exists b'. split; [done|]. split; [done|].
    rewrite zlen_zdrop in Hle by (buf; lia). cbn [writer_index_] in Hle. split; [|lia].
    rewrite Hcon', Hcon, <-app_assoc. by rewrite ztake_zdrop.
Qed.

Lemma Prepend_spec d b :
  wf b → zlen d ≤ reader_index_ b →
  ∃ b', Prepend d b = Ok b' ∧ wf b' ∧ contents b' = d ++ contents b ∧
        vsize b' = vsize b ∧ reader_index_ b' = reader_index_ b - zlen d.
Proof.
  intros Hwf Hd. unfold Prepend. pose proof (zlen_nonneg d). btest.
  rewrite sub64_small by (buf; lia).
  set (r := reader_index_ b - zlen d).
  assert (zlen (zstore r d (mem b)) = zlen (mem b)) as Hl
    by (subst r; rewrite zlen_zstore; buf; lia).
  eexists; split; [done|]. split; [subst r; constructor; buf; rewrite ?Hl; lia|].
  split; [|done]. unfold contents, range; cbn [mem reader_index_ writer_index_].
  replace (writer_index_ b - r) with (zlen d + (writer_index_ b - reader_index_ b))
    by (subst r; lia).
  rewrite zsub_app by (subst r; buf; lia). f_equal.
  - apply zsub_zstore_eq; subst r; buf; lia.
  - replace (r + zlen d) with (reader_index_ b) by (subst r; lia).
    apply zsub_zstore_after; subst r; buf; lia.
Qed.

Lemma Shrink_good reserve b :
  good b → 0 ≤ reserve → readable_bytes b < 2 ^ 31 →
  kCheapPrepend + kCheapPrepend + readable_bytes b + reserve ≤ vector_max_size →
  ∃ b', Shrink reserve b = Ok b' ∧ good b' ∧ contents b' = contents b ∧
        writer_index_ b' ≤ writer_index_ b.
Proof.
  intros [Hwf Hc Hs] Hres H31 Hmax. unfold Shrink.
  assert (0 ≤ readable_bytes b) by (rewrite readable_bytes_wf by done; buf; lia).
  destruct (Buffer_new_good kInitialSize) as (t & -> & Hg & Hcon & Hwr & Hwi);
    [done|done|]. cbn [mbind outcome_bind].
  rewrite add64_small by (unfold vector_max_size, kCheapPrepend in *; lia).
  destruct (EnsureWritableBytes_spec (readable_bytes b + reserve) t)
    as (t1 & -> & Hw1 & Hc1 & Hcon1 & Hfit1 & Hle1 & Hs1);
    [auto|lia|auto|right; split; [auto|unfold room; rewrite Hwi; lia]|].
  cbn [mbind outcome_bind]. unfold ToSlice, ToSlice_size.
  rewrite wrapS_small, wrapU_small by lia.
  replace (_ <=? _) with true
    by (rewrite readable_bytes_wf by done; buf; symmetry; apply Z.leb_le; lia).
  cbn [mbind outcome_bind].
  assert (zsub (Peek b) (readable_bytes b) (mem b) = contents b) as ->
    by (unfold contents, range; by rewrite readable_bytes_wf).
  destruct (Append_spec (contents b) t1) as (t2 & -> & Hw2 & Hc2 & Hs2 & Hcon2 & Hle2);
    [done|done|left; rewrite zlen_contents, writable_bytes_wf by done; lia|].
  cbn [mbind outcome_bind swap fst]. eexists; split; [done|].
  rewrite Hcon1, Hcon, app_nil_l in Hcon2. rewrite zlen_contents in Hle2 by done.
  rewrite Hwi in Hle1.
  split; [constructor|split].
  - destruct Hw2 as [? ? ? Hv2 ?]. constructor; cbn [reader_index_ writer_index_ vsize]; [done..| |].
    + unfold capacity in *; cbn [mem]. rewrite zlen_ztake; lia.
    + unfold capacity in *; cbn [mem]. rewrite zlen_ztake; lia.
  - apply Hc2, Hc1. auto.
  - done.
  - rewrite <-Hcon2. unfold contents, range, zsub; cbn [mem reader_index_ writer_index_].
    destruct Hw2 as [? ? ? Hv2 ?]. unfold capacity in *.
    rewrite zdrop_ztake by lia. apply ztake_ztake; lia.
  - rewrite (readable_bytes_wf b) in Hle2 by done. unfold cheap in Hc. cbn [writer_index_]. lia.
Qed.

(** ** Byte order *)

Lemma length_le_bytes n v : length (le_bytes n v) = n.
Proof. revert v. induction n; intros; cbn; auto. Qed.

Lemma le_val_le_bytes n v : le_val (le_bytes n v) = v `mod` 2 ^ (8 * Z.of_nat n).
Proof.
  revert v. induction n as [|n IH]; intros v; cbn [le_bytes le_val].
  - by rewrite Z.mod_1_r.
  - rewrite byte_val_of, IH.
    replace (2 ^ (8 * Z.of_nat (S n))) with (256 * 2 ^ (8 * Z.of_nat n)).
    + rewrite Z.rem_mul_r by lia. lia.
    + rewrite Nat2Z.inj_succ, Z.mul_succ_r, Z.pow_add_r by lia. lia.
Qed.

Lemma le_bytes_le_val l : le_bytes (length l) (le_val l) = l.
Proof.
  induction l as [|c t IH]; cbn [length le_bytes le_val]; [done|].
  pose proof (byte_val_range c).
  rewrite Z.add_comm, Z.mul_comm.
  rewrite Z.div_add_l by lia. rewrite Z.div_small, Z.add_0_r by lia. rewrite IH. f_equal.
  unfold byte_of. rewrite Z.add_comm, Z.mod_add by lia. apply byte_of_val.
Qed.

Lemma le_bytes_mod n v : le_bytes n (v `mod` 2 ^ (8 * Z.of_nat n)) = le_bytes n v.
Proof.
  rewrite <-le_val_le_bytes. rewrite <-(length_le_bytes n v) at 1. apply le_bytes_le_val.
Qed.

Lemma le_val_range l : 0 ≤ le_val l < 2 ^ (8 * zlen l).
Proof.
  pose proof (le_val_le_bytes (length l) (le_val l)) as H.
  rewrite le_bytes_le_val in H. unfold zlen. rewrite H.
  apply Z.mod_pos_bound. lia.
Qed.

(** Network byte order: most significant byte first. *)
Definition be_bytes (n : nat) (x : Z) : bytes := rev (le_bytes n x).

Lemma zlen_be_bytes n x : zlen (be_bytes n x) = Z.of_nat n.
Proof. unfold be_bytes, zlen. by rewrite length_rev, length_le_bytes. Qed.

(** The conversions of [AppendIntN] and [PrependIntN] produce it ... *)
Lemma encode_be n w x :
  w = 8 * Z.of_nat n → 0 < w →
  le_bytes n (wrapU w (wrapS w (byte_swap n (wrapU w x)))) = be_bytes n x.
Proof.
  intros -> Hn. rewrite wrapU_wrapS by lia. unfold wrapU. rewrite le_bytes_mod.
  unfold byte_swap, be_bytes. rewrite le_bytes_mod.
  rewrite <-(length_le_bytes n x) at 1. rewrite <-length_rev. apply le_bytes_le_val.
Qed.

(** ... and those of [PeekIntN] read it back. *)
Lemma decode_be n w x :
  w = 8 * Z.of_nat n → 0 < w → - 2 ^ (w - 1) ≤ x < 2 ^ (w - 1) →
  wrapS w (byte_swap n (wrapU w (wrapS w (le_val (be_bytes n x))))) = x.
Proof.
  intros -> Hn Hx. rewrite wrapU_wrapS by lia.
  assert (wrapU (8 * Z.of_nat n) (le_val (be_bytes n x)) = le_val (be_bytes n x)) as ->.
  { apply wrapU_small. rewrite <-(zlen_be_bytes n x). apply le_val_range. }
  unfold byte_swap.
  assert (le_bytes n (le_val (be_bytes n x)) = be_bytes n x) as ->.
  { pose proof (zlen_be_bytes n x) as Hl. unfold zlen in Hl.
    replace n with (length (be_bytes n x)) at 1 by lia. apply le_bytes_le_val. }
  unfold be_bytes. rewrite rev_involutive, le_val_le_bytes.
  change (x `mod` 2 ^ (8 * Z.of_nat n)) with (wrapU (8 * Z.of_nat n) x).
  rewrite wrapS_wrapU by lia. by apply wrapS_small.
Qed.

(** The four integer widths of the interface. *)
Inductive int_width := W8 | W16 | W32 | W64.
Definition int_size (w : int_width) : nat :=
  match w with W8 => 1 | W16 => 2 | W32 => 4 | W64 => 8 end.
Definition int_fits (w : int_width) (x : Z) : Prop :=
  - 2 ^ (8 * Z.of_nat (int_size w) - 1) ≤ x < 2 ^ (8 * Z.of_nat (int_size w) - 1).
Definition AppendInt (w : int_width) : Z → Buffer → outcome Buffer :=
  match w with W8 => AppendInt8 | W16 => AppendInt16 | W32 => AppendInt32 | W64 => AppendInt64 end.
Definition PrependInt (w : int_width) : Z → Buffer → outcome Buffer :=
  match w with
  | W8 => PrependInt8 | W16 => PrependInt16 | W32 => PrependInt32 | W64 => PrependInt64
  end.
Definition ReadInt (w : int_width) : Buffer → outcome (Z * Buffer) :=
  match w with W8 => ReadInt8 | W16 => ReadInt16 | W32 => ReadInt32 | W64 => ReadInt64 end.

Lemma AppendInt_be w x b : AppendInt w x b = Append (be_bytes (int_size w) x) b.
Proof.
  destruct w; cbn [AppendInt int_size].
  - unfold AppendInt8. f_equal. unfold wrapU. apply (le_bytes_mod 1).
  - unfold AppendInt16, HostToNetwork16. by rewrite encode_be.
  - unfold AppendInt32, HostToNetwork32. by rewrite encode_be.
  - unfold AppendInt64, HostToNetwork64. by rewrite encode_be.
Qed.

Lemma PrependInt_be w x b : PrependInt w x b = Prepend (be_bytes (int_size w) x) b.
Proof.
  destruct w; cbn [PrependInt int_size].
  - unfold PrependInt8. f_equal. unfold wrapU. apply (le_bytes_mod 1).
  - unfold PrependInt16, HostToNetwork16. by rewrite encode_be.
  - unfold PrependInt32, HostToNetwork32. by rewrite encode_be.
  - unfold PrependInt64, HostToNetwork64. by rewrite encode_be.
Qed.

(** The first bytes of the contents are at [Peek()]. *)
Lemma peek_prefix b d rest :
  wf b → contents b = d ++ rest → zsub (Peek b) (zlen d) (mem b) = d ∧ zlen d ≤ readable_bytes b.
Proof.
  intros Hwf Hc. pose proof (zlen_contents b Hwf) as Hz. pose proof (zlen_nonneg rest).
  pose proof (zlen_nonneg d). rewrite readable_bytes_wf in * by done.
  assert (zlen (contents b) = zlen d + zlen rest) by (rewrite Hc; apply zlen_app).
  split; [|lia].
  assert (ztake (zlen d) (contents b) = d) as Ht.
  { rewrite Hc, ztake_app, ztake_all, ztake_0, app_nil_r by lia. done. }
  rewrite <-Ht at 2. unfold contents, range. rewrite ztake_zsub by (buf; lia). done.
Qed.

Lemma ReadInt_be w x rest b :
  wf b → kCheapPrepend ≤ vsize b → int_fits w x →
  contents b = be_bytes (int_size w) x ++ rest →
  ∃ b', ReadInt w b = Ok (x, b') ∧ wf b' ∧ contents b' = rest ∧ (cheap b → cheap b').
Proof.
  intros Hwf Hs Hx Hc. destruct (peek_prefix b _ _ Hwf Hc) as [Hp Hl].
  rewrite zlen_be_bytes in Hp, Hl.
  destruct (Retrieve_spec (Z.of_nat (int_size w)) b) as (b' & Hr & ? & _ & ? & Hc' & _);
    [done|done|lia|].
  assert (contents b' = rest) as Hrest.
  { rewrite Hc', Hc, zdrop_app by lia.
    rewrite zdrop_all, zdrop_0 by (rewrite zlen_be_bytes; lia). done. }
  exists b'. split; [|done].
  destruct w;
    [ change (Z.of_nat (int_size W8)) with 1 in *
    | change (Z.of_nat (int_size W16)) with 2 in *
    | change (Z.of_nat (int_size W32)) with 4 in *
    | change (Z.of_nat (int_size W64)) with 8 in * ];
    cbn [ReadInt int_size] in *;
    unfold ReadInt8, ReadInt16, ReadInt32, ReadInt64, PeekInt8, PeekInt16, PeekInt32, PeekInt64,
      RetrieveInt8, RetrieveInt16, RetrieveInt32, RetrieveInt64;
    rewrite Hr, Hp; (replace (_ <=? readable_bytes b) with true by lia);
    cbn [cassert mbind outcome_bind]; do 2 f_equal.
  - replace (le_val (be_bytes 1 x)) with (wrapU 8 x) by (symmetry; apply (le_val_le_bytes 1)).
    rewrite wrapS_wrapU by lia. by apply wrapS_small.
  - by apply decode_be.
  - by apply decode_be.
  - by apply decode_be.
Qed.

(** ** The buffer as a queue of bytes

    [bop] lists the calls a connection makes on its buffers; [run_op] is the
    buffer's code, [spec_op] what the call means for the queue of readable
    bytes ([None]: the caller broke the contract), and [op_weight] the number
    of bytes it may add. *)
Inductive bop :=
| OpAppend (d : bytes)
| OpReadFromFd (d : bytes)
| OpRetrieve (n : Z)
| OpRetrieveAll
| OpEnsureWritable (n : Z)
| OpShrink (reserve : Z).

Definition run_op (o : bop) (b : Buffer) : outcome Buffer :=
  match o with
  | OpAppend d => Append d b
  | OpReadFromFd d => '(_, _, b) ← ReadFromFd (ReadvOk d) b; Ok b
  | OpRetrieve n => Retrieve n b
  | OpRetrieveAll => Ok (RetrieveAll b)
  | OpEnsureWritable n => EnsureWritableBytes n b
  | OpShrink reserve => Shrink reserve b
  end.

Fixpoint run_ops (os : list bop) (b : Buffer) : outcome Buffer :=
  match os with
  | [] => Ok b
  | o :: os => b ← run_op o b; run_ops os b
  end.

Definition spec_op (o : bop) (q : bytes) : option bytes :=
  match o with
  | OpAppend d | OpReadFromFd d => Some (q ++ d)
  | OpRetrieve n => if (0 <=? n) && (n <=? zlen q) then Some (zdrop n q) else None
  | OpRetrieveAll => Some []
  | OpEnsureWritable n => if 0 <=? n then Some q else None
  | OpShrink reserve => if (0 <=? reserve) && (zlen q <? 2 ^ 31) then Some q else None
  end.

Fixpoint spec_ops (os : list bop) (q : bytes) : option bytes :=
  match os with
  | [] => Some q
  | o :: os => q ← spec_op o q; spec_ops os q
  end.

Definition op_weight (o : bop) : Z :=
  match o with
  | OpAppend d | OpReadFromFd d => zlen d
  | OpEnsureWritable n => Z.max 0 n
  | OpShrink reserve => Z.max 0 reserve
  | OpRetrieve _ | OpRetrieveAll => 0
  end.
Definition ops_weight (os : list bop) : Z := foldr (λ o n, op_weight o + n) 0 os.

Lemma op_weight_nonneg o : 0 ≤ op_weight o.
Proof. destruct o; cbn; try apply zlen_nonneg; lia. Qed.

Lemma ops_weight_nonneg os : 0 ≤ ops_weight os.
Proof. induction os as [|o os IH]; cbn; [lia|]. pose proof (op_weight_nonneg o). unfold ops_weight in IH. lia. Qed.

Lemma run_op_spec o b q :
  good b → room b (op_weight o) → spec_op o (contents b) = Some q →
  ∃ b', run_op o b = Ok b' ∧ good b' ∧ contents b' = q ∧
        writer_index_ b' ≤ writer_index_ b + op_weight o.
Proof.
  intros Hg Hr Hq. destruct o as [d|d|n| |n|n]; cbn [run_op spec_op op_weight] in *.
  - injection Hq as <-. by apply Append_good.
  - injection Hq as <-. destruct (ReadFromFd_good d b) as (b' & -> & ?); [done..|]. by exists b'.
  - destruct ((0 <=? n) && (n <=? zlen (contents b))) eqn:E; [|done]. injection Hq as <-.
    destruct (Retrieve_good n b) as (b' & -> & ? & ? & ?); [done|lia|].
    exists b'. do 3 (split; [done|]). lia.
  - injection Hq as <-. destruct (RetrieveAll_spec b) as (? & ? & ?); [auto..|].
    eexists; split; [done|]. split; [by constructor; [..|apply (good_size b)]|]. split; [done|].
    destruct Hg as [[] ? ?]. buf. lia.
  - destruct (Z.leb_spec 0 n); [|done]. injection Hq as <-.
    replace (Z.max 0 n) with n in * by lia.
    destruct (EnsureWritableBytes_spec n b) as (b' & -> & ? & ? & ? & ? & ? & ?); [auto..|].
    exists b'. split; [done|]. split; [constructor; auto|]. split; [done|lia].
  - destruct ((0 <=? n) && (zlen (contents b) <? 2 ^ 31)) eqn:E; [|done]. injection Hq as <-.
    rewrite zlen_contents in E by auto.
    replace (Z.max 0 n) with n in * by lia.
    destruct (Shrink_good n b) as (b' & -> & ? & ? & ?);
      [done|lia|lia| |exists b'; do 3 (split; [done|]); lia].
    rewrite readable_bytes_wf by auto. destruct Hg as [[] ? ?]. buf. lia.
Qed.

(** C4: the buffer refines a queue of bytes. Any sequence of appends, reads
    from a descriptor, retrievals, reservations and shrinks that is allowed on
    the queue runs on the buffer without a failed assertion, an exception or
    undefined behaviour, and leaves exactly the queue's bytes readable; the
    only bound is the vector's maximal size. *)
Theorem buffer_refines_queue os b q :
  good b → room b (ops_weight os) → spec_ops os (contents b) = Some q →
  ∃ b', run_ops os b = Ok b' ∧ good b' ∧ contents b' = q.
Proof.
  revert b. induction os as [|o os IH]; intros b Hg Hr Hq; cbn [run_ops spec_ops] in *.
  - injection Hq as <-. by exists b.
  - destruct (spec_op o (contents b)) as [q1|] eqn:E; [|done]. cbn in Hq.
    pose proof (op_weight_nonneg o). pose proof (ops_weight_nonneg os).
    change (ops_weight (o :: os)) with (op_weight o + ops_weight os) in Hr.
    destruct (run_op_spec o b q1) as (b1 & -> & ? & <- & ?);
      [done|unfold room in *; lia|done|].
    apply IH; [done|unfold room in *; lia|done].
Qed.

(** A buffer with 4 writable bytes grows, moves its bytes to the front, and
    gives back what was put in. *)
Lemma buffer_refines_queue_witness :
  ∃ b0 b', Buffer_new 4 = Ok b0 ∧
    run_ops [OpAppend (str "GET"); OpReadFromFd (str " /index HTTP"); OpRetrieve 4;
             OpShrink 3; OpAppend (str "/1.1")] b0 = Ok b' ∧
    contents b' = str "/index HTTP/1.1".
Proof.
  eexists. edestruct (buffer_refines_queue
    [OpAppend (str "GET"); OpReadFromFd (str " /index HTTP"); OpRetrieve 4;
     OpShrink 3; OpAppend (str "/1.1")]) as (b' & H1 & _ & H2);
    [| | |exists b'; split; [vm_compute; reflexivity|]; split; [exact H1|exact H2]].
  - split; [|done..]. apply (bool_decide_unpack _). vm_compute. exact I.
  - vm_compute. discriminate.
  - vm_compute. reflexivity.
Defined.

(** Integers travel in network byte order. For each width, [AppendIntN]
    appends the big-endian bytes of [x], [PrependIntN] puts them in front, and
    [ReadIntN] on a buffer that starts with them returns [x] and removes
    exactly them. *)
Theorem buffer_int_roundtrip w x b rest :
  good b → int_fits w x → room b 8 →
  (∃ b', AppendInt w x b = Ok b' ∧ contents b' = contents b ++ be_bytes (int_size w) x) ∧
  (∃ b', PrependInt w x b = Ok b' ∧ contents b' = be_bytes (int_size w) x ++ contents b) ∧
  (contents b = be_bytes (int_size w) x ++ rest →
   ∃ b', ReadInt w b = Ok (x, b') ∧ contents b' = rest).
Proof.
  intros Hg Hx Hr. assert (0 ≤ Z.of_nat (int_size w) ≤ 8) by (destruct w; cbn; lia).
  split; [|split].
  - rewrite AppendInt_be.
    destruct (Append_good (be_bytes (int_size w) x) b) as (b' & -> & _ & ? & _);
      [done|rewrite zlen_be_bytes; unfold room in *; lia|eauto].
  - rewrite PrependInt_be. pose proof (good_cheap _ Hg) as Hc. unfold cheap, kCheapPrepend in Hc.
    destruct (Prepend_spec (be_bytes (int_size w) x) b) as (b' & -> & _ & ? & _);
      [auto|rewrite zlen_be_bytes; lia|eauto].
  - intros Hc. destruct (ReadInt_be w x rest b) as (b' & ? & _ & ? & _); eauto.
Qed.

(** [-3] as an [int32_t] in an otherwise empty buffer. *)
Lemma buffer_int_roundtrip_witness :
  ∃ b, Append (be_bytes 4 (-3)) (MkBuffer (replicate 32 "000"%char) 32 8 8) = Ok b ∧
    ∃ b', ReadInt W32 b = Ok (-3, b') ∧ contents b' = [].
Proof.
  eexists. split; [vm_compute; reflexivity|].
  apply (buffer_int_roundtrip W32 (-3)).
  - split; [|done..]. apply (bool_decide_unpack _). vm_compute. exact I.
  - vm_compute. split; [discriminate|reflexivity].
  - vm_compute. discriminate.
  - vm_compute. reflexivity.
Defined.

(** Growing after a prepend aborts. [Prepend] moves [reader_index_] below
    [kCheapPrepend], and an append that then needs a new block stops at the
    assertion of [MoveReadableFront], although the readable bytes would fit. *)
Theorem buffer_grow_after_prepend_aborts d b :
  wf b → reader_index_ b < kCheapPrepend → room b (zlen d) →
  writable_bytes b < zlen d → capacity b ≤ writer_index_ b + zlen d →
  Append d b = Fail (AssertionFailed "kCheapPrepend <= reader_index_").
Proof.
  intros Hwf Hr Hroom Hw Hcap. unfold Append, EnsureWritableBytes.
  rewrite writable_bytes_wf in Hw |- * by done. pose proof (zlen_nonneg d).
  replace (_ <? zlen d) with true by lia. unfold MakeSpace. btest.
  rewrite writable_bytes_wf by done. unfold prependable_bytes.
  rewrite !add64_small by (buf; lia).
  replace (_ <? _) with true by (buf; lia). replace (_ <? _) with false by lia.
  destruct (Buffer_new_spec (writer_index_ b + zlen d)) as (t & -> & _); [buf; lia..|].
  cbn [mbind outcome_bind]. unfold MoveReadableFront.
  by replace (kCheapPrepend <=? reader_index_ b) with false by lia.
Qed.

(** Reachable: a 16-byte buffer, a 4-byte length put in front, a long append. *)
Lemma buffer_grow_after_prepend_aborts_witness :
  ∃ b, (b ← Buffer_new 16; Prepend (str "HTTP") b) = Ok b ∧
    Append (replicate 64 "x"%char) b = Fail (AssertionFailed "kCheapPrepend <= reader_index_").
Proof.
  eexists. split; [vm_compute; reflexivity|].
  apply buffer_grow_after_prepend_aborts.
  - apply (bool_decide_unpack _). vm_compute. exact I.
  - vm_compute. reflexivity.
  - vm_compute. discriminate.
  - vm_compute. reflexivity.
  - vm_compute. discriminate.
Defined.

(** ** Type safety of the buffer's interface

    Without any assumption on how a buffer is used: a member function called on
    a well-formed buffer either stops at an assertion, an exception or a read
    past the block, or leaves a well-formed buffer. *)
Definition typed (b : Buffer) : Prop := wf b ∧ kCheapPrepend ≤ vsize b.

(** Sizes of objects that can exist. *)
Definition object_size (n : Z) : Prop := 0 ≤ n ≤ vector_max_size - kCheapPrepend.

Lemma MakeSpace_typed n b b' :
  typed b → object_size n → MakeSpace n b = Ok b' → typed b' ∧ n ≤ vsize b' - writer_index_ b'.
Proof.
  intros [Hwf Hs] Hn E. unfold MakeSpace in E. inv_ok. rewrite writable_bytes_wf in * by done.
  unfold prependable_bytes in *. unfold object_size in Hn. rewrite !add64_small in * by (buf; lia).
  destruct (Z.ltb_spec (vsize b - writer_index_ b + reader_index_ b) (n + kCheapPrepend)).
  - destruct (Z.ltb_spec (writer_index_ b + n) (capacity b)); inv_ok.
    + split; [split; [constructor; buf; lia|]|]; buf; lia.
    + rename select (Buffer_new _ = Ok _) into Hnew. rename select (MoveReadableFront b _ = Ok _) into Hmove.
      assert (kCheapPrepend + (writer_index_ b + n) ≤ vector_max_size) as Hr.
      { unfold Buffer_new, vector_new in Hnew. rewrite add64_small in Hnew by (buf; lia). inv_ok. case_match; [lia|done]. }
      destruct (Buffer_new_spec (writer_index_ b + n)) as (t & Ht & Hwt & _ & _ & _ & _ & Hvt); [buf; lia|done|].
      rewrite Ht in Hnew. injection Hnew as <-.
      assert (cheap b) as Hc by (unfold MoveReadableFront in Hmove; inv_ok; unfold cheap; lia).
      destruct (MoveReadableFront_spec b t) as (t' & Ht' & Hw' & _ & _ & Hv' & Hi');
        [done..|rewrite readable_bytes_wf by done; buf; lia|].
      rewrite Ht' in Hmove. injection Hmove as <-. rewrite readable_bytes_wf in Hi' by done. cbn.
      split; [split; [done|]|]; buf; lia.
  - assert (cheap b) as Hc by (unfold MoveReadaleFront in *; inv_ok; unfold cheap; lia).
    destruct (MoveReadaleFront_spec b) as (t & Ht & Hw' & _ & _ & Hv' & Hi'); [done..|buf; lia|].
    rewrite Ht in *. simplify_eq. rewrite readable_bytes_wf in Hi' by done.
    split; [split; [done|]|]; buf; lia.
Qed.

Lemma EnsureWritableBytes_typed n b b' :
  typed b → object_size n → EnsureWritableBytes n b = Ok b' → typed b' ∧ n ≤ vsize b' - writer_index_ b'.
Proof.
  intros Ht Hn E. unfold EnsureWritableBytes in E. inv_ok.
  destruct (Z.ltb_spec (writable_bytes b) n); [by eapply MakeSpace_typed|]. inv_ok.
  split; [done|]. rewrite writable_bytes_wf in * by apply Ht. lia.
Qed.

Lemma Append_typed d b b' : typed b → object_size (zlen d) → Append d b = Ok b' → typed b'.
Proof.
  intros Ht Hn E. unfold Append in E. apply bind_Ok in E as (b1 & E1 & E).
  destruct (EnsureWritableBytes_typed _ _ _ Ht Hn E1) as [[Hw1 Hs1] Hfit].
  destruct (copy_in_contents d b1) as (_ & _ & _ & Hw3); [done|lia|].
  unfold HasWritten, OffsetofWrite in E. inv_ok. split; [|done]. cbn [writer_index_ copy_in vsize reader_index_ mem].
  pose proof (zlen_nonneg d). rewrite add64_small by (buf; lia). done.
Qed.

Lemma ReadFromFd_typed d b n e b' : typed b → object_size (zlen d) → ReadFromFd (ReadvOk d) b = Ok (n, e, b') → typed b'.
Proof.
  intros [Hwf Hs] Hn E. unfold ReadFromFd in E. rewrite writable_bytes_wf in E by done. pose proof (zlen_nonneg d).
  destruct (Z.leb_spec (zlen d) (vsize b - writer_index_ b)); inv_ok.
  - destruct (copy_in_contents d b) as (_ & _ & _ & Hw); [done|lia|]. split; [|done].
    cbn [writer_index_ copy_in vsize reader_index_ mem]. rewrite add64_small by (buf; lia). done.
  - simplify_eq. eapply Append_typed; [|..|eassumption].
    + assert (zlen (ztake (vsize b - writer_index_ b) d) = vsize b - writer_index_ b) as Ht
        by (rewrite zlen_ztake; buf; lia).
      destruct (copy_in_contents (ztake (vsize b - writer_index_ b) d) b) as (_ & _ & _ & Hw); [done|lia|].
      rewrite Ht in Hw. replace (writer_index_ b + (vsize b - writer_index_ b)) with (vsize b) in Hw by lia. by split.
    + unfold object_size in *. rewrite zlen_zdrop by (buf; lia). buf. lia.
Qed.

Lemma Retrieve_typed n b b' : typed b → 0 ≤ n → Retrieve n b = Ok b' → typed b'.
Proof.
  intros [Hwf Hs] Hn E. assert (n ≤ readable_bytes b) by (unfold Retrieve in E; inv_ok; lia).
  destruct (Retrieve_spec n b) as (t & Ht & Hw & Hv & _); [done|done|lia|].
  assert (t = b') as -> by congruence. split; [done|]. by rewrite Hv.
Qed.

Lemma RetrieveUntil_typed p b b' : typed b → RetrieveUntil p b = Ok b' → typed b'.
Proof. intros Ht E. unfold RetrieveUntil in E. inv_ok. eapply Retrieve_typed; [done| |done]. by apply wrapU_range. Qed.

Lemma Prepend_typed d b b' : typed b → Prepend d b = Ok b' → typed b'.
Proof.
  intros [Hwf Hs] E. assert (zlen d ≤ reader_index_ b) by (unfold Prepend, prependable_bytes in E; inv_ok; lia).
  destruct (Prepend_spec d b) as (t & Ht & Hw & _ & Hv & _); [done..|].
  assert (t = b') as -> by congruence. split; [done|]. by rewrite Hv.
Qed.

Lemma ToSlice_readable b s : wf b → ToSlice b = Ok s → zlen s ≤ readable_bytes b.
Proof.
  intros Hwf E. unfold ToSlice in E. case_match; [|done]. inv_ok. rewrite Z.leb_le in *.
  assert (0 ≤ readable_bytes b < 2 ^ 63) as Hr by (rewrite readable_bytes_wf by done; buf; lia).
  set (x := readable_bytes b) in *. assert (ToSlice_size b ≤ x).
  { unfold ToSlice_size in *. fold x in H |- *. pose proof (wrapS_range 32 x ltac:(lia)) as Hw.
    assert (wrapS 32 x ≤ x) by (unfold wrapS; pose proof (Z.mod_le (x + 2 ^ (32 - 1)) (2 ^ 32)); lia).
    destruct (Z.leb_spec 0 (wrapS 32 x)); [rewrite wrapU_small by lia; lia|].
    assert (wrapU 64 (wrapS 32 x) = wrapS 32 x + 2 ^ 64) as Hu.
    { unfold wrapU. rewrite <-(Z.mod_add _ 1) by lia. apply Z.mod_small. lia. }
    rewrite Hu in *. buf. lia. }
  assert (0 ≤ ToSlice_size b) by (apply wrapU_range; lia). generalize dependent (ToSlice_size b). intros k Hk ? ?.
  clearbody x. rewrite zlen_zsub; unfold Peek, capacity in *; destruct Hwf; lia.
Qed.

Lemma Shrink_typed reserve b b' :
  typed b → 0 ≤ reserve → object_size (readable_bytes b + reserve) → Shrink reserve b = Ok b' → typed b'.
Proof.
  intros [Hwf Hs] Hr Hn E. unfold Shrink in E.
  assert (0 ≤ readable_bytes b) as Hrb by (rewrite readable_bytes_wf by done; buf; lia).
  destruct (Buffer_new_good kInitialSize) as (t & Ht & Hg & _ & _ & _); [done..|]. rewrite Ht in E.
  cbn [mbind outcome_bind] in E. apply bind_Ok in E as (t1 & E1 & E). apply bind_Ok in E as (s & Es & E).
  apply bind_Ok in E as (t2 & E2 & E). inv_ok.
  rewrite add64_small in E1 by (unfold object_size, kCheapPrepend, vector_max_size in *; lia).
  destruct (EnsureWritableBytes_typed _ _ _ (conj (good_wf _ Hg) (good_size _ Hg)) Hn E1) as [Ht1 _].
  apply ToSlice_readable in Es; [|done]. pose proof (zlen_nonneg s).
  destruct (Append_typed s t1 t2) as [[] Hs2]; [done|unfold object_size in *; lia|done|].
  split; cbn [swap fst vsize]; [|done]. constructor; cbn [reader_index_ writer_index_ vsize]; [done..| |];
    unfold capacity in *; cbn [mem]; rewrite zlen_ztake; lia.
Qed.

(** The member functions that change a buffer. *)
Inductive bcall :=
| CallAppend (d : bytes) | CallAppendInt (w : int_width) (x : Z)
| CallPrepend (d : bytes) | CallPrependInt (w : int_width) (x : Z)
| CallReadFromFd (r : readv_result)
| CallRetrieve (n : Z) | CallRetrieveUntil (last : Z) | CallRetrieveAll
| CallRetrieveAsString (n : Z) | CallRetrieveAllAsString | CallReadInt (w : int_width)
| CallEnsureWritableBytes (n : Z) | CallHasWritten (n : Z) | CallUnwrite (n : Z) | CallShrink (reserve : Z).

Definition run_call (o : bcall) (b : Buffer) : outcome Buffer :=
  match o with
  | CallAppend d => Append d b
  | CallAppendInt w x => AppendInt w x b
  | CallPrepend d => Prepend d b
  | CallPrependInt w x => PrependInt w x b
  | CallReadFromFd r => '(_, _, b) ← ReadFromFd r b; Ok b
  | CallRetrieve n => Retrieve n b
  | CallRetrieveUntil last => RetrieveUntil last b
  | CallRetrieveAll => Ok (RetrieveAll b)
  | CallRetrieveAsString n => '(_, b) ← RetrieveAsString n b; Ok b
  | CallRetrieveAllAsString => '(_, b) ← RetrieveAllAsString b; Ok b
  | CallReadInt w => '(_, b) ← ReadInt w b; Ok b
  | CallEnsureWritableBytes n => EnsureWritableBytes n b
  | CallHasWritten n => HasWritten n b
  | CallUnwrite n => Unwrite n b
  | CallShrink reserve => Shrink reserve b
  end.

(** The arguments are sizes of things that exist. *)
Definition call_ok (o : bcall) (b : Buffer) : Prop :=
  match o with
  | CallAppend d | CallReadFromFd (ReadvOk d) => object_size (zlen d)
  | CallRetrieve n | CallRetrieveAsString n | CallHasWritten n | CallUnwrite n => 0 ≤ n
  | CallEnsureWritableBytes n => object_size n
  | CallShrink reserve => 0 ≤ reserve ∧ object_size (readable_bytes b + reserve)
  | _ => True
  end.

Lemma ReadInt_retrieves w b x b' : ReadInt w b = Ok (x, b') → ∃ n, 0 ≤ n ∧ Retrieve n b = Ok b'.
Proof.
  destruct w; cbn; unfold ReadInt8, ReadInt16, ReadInt32, ReadInt64, RetrieveInt8, RetrieveInt16, RetrieveInt32, RetrieveInt64;
    intros E; inv_ok; simplify_eq; eexists; (split; [|eassumption]); lia.
Qed.

Lemma RetrieveAsString_retrieves n b s b' : RetrieveAsString n b = Ok (s, b') → Retrieve n b = Ok b'.
Proof. unfold RetrieveAsString. intros E. by inv_ok; simplify_eq. Qed.

Lemma int_object w x : object_size (zlen (be_bytes (int_size w) x)).
Proof. rewrite zlen_be_bytes. unfold object_size. by destruct w. Qed.

Lemma run_call_typed o b b' : typed b → call_ok o b → run_call o b = Ok b' → typed b'.
Proof.
  intros Ht Ho E. pose proof Ht as [Hwf Hs]. destruct o; cbn [run_call call_ok] in *;
    rewrite ?AppendInt_be, ?PrependInt_be in *;
    eauto using Append_typed, Prepend_typed, Retrieve_typed, RetrieveUntil_typed, int_object.
  - apply bind_Ok in E as ([[n e] b1] & E1 & [= <-]). destruct r; [by injection E1 as _ _ <-|].
    by eapply ReadFromFd_typed.
  - inv_ok. destruct (RetrieveAll_spec b) as (? & _); [done..|]. by split.
  - apply bind_Ok in E as ([x b1] & E1 & [= <-]). eauto using RetrieveAsString_retrieves, Retrieve_typed.
  - apply bind_Ok in E as ([x b1] & E1 & [= <-]). apply RetrieveAsString_retrieves in E1.
    eapply Retrieve_typed; [done| |done]. by apply wrapU_range.
  - apply bind_Ok in E as ([x b1] & E1 & [= <-]). destruct (ReadInt_retrieves _ _ _ _ E1) as (n & ? & ?).
    eauto using Retrieve_typed.
  - by eapply EnsureWritableBytes_typed.
  - unfold HasWritten in E. inv_ok. rewrite writable_bytes_wf in * by done. split; [|done].
    rewrite add64_small by (buf; lia). constructor; buf; lia.
  - unfold Unwrite in E. inv_ok. rewrite readable_bytes_wf in * by done. split; [|done].
    rewrite sub64_small by (buf; lia). constructor; buf; lia.
  - destruct Ho. by eapply Shrink_typed.
Qed.

Fixpoint run_calls (os : list bcall) (b : Buffer) : outcome Buffer :=
  match os with
  | [] => Ok b
  | o :: os => b ← run_call o b; run_calls os b
  end.

Fixpoint calls_ok (os : list bcall) (b : Buffer) : Prop :=
  match os with
  | [] => True
  | o :: os => call_ok o b ∧ match run_call o b with Ok b => calls_ok os b | Fail _ => True end
  end.


