(* ===== verification/BufferList.v ===== *)
(** * [net::BufferList] (net/buffer_list.h, net/buffer_list.cc)

    A list of buffers: data is appended to the last one, or as a buffer of its
    own, and read from the first one.  The abstraction is [stream], the readable
    bytes of all buffers in order. *)

From stdpp Require Import base tactics list numbers strings.
From Stdlib Require Import ZArith Lia Ascii.
From S2P Require Import Prelude.
From S2P Require Import CString.
From S2P Require Import Buffer.

Record BufferList := MkBufferList { list_ : list Buffer }.

(** The constructor: one buffer of the default size, whatever [initial_size]. *)
Definition BufferList_new (initial_size : Z) : outcome BufferList :=
  b ← Buffer_new kInitialSize; Ok (MkBufferList [b]).

Definition BufferList_swap (this x : BufferList) : BufferList * BufferList := (x, this).

Definition list_readable_bytes (l : BufferList) : Z := foldl (λ rbytes b, rbytes +# readable_bytes b) 0 (list_ l).
Definition list_writable_bytes (l : BufferList) : Z := foldl (λ wbytes b, wbytes +# writable_bytes b) 0 (list_ l).

Definition list_size (l : BufferList) : Z := zlen (list_ l).
Definition list_empty (l : BufferList) : bool := bool_decide (list_ l = []).

(** A call on [front()] or [back()], which do not exist in an empty list. *)
Definition on_front {A} (f : Buffer → outcome (A * Buffer)) (l : BufferList) : outcome (A * BufferList) :=
  match list_ l with
  | [] => Fail (UndefinedBehaviour "front() of an empty list")
  | b :: bs => r ← f b; Ok (r.1, MkBufferList (r.2 :: bs))
  end.
Definition on_back (f : Buffer → outcome Buffer) (l : BufferList) : outcome BufferList :=
  match last (list_ l) with
  | None => Fail (UndefinedBehaviour "back() of an empty list")
  | Some b => b ← f b; Ok (MkBufferList (removelast (list_ l) ++ [b]))
  end.
Definition without_result (f : Buffer → outcome Buffer) (b : Buffer) : outcome (unit * Buffer) := b ← f b; Ok (tt, b).

Definition list_Append (data : bytes) : BufferList → outcome BufferList := on_back (Append data).
(** [Append(Buffer&&)]: the list and what is left of the argument. *)
Definition Append_buffer (x : Buffer) (l : BufferList) : BufferList * Buffer :=
  let '(b, x) := Buffer_move x in (MkBufferList (list_ l ++ [b]), x).
Definition list_AppendInt (w : int_width) (x : Z) : BufferList → outcome BufferList := on_back (AppendInt w x).
Definition list_ReadInt (w : int_width) : BufferList → outcome (Z * BufferList) := on_front (ReadInt w).
Definition list_PrependInt (w : int_width) (x : Z) : BufferList → outcome (unit * BufferList) := on_front (without_result (PrependInt w x)).
Definition list_Prepend (data : bytes) : BufferList → outcome (unit * BufferList) := on_front (without_result (Prepend data)).

(** [struct iovec]: the buffer a pointer points into, its offset there, and the
    length. *)
Record iovec := MkIovec { iov_buffer : nat; iov_base : Z; iov_len : Z }.
Definition iovec_of (i : nat) (b : Buffer) : iovec := MkIovec i (Peek b) (readable_bytes b).

(** [FillIovec(iov, iovcnt)] on an array [iov]. *)
Fixpoint fill_from (i : nat) (bs : list Buffer) (iov : list iovec) : outcome (list iovec) :=
  match bs with
  | [] => Ok iov
  | b :: bs =>
      if bool_decide (i < length iov)%nat then fill_from (S i) bs (<[i := iovec_of i b]> iov)
      else Fail (UndefinedBehaviour "iov[i] beyond the array")
  end.
Definition FillIovec (iov : list iovec) (iovcnt : Z) (l : BufferList) : outcome (list iovec) :=
  cassert "iovcnt <= static_cast<int>(size())" (iovcnt <=? wrapS 32 (list_size l));;
  fill_from 0 (list_ l) iov.

(** ** The stream of a list *)
Definition stream (l : BufferList) : bytes := concat (contents <$> list_ l).

(** All buffers can grow, and there is one. *)
Definition list_good (l : BufferList) : Prop := list_ l ≠ [] ∧ Forall good (list_ l).
Definition list_room (l : BufferList) (n : Z) : Prop := ∀ b, last (list_ l) = Some b → room b n.

Lemma last_buffer {A} (l : list A) : l ≠ [] → ∃ i x, l = i ++ [x] ∧ last l = Some x ∧ removelast l = i.
Proof.
  intros H. destruct l as [|x l _] using rev_ind; [done|]. exists l, x. split; [done|].
  rewrite last_snoc. split; [done|]. by rewrite removelast_last.
Qed.

Lemma on_back_stream f d l :
  list_good l → (∀ b, last (list_ l) = Some b → good b → ∃ b', f b = Ok b' ∧ good b' ∧ contents b' = contents b ++ d) →
  ∃ l', on_back f l = Ok l' ∧ list_good l' ∧ stream l' = stream l ++ d.
Proof.
  intros [Hne Hg] Hf. destruct (last_buffer _ Hne) as (i & x & E & Hl & Hr). unfold on_back. rewrite Hl, Hr.
  rewrite E in Hg. apply Forall_app in Hg as [Hgi Hgx]. rewrite Forall_singleton in Hgx.
  destruct (Hf x Hl Hgx) as (b' & -> & Hb' & Hc). cbn [mbind outcome_bind]. eexists. split; [done|]. split.
  - split; [cbn; by destruct i|]. cbn. apply Forall_app. split; [done|]. by apply Forall_singleton.
  - unfold stream. cbn. rewrite E, !fmap_app, !concat_app. cbn. by rewrite !app_nil_r, Hc, app_assoc.
Qed.

Lemma Append_stream d l :
  list_good l → list_room l (zlen d) → ∃ l', list_Append d l = Ok l' ∧ list_good l' ∧ stream l' = stream l ++ d.
Proof.
  intros Hg Hr. apply on_back_stream; [done|]. intros b Hb Hgb.
  destruct (Append_good d b Hgb (Hr b Hb)) as (b' & ? & ? & ? & _). eauto.
Qed.

Lemma AppendInt_stream w x l :
  list_good l → list_room l (zlen (be_bytes (int_size w) x)) →
  ∃ l', list_AppendInt w x l = Ok l' ∧ list_good l' ∧ stream l' = stream l ++ be_bytes (int_size w) x.
Proof.
  intros Hg Hr. apply on_back_stream; [done|]. intros b Hb Hgb. rewrite AppendInt_be.
  destruct (Append_good _ b Hgb (Hr b Hb)) as (b' & ? & ? & ? & _). eauto.
Qed.

Lemma Append_buffer_stream x l :
  list_good l → good x →
  list_good (Append_buffer x l).1 ∧ stream (Append_buffer x l).1 = stream l ++ contents x ∧ list_size (Append_buffer x l).1 = list_size l + 1.
Proof.
  intros [Hne Hg] Hx. unfold Append_buffer. cbn. split; [|split].
  - split; cbn; [by destruct (list_ l)|]. apply Forall_app. split; [done|]. by apply Forall_singleton.
  - unfold stream. cbn. rewrite fmap_app, concat_app. cbn. by rewrite app_nil_r.
  - unfold list_size. cbn. by rewrite zlen_app.
Qed.

(** The readable bytes are those of the stream, modulo the width of [size_t]. *)
Lemma list_readable_stream l : list_good l → list_readable_bytes l = wrapU 64 (zlen (stream l)).
Proof.
  intros [_ Hg]. unfold list_readable_bytes, stream.
  assert (∀ bs, Forall good bs → ∀ n, foldl (λ r b, r +# readable_bytes b) (wrapU 64 n) bs = wrapU 64 (n + zlen (concat (contents <$> bs)))) as H.
  { induction 1 as [|b bs Hb _ IH]; intros n; cbn; [by rewrite zlen_nil, Z.add_0_r|].
    replace (wrapU 64 n +# readable_bytes b) with (wrapU 64 (n + readable_bytes b)) by (unfold add64, wrapU; by rewrite Zplus_mod_idemp_l).
    rewrite IH. f_equal. rewrite zlen_app, (zlen_contents b) by auto. lia. }
  rewrite <-(wrapU_small 64 0) at 1 by lia. rewrite H by done. done.
Qed.

(** An integer written at the end of a new list is the one read at its front. *)
Lemma list_int_roundtrip w x l b :
  list_good l → list_ l = [b] → contents b = [] → list_room l (zlen (be_bytes (int_size w) x)) → int_fits w x →
  ∃ l' l'', list_AppendInt w x l = Ok l' ∧ list_ReadInt w l' = Ok (x, l'') ∧ stream l'' = [].
Proof.
  intros Hg Hl Hc Hr Hx. unfold list_AppendInt, on_back. rewrite Hl. cbn [last removelast app].
  destruct Hg as [_ Hg]. rewrite Hl in Hg. rewrite Forall_singleton in Hg. rewrite AppendInt_be.
  destruct (Append_good (be_bytes (int_size w) x) b) as (b' & -> & Hb' & Hc' & _); [done|apply Hr; by rewrite Hl|].
  cbn [mbind outcome_bind]. rewrite Hc in Hc'. cbn in Hc'.
  destruct (ReadInt_be w x [] b') as (b'' & Hrd & _ & Hc'' & _); [auto..|by rewrite app_nil_r|].
  eexists _, _. split; [done|]. split; [unfold list_ReadInt, on_front; cbn; by rewrite Hrd|]. unfold stream. cbn. by rewrite Hc''.
Qed.

(** ** [FillIovec] *)
Lemma fill_from_exact bs i iov :
  (i + length bs ≤ length iov)%nat →
  fill_from i bs iov = Ok (take i iov ++ imap (λ k b, iovec_of (i + k) b) bs ++ drop (i + length bs) iov).
Proof.
  revert i iov. induction bs as [|b bs IH]; intros i iov Hlen; cbn.
  - by rewrite Nat.add_0_r, take_drop.
  - cbn in Hlen. rewrite bool_decide_true by lia. rewrite IH by (rewrite length_insert; lia). f_equal.
    rewrite (take_S_r _ _ (iovec_of i b)) by (apply list_lookup_insert_eq; lia).
    rewrite take_insert_ge by lia. rewrite <-app_assoc. f_equal. cbn. f_equal; [by rewrite Nat.add_0_r|].
    rewrite drop_insert_lt by lia. f_equal; [|f_equal; lia]. apply imap_ext. intros. cbn. by rewrite Nat.add_succ_r.
Qed.

(** An array of as many entries as the list has buffers gets one entry for each,
    with its readable bytes: the vector write of the whole stream. *)
Theorem fill_iovec_exact l iov :
  length iov = length (list_ l) → list_size l < 2 ^ 31 →
  FillIovec iov (list_size l) l = Ok (imap iovec_of (list_ l)).
Proof.
  intros Hi Hs. unfold FillIovec, list_size in *. rewrite wrapS_small by (pose proof (zlen_nonneg (list_ l)); lia).
  rewrite Z.leb_refl. cbn [cassert mbind outcome_bind]. rewrite fill_from_exact by lia. cbn. f_equal.
  rewrite drop_ge by lia. by rewrite app_nil_r.
Qed.

Lemma fill_from_overruns bs i iov :
  (length iov < i + length bs)%nat → (i ≤ length iov)%nat →
  fill_from i bs iov = Fail (UndefinedBehaviour "iov[i] beyond the array").
Proof.
  revert i iov. induction bs as [|b bs IH]; intros i iov Hl Hi; cbn in *; [lia|].
  case_bool_decide; [|done]. apply IH; rewrite length_insert; lia.
Qed.

(** The assertion admits arrays shorter than the list, and the loop writes
    beyond their end. *)
Theorem fill_iovec_overruns l iov :
  list_size l < 2 ^ 31 → (length iov < length (list_ l))%nat →
  FillIovec iov (zlen iov) l = Fail (UndefinedBehaviour "iov[i] beyond the array").
Proof.
  intros Hs Hl. unfold FillIovec, list_size in *. rewrite wrapS_small by (pose proof (zlen_nonneg (list_ l)); lia).
  replace (_ <=? _) with true by (unfold zlen; lia). cbn [cassert mbind outcome_bind].
  apply fill_from_overruns; lia.
Qed.

Definition two_buffers : outcome BufferList :=
  l ← BufferList_new 1024; l ← list_Append (str "GET ") l;
  b ← Buffer_new 16; b ← Append (str "/") b; Ok (Append_buffer b l).1.
Lemma fill_iovec_overruns_witness :
  ∃ l, two_buffers = Ok l ∧ FillIovec [MkIovec 0 0 0] 1 l = Fail (UndefinedBehaviour "iov[i] beyond the array").
Proof. eexists. split; [vm_compute; reflexivity|]. apply (fill_iovec_overruns _ [MkIovec 0 0 0]); vm_compute; [reflexivity|lia]. Defined.

(** ** Reading stops at the first buffer *)

(** No operation removes a buffer: once the first one is read, integers in the
    next ones cannot be read although they are counted as readable. *)
Theorem read_stops_at_front w l b bs :
  list_ l = b :: bs → good b → contents b = [] →
  list_ReadInt w l = Fail (AssertionFailed (match w with W8 => "readable_bytes() >= sizeof(int8_t)" | W16 => "readable_bytes() >= sizeof(int16_t)"
    | W32 => "readable_bytes() >= sizeof(int32_t)" | W64 => "readable_bytes() >= sizeof(int64_t)" end)).
Proof.
  intros Hl Hg Hc. unfold list_ReadInt, on_front. rewrite Hl.
  assert (readable_bytes b = 0) as H0 by (rewrite <-zlen_contents, Hc by auto; done).
  destruct w; cbn; unfold ReadInt8, ReadInt16, ReadInt32, ReadInt64, PeekInt8, PeekInt16, PeekInt32, PeekInt64; rewrite H0; done.
Qed.
