(* ===== verification/HttpRequest.v ===== *)
(** * [net::HttpRequest] (http/http_request.h)

    The request a connection's context fills in while it parses.  A pointer
    range of the source is the list of bytes it delimits, except where the code
    reads past the end of the range: [SetMethod] compares from its first
    pointer on, so it is given all the bytes of the block from there. *)

From stdpp Require Import base tactics list numbers strings sets gmap.
From Stdlib Require Import ZArith Lia Ascii.
From S2P Require Import Prelude.
From S2P Require Import CString.

Inductive Method :=
| kInvalid | kGet | kPost | kHead | kPut | kDelete | kTrack | kOptions.

Inductive Version := kUnknown | kHttp10 | kHttp11.

#[global] Instance Method_eq_dec : EqDecision Method.
Proof. solve_decision. Defined.
#[global] Instance Version_eq_dec : EqDecision Version.
Proof. solve_decision. Defined.

Record HttpRequest := MkHttpRequest {
  method_ : Method;
  version_ : Version;
  path_ : bytes;
  query_ : bytes;
  receive_time_ : Z;
  headers_ : gmap bytes bytes;
  body_ : bytes;
}.

Definition HttpRequest_new : HttpRequest := MkHttpRequest kInvalid kUnknown [] [] 0 ∅ [].

Definition SetVersion (v : Version) (r : HttpRequest) : HttpRequest :=
  MkHttpRequest (method_ r) v (path_ r) (query_ r) (receive_time_ r) (headers_ r) (body_ r).

Definition set_method (m : Method) (r : HttpRequest) : HttpRequest :=
  MkHttpRequest m (version_ r) (path_ r) (query_ r) (receive_time_ r) (headers_ r) (body_ r).

(** [memcmp(start, lit, |lit|) == 0], with [block] the bytes from [start] to
    the end of the allocation. *)
Definition memcmp_eq (block lit : bytes) : outcome bool :=
  if zlen lit <=? zlen block then Ok (starts_with lit block)
  else Fail (UndefinedBehaviour "memcmp past the end of the block").

Definition SetMethod (block : bytes) (r : HttpRequest) : outcome HttpRequest :=
  cassert "method_ == kInvalid" (bool_decide (method_ r = kInvalid));;
  b ← memcmp_eq block (str "GET"); if b : bool then Ok (set_method kGet r) else
  b ← memcmp_eq block (str "POST"); if b : bool then Ok (set_method kPost r) else
  b ← memcmp_eq block (str "HEAD"); if b : bool then Ok (set_method kHead r) else
  b ← memcmp_eq block (str "PUT"); if b : bool then Ok (set_method kPut r) else
  b ← memcmp_eq block (str "DELETE"); if b : bool then Ok (set_method kDelete r) else
  b ← memcmp_eq block (str "OPTIONS"); if b : bool then Ok (set_method kOptions r) else
  Ok (set_method kInvalid r).

(** [methods_map[method_]]. *)
Definition ToMethodString (r : HttpRequest) : bytes :=
  match method_ r with
  | kInvalid => str "UNKNOWN"
  | kGet => str "GET"
  | kPost => str "POST"
  | kHead => str "HEAD"
  | kPut => str "PUT"
  | kDelete => str "DELETE"
  | kTrack => str "TRACK"
  | kOptions => str "OPTIONS"
  end.

Definition SetPath (p : bytes) (r : HttpRequest) : HttpRequest :=
  MkHttpRequest (method_ r) (version_ r) p (query_ r) (receive_time_ r) (headers_ r) (body_ r).

Definition SetQuery (q : bytes) (r : HttpRequest) : HttpRequest :=
  MkHttpRequest (method_ r) (version_ r) (path_ r) q (receive_time_ r) (headers_ r) (body_ r).

Definition SetReceiveTime (t : Z) (r : HttpRequest) : HttpRequest :=
  MkHttpRequest (method_ r) (version_ r) (path_ r) (query_ r) t (headers_ r) (body_ r).

Definition SetBody (d : bytes) (r : HttpRequest) : HttpRequest :=
  MkHttpRequest (method_ r) (version_ r) (path_ r) (query_ r) (receive_time_ r) (headers_ r) d.

(** [while (!value.empty() && isspace(value[value.size() - 1])) value.resize(value.size() - 1)] *)
Definition trim_end (v : bytes) : bytes := rev (drop_while isspace (rev v)).

(** [AddHeader(start, colon, end)] with [line] the bytes of [[start, end)] and
    [colon] the offset of the colon. *)
Definition AddHeader (line : bytes) (colon : Z) (r : HttpRequest) : HttpRequest :=
  let field := ztake colon line in
  let value := trim_end (drop_while isspace (zdrop (colon + 1) line)) in
  MkHttpRequest (method_ r) (version_ r) (path_ r) (query_ r) (receive_time_ r)
    (<[field := value]> (headers_ r)) (body_ r).

Definition GetHeader (field : bytes) (r : HttpRequest) : bytes :=
  match headers_ r !! field with Some v => v | None => [] end.

(** [swap(that)]: both objects afterwards; [body_] is not exchanged. *)
Definition swap (this that : HttpRequest) : HttpRequest * HttpRequest :=
  (MkHttpRequest (method_ that) (version_ that) (path_ that) (query_ that)
     (receive_time_ that) (headers_ that) (body_ this),
   MkHttpRequest (method_ this) (version_ this) (path_ this) (query_ this)
     (receive_time_ this) (headers_ this) (body_ that)).

(** ** The method recognised on a request line *)

(** The methods the code looks for, in its order. *)
Definition method_literals : list (bytes * Method) :=
  [(str "GET", kGet); (str "POST", kPost); (str "HEAD", kHead); (str "PUT", kPut);
   (str "DELETE", kDelete); (str "OPTIONS", kOptions)].

(** The first literal that is a prefix of the token. *)
Fixpoint first_match (lits : list (bytes * Method)) (tok : bytes) : Method :=
  match lits with
  | [] => kInvalid
  | (l, m) :: lits => if starts_with l tok then m else first_match lits tok
  end.
Definition method_of_token (tok : bytes) : Method := first_match method_literals tok.

Lemma starts_with_delim l tok c rest :
  c ∉ l → starts_with l (tok ++ c :: rest) = starts_with l tok.
Proof.
  intros Hc. destruct (starts_with l (tok ++ c :: rest)) eqn:E; symmetry.
  - apply starts_with_spec in E as [t Ht]. apply starts_with_spec.
    destruct (app_eq_inv _ _ _ _ Ht) as [(k & -> & _)|(k & -> & Hk)]; [by exists k|].
    destruct k as [|x k].
    + exists []. by rewrite !app_nil_r.
    + cbn in Hk. simplify_eq. exfalso. apply Hc. set_solver.
  - apply not_true_iff_false. intros E'%starts_with_spec. apply not_true_iff_false in E.
    apply E, starts_with_spec. destruct E' as [t ->]. exists (t ++ c :: rest). by rewrite app_assoc.
Qed.

(** [SetMethod] decides on the token before the first space. *)
Lemma SetMethod_spec tok rest r :
  method_ r = kInvalid → 7 ≤ zlen (tok ++ " "%char :: rest) →
  SetMethod (tok ++ " "%char :: rest) r = Ok (set_method (method_of_token tok) r).
Proof.
  intros Hm Hlen. unfold SetMethod. rewrite bool_decide_true by done. cbn [cassert mbind outcome_bind].
  unfold memcmp_eq, method_of_token, method_literals, first_match.
  repeat match goal with
  | |- context [?a <=? zlen _] =>
      replace (a <=? zlen (tok ++ " "%char :: rest)) with true
        by (symmetry; apply Z.leb_le; etrans; [|exact Hlen]; vm_compute; discriminate)
  end.
  cbn [mbind outcome_bind].
  rewrite !starts_with_delim by by (apply (bool_decide_unpack _); vm_compute).
  repeat (destruct (starts_with _ tok); [done|]; cbn [mbind outcome_bind]). done.
Qed.
