(* ===== verification/HttpContext.v ===== *)
(** * [net::HttpContext] (http/http_context.h, http/http_context.cc)

    The incremental HTTP request parser of a connection.  Pointers into the
    input buffer are offsets from the start of its block; the [while] loop of
    [ParseRequest] has fuel, and [None] means that it ran out.  The reference
    parser [aparse] works on the list of unread bytes alone. *)

From stdpp Require Import base tactics list numbers strings sets gmap.
From Stdlib Require Import ZArith Lia Ascii.
From S2P Require Import Prelude.
From S2P Require Import CString.
From S2P Require Import Buffer.
From S2P Require Import HttpRequest.

Inductive HttpRequestParseState :=
| kExpectRequestLine | kExpectHeaders | kExpectBody | kGotAll.

#[global] Instance HttpRequestParseState_eq_dec : EqDecision HttpRequestParseState.
Proof. solve_decision. Defined.

Record HttpContext := MkHttpContext {
  state_ : HttpRequestParseState;
  request_ : HttpRequest;
}.

Definition HttpContext_new : HttpContext := MkHttpContext kExpectRequestLine HttpRequest_new.

Definition IsGotAll (c : HttpContext) : bool := bool_decide (state_ c = kGotAll).

Definition Reset (c : HttpContext) : HttpContext :=
  MkHttpContext kExpectRequestLine (HttpRequest.swap (request_ c) HttpRequest_new).1.

(** [string::assign(first, last)]; the range must not be inverted. *)
Definition assign (b : Buffer) (first last : Z) : outcome bytes :=
  if first <=? last then Ok (range b first last)
  else Fail (UndefinedBehaviour "string::assign: inverted range").

Definition ProcessRequestLine (b : Buffer) (begin end_ : Z) (r : HttpRequest)
    : outcome (bool * HttpRequest) :=
  let start := begin in
  let space := start + std_find " "%char (range b start end_) in
  if negb (space =? end_) then
    r ← SetMethod (zdrop start (mem b)) r;
    let start := space + 1 in
    let space := start + std_find " "%char (range b start end_) in
    if negb (space =? end_) then
      let question := start + std_find "?"%char (range b start space) in
      r ← (if negb (question =? space) then
             p ← assign b (start + 1) question;
             q ← assign b question space;
             Ok (SetQuery q (SetPath p r))
           else
             p ← assign b (start + 1) space;
             Ok (SetPath p r));
      let start := space + 1 in
      let succeed := (end_ - start =? 8)
                     && bool_decide (range b start (end_ - 1) = str "HTTP/1.") in
      if succeed then
        if bool_decide (range b (end_ - 1) end_ = str "1") then Ok (true, SetVersion kHttp11 r)
        else if bool_decide (range b (end_ - 1) end_ = str "0") then Ok (true, SetVersion kHttp10 r)
        else Ok (false, r)
      else Ok (false, r)
    else Ok (false, r)
  else Ok (false, r).

(** The state of the loop of [ParseRequest]. *)
Record parse_loop := MkLoop {
  ok : bool;
  has_more : bool;
  context : HttpContext;
  buf : Buffer;
}.

(** One iteration of the loop.  [LOG_DEBUG] of the headers writes to the log
    only and is left out. *)
Definition parse_step (receive_time : Z) (l : parse_loop) : outcome parse_loop :=
  let '(MkLoop ok _ c b) := l in
  match state_ c with
  | kExpectRequestLine =>
      match FindCrlf b with
      | Some crlf =>
          '(ok, r) ← ProcessRequestLine b (Peek b) crlf (request_ c);
          if ok : bool then
            b ← RetrieveUntil (crlf + 2) b;
            Ok (MkLoop ok true (MkHttpContext kExpectHeaders (SetReceiveTime receive_time r)) b)
          else Ok (MkLoop ok false (MkHttpContext kExpectRequestLine r) b)
      | None => Ok (MkLoop ok false c b)
      end
  | kExpectHeaders =>
      match FindCrlf b with
      | Some crlf =>
          let colon := Peek b + std_find ":"%char (range b (Peek b) crlf) in
          let c := if negb (colon =? crlf)
                   then MkHttpContext kExpectHeaders
                          (AddHeader (range b (Peek b) crlf) (colon - Peek b) (request_ c))
                   else MkHttpContext kExpectBody (request_ c) in
          b ← RetrieveUntil (crlf + 2) b;
          Ok (MkLoop ok true c b)
      | None => Ok (MkLoop ok false c b)
      end
  | kExpectBody =>
      let r := request_ c in
      if negb (bool_decide (method_ r = kPost)) && negb (bool_decide (method_ r = kPut)) then
        Ok (MkLoop ok false (MkHttpContext kGotAll r) b)
      else
        let len_slice := GetHeader (str "Content-Length") r in
        if bool_decide (len_slice = []) then Ok (MkLoop false false c b)
        else
          let len := strtol10 len_slice in
          if negb (wrapS 64 (readable_bytes b) =? len) then Ok (MkLoop false false c b)
          else
            body ← assign b (Peek b) (Peek b + len);
            b' ← RetrieveUntil (Peek b + len) b;
            Ok (MkLoop ok false (MkHttpContext kGotAll (SetBody body r)) b')
  | kGotAll => Ok l
  end.

Fixpoint parse_while (fuel : nat) (receive_time : Z) (l : parse_loop)
    : option (outcome parse_loop) :=
  if has_more l then
    match fuel with
    | O => None
    | S fuel =>
        match parse_step receive_time l with
        | Ok l => parse_while fuel receive_time l
        | Fail f => Some (Fail f)
        end
    end
  else Some (Ok l).

(** [ParseRequest(buf, receive_time)]: the value returned, the context and the
    buffer. *)
Definition ParseRequest (fuel : nat) (receive_time : Z) (c : HttpContext) (b : Buffer)
    : option (outcome (bool * HttpContext * Buffer)) :=
  fmap (M := option) (fmap (M := outcome) (λ l, (ok l, context l, buf l)))
    (parse_while fuel receive_time (MkLoop true true c b)).

(** ** The reference parser, on byte lists *)

(** [l] cut at the first [c]. *)
Definition cut (c : ascii) (l : bytes) : option (bytes * bytes) :=
  let i := std_find c l in
  if i =? zlen l then None else Some (ztake i l, zdrop (i + 1) l).

(** The first line of [l], and what follows its CRLF. *)
Definition next_line (l : bytes) : option (bytes * bytes) :=
  let i := std_search CRLF l in
  if i =? zlen l then None else Some (ztake i l, zdrop (i + 2) l).

Definition version_of (v : bytes) : option Version :=
  if bool_decide (v = str "HTTP/1.1") then Some kHttp11
  else if bool_decide (v = str "HTTP/1.0") then Some kHttp10
  else None.

(** The target, less its first byte, as path and query ([None]: no byte). *)
Definition target_of (t : bytes) (r : HttpRequest) : option HttpRequest :=
  match cut "?"%char t with
  | Some ([], _) => None
  | Some (_ :: p, q) => Some (SetQuery ("?"%char :: q) (SetPath p r))
  | None => match t with [] => None | _ :: p => Some (SetPath p r) end
  end.

Definition request_line (line : bytes) (r : HttpRequest) : outcome (bool * HttpRequest) :=
  match cut " "%char line with
  | None => Ok (false, r)
  | Some (tok, line) =>
      cassert "method_ == kInvalid" (bool_decide (method_ r = kInvalid));;
      let r := set_method (method_of_token tok) r in
      match cut " "%char line with
      | None => Ok (false, r)
      | Some (target, v) =>
          match target_of target r with
          | None => Fail (UndefinedBehaviour "string::assign: inverted range")
          | Some r =>
              match version_of v with
              | Some v => Ok (true, SetVersion v r)
              | None => Ok (false, r)
              end
          end
      end
  end.

Definition header_line (line : bytes) (r : HttpRequest) : option HttpRequest :=
  match cut ":"%char line with
  | None => None
  | Some (field, value) =>
      Some (MkHttpRequest (method_ r) (version_ r) (path_ r) (query_ r) (receive_time_ r)
              (<[field := trim_end (drop_while isspace value)]> (headers_ r)) (body_ r))
  end.

Definition expects_body (r : HttpRequest) : bool :=
  bool_decide (method_ r = kPost) || bool_decide (method_ r = kPut).

(** What remains to be done once the empty line was read. *)
Definition finish (r : HttpRequest) (rest : bytes) : bool * HttpContext * bytes :=
  if expects_body r then
    let v := GetHeader (str "Content-Length") r in
    if negb (bool_decide (v = [])) && (strtol10 v =? zlen rest)
    then (true, MkHttpContext kGotAll (SetBody rest r), [])
    else (false, MkHttpContext kExpectBody r, rest)
  else (true, MkHttpContext kGotAll r, rest).

(** The parser on the unread bytes; the number of lines bounds its recursion. *)
Fixpoint aparse (n : nat) (t : Z) (c : HttpContext) (l : bytes)
    : outcome (bool * HttpContext * bytes) :=
  match n with
  | O => Ok (true, c, l)
  | S n =>
      match state_ c with
      | kExpectRequestLine =>
          match next_line l with
          | None => Ok (true, c, l)
          | Some (line, rest) =>
              '(ok, r) ← request_line line (request_ c);
              if ok : bool then aparse n t (MkHttpContext kExpectHeaders (SetReceiveTime t r)) rest
              else Ok (false, MkHttpContext kExpectRequestLine r, l)
          end
      | kExpectHeaders =>
          match next_line l with
          | None => Ok (true, c, l)
          | Some (line, rest) =>
              match header_line line (request_ c) with
              | Some r => aparse n t (MkHttpContext kExpectHeaders r) rest
              | None => Ok (finish (request_ c) rest)
              end
          end
      | kExpectBody => Ok (finish (request_ c) l)
      | kGotAll => Ok (true, c, l)
      end
  end.

(** The reference parser with enough recursion depth for any input. *)
Definition parse (t : Z) (c : HttpContext) (l : bytes) : outcome (bool * HttpContext * bytes) :=
  aparse (S (length l)) t c l.

(** ** The code agrees with the reference on one line *)

Lemma zlen_range b i j : 0 ≤ i ≤ j → j ≤ capacity b → zlen (range b i j) = j - i.
Proof. intros. unfold range, capacity in *. rewrite zlen_zsub; lia. Qed.

Lemma zdrop_range b i j k : 0 ≤ i → 0 ≤ k ≤ j - i → zdrop k (range b i j) = range b (i + k) j.
Proof. intros. unfold range. rewrite zdrop_zsub by lia. f_equal. lia. Qed.

Lemma ztake_range b i j k : 0 ≤ i → 0 ≤ k ≤ j - i → ztake k (range b i j) = range b i (i + k).
Proof. intros. unfold range. rewrite ztake_zsub by lia. f_equal. lia. Qed.

Lemma range_app b i j k : 0 ≤ i → i ≤ j → j ≤ k → range b i k = range b i j ++ range b j k.
Proof.
  intros. unfold range. replace (k - i) with ((j - i) + (k - j)) by lia.
  rewrite zsub_app by lia. do 2 f_equal. lia.
Qed.

Lemma range_nil b i : range b i i = [].
Proof. unfold range. apply zsub_0. lia. Qed.

(** A search in the block is a cut of the list. *)
Lemma cut_range c b i j :
  0 ≤ i ≤ j → j ≤ capacity b →
  let k := i + std_find c (range b i j) in
  i ≤ k ≤ j ∧
  cut c (range b i j) = if k =? j then None else Some (range b i k, range b (k + 1) j).
Proof.
  intros Hi Hj k. pose proof (std_find_bound c (range b i j)) as Hb.
  pose proof (zlen_range b i j Hi Hj) as Hl. subst k. split; [lia|].
  unfold cut. rewrite Hl. replace (std_find c (range b i j) =? j - i)
    with (i + std_find c (range b i j) =? j) by lia.
  destruct (Z.eqb_spec (i + std_find c (range b i j)) j); [done|].
  rewrite ztake_range, zdrop_range by lia. do 3 f_equal. lia.
Qed.

Lemma cut_spec c l l1 l2 : cut c l = Some (l1, l2) → l = l1 ++ c :: l2 ∧ c ∉ l1.
Proof.
  unfold cut. pose proof (std_find_bound c l).
  destruct (Z.eqb_spec (std_find c l) (zlen l)); [done|]. intros [= <- <-].
  split; [apply std_find_split; lia | apply std_find_notin].
Qed.

Lemma cut_none c l : cut c l = None ↔ c ∉ l.
Proof.
  unfold cut. rewrite <-std_find_absent.
  destruct (Z.eqb_spec (std_find c l) (zlen l)); naive_solver.
Qed.

Lemma cut_app c l1 l2 : c ∉ l1 → cut c (l1 ++ c :: l2) = Some (l1, l2).
Proof.
  intros H. unfold cut. rewrite std_find_app_cons by done.
  autorewrite with zlen. pose proof (zlen_nonneg l2). pose proof (zlen_nonneg l1).
  replace (_ =? _) with false by lia.
  rewrite ztake_app, ztake_all, ztake_0, app_nil_r by lia.
  rewrite zdrop_app, zdrop_all by lia. rewrite app_nil_l. do 2 f_equal.
  by replace (zlen l1 + 1 - zlen l1) with 1 by lia.
Qed.

(** The target between two offsets of the block. *)
Lemma target_of_range b i j r :
  0 ≤ i ≤ j → j ≤ capacity b →
  (let q := i + std_find "?"%char (range b i j) in
   if negb (q =? j) then
     p ← assign b (i + 1) q; q ← assign b q j; Ok (SetQuery q (SetPath p r))
   else p ← assign b (i + 1) j; Ok (SetPath p r))
  = match target_of (range b i j) r with
    | Some r => Ok r
    | None => Fail (UndefinedBehaviour "string::assign: inverted range")
    end.
Proof.
  intros Hi Hj. destruct (cut_range "?"%char b i j Hi Hj) as [Hq Hc].
  pose proof (std_find_split "?"%char (range b i j)) as Hs.
  rewrite zlen_range in Hs by done. unfold target_of. rewrite Hc. clear Hc.
  set (k := std_find "?"%char (range b i j)) in *. cbn zeta in *. unfold assign.
  destruct (Z.eqb_spec (i + k) j); cbn [negb].
  - destruct (Z.leb_spec (i + 1) j).
    + rewrite (range_app b i (i + 1) j) by lia.
      pose proof (zlen_range b i (i + 1)) as Hl.
      destruct (range b i (i + 1)) as [|x [|]]; autorewrite with zlen in Hl; try lia; [done|].
      pose proof (zlen_nonneg l). lia.
    + assert (i = j) as <- by lia. by rewrite range_nil.
  - replace (i + k <=? j) with true by lia.
    destruct (Z.leb_spec (i + 1) (i + k)); cbn [mbind outcome_bind].
    + rewrite (range_app b i (i + 1) (i + k)) by lia.
      pose proof (zlen_range b i (i + 1)) as Hl.
      destruct (range b i (i + 1)) as [|x [|]]; autorewrite with zlen in Hl; try lia.
      2: { pose proof (zlen_nonneg l). lia. }
      cbn [app]. do 2 f_equal. rewrite <-zdrop_range by lia. rewrite Hs at 1 by lia.
      rewrite zdrop_app, zlen_ztake by (rewrite ?zlen_range; lia).
      rewrite zdrop_all, zdrop_0 by (rewrite ?zlen_ztake; rewrite ?zlen_range; lia).
      rewrite app_nil_l, zdrop_range by lia. do 2 f_equal. lia.
    + replace (i + k) with i by lia. by rewrite range_nil.
Qed.

Lemma version_of_range b i j :
  0 ≤ i ≤ j → j ≤ capacity b →
  version_of (range b i j) =
  (if (j - i =? 8) && bool_decide (range b i (j - 1) = str "HTTP/1.") then
     if bool_decide (range b (j - 1) j = str "1") then Some kHttp11
     else if bool_decide (range b (j - 1) j = str "0") then Some kHttp10 else None
   else None).
Proof.
  intros Hi Hj. pose proof (zlen_range b i j Hi Hj) as Hl. unfold version_of.
  destruct (Z.eqb_spec (j - i) 8); cbn [andb].
  - pose proof (zlen_range b i (j - 1)) as Hl1. pose proof (zlen_range b (j - 1) j) as Hl2.
    assert (∀ v w : bytes, zlen v = 7 →
      (range b i j = v ++ w ↔ range b i (j - 1) = v ∧ range b (j - 1) j = w)) as Hsplit.
    { intros v w Hv. rewrite (range_app b i (j - 1) j) by lia. split.
      - intros E. apply app_inj_1 in E; [done|]. unfold zlen in *. lia.
      - by intros [-> ->]. }
    change (str "HTTP/1.1") with (str "HTTP/1." ++ str "1").
    change (str "HTTP/1.0") with (str "HTTP/1." ++ str "0").
    rewrite (bool_decide_ext _ _ (Hsplit (str "HTTP/1.") (str "1") eq_refl)).
    rewrite (bool_decide_ext _ _ (Hsplit (str "HTTP/1.") (str "0") eq_refl)).
    rewrite !bool_decide_and. by destruct (bool_decide (range b i (j - 1) = _)).
  - rewrite !bool_decide_false; [done|..]; intros E; rewrite E in Hl; change (8 = j - i) in Hl; lia.
Qed.

Lemma ProcessRequestLine_spec b begin end_ r :
  0 ≤ begin ≤ end_ → end_ ≤ capacity b → begin + 7 ≤ capacity b →
  ProcessRequestLine b begin end_ r = request_line (range b begin end_) r.
Proof.
  intros Hb He Hslack. unfold ProcessRequestLine, request_line.
  destruct (cut_range " "%char b begin end_ Hb He) as [Hk Hc].
  pose proof (std_find_split " "%char (range b begin end_)) as Hsp.
  rewrite zlen_range in Hsp by done. rewrite Hc.
  set (k := begin + std_find " "%char (range b begin end_)) in *.
  destruct (Z.eqb_spec k end_) as [|Hne]; cbn [negb]; [done|].
  assert (zdrop begin (mem b) = range b begin k ++ " "%char :: zdrop (k + 1) (mem b)) as Hblk.
  { transitivity (range b begin end_ ++ zdrop end_ (mem b)).
    - unfold range, zsub. rewrite <-(ztake_zdrop (end_ - begin) (zdrop begin (mem b))) at 1.
      rewrite zdrop_zdrop by lia. do 2 f_equal. lia.
    - rewrite Hsp by lia. rewrite ztake_range, zdrop_range by lia.
      fold k. rewrite <-app_assoc. cbn [app]. do 2 f_equal.
      replace (begin + (std_find " "%char (range b begin end_) + 1)) with (k + 1) by lia.
      unfold range, zsub. rewrite <-(ztake_zdrop (end_ - (k + 1)) (zdrop (k + 1) (mem b))) at 2.
      rewrite zdrop_zdrop by lia. do 2 f_equal. lia. }
  assert (zlen (zdrop begin (mem b)) = capacity b - begin) as Hzl
    by (apply zlen_zdrop; unfold capacity in *; lia).
  destruct (decide (method_ r = kInvalid)) as [Hm|Hm];
    [rewrite (bool_decide_true (method_ r = kInvalid)) by done
    | unfold SetMethod; by rewrite !(bool_decide_false (method_ r = kInvalid)) by done].
  cbn [cassert mbind outcome_bind].
  rewrite Hblk, SetMethod_spec; [|done|rewrite <-Hblk; lia].
  cbn [mbind outcome_bind].
  destruct (cut_range " "%char b (k + 1) end_) as [Hk2 Hc2]; [lia|done|].
  rewrite Hc2. set (k2 := k + 1 + std_find " "%char (range b (k + 1) end_)) in *.
  destruct (Z.eqb_spec k2 end_); cbn [negb]; [done|].
  pose proof (target_of_range b (k + 1) k2 (set_method (method_of_token (range b begin k)) r)) as Ht.
  cbn zeta in Ht. rewrite Ht by lia. destruct (target_of _ _) as [r'|]; cbn [mbind outcome_bind]; [|done].
  rewrite (version_of_range b (k2 + 1) end_) by lia.
  destruct (_ && _); [|done]. do 2 (case_bool_decide; [done|]). done.
Qed.

(** ** The loop agrees with the reference *)

Lemma next_line_spec l line rest :
  next_line l = Some (line, rest) → l = line ++ CRLF ++ rest ∧ zlen line = std_search CRLF l.
Proof.
  unfold next_line. pose proof (std_search_bound CRLF l).
  destruct (Z.eqb_spec (std_search CRLF l) (zlen l)); [done|]. intros [= <- <-].
  split; [apply (std_search_found CRLF l); lia | rewrite zlen_ztake; lia].
Qed.

(** A line that was complete is the same line when more input follows. *)
Lemma next_line_more l line rest more :
  next_line l = Some (line, rest) → next_line (l ++ more) = Some (line, rest ++ more).
Proof.
  unfold next_line. pose proof (std_search_bound CRLF l). pose proof (zlen_nonneg more).
  destruct (Z.eqb_spec (std_search CRLF l) (zlen l)); [done|]. intros [= <- <-].
  rewrite std_search_app by lia. rewrite zlen_app.
  pose proof (std_search_fits CRLF l ltac:(lia)) as Hf. change (zlen CRLF) with 2 in Hf.
  replace (_ =? _) with false by lia.
  rewrite ztake_app, (ztake_0 (_ - zlen l)), app_nil_r by lia.
  by rewrite zdrop_app, (zdrop_0 (_ - zlen l)) by lia.
Qed.

(** A line without a CRLF is found up to the CRLF put behind it. *)
Lemma next_line_print line rest :
  CR ∉ line → next_line (line ++ CRLF ++ rest) = Some (line, rest).
Proof.
  intros Hn. assert (std_search CRLF (line ++ CRLF ++ rest) = zlen line) as Hs.
  { induction line as [|x line IH].
    - cbn -[starts_with]. by replace (starts_with CRLF (CR :: LF :: rest)) with true
        by (symmetry; apply starts_with_spec; by exists rest).
    - change (std_search CRLF ((x :: line) ++ CRLF ++ rest))
        with (if starts_with CRLF (x :: line ++ CRLF ++ rest) then 0
              else 1 + std_search CRLF (line ++ CRLF ++ rest)).
      destruct (starts_with CRLF (x :: line ++ CRLF ++ rest)) eqn:E.
      + apply starts_with_spec in E as [t [= -> _]]. set_solver.
      + rewrite IH by set_solver. autorewrite with zlen. lia. }
  unfold next_line. rewrite Hs. pose proof (zlen_nonneg rest). pose proof (zlen_nonneg line).
  autorewrite with zlen. change (zlen CRLF) with 2.
  replace (_ =? _) with false by lia.
  rewrite ztake_app, ztake_all, ztake_0, app_nil_r by lia.
  rewrite zdrop_app, zdrop_all by lia. rewrite app_nil_l.
  by replace (zlen line + 2 - zlen line) with 2 by lia.
Qed.

Lemma FindCrlf_next_line b :
  good b →
  match next_line (contents b) with
  | None => FindCrlf b = None
  | Some (line, rest) =>
      ∃ p b', FindCrlf b = Some p ∧ range b (Peek b) p = line ∧ Peek b ≤ p ∧ p ≤ capacity b ∧
        RetrieveUntil (p + 2) b = Ok b' ∧ good b' ∧ contents b' = rest ∧
        writer_index_ b' ≤ writer_index_ b
  end.
Proof.
  intros Hg. pose proof (good_wf _ Hg) as Hwf. rewrite FindCrlf_spec by done. unfold next_line.
  pose proof (std_search_bound CRLF (contents b)). pose proof (std_search_fits CRLF (contents b)) as Hf.
  change (zlen CRLF) with 2 in Hf. rewrite zlen_contents, readable_bytes_wf in * by done.
  set (i := std_search CRLF (contents b)) in *.
  destruct (Z.eqb_spec i (writer_index_ b - reader_index_ b)); [done|].
  destruct (RetrieveUntil_good (reader_index_ b + i + 2) b) as (b' & Hr & ? & Hc & ?); [done|lia|].
  exists (reader_index_ b + i), b'. split; [done|]. destruct Hwf. split.
  - unfold contents, Peek. rewrite ztake_range by lia. done.
  - unfold Peek, capacity in *. do 3 (split; [lia || done|]).
    split; [done|]. split; [|done]. rewrite Hc. f_equal. lia.
Qed.

(** The request line needs [SetMethod]'s seven bytes in the block. *)
Definition slack (c : HttpContext) (b : Buffer) : Prop :=
  state_ c = kExpectRequestLine → Peek b + 7 ≤ capacity b.

(** What a run of the loop must look like, given the reference's answer. *)
Definition agrees (m : option (outcome parse_loop)) (b : Buffer)
    (s : outcome (bool * HttpContext * bytes)) : Prop :=
  match s with
  | Ok (ok', c', rest) =>
      ∃ b', m = Some (Ok (MkLoop ok' false c' b')) ∧ good b' ∧ contents b' = rest ∧
            writer_index_ b' ≤ writer_index_ b ∧ slack c' b'
  | Fail f => m = Some (Fail f)
  end.

Lemma agrees_le m b b1 s : agrees m b1 s → writer_index_ b1 ≤ writer_index_ b → agrees m b s.
Proof.
  destruct s as [[[? ?] ?]|]; cbn; [|done]. intros (b' & ? & ? & ? & ? & ?) ?.
  exists b'. do 3 (split; [done|]). split; [lia|done].
Qed.

Lemma parse_while_stop fuel t ok c b : parse_while fuel t (MkLoop ok false c b) = Some (Ok (MkLoop ok false c b)).
Proof. by destruct fuel. Qed.

Lemma parse_while_step fuel t ok c b :
  parse_while (S fuel) t (MkLoop ok true c b) =
  match parse_step t (MkLoop ok true c b) with
  | Ok l => parse_while fuel t l
  | Fail f => Some (Fail f)
  end.
Proof. done. Qed.

Lemma parse_body_agrees fuel t r b :
  good b →
  agrees (parse_while (S fuel) t (MkLoop true true (MkHttpContext kExpectBody r) b)) b
    (Ok (finish r (contents b))).
Proof.
  intros Hg. pose proof (good_wf _ Hg) as Hwf. rewrite parse_while_step.
  unfold parse_step, finish, expects_body; cbn [state_ request_].
  rewrite <-negb_orb. destruct (_ || _); cbn [negb].
  2: { rewrite parse_while_stop. cbn. by exists b. }
  destruct (bool_decide (_ = [])); cbn [negb andb].
  { rewrite parse_while_stop. cbn. by exists b. }
  set (len := strtol10 _). pose proof (zlen_contents b Hwf) as Hz.
  assert (0 ≤ readable_bytes b < 2 ^ 63) as Hrb
    by (rewrite readable_bytes_wf by done; buf; lia).
  rewrite wrapS_small by lia. rewrite Hz, (Z.eqb_sym len).
  destruct (Z.eqb_spec (readable_bytes b) len) as [He|]; cbn [negb].
  2: { rewrite parse_while_stop. cbn. by exists b. }
  unfold assign. replace (Peek b <=? Peek b + len) with true by lia.
  rewrite readable_bytes_wf in He by done. cbn [mbind outcome_bind].
  destruct (RetrieveUntil_good (Peek b + len) b) as (b' & -> & ? & Hc & ?);
    [done|unfold Peek; buf; lia|].
  cbn [mbind outcome_bind]. rewrite parse_while_stop. cbn.
  exists b'. split; [|split; [done|split; [|done]]].
  - do 6 f_equal. unfold contents, Peek. f_equal. lia.
  - rewrite Hc, zdrop_all; [done|]. rewrite zlen_contents, readable_bytes_wf by done.
    unfold Peek. lia.
Qed.

Lemma parse_while_agrees n fuel t c b :
  good b → slack c b → state_ c ≠ kGotAll → (length (contents b) < n)%nat → (n < fuel)%nat →
  agrees (parse_while fuel t (MkLoop true true c b)) b (aparse n t c (contents b)).
Proof.
  revert fuel c b. induction n as [|n IH]; intros fuel c b Hg Hs Hst Hn Hf; [lia|].
  destruct fuel as [|fuel]; [lia|]. pose proof (good_wf _ Hg) as [].
  pose proof (FindCrlf_next_line b Hg) as Hnl. pose proof (next_line_spec (contents b)) as Hlen.
  destruct c as [st r]. cbn [state_] in *. destruct st; [| | |done]; cbn [aparse state_].
  - rewrite parse_while_step; cbn [parse_step state_ request_ mbind outcome_bind].
    destruct (next_line (contents b)) as [[line rest]|].
    2: { rewrite Hnl, parse_while_stop. cbn. by exists b. }
    destruct (Hlen line rest eq_refl) as [Hl _].
    destruct Hnl as (p & b' & -> & Hline & Hp1 & Hp2 & Hret & Hg' & Hc' & Hw').
    rewrite ProcessRequestLine_spec, Hline by (unfold Peek in *; try apply (Hs eq_refl); lia).
    destruct (request_line line r) as [[[] r']|f]; cbn [mbind outcome_bind].
    + rewrite Hret. cbn [mbind outcome_bind].
      apply (agrees_le _ _ b'); [|done]. rewrite <-Hc'. apply IH; [done|done|done| |lia].
      rewrite Hl, !length_app in Hn. cbn in Hn. rewrite Hc'. lia.
    + rewrite parse_while_stop. cbn. by exists b.
    + done.
  - rewrite parse_while_step; cbn [parse_step state_ request_ mbind outcome_bind].
    destruct (next_line (contents b)) as [[line rest]|].
    2: { rewrite Hnl, parse_while_stop. cbn. by exists b. }
    destruct (Hlen line rest eq_refl) as [Hl _].
    destruct Hnl as (p & b' & -> & Hline & Hp1 & Hp2 & Hret & Hg' & Hc' & Hw').
    rewrite Hret. cbn [mbind outcome_bind].
    destruct (cut_range ":"%char b (Peek b) p) as [Hk Hcut]; [unfold Peek in *; lia|done|].
    unfold header_line. rewrite <-Hline, Hcut.
    set (k := std_find ":"%char (range b (Peek b) p)) in *.
    apply (agrees_le _ _ b'); [|done].
    destruct (Z.eqb_spec (Peek b + k) p); cbn [negb].
    + rewrite <-Hc'. destruct fuel as [|fuel]; [lia|]. by apply parse_body_agrees.
    + replace (Peek b + k - Peek b) with k by lia.
      unfold AddHeader. rewrite ztake_range, zdrop_range by (unfold Peek in *; lia).
      replace (Peek b + (k + 1)) with (Peek b + k + 1) by lia.
      rewrite <-Hc'. apply IH; [done|done|done| |lia].
      rewrite Hl, !length_app in Hn. cbn in Hn. rewrite Hc'. lia.
  - by apply parse_body_agrees.
Qed.

Lemma ParseRequest_agrees fuel t c b :
  good b → slack c b → state_ c ≠ kGotAll → (length (contents b) + 2 ≤ fuel)%nat →
  match parse t c (contents b) with
  | Ok (ok, c', rest) =>
      ∃ b', ParseRequest fuel t c b = Some (Ok (ok, c', b')) ∧ good b' ∧ contents b' = rest ∧
            writer_index_ b' ≤ writer_index_ b ∧ slack c' b'
  | Fail f => ParseRequest fuel t c b = Some (Fail f)
  end.
Proof.
  intros Hg Hs Hst Hf. unfold parse, ParseRequest.
  pose proof (parse_while_agrees (S (length (contents b))) fuel t c b Hg Hs Hst) as Ha.
  destruct (aparse _ t c _) as [[[ok' c'] rest]|f].
  - destruct Ha as (b' & -> & ?); [lia..|]. by exists b'.
  - by rewrite Ha by lia.
Qed.

(** C5: the parser on the buffer refines the reference parser on the bytes,
    and terminates.  From a context that still expects input, [ParseRequest]
    returns after at most two iterations more than there are unread bytes; its
    answer, the context and the bytes it leaves are those of [parse], and when
    [parse] stops the program, so does the code, for the same reason. *)
Theorem parse_request_refines fuel t c b :
  good b → slack c b → state_ c ≠ kGotAll → (length (contents b) + 2 ≤ fuel)%nat →
  match parse t c (contents b) with
  | Ok (ok, c', rest) =>
      ∃ b', ParseRequest fuel t c b = Some (Ok (ok, c', b')) ∧ good b' ∧ contents b' = rest
  | Fail f => ParseRequest fuel t c b = Some (Fail f)
  end.
Proof.
  intros Hg Hs Hst Hf. pose proof (ParseRequest_agrees fuel t c b Hg Hs Hst Hf) as Ha.
  destruct (parse t c _) as [[[ok' c'] rest]|f]; [|done].
  destruct Ha as (b' & ? & ? & ? & _). by exists b'.
Qed.

(** A buffer of 32 bytes that was given the bytes [l]. *)
Definition sample_buffer (l : bytes) : Buffer :=
  match (b ← Buffer_new 32; Append l b) with Ok b => b | Fail _ => MkBuffer [] 0 0 0 end.

(** A request that arrives in one piece. *)
Lemma parse_request_refines_witness :
  ∃ b', ParseRequest 23 7 HttpContext_new (sample_buffer (str "GET /a?b HTTP/1.0" ++ CRLF ++ CRLF))
    = Some (Ok (true, MkHttpContext kGotAll
                        (MkHttpRequest kGet kHttp10 (str "a") (str "?b") 7 ∅ []), b')).
Proof.
  set (b := sample_buffer _).
  pose proof (parse_request_refines 23 7 HttpContext_new b) as H.
  assert (parse 7 HttpContext_new (contents b) =
    Ok (true, MkHttpContext kGotAll (MkHttpRequest kGet kHttp10 (str "a") (str "?b") 7 ∅ []), []))
    as E by (vm_compute; reflexivity).
  rewrite E in H. destruct H as (b' & H & _); [| | | |by exists b'].
  - split; [|done..]. apply (bool_decide_unpack _). vm_compute. exact I.
  - intros _. vm_compute. discriminate.
  - discriminate.
  - vm_compute. lia.
Defined.

(** In state [kGotAll] no branch of the loop clears [has_more]. *)
Lemma parse_request_got_all_diverges fuel t c b : state_ c = kGotAll → ParseRequest fuel t c b = None.
Proof.
  intros Hc. unfold ParseRequest.
  assert (∀ l, has_more l = true → state_ (context l) = kGotAll → parse_while fuel t l = None) as H.
  { induction fuel as [|fuel IH]; intros [ok more c' b'] Hm Hs; cbn in *; subst more; [done|].
    rewrite Hs. by apply IH. }
  by rewrite H.
Qed.

(** C8: the parser's loop ends exactly when the context still expects input.
    Whatever bytes are in the buffer, [ParseRequest] returns, after at most two
    iterations more than there are unread bytes, unless the context already
    holds a complete request; then no number of iterations is enough, so a
    context must be reset before it sees more input. *)
Theorem parse_request_terminates_iff t c b :
  good b → slack c b →
  (state_ c ≠ kGotAll ↔ ParseRequest (length (contents b) + 2) t c b ≠ None) ∧
  (state_ c = kGotAll ↔ ∀ fuel, ParseRequest fuel t c b = None).
Proof.
  intros Hg Hs.
  assert (state_ c ≠ kGotAll → ParseRequest (length (contents b) + 2) t c b ≠ None) as Hret.
  { intros Hst. pose proof (ParseRequest_agrees (length (contents b) + 2) t c b Hg Hs Hst ltac:(lia)) as Ha.
    destruct (parse t c (contents b)) as [[[ok c'] rest]|f]; [destruct Ha as (b' & -> & _)|rewrite Ha]; done. }
  pose proof (parse_request_got_all_diverges (length (contents b) + 2) t c b) as Hdiv.
  split; split; try done.
  - intros Hne Hst. by apply Hne, Hdiv.
  - intros Hst fuel. by apply parse_request_got_all_diverges.
  - intros Hall. destruct (decide (state_ c = kGotAll)) as [|Hst]; [done|]. by destruct (Hret Hst).
Qed.

Lemma parse_request_terminates_iff_witness :
  ParseRequest 6 0 HttpContext_new (sample_buffer (str "GET ")) ≠ None ∧
  ∀ fuel, ParseRequest fuel 0 (MkHttpContext kGotAll HttpRequest_new) (sample_buffer []) = None.
Proof.
  assert (good (sample_buffer (str "GET ")) ∧ good (sample_buffer [])) as [Hg1 Hg2]
    by (split; (split; [|done..]); apply (bool_decide_unpack _); vm_compute; exact I).
  split.
  - apply (proj1 (parse_request_terminates_iff 0 HttpContext_new (sample_buffer (str "GET ")) Hg1
      ltac:(intros _; vm_compute; discriminate))). discriminate.
  - apply (proj2 (parse_request_terminates_iff 0 (MkHttpContext kGotAll HttpRequest_new) (sample_buffer []) Hg2
      ltac:(discriminate))). reflexivity.
Defined.

(** ** The grammar of the request line *)

Definition version_bytes (v : Version) : bytes :=
  match v with
  | kHttp11 => str "HTTP/1.1"
  | kHttp10 => str "HTTP/1.0"
  | kUnknown => []
  end.

(** [tok SP target SP version], the target one byte, a path without [?] and an
    optional query that starts with [?]. *)
Inductive request_line_of (r : HttpRequest) : bytes → HttpRequest → Prop :=
| RequestLine tok x path query version :
    " "%char ∉ tok → " "%char ∉ x :: path ++ query → "?"%char ∉ x :: path →
    query = [] ∨ (∃ q, query = "?"%char :: q) →
    version ≠ kUnknown → method_ r = kInvalid →
    request_line_of r
      (tok ++ " "%char :: (x :: path ++ query) ++ " "%char :: version_bytes version)
      (MkHttpRequest (method_of_token tok) version path
         (if bool_decide (query = []) then query_ r else query)
         (receive_time_ r) (headers_ r) (body_ r)).

Lemma version_of_spec v ver : version_of v = Some ver ↔ (v = version_bytes ver ∧ ver ≠ kUnknown).
Proof.
  unfold version_of. split.
  - repeat case_bool_decide; intros [= <-]; done.
  - by intros [-> ?]; destruct ver.
Qed.

Lemma target_of_spec t r r' :
  target_of t r = Some r' ↔
  ∃ x p q, t = x :: p ++ q ∧ ("?"%char ∉ x :: p) ∧ (q = [] ∨ (∃ q', q = "?"%char :: q')) ∧
    r' = if bool_decide (q = []) then SetPath p r else SetQuery q (SetPath p r).
Proof.
  unfold target_of. split.
  - destruct (cut "?"%char t) as [[[|x p] q]|] eqn:E; [done|intros [= <-]|].
    + apply cut_spec in E as [-> ?]. exists x, p, ("?"%char :: q).
      split; [done|]. split; [done|]. split; [by right; exists q|done].
    + apply cut_none in E. destruct t as [|x p]; [done|intros [= <-]].
      exists x, p, []. rewrite app_nil_r. split; [done|]. split; [done|]. by split; [left|].
  - intros (x & p & q & -> & Hn & [->|[q' ->]] & ->).
    + rewrite app_nil_r. by rewrite (proj2 (cut_none "?"%char (x :: p)) Hn).
    + change (x :: p ++ "?"%char :: q') with ((x :: p) ++ "?"%char :: q').
      by rewrite cut_app.
Qed.

Lemma request_line_spec line r r' :
  request_line line r = Ok (true, r') ↔ request_line_of r line r'.
Proof.
  unfold request_line. split.
  - destruct (cut " "%char line) as [[tok l1]|] eqn:E1; [|done].
    apply cut_spec in E1 as [-> Hn1]. case_bool_decide as Hm; cbn [cassert mbind outcome_bind]; [|done].
    destruct (cut " "%char l1) as [[target v]|] eqn:E2; [|done].
    apply cut_spec in E2 as [-> Hn2].
    destruct (target_of target _) as [r1|] eqn:Et; [|done].
    apply target_of_spec in Et as (x & p & q & -> & Hq & Hqm & Hr1).
    destruct (version_of v) as [ver|] eqn:Ev; [|done].
    apply version_of_spec in Ev as [-> Hk]. intros [= <-].
    assert (SetVersion ver r1 = MkHttpRequest (method_of_token tok) ver p
      (if bool_decide (q = []) then query_ r else q) (receive_time_ r) (headers_ r) (body_ r)) as ->
      by (rewrite Hr1; by case_bool_decide).
    by constructor.
  - intros [tok x p q ver Hn1 Hn2 Hq Hqm Hk Hm].
    rewrite cut_app by done. rewrite bool_decide_true by done. cbn [cassert mbind outcome_bind].
    rewrite cut_app by done.
    erewrite (proj2 (target_of_spec (x :: p ++ q) _ _));
      [|exists x, p, q; split; [done|]; split; [done|]; split; [done|reflexivity]].
    erewrite (proj2 (version_of_spec _ ver)) by done. by case_bool_decide.
Qed.

(** C24: the accepted request lines are exactly those of the grammar.
    [ProcessRequestLine] answers [true] on the bytes between two offsets of
    the block if and only if they are a method token, a space, a target of at
    least one byte other than a question mark, a space and a known version; the request then
    holds the method whose name starts the token, the target without its first
    byte up to the question mark, the query with its question mark, and the
    version. *)
Theorem process_request_line_grammar b begin end_ r r' :
  0 ≤ begin ≤ end_ → end_ ≤ capacity b → begin + 7 ≤ capacity b →
  ProcessRequestLine b begin end_ r = Ok (true, r') ↔ request_line_of r (range b begin end_) r'.
Proof. intros. rewrite ProcessRequestLine_spec by done. apply request_line_spec. Qed.

(** [POSTAL] counts as [POST]. *)
Lemma process_request_line_grammar_witness :
  request_line_of HttpRequest_new (str "POSTAL /x/y?z=1 HTTP/1.1")
    (MkHttpRequest kPost kHttp11 (str "x/y") (str "?z=1") 0 ∅ []).
Proof.
  apply (process_request_line_grammar
    (MkBuffer (str "POSTAL /x/y?z=1 HTTP/1.1") 24 0 24) 0 24 HttpRequest_new).
  - lia.
  - vm_compute. discriminate.
  - vm_compute. discriminate.
  - vm_compute. reflexivity.
Defined.

(** ** Input that arrives in pieces *)

(** A context with another receive time. *)
Definition retime (s : Z) (c : HttpContext) : HttpContext :=
  MkHttpContext (state_ c) (SetReceiveTime s (request_ c)).

(** An answer of the parser, less the receive time. *)
Definition untimed (o : outcome (bool * HttpContext * bytes)) : outcome (bool * HttpContext * bytes) :=
  '(ok, c, rest) ← o; Ok (ok, retime 0 c, rest).

Lemma request_line_retime line s r :
  request_line line (SetReceiveTime s r) =
  ('(ok, r) ← request_line line r; Ok (ok, SetReceiveTime s r)).
Proof.
  unfold request_line, target_of.
  destruct (cut " "%char line) as [[tok l]|]; [|done].
  cbn [method_ SetReceiveTime].
  destruct (bool_decide (method_ r = kInvalid)); cbn [cassert mbind outcome_bind]; [|done].
  destruct (cut " "%char l) as [[target v]|]; [|done].
  destruct (cut "?"%char target) as [[[|x p] q]|]; [done| |destruct target; [done|]];
    by destruct (version_of v).
Qed.

Lemma header_line_retime line s r :
  header_line line (SetReceiveTime s r) = SetReceiveTime s <$> header_line line r.
Proof. unfold header_line. by destruct (cut _ line) as [[]|]. Qed.

Lemma aparse_retime n t t' s c l :
  untimed (aparse n t' (retime s c) l) = untimed (aparse n t c l).
Proof.
  revert t t' s c l. induction n as [|n IH]; intros t t' s [st r] l; [done|].
  assert (∀ l, untimed (Ok (finish (SetReceiveTime s r) l)) = untimed (Ok (finish r l))) as Hfin.
  { intros l'. unfold finish, expects_body, GetHeader; cbn [method_ headers_ SetReceiveTime].
    by repeat case_match. }
  destruct st; cbn [aparse retime state_ request_]; [| |apply Hfin|done].
  - destruct (next_line l) as [[line rest]|]; [|done]. rewrite request_line_retime.
    destruct (request_line line r) as [[[] r']|]; [|done..].
    exact (IH t t' t' (MkHttpContext kExpectHeaders (SetReceiveTime t r')) rest).
  - destruct (next_line l) as [[line rest]|]; [|done]. rewrite header_line_retime.
    destruct (header_line line r) as [r'|]; [|apply Hfin].
    exact (IH t t' s (MkHttpContext kExpectHeaders r') rest).
Qed.

(** More depth than there are bytes changes nothing. *)
Lemma aparse_fuel m m' t c l :
  (length l < m)%nat → (length l < m')%nat → aparse m t c l = aparse m' t c l.
Proof.
  revert m' c l. induction m as [|m IH]; intros [|m'] [st r] l ? ?; [lia..|].
  destruct st; cbn [aparse state_ request_]; [| |done..];
    destruct (next_line l) as [[line rest]|] eqn:E; [|done| |done];
    apply next_line_spec in E as [-> _]; rewrite !length_app in *; cbn in *.
  - destruct (request_line line r) as [[[] r']|]; [apply IH; lia|done..].
  - destruct (header_line line r); [apply IH; lia|done].
Qed.

Lemma finish_prefix r x more cf rf :
  expects_body (request_ cf) = false → finish r (x ++ more) = (true, cf, rf) →
  finish r x = (true, cf, x) ∧ rf = x ++ more.
Proof.
  intros Hnb. unfold finish. destruct (expects_body r) eqn:Eb; [|by intros [= <- <-]].
  destruct (_ && _); [|done]. intros [= <- <-].
  change (expects_body r = false) in Hnb. congruence.
Qed.

(** A parse that will end in a complete request without a body, cut anywhere:
    the first part is accepted, and leaves the parser where the second part
    continues, or done. *)
Lemma aparse_prefix n m t c l more cf rf :
  (length l < n)%nat → (length (l ++ more) < m)%nat → state_ c ≠ kGotAll →
  aparse m t c (l ++ more) = Ok (true, cf, rf) →
  state_ cf = kGotAll → expects_body (request_ cf) = false →
  ∃ c' rest, aparse n t c l = Ok (true, c', rest) ∧ (length rest ≤ length l)%nat ∧
    ((c' = cf ∧ rf = rest ++ more) ∨
     (state_ c' ≠ kGotAll ∧
      ∀ m', (length (rest ++ more) < m')%nat → aparse m' t c' (rest ++ more) = Ok (true, cf, rf))).
Proof.
  intros Hn Hm Hst Hw Hall Hnb. revert m c l Hn Hm Hst Hw.
  induction n as [|n IH]; intros m c l Hn Hm Hst Hw; [lia|].
  destruct m as [|m]; [lia|]. destruct c as [st r]; destruct st; cbn [aparse state_ request_] in *; [| | |done].
  - destruct (next_line l) as [[line rest]|] eqn:E.
    + rewrite (next_line_more _ _ _ more E) in Hw. apply next_line_spec in E as [-> _].
      rewrite !length_app in Hn, Hm. cbn in Hn, Hm.
      destruct (request_line line r) as [[[] r']|]; cbn [mbind outcome_bind] in *; [|done..].
      destruct (IH m (MkHttpContext kExpectHeaders (SetReceiveTime t r')) rest)
        as (c' & rest' & ? & ? & ?); [lia|rewrite length_app; lia|done..|].
      exists c', rest'. split; [done|]. split; [rewrite !length_app; lia|done].
    + exists (MkHttpContext kExpectRequestLine r), l. do 2 (split; [done|]). right. split; [done|].
      intros m' Hm'. by rewrite <-(aparse_fuel (S m) m').
  - destruct (next_line l) as [[line rest]|] eqn:E.
    + rewrite (next_line_more _ _ _ more E) in Hw. apply next_line_spec in E as [-> _].
      rewrite !length_app in Hn, Hm. cbn in Hn, Hm.
      destruct (header_line line r) as [r'|].
      * destruct (IH m (MkHttpContext kExpectHeaders r') rest)
          as (c' & rest' & ? & ? & ?); [lia|rewrite length_app; lia|done..|].
        exists c', rest'. split; [done|]. split; [rewrite !length_app; lia|done].
      * injection Hw as Hw. destruct (finish_prefix _ _ _ _ _ Hnb Hw) as [-> ->].
        exists cf, rest. split; [done|]. split; [rewrite !length_app; lia|by left].
    + exists (MkHttpContext kExpectHeaders r), l. do 2 (split; [done|]). right. split; [done|].
      intros m' Hm'. by rewrite <-(aparse_fuel (S m) m').
  - injection Hw as Hw. destruct (finish_prefix _ _ _ _ _ Hnb Hw) as [-> ->]. exists cf, l. by split; [|split; [|left]].
Qed.

(** The read path of a connection while a request is incomplete: each segment
    is read into the buffer and parsed at its receive time; it stops when the
    request is complete or refused. The last component of the answer is the
    segments not read yet. *)
Fixpoint feed (fuel : nat) (segs : list (Z * bytes)) (c : HttpContext) (b : Buffer)
    : option (outcome (bool * HttpContext * Buffer * list (Z * bytes))) :=
  match segs with
  | [] => Some (Ok (true, c, b, []))
  | (t, seg) :: segs =>
      match ReadFromFd (ReadvOk seg) b with
      | Fail f => Some (Fail f)
      | Ok (_, _, b) =>
          match ParseRequest fuel t c b with
          | None => None
          | Some (Fail f) => Some (Fail f)
          | Some (Ok (ok, c, b)) =>
              if ok && negb (IsGotAll c) then feed fuel segs c b else Some (Ok (ok, c, b, segs))
          end
      end
  end.

Definition seg_bytes (segs : list (Z * bytes)) : bytes := concat (segs.*2).

Lemma untimed_inv o ok c rest :
  untimed o = Ok (ok, c, rest) → ∃ c0, o = Ok (ok, c0, rest) ∧ c = retime 0 c0.
Proof. destruct o as [[[? ?] ?]|]; cbn; [|done]. intros [= -> <- ->]. eauto. Qed.

(** The parse of one input at another time. *)
Lemma parse_at t' n t c l ok cf rest :
  aparse n t c l = Ok (ok, cf, rest) →
  ∃ cf', aparse n t' c l = Ok (ok, cf', rest) ∧ retime 0 cf' = retime 0 cf.
Proof.
  intros H. pose proof (aparse_retime n t' t (receive_time_ (request_ c)) c l) as Hr.
  replace (retime (receive_time_ (request_ c)) c) with c in Hr
    by (by destruct c as [? []]).
  rewrite H in Hr. cbn [untimed mbind outcome_bind] in Hr. symmetry in Hr.
  destruct (untimed_inv _ _ _ _ Hr) as (cf' & ? & ?). eauto.
Qed.

Lemma retime_same c c' :
  retime 0 c = retime 0 c' →
  state_ c = state_ c' ∧ expects_body (request_ c) = expects_body (request_ c').
Proof. destruct c as [? []], c' as [? []]. unfold retime, SetReceiveTime, expects_body; cbn. by intros [= -> -> _ _ _ _ _]. Qed.

(** C7: the segmentation of the input does not matter.  If the bytes waiting in
    the buffer followed by the segments parse, in one piece, to a complete
    request without a body, then reading and parsing segment by segment, at
    whatever times they arrive, succeeds and gives the same request up to its
    receive time; the bytes behind the request are still there, in the buffer
    or in the segments not read yet. *)
Theorem feed_any_segmentation fuel t0 segs c b cf rest :
  good b → slack c b → room b (zlen (seg_bytes segs)) → segs ≠ [] → state_ c ≠ kGotAll →
  (length (contents b ++ seg_bytes segs) + 2 ≤ fuel)%nat →
  parse t0 c (contents b ++ seg_bytes segs) = Ok (true, cf, rest) →
  state_ cf = kGotAll → expects_body (request_ cf) = false →
  ∃ c' b' left, feed fuel segs c b = Some (Ok (true, c', b', left)) ∧ good b' ∧
    retime 0 c' = retime 0 cf ∧ contents b' ++ seg_bytes left = rest.
Proof.
  revert t0 c b cf. induction segs as [|[t seg] segs IH]; [done|].
  intros t0 c b cf Hg Hs Hroom _ Hst Hfuel Hp Hall Hnb.
  change (seg_bytes ((t, seg) :: segs)) with (seg ++ seg_bytes segs) in *.
  pose proof (zlen_nonneg (seg_bytes segs)) as Hz. pose proof (zlen_nonneg seg).
  rewrite zlen_app in Hroom. rewrite app_assoc in Hp, Hfuel.
  destruct (ReadFromFd_good seg b) as (b1 & Hrd & Hg1 & Hc1 & Hw1); [done|unfold room in *; lia|].
  assert (slack c b1) as Hs1.
  { intros E. specialize (Hs E).
    destruct (ReadFromFd_no_tighter seg b (zlen seg) None b1); [auto..|unfold room in *; lia|done|].
    unfold Peek in *. lia. }
  cbn [feed]. rewrite Hrd. rewrite <-Hc1 in Hp, Hfuel.
  destruct (parse_at t _ _ _ _ _ _ _ Hp) as (cf1 & Hp1 & Heq).
  destruct (retime_same _ _ Heq) as [Hst1 Hnb1]. rewrite Hall in Hst1. rewrite Hnb in Hnb1.
  rewrite length_app in Hfuel.
  destruct (aparse_prefix (S (length (contents b1))) (S (length (contents b1 ++ seg_bytes segs)))
    t c (contents b1) (seg_bytes segs) cf1 rest
    ltac:(lia) ltac:(lia) Hst Hp1 Hst1 Hnb1) as (c' & r' & Hpre & Hlen & Hcase).
  pose proof (ParseRequest_agrees fuel t c b1 Hg1 Hs1 Hst ltac:(lia)) as Ha.
  unfold parse in Ha. rewrite Hpre in Ha. destruct Ha as (b2 & -> & Hg2 & Hc2 & Hw2 & Hs2).
  unfold IsGotAll. destruct Hcase as [[-> ->]|[Hng Hcont]].
  - rewrite bool_decide_true by done. cbn [negb andb]. exists cf1, b2, segs. by rewrite Hc2.
  - rewrite bool_decide_false by done. cbn [negb andb]. rewrite <-Hc2 in Hcont, Hlen.
    rewrite <-Heq. apply (IH t).
    + done.
    + done.
    + unfold room in *. lia.
    + intros ->. specialize (Hcont (S (length (contents b2 ++ [])))).
      cbn [seg_bytes] in *. change (seg_bytes []) with (@nil ascii) in *. rewrite app_nil_r in *.
      rewrite Hpre in Hp1. simplify_eq.
    + done.
    + rewrite length_app. lia.
    + apply Hcont. lia.
    + done.
    + done.
Qed.

(** A request in three segments, the last one with the start of the next
    request. *)
Lemma feed_any_segmentation_witness :
  ∃ c' b' left,
    feed 60 [(1, str "GET /index.html HT"); (2, str "TP/1.1" ++ [CR]);
             (3, [LF] ++ str "Host: a" ++ CRLF ++ CRLF ++ str "GET")]
      HttpContext_new (sample_buffer []) = Some (Ok (true, c', b', left)) ∧
    headers_ (request_ c') !! str "Host" = Some (str "a") ∧
    contents b' ++ seg_bytes left = str "GET".
Proof.
  set (segs := [(1, str "GET /index.html HT"); (2, str "TP/1.1" ++ [CR]); _]).
  destruct (parse 0 HttpContext_new (contents (sample_buffer []) ++ seg_bytes segs))
    as [[[ok cf] rest]|f] eqn:E; vm_compute in E; [|done]. simplify_eq.
  edestruct (feed_any_segmentation 60 0 segs HttpContext_new (sample_buffer []))
    as (c' & b' & left & Hf & _ & Hc & Hb); [..|exists c', b', left; split; [exact Hf|]].
  - split; [|done..]. apply (bool_decide_unpack _). vm_compute. exact I.
  - intros _. vm_compute. discriminate.
  - vm_compute. discriminate.
  - discriminate.
  - discriminate.
  - vm_compute. lia.
  - vm_compute. reflexivity.
  - reflexivity.
  - reflexivity.
  - split; [|exact Hb].
    change (headers_ (request_ c')) with (headers_ (request_ (retime 0 c'))). by rewrite Hc.
Defined.

(** ** Requests on the wire *)

Record wire_request := MkWire {
  w_method : Method;
  w_path : bytes;
  w_query : bytes;
  w_version : Version;
  w_headers : list (bytes * bytes);
  w_body : bytes;
}.

Definition method_name (m : Method) : bytes := ToMethodString (set_method m HttpRequest_new).
Definition sends_body (m : Method) : bool := bool_decide (m = kPost) || bool_decide (m = kPut).

(** A method with a body announces its length in the last header. *)
Definition all_headers (w : wire_request) : list (bytes * bytes) :=
  w_headers w ++
  (if sends_body (w_method w) then [(str "Content-Length", fmt_u (zlen (w_body w)))] else []).

Definition print_line (w : wire_request) : bytes :=
  method_name (w_method w) ++ " "%char :: ("/"%char :: w_path w ++ w_query w)
    ++ " "%char :: version_bytes (w_version w).
Definition print_header (h : bytes * bytes) : bytes := h.1 ++ ":"%char :: " "%char :: h.2.
Definition print_head (w : wire_request) : bytes :=
  print_line w ++ CRLF ++ concat ((λ h, print_header h ++ CRLF) <$> all_headers w) ++ CRLF.
Definition print_request (w : wire_request) : bytes := print_head w ++ w_body w.

Definition add_headers (hs : list (bytes * bytes)) (m : gmap bytes bytes) : gmap bytes bytes :=
  foldl (λ m h, <[h.1 := h.2]> m) m hs.

(** The request the parser should store. *)
Definition request_of (t : Z) (w : wire_request) : HttpRequest :=
  MkHttpRequest (w_method w) (w_version w) (w_path w) (w_query w) t
    (add_headers (all_headers w) ∅) (if sends_body (w_method w) then w_body w else []).

Definition valid_header (h : bytes * bytes) : Prop :=
  (CR ∉ h.1) ∧ (":"%char ∉ h.1) ∧ (CR ∉ h.2) ∧ trim_end (drop_while isspace h.2) = h.2.

Record valid_wire (w : wire_request) : Prop := MkValidWire {
  vw_method : w_method w ≠ kInvalid ∧ w_method w ≠ kTrack;
  vw_version : w_version w ≠ kUnknown;
  vw_path : (" "%char ∉ w_path w) ∧ ("?"%char ∉ w_path w) ∧ (CR ∉ w_path w);
  vw_query : (" "%char ∉ w_query w) ∧ (CR ∉ w_query w);
  vw_mark : w_query w = [] ∨ ∃ q, w_query w = "?"%char :: q;
  vw_headers : Forall valid_header (w_headers w);
  vw_body : zlen (w_body w) ≤ LONG_MAX;
}.

Lemma method_of_name m : m ≠ kInvalid → m ≠ kTrack → method_of_token (method_name m) = m.
Proof. by destruct m. Qed.

Lemma method_name_clean m : (" "%char ∉ method_name m) ∧ (CR ∉ method_name m).
Proof. split; destruct m; apply (bool_decide_unpack _); vm_compute; exact I. Qed.

Lemma version_bytes_clean v : CR ∉ version_bytes v.
Proof. destruct v; apply (bool_decide_unpack _); vm_compute; exact I. Qed.

Lemma print_line_clean w : valid_wire w → CR ∉ print_line w.
Proof.
  intros [_ _ (_ & _ & ?) (_ & ?) _ _ _]. unfold print_line.
  pose proof (method_name_clean (w_method w)) as [_ ?].
  pose proof (version_bytes_clean (w_version w)).
  repeat (rewrite elem_of_app || rewrite elem_of_cons).
  intros [?|[?|[[?|[?|?]]|[?|?]]]]; done.
Qed.

Lemma request_line_print w r :
  valid_wire w → method_ r = kInvalid → query_ r = [] →
  request_line (print_line w) r =
  Ok (true, MkHttpRequest (w_method w) (w_version w) (w_path w) (w_query w)
              (receive_time_ r) (headers_ r) (body_ r)).
Proof.
  intros [[? ?] ? (? & ? & ?) (? & ?) ? _ _] Hm Hq. apply request_line_spec.
  replace (w_query w) with (if bool_decide (w_query w = []) then query_ r else w_query w) at 1
    by (case_bool_decide; congruence).
  rewrite <-(method_of_name (w_method w)) at 1 by done.
  unfold print_line. constructor; [apply method_name_clean| | |done..].
  - rewrite elem_of_cons, elem_of_app. intros [?|[?|?]]; done.
  - rewrite elem_of_cons. intros [?|?]; done.
Qed.

Lemma header_line_print h r :
  valid_header h →
  header_line (print_header h) r =
  Some (MkHttpRequest (method_ r) (version_ r) (path_ r) (query_ r) (receive_time_ r)
          (<[h.1 := h.2]> (headers_ r)) (body_ r)).
Proof.
  intros (_ & Hc & _ & Ht). unfold header_line, print_header. rewrite cut_app by done.
  change (drop_while isspace (" "%char :: h.2)) with (drop_while isspace h.2). by rewrite Ht.
Qed.

Lemma print_header_clean h : valid_header h → CR ∉ print_header h.
Proof.
  intros (? & _ & ? & _). unfold print_header. repeat (rewrite elem_of_app || rewrite elem_of_cons).
  intros [?|[?|[?|?]]]; done.
Qed.

(** The header lines and the empty line behind them. *)
Lemma aparse_headers hs n t r rest :
  Forall valid_header hs → (length hs < n)%nat →
  aparse n t (MkHttpContext kExpectHeaders r)
    (concat ((λ h, print_header h ++ CRLF) <$> hs) ++ CRLF ++ rest)
  = Ok (finish (MkHttpRequest (method_ r) (version_ r) (path_ r) (query_ r) (receive_time_ r)
                  (add_headers hs (headers_ r)) (body_ r)) rest).
Proof.
  intros Hv. revert n r. induction Hv as [|h hs Hh _ IH]; intros [|n] r Hn; cbn in Hn; try lia.
  - cbn [fmap list_fmap concat aparse state_ request_].
    rewrite app_nil_l. change (CRLF ++ rest) with ([] ++ CRLF ++ rest).
    rewrite next_line_print by set_solver. by destruct r.
  - cbn [fmap list_fmap concat aparse state_ request_].
    rewrite <-!app_assoc. rewrite next_line_print by by apply print_header_clean.
    rewrite header_line_print by done. rewrite IH by lia. done.
Qed.

Lemma digits_trimmed ds :
  Forall (λ c, isdigit c = true) ds → trim_end (drop_while isspace ds) = ds.
Proof.
  assert (∀ l, Forall (λ c, isdigit c = true) l → drop_while isspace l = l) as Hd.
  { intros [|c l] Hl; [done|]. apply Forall_inv in Hl. by apply drop_while_head, isdigit_not_space. }
  intros H. unfold trim_end. rewrite (Hd ds) by done.
  rewrite Hd by by apply Forall_rev.
  apply rev_involutive.
Qed.

Lemma digits_clean c ds : isdigit c = false → Forall (λ c, isdigit c = true) ds → c ∉ ds.
Proof. intros Hc Hd Hin. rewrite Forall_forall in Hd. rewrite Hd in Hc; done. Qed.

Lemma all_headers_valid w : valid_wire w → Forall valid_header (all_headers w).
Proof.
  intros Hw. unfold all_headers. apply Forall_app; split; [apply Hw|].
  destruct (sends_body _); [|apply Forall_nil_2].
  apply Forall_cons; split; [|apply Forall_nil_2].
  destruct (fmt_u_spec (zlen (w_body w)) (zlen_nonneg _)) as (_ & Hd & _).
  split; [|split; [|split]]; cbn [fst snd].
  - apply (bool_decide_unpack _). vm_compute. exact I.
  - apply (bool_decide_unpack _). vm_compute. exact I.
  - by apply digits_clean.
  - by apply digits_trimmed.
Qed.

(** Everything up to the body, read by a fresh context. *)
Lemma parse_head w t c rest :
  valid_wire w → c = MkHttpContext kExpectRequestLine (SetBody (body_ (request_ c)) HttpRequest_new) →
  parse t c (print_head w ++ rest) =
  Ok (finish (MkHttpRequest (w_method w) (w_version w) (w_path w) (w_query w) t
                (add_headers (all_headers w) ∅) (body_ (request_ c))) rest).
Proof.
  intros Hw Hc. unfold parse, print_head. set (n := length _).
  assert (length (all_headers w) < n)%nat as Hn.
  { subst n. rewrite !length_app. cbn [length CRLF].
    enough (length (all_headers w) ≤
      length (concat ((λ h, print_header h ++ CRLF) <$> all_headers w)))%nat by lia.
    induction (all_headers w) as [|h hs IH]; [done|].
    cbn [fmap list_fmap concat length]. rewrite !length_app. cbn [length CRLF]. lia. }
  rewrite Hc. cbn [aparse state_ request_ body_ SetBody]. rewrite <-!app_assoc.
  rewrite next_line_print by by apply print_line_clean.
  rewrite request_line_print by done. cbn [mbind outcome_bind].
  rewrite aparse_headers by (done || by apply all_headers_valid). done.
Qed.

Lemma content_length_header w :
  sends_body (w_method w) = true →
  add_headers (all_headers w) ∅ !! str "Content-Length" = Some (fmt_u (zlen (w_body w))).
Proof.
  intros Hs. unfold all_headers. rewrite Hs. unfold add_headers. rewrite foldl_app. cbn.
  apply lookup_insert_eq.
Qed.

Lemma finish_body w t r rest :
  sends_body (w_method w) = true → zlen (w_body w) ≤ LONG_MAX → method_ r = w_method w →
  headers_ r = add_headers (all_headers w) ∅ → receive_time_ r = t →
  finish r rest =
  if zlen (w_body w) =? zlen rest then (true, MkHttpContext kGotAll (SetBody rest r), [])
  else (false, MkHttpContext kExpectBody r, rest).
Proof.
  intros Hs Hl Hm Hh _. unfold finish, expects_body, GetHeader. rewrite Hm, Hh, content_length_header by done.
  unfold sends_body in Hs. rewrite Hs. pose proof (zlen_nonneg (w_body w)).
  destruct (fmt_u_spec (zlen (w_body w)) ltac:(done)) as (Hne & _ & _).
  rewrite bool_decide_false, strtol10_fmt_u by done. done.
Qed.

Lemma slack_print w c b rest : good b → contents b = print_head w ++ rest → slack c b.
Proof.
  intros Hg Hc _. pose proof (good_wf _ Hg) as Hwf. pose proof (zlen_contents b Hwf) as Hz.
  rewrite readable_bytes_wf, Hc in Hz by done. unfold print_head, print_line in Hz.
  assert (3 ≤ zlen (method_name (w_method w))) by (destruct (w_method w); vm_compute; discriminate).
  repeat (rewrite zlen_app in Hz || rewrite zlen_cons in Hz).
  change (zlen CRLF) with 2 in Hz. pose proof (zlen_nonneg (w_path w)).
  pose proof (zlen_nonneg (w_query w)). pose proof (zlen_nonneg (version_bytes (w_version w))).
  pose proof (zlen_nonneg (concat ((λ h, print_header h ++ CRLF) <$> all_headers w))).
  pose proof (zlen_nonneg rest). destruct Hwf. unfold Peek. lia.
Qed.

(** C6: print and parse.  On a buffer that holds a well-formed request (one of
    the six methods, any path, query, version, headers and body), a new
    context's [ParseRequest] returns [true] with the complete request, every
    component as it was printed, and removes exactly the request from the
    buffer; for a method without a body the bytes that follow stay. *)
Theorem parse_request_roundtrip fuel t w b :
  valid_wire w → good b → contents b = print_request w → (length (contents b) + 2 ≤ fuel)%nat →
  ∃ b', ParseRequest fuel t HttpContext_new b
          = Some (Ok (true, MkHttpContext kGotAll (request_of t w), b')) ∧
        good b' ∧ contents b' = if sends_body (w_method w) then [] else w_body w.
Proof.
  intros Hw Hg Hc Hf.
  assert (slack HttpContext_new b) as Hs by (by eapply slack_print).
  pose proof (ParseRequest_agrees fuel t HttpContext_new b Hg Hs ltac:(done) Hf) as Ha.
  rewrite Hc in Ha. unfold print_request in Ha. rewrite parse_head in Ha by done.
  unfold request_of. destruct (sends_body (w_method w)) eqn:Es.
  - rewrite (finish_body w t) in Ha; [|done|apply Hw|done..].
    rewrite Z.eqb_refl in Ha. destruct Ha as (b' & -> & ? & ? & _). by exists b'.
  - unfold finish, expects_body in Ha. cbn [method_] in Ha. unfold sends_body in Es. rewrite Es in Ha.
    destruct Ha as (b' & -> & ? & ? & _). by exists b'.
Qed.

Definition sample_post : wire_request :=
  MkWire kPost (str "form") (str "?id=7") kHttp11 [(str "Host", str "localhost:80")] (str "a=1&b=2").

Lemma sample_post_valid : valid_wire sample_post.
Proof.
  split; try (repeat split; (discriminate || (apply (bool_decide_unpack _); vm_compute; exact I))).
  right. by exists (str "id=7").
Qed.

Lemma parse_request_roundtrip_witness :
  ∃ b', ParseRequest 200 5 HttpContext_new (sample_buffer (print_request sample_post))
    = Some (Ok (true, MkHttpContext kGotAll (request_of 5 sample_post), b')) ∧ contents b' = [].
Proof.
  destruct (parse_request_roundtrip 200 5 sample_post (sample_buffer (print_request sample_post)))
    as (b' & H & _ & Hc).
  - exact sample_post_valid.
  - split; [|done..]. apply (bool_decide_unpack _). vm_compute. exact I.
  - vm_compute. reflexivity.
  - vm_compute. lia.
  - exists b'. split; [exact H|exact Hc].
Defined.

(** A body is accepted only in one piece.  When the head of a [POST] or
    [PUT] request is complete and the buffer does not hold exactly the
    announced number of body bytes (because the rest is still on its way, or
    because the next request is already there), the request is refused and the
    body bytes stay in the buffer. *)
Theorem parse_request_body_not_exact fuel t w b got :
  valid_wire w → sends_body (w_method w) = true → good b →
  contents b = print_head w ++ got → zlen got ≠ zlen (w_body w) →
  (length (contents b) + 2 ≤ fuel)%nat →
  ∃ c' b', ParseRequest fuel t HttpContext_new b = Some (Ok (false, c', b')) ∧
           state_ c' = kExpectBody ∧ contents b' = got.
Proof.
  intros Hw Hs Hg Hc Hne Hf.
  assert (slack HttpContext_new b) as Hsl by (by eapply slack_print).
  pose proof (ParseRequest_agrees fuel t HttpContext_new b Hg Hsl ltac:(done) Hf) as Ha.
  rewrite Hc, parse_head in Ha by done.
  rewrite (finish_body w t) in Ha; [|done|apply Hw|done..].
  replace (_ =? _) with false in Ha by lia.
  destruct Ha as (b' & -> & ? & ? & _). by eexists _, b'.
Qed.

(** The first half of the sample's body in the segment of the head. *)
Lemma parse_request_body_not_exact_witness :
  ∃ c' b', ParseRequest 200 5 HttpContext_new (sample_buffer (print_head sample_post ++ str "a=1"))
    = Some (Ok (false, c', b')) ∧ contents b' = str "a=1".
Proof.
  destruct (parse_request_body_not_exact 200 5 sample_post
    (sample_buffer (print_head sample_post ++ str "a=1")) (str "a=1")) as (c' & b' & H & _ & Hc).
  - exact sample_post_valid.
  - reflexivity.
  - split; [|done..]. apply (bool_decide_unpack _). vm_compute. exact I.
  - vm_compute. reflexivity.
  - vm_compute. discriminate.
  - vm_compute. lia.
  - exists c', b'. split; [exact H|exact Hc].
Defined.

(** [Reset] does not clear the body.  [HttpRequest::swap] leaves [body_]
    out, so on a context that was reset after a request with a body, the next
    request without a body comes out with everything right except that it
    carries the previous request's body. *)
Theorem reset_keeps_body fuel t c w b :
  valid_wire w → sends_body (w_method w) = false → good b → contents b = print_request w →
  (length (contents b) + 2 ≤ fuel)%nat →
  ∃ b', ParseRequest fuel t (Reset c) b
        = Some (Ok (true, MkHttpContext kGotAll (SetBody (body_ (request_ c)) (request_of t w)), b')).
Proof.
  intros Hw Hs Hg Hc Hf.
  assert (slack (Reset c) b) as Hsl by (by eapply slack_print).
  pose proof (ParseRequest_agrees fuel t (Reset c) b Hg Hsl ltac:(done) Hf) as Ha.
  rewrite Hc in Ha. unfold print_request in Ha. rewrite parse_head in Ha by done.
  unfold request_of. rewrite Hs. unfold finish, expects_body in Ha. cbn [method_] in Ha.
  unfold sends_body in Hs. rewrite Hs in Ha. destruct Ha as (b' & -> & _). by exists b'.
Qed.

(** A [POST] and then a [GET] on one connection: the [GET] has a body. *)
Lemma reset_keeps_body_witness :
  ∃ b', ParseRequest 100 6 (Reset (MkHttpContext kGotAll (request_of 5 sample_post)))
          (sample_buffer (str "GET / HTTP/1.1" ++ CRLF ++ CRLF))
        = Some (Ok (true, MkHttpContext kGotAll
            (MkHttpRequest kGet kHttp11 [] [] 6 ∅ (str "a=1&b=2")), b')).
Proof.
  apply (reset_keeps_body 100 6 (MkHttpContext kGotAll (request_of 5 sample_post))
    (MkWire kGet [] [] kHttp11 [] [])).
  - split; try (repeat split; (discriminate || (apply (bool_decide_unpack _); vm_compute; exact I))).
    by left.
  - reflexivity.
  - split; [|done..]. apply (bool_decide_unpack _). vm_compute. exact I.
  - vm_compute. reflexivity.
  - vm_compute. lia.
Defined.

Lemma aparse_headers_state n t r l ok c' rest :
  aparse n t (MkHttpContext kExpectHeaders r) l = Ok (ok, c', rest) → state_ c' ≠ kExpectRequestLine.
Proof.
  revert r l. induction n as [|n IH]; intros r l; cbn [aparse state_ request_]; [by intros [= <- <- <-]|].
  destruct (next_line l) as [[line rest']|]; [|by intros [= <- <- <-]].
  destruct (header_line line r); [by apply IH|]. intros [= Hfin]. unfold finish in Hfin.
  repeat case_match; simplify_eq; done.
Qed.

(** A refused request line: nothing was consumed. *)
Lemma parse_refused_line t c l c' rest :
  state_ c = kExpectRequestLine → parse t c l = Ok (false, c', rest) →
  state_ c' = kExpectRequestLine →
  ∃ line rest', next_line l = Some (line, rest') ∧
    request_line line (request_ c) = Ok (false, request_ c') ∧ rest = l.
Proof.
  intros Hc. unfold parse; cbn [aparse]. rewrite Hc.
  destruct (next_line l) as [[line rest']|] eqn:E; [|done].
  destruct (request_line line (request_ c)) as [[[] r]|] eqn:Er; cbn [mbind outcome_bind]; [|intros [= <- <-] _|done].
  - intros H%aparse_headers_state. done.
  - by exists line, rest'.
Qed.

(** C40: no second chance after a refused request line.  When [ParseRequest]
    refuses a request line whose token names a method, the line stays in the
    buffer and the method in the context; the next [ParseRequest] on that
    connection, whatever arrived meanwhile, stops the server at the assertion
    of [SetMethod]. *)
Theorem parse_request_retry_aborts fuel fuel2 t t2 c b c' b' more b2 :
  good b → slack c b → (length (contents b) + 2 ≤ fuel)%nat →
  state_ c = kExpectRequestLine → method_ (request_ c) = kInvalid →
  ParseRequest fuel t c b = Some (Ok (false, c', b')) →
  state_ c' = kExpectRequestLine → method_ (request_ c') ≠ kInvalid →
  good b2 → slack c' b2 → contents b2 = contents b' ++ more →
  (length (contents b2) + 2 ≤ fuel2)%nat →
  ParseRequest fuel2 t2 c' b2 = Some (Fail (AssertionFailed "method_ == kInvalid")).
Proof.
  intros Hg Hs Hf Hst Hm Hp Hst' Hm' Hg2 Hs2 Hc2 Hf2.
  pose proof (ParseRequest_agrees fuel t c b Hg Hs ltac:(congruence) Hf) as Ha.
  destruct (parse t c (contents b)) as [[[ok c0] rest]|f] eqn:E;
    [destruct Ha as (b0 & Ha & _ & Hcb & _)|]; rewrite Ha in Hp; [|done]. simplify_eq.
  destruct (parse_refused_line t c (contents b) c' _ Hst E Hst') as (line & rest' & Hl & Hr & Hcb').
  pose proof (ParseRequest_agrees fuel2 t2 c' b2 Hg2 Hs2 ltac:(congruence) Hf2) as Ha2.
  rewrite Hc2, Hcb' in Ha2. unfold parse in Ha2; cbn [aparse] in Ha2. rewrite Hst' in Ha2.
  rewrite (next_line_more _ _ _ more Hl) in Ha2.
  unfold request_line in Hr, Ha2. destruct (cut " "%char line) as [[tok l]|];
    [|by injection Hr as Hr; rewrite Hr in Hm].
  by rewrite (bool_decide_false (method_ (request_ c') = kInvalid)) in Ha2 by done.
Qed.

(** A version the server does not know, then any other byte. *)
Lemma parse_request_retry_aborts_witness :
  let b := sample_buffer (str "GET / HTTP/2.0" ++ CRLF) in
  let c := MkHttpContext kExpectRequestLine (set_method kGet HttpRequest_new) in
  ParseRequest 30 1 HttpContext_new b = Some (Ok (false, c, b)) ∧
  ParseRequest 30 2 c (sample_buffer (str "GET / HTTP/2.0" ++ CRLF ++ str "x"))
    = Some (Fail (AssertionFailed "method_ == kInvalid")).
Proof.
  cbn zeta. split; [vm_compute; reflexivity|].
  apply (parse_request_retry_aborts 30 30 1 2 HttpContext_new
    (sample_buffer (str "GET / HTTP/2.0" ++ CRLF)) _
    (sample_buffer (str "GET / HTTP/2.0" ++ CRLF)) (str "x")).
  - split; [|done..]. apply (bool_decide_unpack _). vm_compute. exact I.
  - intros _. vm_compute. discriminate.
  - vm_compute. lia.
  - reflexivity.
  - reflexivity.
  - vm_compute. reflexivity.
  - reflexivity.
  - discriminate.
  - split; [|done..]. apply (bool_decide_unpack _). vm_compute. exact I.
  - intros _. vm_compute. discriminate.
  - vm_compute. reflexivity.
  - vm_compute. lia.
Defined.

(** A target without a path is undefined behaviour.  On a request line
    whose target is empty or starts with a question mark, [SetPath] is called with an end
    pointer in front of its start pointer. *)
Theorem process_request_line_no_path b begin end_ r tok q v :
  0 ≤ begin ≤ end_ → end_ ≤ capacity b → begin + 7 ≤ capacity b → method_ r = kInvalid →
  " "%char ∉ tok → " "%char ∉ q → q = [] ∨ (∃ q', q = "?"%char :: q') →
  range b begin end_ = tok ++ " "%char :: q ++ " "%char :: v →
  ProcessRequestLine b begin end_ r = Fail (UndefinedBehaviour "string::assign: inverted range").
Proof.
  intros Hb He Hs Hm Ht Hq Hqm Hr. rewrite ProcessRequestLine_spec, Hr by done. unfold request_line.
  rewrite cut_app, bool_decide_true by done. cbn [cassert mbind outcome_bind].
  rewrite cut_app by done. unfold target_of. destruct Hqm as [->|[q' ->]]; [done|].
  change ("?"%char :: q') with ([] ++ "?"%char :: q'). rewrite cut_app; [done|]. apply not_elem_of_nil.
Qed.

Lemma process_request_line_no_path_witness :
  ProcessRequestLine (MkBuffer (str "GET ?x HTTP/1.1") 15 0 15) 0 15 HttpRequest_new
  = Fail (UndefinedBehaviour "string::assign: inverted range").
Proof.
  apply (process_request_line_no_path _ _ _ _ (str "GET") (str "?x") (str "HTTP/1.1")).
  - lia.
  - vm_compute. discriminate.
  - vm_compute. discriminate.
  - reflexivity.
  - apply (bool_decide_unpack _). vm_compute. exact I.
  - apply (bool_decide_unpack _). vm_compute. exact I.
  - right. by exists (str "x").
  - vm_compute. reflexivity.
Defined.
