(* ===== verification/HttpResponse.v ===== *)
(** * [net::HttpResponse] (http/http_response.h, http/http_response.cc)

    A response is appended to a [Buffer] piece by piece, in an order that a
    state machine checks with assertions: status line, headers, end of headers
    or body.  [render] is the reference: what a reply looks like on the wire. *)

From stdpp Require Import base tactics list numbers strings sets.
From Stdlib Require Import ZArith Lia Ascii.
From S2P Require Import Prelude.
From S2P Require Import CString.
From S2P Require Import Buffer.

Inductive HttpResponseAppendState :=
| kAppendNothing | kAppendStatusLine | kAppendHeader | kAppendHeadersEnd | kAppendBody.

#[global] Instance HttpResponseAppendState_eq_dec : EqDecision HttpResponseAppendState.
Proof. solve_decision. Defined.

(** [HttpStatusCode] is an [int16_t]; the codes the server sends. *)
Definition k200Ok : Z := 200.
Definition k404NotFound : Z := 404.
Definition k405MethodNotAllowd : Z := 405.
Definition k500InternalServerError : Z := 500.

Record HttpResponse := MkHttpResponse {
  state_ : HttpResponseAppendState;
  is_close_connection_ : bool;
  buffer_ : Buffer;
}.

Definition HttpResponse_new (is_close : bool) : outcome HttpResponse :=
  b ← Buffer_new kInitialSize;
  Ok (MkHttpResponse kAppendNothing is_close b).

(** The order of the enumerators. *)
Definition state_rank (s : HttpResponseAppendState) : Z :=
  match s with
  | kAppendNothing => 0 | kAppendStatusLine => 1 | kAppendHeader => 2
  | kAppendHeadersEnd => 3 | kAppendBody => 4
  end.

Definition HttpResponse_destroy (r : HttpResponse) : outcome unit :=
  cassert "state_ >= kAppendHeader" (state_rank kAppendHeader <=? state_rank (state_ r)).

Definition set_state (s : HttpResponseAppendState) (r : HttpResponse) : HttpResponse :=
  MkHttpResponse s (is_close_connection_ r) (buffer_ r).

(** [buffer_.Append(data)]. *)
Definition append (data : bytes) (r : HttpResponse) : outcome HttpResponse :=
  b ← Append data (buffer_ r);
  Ok (MkHttpResponse (state_ r) (is_close_connection_ r) b).

(** [snprintf] into [char buf[32]]: 31 characters at most. *)
Definition snprintf32 (s : bytes) : bytes := ztake 31 s.

Definition GetHttpVersion : bytes := str "HTTP/1.1".

Definition AppendStatusLine (code : Z) (message : bytes) (r : HttpResponse) : outcome HttpResponse :=
  cassert "state_ == kAppendNothing" (bool_decide (state_ r = kAppendNothing));;
  r ← append (snprintf32 (GetHttpVersion ++ str " " ++ fmt_d code ++ str " ")) (set_state kAppendStatusLine r);
  r ← append message r;
  append CRLF r.

Definition in_headers (r : HttpResponse) : bool :=
  bool_decide (state_ r = kAppendStatusLine) || bool_decide (state_ r = kAppendHeader).

Definition AppendCloseConnection (on : bool) (r : HttpResponse) : outcome HttpResponse :=
  cassert "state_ == kAppendStatusLine || state_ == kAppendHeader" (in_headers r);;
  let r := MkHttpResponse kAppendHeader on (buffer_ r) in
  if is_close_connection_ r then append (str "Connection: close" ++ CRLF) r
  else append (str "Connection: Keep-Alive" ++ CRLF) r.

(** The overload without an argument. *)
Definition AppendCloseConnection_default (r : HttpResponse) : outcome HttpResponse :=
  AppendCloseConnection (is_close_connection_ r) r.

Definition IsCloseConnection (r : HttpResponse) : bool := is_close_connection_ r.

Definition AppendHeader (key value : bytes) (r : HttpResponse) : outcome HttpResponse :=
  cassert "state_ == kAppendStatusLine || state_ == kAppendHeader" (in_headers r);;
  r ← append key (set_state kAppendHeader r);
  r ← append (str ": ") r;
  r ← append value r;
  append CRLF r.

Definition AppendContentType : bytes → HttpResponse → outcome HttpResponse :=
  AppendHeader (str "Content-Type").
Definition AppendContentBase : bytes → HttpResponse → outcome HttpResponse :=
  AppendHeader (str "Content-Base").

(** [%zd] prints the [size_t] as a signed number. *)
Definition AppendContentLength (len : Z) (r : HttpResponse) : outcome HttpResponse :=
  cassert "state_ == kAppendStatusLine || state_ == kAppendHeader" (in_headers r);;
  append (snprintf32 (str "Content-Length: " ++ fmt_d (wrapS 64 len) ++ CRLF)) (set_state kAppendHeader r).

Definition AppendHeadersEnd (has_body : bool) (r : HttpResponse) : outcome HttpResponse :=
  r ← (if negb has_body then AppendContentLength 0 r else Ok r);
  cassert "state_ == kAppendHeader" (bool_decide (state_ r = kAppendHeader));;
  append CRLF (set_state kAppendHeadersEnd r).

(** [AppendBody(Slice)] and [AppendBody(const unsigned char*, size_t)]. *)
Definition AppendBody (body : bytes) (r : HttpResponse) : outcome HttpResponse :=
  cassert "state_ == kAppendHeader" (bool_decide (state_ r = kAppendHeader));;
  r ← AppendContentLength (zlen body) r;
  r ← AppendHeadersEnd true r;
  cassert "state_ == kAppendHeadersEnd" (bool_decide (state_ r = kAppendHeadersEnd));;
  append body (set_state kAppendBody r).

(** An open [std::ifstream] on a regular file: its bytes, read from the start;
    [GetFileSize(is)] seeks to the end, asks for the position and seeks back. *)
Definition GetFileSize (file : bytes) : Z := zlen file.

Definition AppendBody_ifstream (file : bytes) (r : HttpResponse) : outcome HttpResponse :=
  let len := GetFileSize file in
  cassert "state_ == kAppendHeader" (bool_decide (state_ r = kAppendHeader));;
  r ← AppendContentLength (wrapU 64 len) r;
  r ← AppendHeadersEnd true r;
  cassert "state_ == kAppendHeadersEnd" (bool_decide (state_ r = kAppendHeadersEnd));;
  let r := set_state kAppendBody r in
  '(b, _) ← Append_ifstream file len (buffer_ r);
  Ok (MkHttpResponse (state_ r) (is_close_connection_ r) b).

(** ** What is on the wire *)

Definition header_bytes (h : bytes * bytes) : bytes := h.1 ++ str ": " ++ h.2 ++ CRLF.
Definition status_bytes (code : Z) (message : bytes) : bytes :=
  str "HTTP/1.1 " ++ fmt_d code ++ str " " ++ message ++ CRLF.

Record reply := MkReply {
  r_code : Z;
  r_message : bytes;
  r_headers : list (bytes * bytes);
  r_body : bytes;
}.

Definition render (p : reply) : bytes :=
  status_bytes (r_code p) (r_message p) ++ concat (header_bytes <$> r_headers p) ++ CRLF ++ r_body p.

Definition connection_header (on : bool) : bytes * bytes :=
  (str "Connection", if on then str "close" else str "Keep-Alive").
Definition content_length (n : Z) : bytes * bytes := (str "Content-Length", fmt_u n).

(** The response holds the bytes [c], in state [s]. *)
Record holds (s : HttpResponseAppendState) (close : bool) (c : bytes) (r : HttpResponse) : Prop := MkHolds {
  h_state : state_ r = s;
  h_close : is_close_connection_ r = close;
  h_good : good (buffer_ r);
  h_contents : contents (buffer_ r) = c;
  h_writer : writer_index_ (buffer_ r) ≤ kCheapPrepend + zlen c;
}.

(** A response of these bytes fits in a buffer. *)
Definition fits (c : bytes) : Prop := zlen c + 2 * kCheapPrepend ≤ vector_max_size.

Lemma fits_app c d : fits (c ++ d) → fits c.
Proof. unfold fits. rewrite zlen_app. pose proof (zlen_nonneg d). lia. Qed.

(** [fits] of a prefix of something that fits. *)
Ltac fits_tac :=
  match goal with
  | H : fits ?x |- fits ?y =>
      first [ exact H
            | revert H; unfold fits; rewrite ?zlen_app, ?(@zlen_nil ascii);
              repeat match goal with |- context [zlen ?l] =>
                lazymatch goal with _ : 0 ≤ zlen l |- _ => fail | _ => pose proof (zlen_nonneg l) end end;
              lia ]
  end.

Lemma append_holds d s close c r :
  holds s close c r → fits (c ++ d) → returns (append d r) (holds s close (c ++ d)).
Proof.
  intros [Hs Hcl Hg Hc Hw] Hf. unfold append.
  destruct (Append_good d (buffer_ r)) as (b & -> & ? & Hcon & ?); [done| |].
  - unfold fits in Hf. rewrite zlen_app in Hf. unfold room. lia.
  - cbn. constructor; cbn [state_ is_close_connection_ buffer_]; [done..| |].
    + by rewrite Hcon, Hc.
    + rewrite zlen_app. lia.
Qed.

Lemma set_state_holds s' s close c r : holds s close c r → holds s' close c (set_state s' r).
Proof. intros []. by constructor. Qed.

Lemma HttpResponse_new_holds close : returns (HttpResponse_new close) (holds kAppendNothing close []).
Proof.
  unfold HttpResponse_new. destruct (Buffer_new_good kInitialSize) as (b & -> & ? & ? & _ & Hw); [done..|].
  cbn [mbind outcome_bind returns]. constructor; cbn [state_ is_close_connection_ buffer_]; [done..|]. rewrite Hw, zlen_nil. lia.
Qed.

Lemma zlen_fmt_u_bound n k : 0 ≤ n < 10 ^ k → 1 ≤ k → zlen (fmt_u n) ≤ k.
Proof.
  intros Hn Hk. unfold fmt_u.
  assert (∀ fuel n acc k, 0 ≤ n < 10 ^ k → 1 ≤ k → zlen (dec_loop fuel n acc) ≤ k + zlen acc) as H.
  { clear. induction fuel as [|fuel IH]; intros n acc k Hn Hk; cbn [dec_loop]; [lia|].
    destruct (Z.eqb_spec (n / 10) 0) as [E|E]; [rewrite zlen_cons; lia|].
    assert (2 ≤ k) as Hk2.
    { destruct (decide (k = 1)) as [->|]; [|lia]. exfalso. apply E.
      rewrite Z.pow_1_r in Hn. apply Z.div_small. lia. }
    rewrite (IH _ _ (k - 1)); [rewrite zlen_cons; lia| |lia].
    split; [apply Z.div_pos; lia|]. apply Z.div_lt_upper_bound; [lia|].
    rewrite <-Z.pow_succ_r by lia. replace (Z.succ (k - 1)) with k by lia. lia. }
  specialize (H (S (Z.to_nat (Z.log2 n))) n [] k Hn Hk). rewrite zlen_nil in H. lia.
Qed.

(** ** Each operation appends its piece *)

Lemma AppendStatusLine_holds code message close c r :
  0 ≤ code < 2 ^ 15 → holds kAppendNothing close c r → fits (c ++ status_bytes code message) →
  returns (AppendStatusLine code message r) (holds kAppendStatusLine close (c ++ status_bytes code message)).
Proof.
  intros Hcode Hr Hf. unfold AppendStatusLine. rewrite bool_decide_true by apply Hr.
  cbn [cassert mbind outcome_bind].
  assert (fmt_d code = fmt_u code) as Hd by (unfold fmt_d; by replace (code <? 0) with false by lia).
  assert (zlen (fmt_u code) ≤ 5) by (apply zlen_fmt_u_bound; lia).
  unfold snprintf32. rewrite ztake_all
    by (rewrite Hd, !zlen_app; change (zlen GetHttpVersion) with 8; change (zlen (str " ")) with 1; lia).
  assert (c ++ status_bytes code message =
    ((c ++ GetHttpVersion ++ str " " ++ fmt_d code ++ str " ") ++ message) ++ CRLF) as E.
  { unfold status_bytes. change (str "HTTP/1.1 ") with (GetHttpVersion ++ str " "). by rewrite <-!app_assoc. }
  rewrite E in Hf |- *.
  eapply returns_bind; [eapply append_holds; [eapply set_state_holds; exact Hr|fits_tac]|].
  intros r1 H1. eapply returns_bind; [eapply append_holds; [exact H1|fits_tac]|].
  intros r2 H2. eapply append_holds; [exact H2|fits_tac].
Qed.

Lemma in_headers_holds s close c r :
  holds s close c r → (s = kAppendStatusLine ∨ s = kAppendHeader) → in_headers r = true.
Proof. intros [E _ _ _ _] Hs. unfold in_headers. rewrite E. by destruct Hs as [-> | ->]. Qed.

Lemma AppendCloseConnection_holds on s close c r :
  holds s close c r → (s = kAppendStatusLine ∨ s = kAppendHeader) →
  fits (c ++ header_bytes (connection_header on)) →
  returns (AppendCloseConnection on r) (holds kAppendHeader on (c ++ header_bytes (connection_header on))).
Proof.
  intros Hr Hs Hf. unfold AppendCloseConnection. rewrite (in_headers_holds _ _ _ _ Hr Hs).
  cbn [cassert mbind outcome_bind is_close_connection_].
  assert (holds kAppendHeader on c (MkHttpResponse kAppendHeader on (buffer_ r))) by (destruct Hr; by constructor).
  by destruct on; apply append_holds.
Qed.

Lemma AppendHeader_holds key value s close c r :
  holds s close c r → (s = kAppendStatusLine ∨ s = kAppendHeader) →
  fits (c ++ header_bytes (key, value)) →
  returns (AppendHeader key value r) (holds kAppendHeader close (c ++ header_bytes (key, value))).
Proof.
  intros Hr Hs Hf. unfold AppendHeader. rewrite (in_headers_holds _ _ _ _ Hr Hs).
  cbn [cassert mbind outcome_bind].
  assert (c ++ header_bytes (key, value) = (((c ++ key) ++ str ": ") ++ value) ++ CRLF) as E
    by (unfold header_bytes; cbn [fst snd]; by rewrite <-!app_assoc).
  rewrite E in Hf |- *.
  eapply returns_bind; [eapply append_holds; [eapply set_state_holds; exact Hr|fits_tac]|].
  intros r1 H1. eapply returns_bind; [eapply append_holds; [exact H1|fits_tac]|].
  intros r2 H2. eapply returns_bind; [eapply append_holds; [exact H2|fits_tac]|].
  intros r3 H3. eapply append_holds; [exact H3|fits_tac].
Qed.

(** The length of a body the 32 bytes of [AppendContentLength] can print. *)
Definition max_content_length : Z := 10 ^ 13.

Lemma AppendContentLength_holds n s close c r :
  0 ≤ n < max_content_length →
  holds s close c r → (s = kAppendStatusLine ∨ s = kAppendHeader) →
  fits (c ++ header_bytes (content_length n)) →
  returns (AppendContentLength n r) (holds kAppendHeader close (c ++ header_bytes (content_length n))).
Proof.
  unfold max_content_length. intros Hn Hr Hs Hf. unfold AppendContentLength.
  rewrite (in_headers_holds _ _ _ _ Hr Hs). cbn [cassert mbind outcome_bind].
  rewrite wrapS_small by lia.
  assert (fmt_d n = fmt_u n) as -> by (unfold fmt_d; by replace (n <? 0) with false by lia).
  assert (zlen (fmt_u n) ≤ 13) by (apply zlen_fmt_u_bound; lia).
  unfold snprintf32. rewrite ztake_all
    by (rewrite !zlen_app; change (zlen (str "Content-Length: ")) with 16; change (zlen CRLF) with 2; lia).
  apply append_holds; [by eapply set_state_holds|done].
Qed.

Lemma AppendHeadersEnd_holds close c r :
  holds kAppendHeader close c r → fits (c ++ CRLF) →
  returns (AppendHeadersEnd true r) (holds kAppendHeadersEnd close (c ++ CRLF)).
Proof.
  intros Hr Hf. unfold AppendHeadersEnd. cbn [negb mbind outcome_bind].
  rewrite bool_decide_true by apply Hr. cbn [cassert mbind outcome_bind].
  eapply append_holds; [eapply set_state_holds; exact Hr|done].
Qed.

(** Without a body: the header [Content-Length: 0] and the empty line. *)
Lemma AppendHeadersEnd_nobody_holds s close c r :
  holds s close c r → (s = kAppendStatusLine ∨ s = kAppendHeader) →
  fits (c ++ header_bytes (content_length 0) ++ CRLF) →
  returns (AppendHeadersEnd false r)
    (holds kAppendHeadersEnd close (c ++ header_bytes (content_length 0) ++ CRLF)).
Proof.
  intros Hr Hs Hf. unfold AppendHeadersEnd. cbn [negb].
  eapply returns_bind; [eapply AppendContentLength_holds; [done|exact Hr|done|fits_tac]|].
  intros r1 H1. rewrite bool_decide_true by apply H1. cbn [cassert mbind outcome_bind].
  rewrite app_assoc in *. eapply append_holds; [eapply set_state_holds; exact H1|done].
Qed.

Lemma AppendBody_holds body close c r :
  zlen body < max_content_length → holds kAppendHeader close c r →
  fits (c ++ header_bytes (content_length (zlen body)) ++ CRLF ++ body) →
  returns (AppendBody body r)
    (holds kAppendBody close (c ++ header_bytes (content_length (zlen body)) ++ CRLF ++ body)).
Proof.
  intros Hb Hr Hf. unfold AppendBody. rewrite bool_decide_true by apply Hr. cbn [cassert mbind outcome_bind].
  pose proof (zlen_nonneg body).
  eapply returns_bind; [eapply AppendContentLength_holds; [lia|exact Hr|by right|fits_tac]|].
  intros r1 H1. eapply returns_bind; [eapply AppendHeadersEnd_holds; [exact H1|fits_tac]|].
  intros r2 H2. rewrite bool_decide_true by apply H2. cbn [cassert mbind outcome_bind].
  rewrite !app_assoc in *. eapply append_holds; [eapply set_state_holds; exact H2|done].
Qed.

(** Sending a file is sending its bytes. *)
Lemma AppendBody_ifstream_eq file r :
  zlen file < max_content_length → AppendBody_ifstream file r = AppendBody file r.
Proof.
  unfold max_content_length. intros Hf. pose proof (zlen_nonneg file).
  unfold AppendBody_ifstream, AppendBody, GetFileSize, append, Append_ifstream, Append.
  rewrite wrapU_small by lia. rewrite ztake_all, Z.eqb_refl by lia.
  destruct (cassert _ _); [|done]; cbn [mbind outcome_bind].
  destruct (AppendContentLength _ _); [|done]; cbn [mbind outcome_bind].
  destruct (AppendHeadersEnd _ _); [|done]; cbn [mbind outcome_bind].
  destruct (cassert _ _); [|done]; cbn [mbind outcome_bind].
  destruct (EnsureWritableBytes _ _); [|done]; cbn [mbind outcome_bind].
  by destruct (HasWritten _ _).
Qed.
