(* ===== verification/Timing.v ===== *)
(** * Closing idle connections (net/timing.h, net/timing_wheel.cc, net/timing_list.cc)

    [HttpServer] tells its [Timing] object about connections and messages, and
    calls [OnTimer] once a second.  Two implementations exist: [TimingWheel], a
    ring of buckets of shared entries, and [TimingList], a list of connections
    in the order of their last message.  An operation returns the calls it
    makes on connections.  The abstract contract is [idle]: the tick (for the
    wheel) of each connection's last activity. *)

From stdpp Require Import base tactics list numbers strings sets gmap.
From Stdlib Require Import ZArith Lia.
From S2P Require Import Prelude.

(** A connection object, and what a [Timing] object can see of it. *)
Abbreviation conn_id := Z.

Record conn_view := MkConnView {
  alive : bool;        (* weak_ptr::lock succeeds *)
  connected : bool;    (* IsConnected() *)
}.

(** The calls on a connection. *)
Inductive conn_call :=
| CallShutdown (c : conn_id)
| CallForceCloseWithDelay (c : conn_id).

(** The interface [HttpServer] programs against. *)
Class Timing (T : Type) := {
  OnTimer : (conn_id → conn_view) → Z → T → outcome (T * list conn_call);
  OnConnection : conn_id → conn_view → Z → T → outcome T;
  OnMessage : conn_id → Z → T → outcome T;
}.

(** ** [TimingWheel] *)
Module Wheel.

Abbreviation entry_id := Z.

Record Entry := MkEntry {
  index_ : Z;
  weak_conn_ : conn_id;
}.

(** The wheel and what hangs off it: the live entries (an entry lives as long
    as some bucket holds a [shared_ptr] to it), and the weak pointer to an entry
    in the timing context of each connection.  [turns] counts the [push_back]s:
    it determines [begin() - buckets_begin_]. *)
Record TimingWheel := MkWheel {
  connection_buckets_ : list (gset entry_id);
  turns : Z;
  entries : gmap entry_id Entry;
  timing_context : gmap conn_id entry_id;
  next_entry : entry_id;
}.

Definition TimingWheel_new (idle_seconds : Z) : TimingWheel :=
  MkWheel (replicate (Z.to_nat idle_seconds) ∅) 0 ∅ ∅ 0.

(** [begin() - buckets_begin_] of the boost circular buffer after so many
    [push_back]s: the library is not part of the sources. *)
Section wheel.
Context (bucket_index : Z → Z).

(** [~Entry()] of each entry whose last reference went away. *)
Definition destroy_entries (view : conn_id → conn_view) (dead : gset entry_id)
    (w : TimingWheel) : list conn_call :=
  omap (λ e, en ← entries w !! e;
             if alive (view (weak_conn_ en)) then Some (CallShutdown (weak_conn_ en)) else None)
    (elements dead).

(** [connection_buckets_.push_back(Bucket())] on the full ring. *)
Definition OnTimer (view : conn_id → conn_view) (now : Z) (w : TimingWheel)
    : outcome (TimingWheel * list conn_call) :=
  match connection_buckets_ w with
  | [] => Ok (w, [])
  | front :: rest =>
      let dead := front ∖ ⋃ rest in
      Ok (MkWheel (rest ++ [∅]) (turns w + 1)
            (filter (λ p, p.1 ∉ dead) (entries w)) (timing_context w) (next_entry w),
          destroy_entries view dead w)
  end.

(** [connection_buckets_.back().insert(entry)]. *)
Definition insert_back (e : entry_id) (l : list (gset entry_id)) : outcome (list (gset entry_id)) :=
  match last l with
  | Some b => Ok (removelast l ++ [{[e]} ∪ b])
  | None => Fail (UndefinedBehaviour "back() of an empty circular_buffer")
  end.

Definition OnConnection (c : conn_id) (view : conn_view) (now : Z) (w : TimingWheel)
    : outcome TimingWheel :=
  if connected view then
    let e := next_entry w in
    buckets ← insert_back e (connection_buckets_ w);
    cassert "conn->timing_context().empty()" (bool_decide (timing_context w !! c = None));;
    Ok (MkWheel buckets (turns w) (<[e := MkEntry (bucket_index (turns w)) c]> (entries w))
          (<[c := e]> (timing_context w)) (e + 1))
  else
    cassert "!conn->timing_context().empty()" (bool_decide (timing_context w !! c ≠ None));;
    Ok w.

Definition OnMessage (c : conn_id) (receive_time : Z) (w : TimingWheel) : outcome TimingWheel :=
  match timing_context w !! c with
  | None => Fail (AssertionFailed "!conn->timing_context().empty()")
  | Some e =>
      match entries w !! e with
      | None => Fail (AssertionFailed "entry")
      | Some en =>
          if negb (index_ en =? bucket_index (turns w)) then
            buckets ← insert_back e (connection_buckets_ w);
            Ok (MkWheel buckets (turns w)
                  (<[e := MkEntry (bucket_index (turns w)) (weak_conn_ en)]> (entries w))
                  (timing_context w) (next_entry w))
          else Ok w
      end
  end.

#[global] Instance wheel_timing : Timing TimingWheel :=
  {| Timing.OnTimer := OnTimer; Timing.OnConnection := OnConnection; Timing.OnMessage := OnMessage |}.

(** *** The contract: each connection's last activity, counted in ticks *)

Record idle := MkIdle {
  tick : Z;
  last_activity : gmap conn_id Z;
}.

Inductive event :=
| Connect (c : conn_id)
| Disconnect (c : conn_id)
| Message (c : conn_id) (receive_time : Z)
| Tick (view : conn_id → conn_view).

(** The connections to shut down at the next tick: silent for [n] ticks. *)
Definition expiring (n : Z) (view : conn_id → conn_view) (s : idle) : gset conn_id :=
  dom (filter (λ p, p.2 = tick s + 1 - n ∧ alive (view p.1) = true) (last_activity s)).

(** [None]: the event breaks the contract (a second connect, news of a
    connection that never connected, a message after it was shut down). *)
Definition idle_step (n : Z) (ev : event) (s : idle) : option (idle * list (gset conn_id)) :=
  match ev with
  | Connect c =>
      if bool_decide (last_activity s !! c = None)
      then Some (MkIdle (tick s) (<[c := tick s]> (last_activity s)), []) else None
  | Disconnect c =>
      if bool_decide (last_activity s !! c ≠ None) then Some (s, []) else None
  | Message c _ =>
      k ← last_activity s !! c;
      if tick s - k <? n then Some (MkIdle (tick s) (<[c := tick s]> (last_activity s)), [])
      else None
  | Tick view => Some (MkIdle (tick s + 1) (last_activity s), [expiring n view s])
  end.

Fixpoint idle_run (n : Z) (evs : list event) (s : idle) : option (idle * list (gset conn_id)) :=
  match evs with
  | [] => Some (s, [])
  | ev :: evs =>
      '(s, o1) ← idle_step n ev s; '(s, o2) ← idle_run n evs s; Some (s, o1 ++ o2)
  end.

(** The same events on the wheel. *)
Definition wheel_step (ev : event) (w : TimingWheel) : outcome (TimingWheel * list (list conn_call)) :=
  match ev with
  | Connect c => w ← OnConnection c (MkConnView true true) 0 w; Ok (w, [])
  | Disconnect c => w ← OnConnection c (MkConnView true false) 0 w; Ok (w, [])
  | Message c t => w ← OnMessage c t w; Ok (w, [])
  | Tick view => '(w, calls) ← OnTimer view 0 w; Ok (w, [calls])
  end.

Fixpoint wheel_run (evs : list event) (w : TimingWheel) : outcome (TimingWheel * list (list conn_call)) :=
  match evs with
  | [] => Ok (w, [])
  | ev :: evs => '(w, o1) ← wheel_step ev w; '(w, o2) ← wheel_run evs w; Ok (w, o1 ++ o2)
  end.

(** *** The invariant that ties the two together *)

Context (n : Z) (n_pos : 0 < n).
Context (index_distinct : ∀ t d, 0 < d < n → bucket_index (t + d) ≠ bucket_index t).

(** [e] is in the bucket that was the newest one at tick [k]. *)
Definition in_bucket (w : TimingWheel) (k : Z) (e : entry_id) : Prop :=
  ∃ b, connection_buckets_ w !! Z.to_nat (k - turns w + n - 1) = Some b ∧ e ∈ b.

Record live_entry (w : TimingWheel) (s : idle) (e : entry_id) (c : conn_id) (index k : Z) : Prop := MkLive {
  le_last : last_activity s !! c = Some k;
  le_context : timing_context w !! c = Some e;
  le_recent : turns w - n < k ≤ turns w;
  le_index : index = bucket_index k;
  le_in : in_bucket w k e;
  le_newest : ∀ j, k < j ≤ turns w → ¬ in_bucket w j e;
}.

Record wheel_inv (w : TimingWheel) (s : idle) : Prop := MkWheelInv {
  wi_tick : tick s = turns w;
  wi_length : length (connection_buckets_ w) = Z.to_nat n;
  wi_entry : ∀ e en, entries w !! e = Some en →
    ∃ k, live_entry w s e (weak_conn_ en) (index_ en) k;
  wi_bucket : ∀ p b e, connection_buckets_ w !! p = Some b → e ∈ b → is_Some (entries w !! e);
  wi_last : ∀ c k, last_activity s !! c = Some k →
    k ≤ turns w ∧ ∃ e, timing_context w !! c = Some e ∧
      (turns w - k < n → ∃ en, entries w !! e = Some en ∧ weak_conn_ en = c) ∧
      (n ≤ turns w - k → entries w !! e = None);
  wi_context : ∀ c e, timing_context w !! c = Some e → is_Some (last_activity s !! c) ∧ e < next_entry w;
  wi_fresh : ∀ e, next_entry w ≤ e → entries w !! e = None;
}.

Lemma insert_back_spec e l :
  l ≠ [] → insert_back e l = Ok (alter (union {[e]}) (pred (length l)) l).
Proof.
  intros Hl. destruct l as [|b l' _] using rev_ind; [done|]. unfold insert_back.
  rewrite last_snoc, removelast_last. do 2 f_equal. rewrite length_app. cbn.
  replace (pred (length l' + 1)) with (length l' + 0)%nat by lia.
  by rewrite alter_app_r.
Qed.

Lemma wheel_inv_init : wheel_inv (TimingWheel_new n) (MkIdle 0 ∅).
Proof.
  split; cbn.
  - done.
  - apply length_replicate.
  - intros e en. by rewrite lookup_empty.
  - intros p b e [-> _]%lookup_replicate. set_solver.
  - intros c k. by rewrite lookup_empty.
  - intros c e. by rewrite lookup_empty.
  - intros e _. apply lookup_empty.
Qed.

(** Adding [e] to the newest bucket. *)
Lemma in_bucket_insert w e w' k e' :
  length (connection_buckets_ w) = Z.to_nat n → turns w' = turns w →
  connection_buckets_ w' = alter (union {[e]}) (pred (length (connection_buckets_ w))) (connection_buckets_ w) →
  turns w - n < k ≤ turns w →
  in_bucket w' k e' ↔ (in_bucket w k e' ∨ (k = turns w ∧ e' = e)).
Proof.
  intros Hl Ht Hb Hk. unfold in_bucket. rewrite Hb, Ht, Hl.
  destruct (decide (k = turns w)) as [->|Hne].
  - replace (Z.to_nat (turns w - turns w + n - 1)) with (pred (Z.to_nat n)) by lia.
    rewrite list_lookup_alter_eq.
    destruct (lookup_lt_is_Some_2 (connection_buckets_ w) (pred (Z.to_nat n))) as [b Hbk]; [lia|].
    rewrite Hbk. cbn. split.
    + intros (b' & [= <-] & Hin). apply elem_of_union in Hin as [->%elem_of_singleton|?]; [by right|].
      left. by exists b.
    + intros [(b' & [= <-] & Hin)|[_ ->]]; (eexists; split; [done|set_solver]).
  - rewrite list_lookup_alter_ne by lia. naive_solver.
Qed.

(** Activity of connection [c] at the current tick, through entry [e]. *)
Lemma touch_inv w s e c next' :
  wheel_inv w s → next_entry w ≤ next' → e < next' →
  (∀ c', timing_context w !! c' = Some e → c' = c) →
  (∀ e' en, entries w !! e' = Some en → weak_conn_ en = c → e' = e) →
  wheel_inv
    (MkWheel (alter (union {[e]}) (pred (length (connection_buckets_ w))) (connection_buckets_ w))
       (turns w) (<[e := MkEntry (bucket_index (turns w)) c]> (entries w))
       (<[c := e]> (timing_context w)) next')
    (MkIdle (tick s) (<[c := tick s]> (last_activity s))).
Proof.
  intros [Ht Hl He Hb Hla Hc Hf] Hnx Hlt Hctx Hent. set (w' := MkWheel _ _ _ _ _).
  assert (∀ k e', turns w - n < k ≤ turns w →
    in_bucket w' k e' ↔ (in_bucket w k e' ∨ (k = turns w ∧ e' = e))) as Hin
    by (intros k e' Hk; by apply (in_bucket_insert w e w')).
  split; cbn [tick turns connection_buckets_ entries last_activity timing_context next_entry w'].
  - done.
  - by rewrite length_alter.
  - intros e' en. destruct (decide (e' = e)) as [->|Hne].
    + rewrite lookup_insert_eq. intros [= <-]. cbn. exists (turns w).
      split; cbn; rewrite ?lookup_insert_eq, ?Ht; try done; [lia| |intros; lia].
      apply Hin; [lia|by right].
    + rewrite lookup_insert_ne by done. intros Hen. destruct (He _ _ Hen) as (k & [H1 H2 H3 H4 H5 H6]).
      assert (weak_conn_ en ≠ c) by (intros ?; by apply Hne, (Hent e' en)).
      exists k. split; cbn; rewrite ?lookup_insert_ne by done; try done.
      * apply Hin; [done|by left].
      * intros j Hj. rewrite Hin by lia. intros [?|[? ?]]; [by apply (H6 j)|done].
  - intros p b e' Hp Hin'. destruct (decide (e' = e)) as [->|Hne]; [by rewrite lookup_insert_eq|].
    rewrite lookup_insert_ne by done.
    destruct (decide (p = pred (length (connection_buckets_ w)))) as [->|].
    + rewrite list_lookup_alter_eq in Hp. apply fmap_Some in Hp as (b0 & Hp & ->).
      apply (Hb _ _ _ Hp). set_solver.
    + rewrite list_lookup_alter_ne in Hp by done. by apply (Hb p b).
  - intros c' k. destruct (decide (c' = c)) as [->|Hne].
    + rewrite !lookup_insert_eq. intros [= <-]. split; [lia|]. exists e. split; [done|].
      split; [|lia]. intros _. rewrite lookup_insert_eq. by eexists.
    + rewrite !lookup_insert_ne by done. intros Hk. destruct (Hla _ _ Hk) as (? & e' & H1 & H2 & H3).
      split; [done|]. exists e'. assert (e' ≠ e) by (intros ->; by apply Hne, Hctx).
      rewrite lookup_insert_ne by done. done.
  - intros c' e'. destruct (decide (c' = c)) as [->|Hne].
    + rewrite !lookup_insert_eq. by intros [= <-].
    + rewrite !lookup_insert_ne by done. intros Hk. destruct (Hc _ _ Hk). split; [done|lia].
  - intros e' ?. rewrite lookup_insert_ne by lia. apply Hf. lia.
Qed.

Lemma buckets_ne w s : wheel_inv w s → connection_buckets_ w ≠ [].
Proof. intros Hi E. pose proof (wi_length _ _ Hi) as Hl. rewrite E in Hl. cbn in Hl. lia. Qed.

Lemma connect_inv w s c :
  wheel_inv w s → last_activity s !! c = None →
  ∃ w', OnConnection c (MkConnView true true) 0 w = Ok w' ∧
        wheel_inv w' (MkIdle (tick s) (<[c := tick s]> (last_activity s))).
Proof.
  intros Hi Hnone. unfold OnConnection; cbn [connected].
  rewrite insert_back_spec by by apply (buckets_ne w s). cbn [mbind outcome_bind].
  rewrite bool_decide_true.
  2: { destruct (timing_context w !! c) eqn:E; [|done]. destruct (wi_context _ _ Hi _ _ E) as [[? ?] _].
       congruence. }
  cbn [cassert mbind outcome_bind]. eexists; split; [done|].
  apply touch_inv; [done|lia|lia| |].
  - intros c' Hc'. destruct (wi_context _ _ Hi _ _ Hc'). lia.
  - intros e' en He' <-. destruct (wi_entry _ _ Hi _ _ He') as (k & []). congruence.
Qed.

Lemma message_inv w s c k t :
  wheel_inv w s → last_activity s !! c = Some k → tick s - k < n →
  ∃ w', OnMessage c t w = Ok w' ∧
        wheel_inv w' (MkIdle (tick s) (<[c := tick s]> (last_activity s))).
Proof.
  intros Hi Hk Hrec. pose proof (wi_tick _ _ Hi) as Ht.
  destruct (wi_last _ _ Hi _ _ Hk) as (Hle & e & Hctx & Hlive & _).
  destruct Hlive as (en & Hen & Hwc); [lia|]. unfold OnMessage. rewrite Hctx, Hen.
  destruct (wi_entry _ _ Hi _ _ Hen) as (k' & Hlive). rewrite Hwc in Hlive.
  destruct Hlive as [Hl1 _ Hl3 Hl4 _ _]. simplify_eq.
  destruct (Z.eqb_spec (index_ en) (bucket_index (turns w))) as [E|E]; cbn [negb].
  - eexists; split; [done|]. replace (MkIdle _ _) with s; [done|].
    destruct (decide (k = turns w)) as [->|Hne].
    + rewrite Ht, insert_id by done. destruct s; cbn in *; congruence.
    + exfalso. apply (index_distinct k (turns w - k)); [lia|].
      replace (k + (turns w - k)) with (turns w) by lia. congruence.
  - rewrite insert_back_spec by by apply (buckets_ne w s). cbn [mbind outcome_bind].
    eexists; split; [done|]. rewrite <-(insert_id (timing_context w) (weak_conn_ en) e) by done.
    apply touch_inv; [done|lia|apply (wi_context _ _ Hi _ _ Hctx)| |].
    + intros c' Hc'. destruct (wi_context _ _ Hi _ _ Hc') as [[k2 Hk2] _].
      destruct (wi_last _ _ Hi _ _ Hk2) as (_ & e2 & He2 & Ha & Hd). simplify_eq.
      destruct (decide (turns w - k2 < n)) as [H|H]; [destruct (Ha H) as (en2 & ? & <-); congruence|].
      rewrite Hd in Hen by lia. done.
    + intros e' en' He' Hw'. destruct (wi_entry _ _ Hi _ _ He') as (k2 & [_ Hc2 _ _ _ _]). congruence.
Qed.

(** The ring after one more [push_back]. *)
Lemma in_bucket_turn w front rest w' k e :
  connection_buckets_ w = front :: rest → length (connection_buckets_ w) = Z.to_nat n →
  connection_buckets_ w' = rest ++ [∅] → turns w' = turns w + 1 →
  turns w + 1 - n < k ≤ turns w + 1 →
  in_bucket w' k e ↔ (k ≤ turns w ∧ in_bucket w k e).
Proof.
  intros Hb Hl Hb' Ht' Hk. unfold in_bucket. rewrite Hb', Ht', Hb. rewrite Hb in Hl. cbn in Hl.
  destruct (decide (k = turns w + 1)) as [->|Hne].
  - replace (Z.to_nat (turns w + 1 - (turns w + 1) + n - 1)) with (length rest) by lia.
    rewrite list_lookup_middle by done. split; [|lia]. intros (b & [= <-] & ?). set_solver.
  - replace (Z.to_nat (k - turns w + n - 1)) with (S (Z.to_nat (k - (turns w + 1) + n - 1))) by lia.
    cbn. rewrite lookup_app_l by lia. split; [intros ?; split; [lia|done]|by intros [_ ?]].
Qed.

(** An entry goes when its newest bucket goes. *)
Lemma dead_iff w s front rest e c index k :
  wheel_inv w s → connection_buckets_ w = front :: rest → live_entry w s e c index k →
  e ∈ front ∖ ⋃ rest ↔ k = turns w + 1 - n.
Proof.
  intros Hi Hb [_ _ Hk _ (b & Hin & He) Hnew]. pose proof (wi_length _ _ Hi) as Hl.
  rewrite Hb in Hin, Hl. cbn in Hl. rewrite elem_of_difference, elem_of_union_list. split.
  - intros [_ Hrest]. destruct (decide (k = turns w + 1 - n)); [done|]. exfalso. apply Hrest.
    exists b. split; [|done].
    replace (Z.to_nat (k - turns w + n - 1)) with (S (Z.to_nat (k - turns w + n - 2))) in Hin by lia.
    cbn in Hin. by eapply list_elem_of_lookup_2.
  - intros ->. replace (Z.to_nat (turns w + 1 - n - turns w + n - 1)) with 0%nat in Hin by lia.
    cbn in Hin. simplify_eq. split; [done|]. intros (b' & [p Hp]%list_elem_of_lookup & He').
    pose proof (lookup_lt_Some _ _ _ Hp).
    apply (Hnew (turns w + 1 - n + Z.of_nat (S p))); [lia|]. exists b'. split; [|done]. rewrite Hb.
    by replace (Z.to_nat (turns w + 1 - n + Z.of_nat (S p) - turns w + n - 1)) with (S p) by lia.
Qed.

Lemma turn_inv w s front rest :
  wheel_inv w s → connection_buckets_ w = front :: rest →
  wheel_inv
    (MkWheel (rest ++ [∅]) (turns w + 1) (filter (λ p, p.1 ∉ front ∖ ⋃ rest) (entries w))
       (timing_context w) (next_entry w))
    (MkIdle (tick s + 1) (last_activity s)).
Proof.
  intros Hi Hb. pose proof (λ e c ix k, dead_iff w s front rest e c ix k Hi Hb) as Hdead.
  destruct Hi as [Ht Hl He Hbk Hla Hc Hf]. set (w' := MkWheel _ _ _ _ _).
  pose proof (λ k e, in_bucket_turn w front rest w' k e Hb Hl eq_refl eq_refl) as Hin.
  assert (∀ e, entries w' !! e = if decide (e ∈ front ∖ ⋃ rest) then None else entries w !! e) as Hent.
  { intros e. cbn. destruct (decide _) as [Hd|Hd].
    - apply map_lookup_filter_None. right. intros en _ Hn. by apply Hn.
    - destruct (entries w !! e) eqn:E.
      + by apply map_lookup_filter_Some.
      + apply map_lookup_filter_None. by left. }
  split.
  - cbn. lia.
  - cbn. rewrite Hb in Hl. rewrite length_app. cbn in *. lia.
  - intros e en. rewrite Hent. destruct (decide _) as [|Hd]; [done|]. intros Hen.
    destruct (He _ _ Hen) as (k & Hlive). pose proof (Hdead _ _ _ _ Hlive) as Hk.
    destruct Hlive as [H1 H2 H3 H4 H5 H6]. exists k. split; cbn; try done.
    + assert (k ≠ turns w + 1 - n) by tauto. lia.
    + apply Hin; [assert (k ≠ turns w + 1 - n) by tauto; lia|]. split; [lia|done].
    + intros j Hj. rewrite Hin by lia. intros [? ?]. apply (H6 j); [lia|done].
  - intros p b e Hp Hein. cbn in Hp. rewrite Hent.
    apply lookup_app_Some in Hp as [Hp|[_ Hp]].
    2: { apply list_lookup_singleton_Some in Hp as [_ <-]. set_solver. }
    destruct (decide _) as [Hd|Hd].
    + exfalso. apply elem_of_difference in Hd as [_ Hd]. apply Hd, elem_of_union_list.
      exists b. split; [by eapply list_elem_of_lookup_2|done].
    + apply (Hbk (S p) b); [by rewrite Hb|done].
  - intros c k Hk. cbn in Hk. destruct (Hla _ _ Hk) as (Hle & e & Hctx & Ha & Hd). split; [cbn in *; lia|].
    exists e. split; [done|]. change (turns w') with (turns w + 1). rewrite Hent. split.
    + intros Hlt. destruct Ha as (en & Hen & <-); [lia|]. destruct (He _ _ Hen) as (k' & Hlive).
      rewrite decide_False; [by exists en|]. rewrite (Hdead _ _ _ _ Hlive).
      pose proof (le_last _ _ _ _ _ _ Hlive). simplify_eq. lia.
    + intros Hge. destruct (decide (n ≤ turns w - k)) as [?|?]; [rewrite Hd by done; by case_decide|].
      destruct Ha as (en & Hen & <-); [lia|]. destruct (He _ _ Hen) as (k' & Hlive).
      rewrite decide_True; [done|]. rewrite (Hdead _ _ _ _ Hlive).
      pose proof (le_last _ _ _ _ _ _ Hlive). simplify_eq. lia.
  - apply Hc.
  - intros e Hge. rewrite Hent. rewrite Hf by done. by destruct (decide _).
Qed.

Lemma tick_inv view w s :
  wheel_inv w s →
  ∃ w' calls, OnTimer view 0 w = Ok (w', calls) ∧
    wheel_inv w' (MkIdle (tick s + 1) (last_activity s)) ∧
    (∀ x, x ∈ calls ↔ ∃ c, x = CallShutdown c ∧ c ∈ expiring n view s).
Proof.
  intros Hi. unfold OnTimer. destruct (connection_buckets_ w) as [|front rest] eqn:Hb;
    [by destruct (buckets_ne w s)|].
  eexists _, _. split; [done|]. split; [by apply turn_inv|].
  intros x. unfold destroy_entries, expiring. rewrite list_elem_of_omap. split.
  - intros (e & Hdead%elem_of_elements & Hx). destruct (entries w !! e) as [en|] eqn:Hen; [|done].
    cbn in Hx. destruct (alive (view (weak_conn_ en))) eqn:Hal; [|done]. injection Hx as <-.
    exists (weak_conn_ en). split; [done|].
    destruct (wi_entry _ _ Hi _ _ Hen) as (k & Hlive).
    apply (dead_iff w s front rest _ _ _ _ Hi Hb Hlive) in Hdead. subst k.
    apply elem_of_dom. exists (turns w + 1 - n). apply map_lookup_filter_Some.
    split; [apply Hlive|]. by rewrite (wi_tick _ _ Hi).
  - intros (c & -> & Hc). apply elem_of_dom in Hc as [k Hk].
    apply map_lookup_filter_Some in Hk as [Hk [Hk' Hal]]. cbn in Hk', Hal.
    rewrite (wi_tick _ _ Hi) in Hk'.
    destruct (wi_last _ _ Hi _ _ Hk) as (_ & e & _ & Ha & _). destruct Ha as (en & Hen & <-); [lia|].
    destruct (wi_entry _ _ Hi _ _ Hen) as (k' & Hlive). pose proof (le_last _ _ _ _ _ _ Hlive).
    simplify_eq. exists e. split; [|by rewrite Hen; cbn; rewrite Hal].
    apply elem_of_elements. by apply (dead_iff w s front rest _ _ _ _ Hi Hb Hlive).
Qed.

(** One event on both sides. *)
Lemma wheel_step_inv ev w s s' o :
  wheel_inv w s → idle_step n ev s = Some (s', o) →
  ∃ w' o', wheel_step ev w = Ok (w', o') ∧ wheel_inv w' s' ∧
    Forall2 (λ calls cs, ∀ x, x ∈ calls ↔ ∃ c, x = CallShutdown c ∧ c ∈ cs) o' o.
Proof.
  intros Hi Hs. destruct ev as [c|c|c t|view]; cbn [idle_step wheel_step] in *.
  - case_bool_decide as Hn; [|done]. injection Hs as <- <-.
    destruct (connect_inv w s c Hi Hn) as (w' & -> & ?). by exists w', [].
  - case_bool_decide as Hn; [|done]. injection Hs as <- <-.
    unfold OnConnection; cbn [connected]. rewrite bool_decide_true; [by exists w, []|].
    destruct (last_activity s !! c) as [k|] eqn:E; [|done].
    destruct (wi_last _ _ Hi _ _ E) as (_ & e & -> & _). done.
  - destruct (last_activity s !! c) as [k|] eqn:E; [|done]. cbn in Hs.
    destruct (Z.ltb_spec (tick s - k) n); [|done]. injection Hs as <- <-.
    destruct (message_inv w s c k t Hi E) as (w' & -> & ?); [done|]. by exists w', [].
  - injection Hs as <- <-. destruct (tick_inv view w s Hi) as (w' & calls & -> & ? & ?).
    exists w', [calls]. split; [done|]. split; [done|]. by apply Forall2_cons.
Qed.

Lemma wheel_run_inv evs w s s' o :
  wheel_inv w s → idle_run n evs s = Some (s', o) →
  ∃ w' o', wheel_run evs w = Ok (w', o') ∧ wheel_inv w' s' ∧
    Forall2 (λ calls cs, ∀ x, x ∈ calls ↔ ∃ c, x = CallShutdown c ∧ c ∈ cs) o' o.
Proof.
  revert w s o. induction evs as [|ev evs IH]; intros w s o Hi Hr; cbn [idle_run wheel_run] in *.
  - injection Hr as <- <-. by exists w, [].
  - destruct (idle_step n ev s) as [[s1 o1]|] eqn:E1; [|done]. cbn in Hr.
    destruct (idle_run n evs s1) as [[s2 o2]|] eqn:E2; [|done]. cbn in Hr. injection Hr as <- <-.
    destruct (wheel_step_inv ev w s s1 o1 Hi E1) as (w1 & o1' & -> & Hi1 & ?). cbn [mbind outcome_bind].
    destruct (IH w1 s1 o2 Hi1 E2) as (w2 & o2' & -> & ? & ?). cbn [mbind outcome_bind].
    exists w2, (o1' ++ o2'). split; [done|]. split; [done|]. by apply Forall2_app.
Qed.

End wheel.
End Wheel.

(** Two relations over the same indices: an index function that works. *)
Definition ring_index (n t : Z) : Z := t `mod` n.

Lemma ring_index_distinct n t d : 0 < d < n → ring_index n (t + d) ≠ ring_index n t.
Proof.
  unfold ring_index. intros Hd E.
  assert ((t + d - t) `mod` n = 0) as H.
  { rewrite Zminus_mod, E, Z.sub_diag. apply Z.mod_0_l. lia. }
  replace (t + d - t) with d in H by lia. rewrite Z.mod_small in H; lia.
Qed.


Definition all_alive : conn_id → conn_view := λ _, MkConnView true true.

(** Two buckets: connection 1 goes silent at tick 0, connection 2 at tick 1. *)
Definition sample_events : list Wheel.event :=
  [Wheel.Connect 1; Wheel.Connect 2; Wheel.Tick all_alive; Wheel.Message 2 0;
   Wheel.Tick all_alive; Wheel.Tick all_alive].


(** A message on a connection the wheel already gave up on stops the
    server.  [Shutdown] only closes the write side, so the peer can still send;
    the entry is gone by then and [OnMessage] asserts that it is not. *)
Theorem wheel_late_message_aborts bucket_index n evs s o c k t :
  0 < n → (∀ t d, 0 < d < n → bucket_index (t + d) ≠ bucket_index t) →
  Wheel.idle_run n evs (Wheel.MkIdle 0 ∅) = Some (s, o) →
  Wheel.last_activity s !! c = Some k → n ≤ Wheel.tick s - k →
  ∃ w' o', Wheel.wheel_run bucket_index evs (Wheel.TimingWheel_new n) = Ok (w', o') ∧
    Wheel.OnMessage bucket_index c t w' = Fail (AssertionFailed "entry").
Proof.
  intros Hn Hd Hr Hk Hge.
  destruct (Wheel.wheel_run_inv bucket_index n Hn Hd evs _ _ s o (Wheel.wheel_inv_init bucket_index n Hn Hd) Hr)
    as (w' & o' & ? & Hi & _). exists w', o'. split; [done|].
  destruct (Wheel.wi_last _ _ _ _ Hi _ _ Hk) as (_ & e & Hctx & _ & Hdead).
  unfold Wheel.OnMessage. rewrite Hctx, Hdead; [done|]. by rewrite <-(Wheel.wi_tick _ _ _ _ Hi).
Qed.

Lemma wheel_late_message_aborts_witness :
  ∃ w' o', Wheel.wheel_run (ring_index 2) sample_events (Wheel.TimingWheel_new 2) = Ok (w', o') ∧
    Wheel.OnMessage (ring_index 2) 1 0 w' = Fail (AssertionFailed "entry").
Proof.
  eapply (wheel_late_message_aborts (ring_index 2) 2 sample_events _ _ 1 0).
  - lia.
  - intros t d Hd. by apply ring_index_distinct.
  - vm_compute. reflexivity.
  - reflexivity.
  - vm_compute. discriminate.
Defined.

(** ** [TimingList] *)
Module TList.

(** A node of a connection's timing context: its last receive time; its
    position in the list is the connection itself, which occurs once. *)
Record TimingList := MkTimingList {
  idle_seconds_ : Z;
  connection_list_ : list conn_id;
  last_receive_time : gmap conn_id Z;
}.

Definition TimingList_new (idle_seconds : Z) : TimingList := MkTimingList idle_seconds [] ∅.

(** The loop of [OnTimer] from an iterator on.  The age is a [double] of
    seconds; for times in microseconds below [2^53] and an [int] bound it
    exceeds the bound exactly when the difference exceeds the bound in
    microseconds. *)
Fixpoint scan (view : conn_id → conn_view) (idle now : Z) (l : list conn_id) (nodes : gmap conn_id Z)
    : outcome (list conn_id * gmap conn_id Z * list conn_call) :=
  match l with
  | [] => Ok ([], nodes, [])
  | c :: rest =>
      if alive (view c) then
        match nodes !! c with
        | None => Fail (Exception "bad_cast")
        | Some last =>
            let age := now - last in
            if idle * 1000000 <? age then
              let calls := if connected (view c)
                           then [CallShutdown c; CallForceCloseWithDelay c] else [] in
              '(rest, nodes, calls') ← scan view idle now rest nodes;
              Ok (c :: rest, nodes, calls ++ calls')
            else if age <? 0 then
              '(rest, nodes, calls') ← scan view idle now rest (<[c := now]> nodes);
              Ok (c :: rest, nodes, calls')
            else Ok (c :: rest, nodes, [])
        end
      else scan view idle now rest nodes
  end.

Definition OnTimer (view : conn_id → conn_view) (now : Z) (l : TimingList)
    : outcome (TimingList * list conn_call) :=
  '(cs, nodes, calls) ← scan view (idle_seconds_ l) now (connection_list_ l) (last_receive_time l);
  Ok (MkTimingList (idle_seconds_ l) cs nodes, calls).

(** [erase(position)]. *)
Definition erase (c : conn_id) (l : list conn_id) : outcome (list conn_id) :=
  if bool_decide (c ∈ l) then Ok (filter (λ x, x ≠ c) l)
  else Fail (UndefinedBehaviour "erase of an invalid iterator").

Definition OnConnection (c : conn_id) (view : conn_view) (now : Z) (l : TimingList) : outcome TimingList :=
  if connected view then
    Ok (MkTimingList (idle_seconds_ l) (connection_list_ l ++ [c]) (<[c := now]> (last_receive_time l)))
  else
    cassert "!conn->timing_context().empty()" (bool_decide (last_receive_time l !! c ≠ None));;
    cs ← erase c (connection_list_ l);
    Ok (MkTimingList (idle_seconds_ l) cs (last_receive_time l)).

(** [splice(end(), list, position)] moves the node to the end. *)
Definition OnMessage (c : conn_id) (receive_time : Z) (l : TimingList) : outcome TimingList :=
  cassert "!conn->timing_context().empty()" (bool_decide (last_receive_time l !! c ≠ None));;
  cs ← erase c (connection_list_ l);
  let cs := cs ++ [c] in
  cassert "node->position == --connection_list_.end()" (bool_decide (last cs = Some c));;
  Ok (MkTimingList (idle_seconds_ l) cs (<[c := receive_time]> (last_receive_time l))).

#[global] Instance list_timing : Timing TimingList :=
  {| Timing.OnTimer := OnTimer; Timing.OnConnection := OnConnection; Timing.OnMessage := OnMessage |}.

(** *** The list is sorted by time, so the loop may stop early *)

(** Times along the list, each within what the clock showed. *)
Definition times (nodes : gmap conn_id Z) (l : list conn_id) : list (option Z) := (nodes !!.) <$> l.

Inductive chronological (nodes : gmap conn_id Z) (now : Z) : list conn_id → Prop :=
| chron_nil : chronological nodes now []
| chron_cons c l t :
    nodes !! c = Some t → t ≤ now →
    (∀ c' t', c' ∈ l → nodes !! c' = Some t' → t ≤ t') →
    chronological nodes now l → chronological nodes now (c :: l).

Record list_inv (now : Z) (l : TimingList) : Prop := MkListInv {
  li_nodup : NoDup (connection_list_ l);
  li_order : chronological (last_receive_time l) now (connection_list_ l);
}.

Lemma chron_later nodes now now' l : now ≤ now' → chronological nodes now l → chronological nodes now' l.
Proof. induction 2 as [|c l t]; econstructor; eauto; lia. Qed.

Lemma chron_sublist nodes now l l' : sublist l' l → chronological nodes now l → chronological nodes now l'.
Proof.
  induction 1 as [|c l l' Hs IH|c l l' Hs IH]; [done|..];
    intros Hc; inversion Hc as [|c0 l0 t Ht Hle Hmin Hl]; subst; [|auto].
  econstructor; eauto. intros c' t' Hc'. apply Hmin.
  by eapply elem_of_sublist.
Qed.

(** The newest entry goes to the end. *)
Lemma chron_snoc nodes now l c t :
  chronological nodes now l → c ∉ l → now ≤ t → chronological (<[c := t]> nodes) t (l ++ [c]).
Proof.
  intros Hl. revert c. induction Hl as [|c0 l t0 H0 H1 H2 _ IH]; intros c Hc Ht; cbn.
  - apply (chron_cons _ _ c [] t); [apply lookup_insert_eq|done| |constructor]. intros c' t' ?. set_solver.
  - apply (chron_cons _ _ c0 _ t0); [rewrite lookup_insert_ne by set_solver; done|lia| |].
    + intros c' t' [Hin|Hin]%elem_of_app; [|apply list_elem_of_singleton in Hin as ->].
      * rewrite lookup_insert_ne by set_solver. by apply H2.
      * rewrite lookup_insert_eq. intros [= <-]. lia.
    + apply IH; [set_solver|done].
Qed.

Lemma filter_ne_sublist (c : conn_id) l : sublist (filter (λ x, x ≠ c) l) l.
Proof. apply sublist_filter. Qed.

Lemma erase_Ok c l l' : erase c l = Ok l' → l' = filter (λ x, x ≠ c) l.
Proof. unfold erase. case_bool_decide; [by intros [= <-]|done]. Qed.

(** [x] is a call due on connection [c]. *)
Definition overdue_call (view : conn_id → conn_view) (idle now : Z) (nodes : gmap conn_id Z)
    (c : conn_id) (x : conn_call) : Prop :=
  ∃ last, nodes !! c = Some last ∧ alive (view c) = true ∧ connected (view c) = true ∧
    idle * 1000000 < now - last ∧ (x = CallShutdown c ∨ x = CallForceCloseWithDelay c).

Lemma exists_in_cons {A} (P : A → Prop) a l : (∃ x, x ∈ a :: l ∧ P x) ↔ (P a ∨ ∃ x, x ∈ l ∧ P x).
Proof.
  split.
  - intros (x & [->|Hx]%elem_of_cons & HP); [by left|right; by exists x].
  - intros [HP|(x & Hx & HP)]; [exists a|exists x]; (split; [|done]); apply elem_of_cons; [by left|by right].
Qed.

(** What the loop does on a list in order: everything up to the first
    connection that is not overdue, and nobody behind it is. *)
Lemma scan_spec view idle now l nodes :
  0 ≤ idle → chronological nodes now l →
  ∃ l' calls, scan view idle now l nodes = Ok (l', nodes, calls) ∧ sublist l' l ∧
    (∀ x, x ∈ calls ↔ ∃ c, c ∈ l ∧ overdue_call view idle now nodes c x).
Proof.
  intros Hidle. induction 1 as [|c l t Ht Hle Hmin Hl IH]; cbn [scan].
  { exists [], []. split; [done|]. split; [done|]. intros x.
    split; [by intros ?%elem_of_nil|by intros (c & ?%elem_of_nil & _)]. }
  destruct IH as (l' & calls & -> & Hsub & Hcalls).
  destruct (alive (view c)) eqn:Hal.
  2: { exists l', calls. split; [done|]. split; [by constructor|].
       intros x. rewrite Hcalls, exists_in_cons. split; [by right|].
       intros [(? & _ & ? & _)|?]; [congruence|done]. }
  rewrite Ht. destruct (Z.ltb_spec (idle * 1000000) (now - t)) as [Hlt|Hge].
  - eexists _, _. split; [done|]. split; [by constructor|]. intros x.
    rewrite elem_of_app, Hcalls, exists_in_cons.
    assert (x ∈ (if connected (view c) then [CallShutdown c; CallForceCloseWithDelay c] else [])
            ↔ overdue_call view idle now nodes c x) as ->; [|done].
    unfold overdue_call. destruct (connected (view c)).
    + rewrite !elem_of_cons, elem_of_nil. split; [|naive_solver].
      intros Hx. exists t. split_and!; try done. tauto.
    + rewrite elem_of_nil. naive_solver.
  - replace (now - t <? 0) with false by lia. exists (c :: l), []. split; [done|]. split; [done|].
    intros x. split; [by intros ?%elem_of_nil|].
    intros (c' & Hin & t' & Ht' & _ & _ & Hover & _). exfalso.
    apply elem_of_cons in Hin as [->|Hin]; [simplify_eq; lia|].
    specialize (Hmin _ _ Hin Ht'). lia.
Qed.

(** The states a server brings the list to: the clock does not go back, a
    connection reports its connect once. *)
Inductive reachable (idle : Z) : Z → TimingList → Prop :=
| reach_new now : reachable idle now (TimingList_new idle)
| reach_connect now t c l l' :
    reachable idle now l → now ≤ t → c ∉ connection_list_ l →
    OnConnection c (MkConnView true true) t l = Ok l' → reachable idle t l'
| reach_disconnect now c l l' :
    reachable idle now l → OnConnection c (MkConnView true false) now l = Ok l' → reachable idle now l'
| reach_message now t c l l' :
    reachable idle now l → now ≤ t → OnMessage c t l = Ok l' → reachable idle t l'
| reach_timer now t view l l' calls :
    reachable idle now l → now ≤ t → OnTimer view t l = Ok (l', calls) → reachable idle t l'.

Lemma reachable_inv idle now l :
  0 ≤ idle → reachable idle now l → idle_seconds_ l = idle ∧ list_inv now l.
Proof.
  intros Hidle. induction 1 as [now|now t c l l' _ [IH [Hnd Hch]] Ht Hc E|now c l l' _ [IH [Hnd Hch]] E
    |now t c l l' _ [IH [Hnd Hch]] Ht E|now t view l l' calls _ [IH [Hnd Hch]] Ht E].
  - split; [done|]. split; [apply NoDup_nil_2|constructor].
  - injection E as <-. split; [done|]. split; cbn; [|by apply (chron_snoc _ now)].
    apply NoDup_app. split; [done|]. split; [set_solver|apply NoDup_singleton].
  - unfold OnConnection in E; cbn [connected] in E. inv_ok.
    match goal with H : erase _ _ = Ok _ |- _ => apply erase_Ok in H as -> end. split; [done|].
    split; cbn; [by apply NoDup_filter|]. eapply chron_sublist; [apply filter_ne_sublist|done].
  - unfold OnMessage in E. inv_ok.
    match goal with H : erase _ _ = Ok _ |- _ => apply erase_Ok in H as -> end.
    split; [done|]. split; cbn.
    + apply NoDup_app. split; [by apply NoDup_filter|].
      split; [|apply NoDup_singleton]. intros x Hx%list_elem_of_filter. set_solver.
    + apply (chron_snoc _ now); [|rewrite list_elem_of_filter; tauto|done].
      eapply chron_sublist; [apply filter_ne_sublist|done].
  - unfold OnTimer in E. apply (chron_later _ _ t) in Hch; [|done].
    destruct (scan_spec view (idle_seconds_ l) t (connection_list_ l) (last_receive_time l))
      as (cs & calls' & Hs & Hsub & _); [lia|done|].
    rewrite Hs in E. cbn in E. injection E as <- <-. split; [done|]. split; cbn.
    + by eapply sublist_NoDup.
    + by eapply chron_sublist.
Qed.

End TList.


