(* ===== verification/HttpServer.v ===== *)
(** * [net::HttpServer] (http/http_server.h, http/http_server.cc)

    The configuration, the default request handler and the two callbacks the
    server registers with its connections.  The file system is an interface
    ([FileSystem], with what the server relies on in [FileSystemLaws]), the
    idle-connection policy is the [Timing] interface, and what a callback does
    to its connection is the list of calls it makes. *)

From stdpp Require Import base tactics list numbers strings sets gmap.
From Stdlib Require Import ZArith Lia Ascii.
From S2P Require Import Prelude.
From S2P Require Import CString.
From S2P Require Import Buffer.
From S2P Require Import HttpRequest.
From S2P Require Import HttpContext.
From S2P Require Import HttpResponse.
From S2P Require Import Timing.

(** ** The file system *)

(** What the default handler asks of it: open a file for reading (its bytes),
    create or truncate one, write to the one just opened, and [remove(3)]. *)
Class FileSystem (F : Type) := {
  open_in : bytes → F → option bytes;
  open_out : bytes → F → option F;
  write_out : bytes → bytes → F → F;
  remove_file : bytes → F → Z * F;        (* 0, or errno *)
}.

Definition ENOENT : Z := 2.

(** Documented behaviour: a file opened for writing is empty, what is written
    to it can be read back, a removed file cannot be opened. *)
Class FileSystemLaws (F : Type) `{FileSystem F} := {
  open_out_truncates p f f' : open_out p f = Some f' → open_in p f' = Some [];
  write_out_read p d old f : open_in p f = Some old → open_in p (write_out p d f) = Some (old ++ d);
  remove_gone p f f' : remove_file p f = (0, f') → open_in p f' = None;
}.

(** A file system that is one flat directory of regular files. *)
#[global] Instance flat_fs : FileSystem (gmap bytes bytes) := {|
  open_in p f := f !! p;
  open_out p f := Some (<[p := []]> f);
  write_out p d f := match f !! p with Some old => <[p := old ++ d]> f | None => f end;
  remove_file p f := match f !! p with Some _ => (0, delete p f) | None => (ENOENT, f) end;
|}.

#[global] Instance flat_fs_laws : FileSystemLaws (gmap bytes bytes).
Proof.
  split; cbn.
  - intros p f f' [= <-]. apply lookup_insert_eq.
  - intros p d old f E. rewrite E. apply lookup_insert_eq.
  - intros p f f'. destruct (f !! p); intros [= <-]. apply lookup_delete_eq.
Qed.

(** ** Configuration *)

Inductive Option_ := kNoReusePort | kReusePort.
#[global] Instance Option_eq_dec : EqDecision Option_.
Proof. solve_decision. Defined.

(** [None] for [port_] and [option_] is an indeterminate value: the constructor
    that reads a file leaves both uninitialised. *)
Record HttpServerConfig := MkConfig {
  is_valid_ : bool;
  port_ : option Z;
  domain_ : bytes;
  docroot_ : bytes;
  option_ : option Option_;
}.

Definition default_domain_ : bytes := str "www.mytinyhttpd.org".
Definition default_docroot_ : bytes := str "/usr/share/mytinyhttpd".
Definition default_conf_file_ : bytes := str "/etc/mytinyhttpd/mytinyhttpd.conf".
Definition default_port_ : Z := 8000.
Definition default_option_ : Option_ := kNoReusePort.

Definition HttpServerConfig_new : HttpServerConfig :=
  MkConfig false (Some default_port_) [] [] (Some default_option_).

(** Reading a scalar member. *)
Definition read_member {A} (v : option A) : outcome A :=
  match v with Some a => Ok a | None => Fail (UndefinedBehaviour "read of an indeterminate value") end.

Definition ReplaceIfNotDefault (config this : HttpServerConfig) : outcome (bool * HttpServerConfig) :=
  if is_valid_ config then
    port ← read_member (port_ config);
    let port' := if negb (port =? default_port_) then Some port else port_ this in
    let domain' := if negb (bool_decide (domain_ config = [])) then domain_ config else domain_ this in
    let docroot' := if negb (bool_decide (docroot_ config = [])) then docroot_ config else docroot_ this in
    opt ← read_member (option_ config);
    let option' := if negb (bool_decide (opt = default_option_)) then Some opt else option_ this in
    Ok (true, MkConfig (is_valid_ this) port' domain' docroot' option')
  else Ok (false, this).

(** [*(docroot().cend() - 1)] needs a character. *)
Definition GetRealPath (path : bytes) (c : HttpServerConfig) : outcome bytes :=
  match last (docroot_ c) with
  | None => Fail (UndefinedBehaviour "cend() - 1 of an empty string")
  | Some x => Ok (docroot_ c ++ (if negb (bool_decide (x = "/"%char)) then str "/" else []) ++ path)
  end.

(** The JSON values a configuration file can hold for a key ([nlohmann/json] is
    not part of the sources); a conversion of the wrong kind throws. *)
Inductive json_value := JNumber (z : Z) | JString (s : bytes) | JOther.

Definition get_number (v : json_value) : outcome Z :=
  match v with JNumber z => Ok (wrapU 16 z) | _ => Fail (Exception "json type_error") end.
Definition get_string (v : json_value) : outcome bytes :=
  match v with JString s => Ok s | _ => Fail (Exception "json type_error") end.

(** What [config_file >> config_json] gives: an exception, something that is
    not an object, or an object. *)
Inductive json_text := JMalformed | JNotObject | JObject (o : gmap bytes json_value).

(** The assignments in the [try] block, in order. *)
Definition config_fields (o : gmap bytes json_value) : outcome HttpServerConfig :=
  port ← match o !! str "port" with Some v => z ← get_number v; Ok (Some z) | None => Ok None end;
  domain ← match o !! str "domain" with Some v => get_string v | None => Ok [] end;
  docroot ← match o !! str "docroot" with Some v => get_string v | None => Ok [] end;
  Ok (MkConfig true port domain docroot None).

(** [HttpServerConfig(filename)] with [parse] for the JSON library; [None]: the
    file cannot be opened. [catch (...)] turns any exception into [LOG_FATAL]. *)
Definition HttpServerConfig_file (parse : bytes → json_text) (file : option bytes)
    : outcome HttpServerConfig :=
  match file with
  | None => Ok (MkConfig false None [] [] None)
  | Some text =>
      match parse text with
      | JMalformed => Fail (FatalLog "HttpServerConfig file parse error")
      | JNotObject => Fail (AssertionFailed "config_json.is_object()")
      | JObject o =>
          match config_fields o with
          | Fail (Exception _) => Fail (FatalLog "HttpServerConfig file parse error")
          | r => r
          end
      end
  end.

(** [main] before the server starts: the command line's configuration, then the
    file's on top. *)
Definition startup_config (parse : bytes → json_text) (file : option bytes) (cli : HttpServerConfig)
    : outcome HttpServerConfig :=
  file_config ← HttpServerConfig_file parse file;
  if is_valid_ file_config then
    '(_, cli) ← ReplaceIfNotDefault file_config cli;
    Ok cli
  else Ok cli.

(** ** [GetMimeType] *)
Definition mime_type_map_ : list (bytes * bytes) :=
  [(str ".pdf", str "application/pdf");
   (str ".html", str "text/html; charset=utf-8");
   (str ".htm", str "text/html; charset=utf-8");
   (str ".jpg", str "image/jpeg");
   (str ".jpeg", str "image/jpeg");
   (str ".gif", str "image/gif");
   (str ".png", str "image/png");
   (str ".ico", str "image/x-icon");
   (str ".css", str "text/css");
   (str ".au", str "audio/basic");
   (str ".wav", str "audio/wav");
   (str ".avi", str "video/x-msvideo");
   (str ".mov", str "video/quicktime");
   (str ".qt", str "video/quicktime");
   (str ".mpeg", str "video/mpeg");
   (str ".mpe", str "video/mpeg");
   (str ".vrml", str "model/vrml");
   (str ".wrl", str "model/vrml");
   (str ".midi", str "audio/midi");
   (str ".mid", str "audio/midi");
   (str ".mp3", str "audio/mpeg");
   (str ".mp4", str "audio/mp4");
   (str ".ogg", str "application/ogg");
   (str ".pac", str "application/x-ns-proxy-autoconfig")].

Definition default_mime : bytes := str "application/octet-stream".

(** [real_path.substr(real_path.find_last_of(c))], if there is a [c]. *)
Definition from_last (c : ascii) (l : bytes) : option bytes :=
  match cut c (rev l) with
  | Some (suffix, _) => Some (c :: rev suffix)
  | None => None
  end.

Fixpoint assoc (k : bytes) (l : list (bytes * bytes)) : option bytes :=
  match l with
  | [] => None
  | (k', v) :: l => if bool_decide (k = k') then Some v else assoc k l
  end.

(** [operator[]] of the map inserts a null pointer for a key it does not have,
    which the code then treats as absent. *)
Definition GetMimeType (real_path : bytes) : bytes :=
  match from_last "."%char real_path with
  | None => default_mime
  | Some ext => match assoc ext mime_type_map_ with Some t => t | None => default_mime end
  end.

(** ** The pages *)
Definition dquote : bytes := ["034"%char].

Definition welcome_html : bytes :=
  str "<!DOCTYPE html><html><head><meta http-equiv=" ++ dquote ++ str "Content-Type" ++ dquote ++
  str " content=" ++ dquote ++ str "text/html; charset=windows-1252" ++ dquote ++
  str "><title>Welcome to MyTinyHttpd!</title><style>body {width: 35em;margin: 0 auto;font-family: Tahoma, Verdana, Arial, sans-serif;}</style></head><body><h1>Welcome to MyTinyHttpd!</h1><p>If you see this page, the MyTinyHttpd web server is successfully installed andworking. Further configuration is required.</p><p><em>Thank you for using MyTinyHttpd.</em></p></body></html>".

Definition options_html : bytes :=
  str "<html><head><title>MyTinyHttpd Support Options</title></head><body><center><h1>MyTinyHttpd Support Options:</h1></center><center>GET POST HEAD PUT DELETE OPTIONS.</center></body></html>".

Definition html_405 : bytes :=
  str "<html><head><title>405 Not Allowed</title></head><body><center><h1>405 Not Allowed</h1></center><hr><center>MyTinyHttpd/0.0.1</center></body></html>".

Definition html_type : bytes := str "text/html; charset=utf-8".

Section server.
Context {F : Type} `{FileSystem F}.

(** ** [DefaultHttpCallback] *)
Definition DefaultHttpCallback (config : HttpServerConfig) (req : HttpRequest) (resp : HttpResponse)
    (fs : F) : outcome (HttpResponse * F) :=
  let domain := domain_ config in
  match method_ req with
  | kGet =>
      if bool_decide (path_ req = []) then
        resp ← AppendStatusLine k200Ok (str "OK") resp;
        resp ← AppendContentBase domain resp;
        resp ← AppendCloseConnection_default resp;
        resp ← AppendContentType html_type resp;
        resp ← AppendBody welcome_html resp;
        Ok (resp, fs)
      else
        real_path ← GetRealPath (path_ req) config;
        match open_in real_path fs with
        | Some real_file =>
            resp ← AppendStatusLine k200Ok (str "OK") resp;
            resp ← AppendContentBase domain resp;
            resp ← AppendContentType (GetMimeType real_path) resp;
            resp ← AppendCloseConnection_default resp;
            resp ← AppendBody_ifstream real_file resp;
            Ok (resp, fs)
        | None =>
            resp ← AppendStatusLine k404NotFound (str "Not Found") resp;
            resp ← AppendContentBase domain resp;
            resp ← AppendCloseConnection true resp;
            resp ← AppendHeadersEnd false resp;
            Ok (resp, fs)
        end
  | kPost =>
      resp ← AppendStatusLine k200Ok (str "OK") resp;
      resp ← AppendContentBase domain resp;
      resp ← AppendCloseConnection_default resp;
      resp ← AppendHeadersEnd false resp;
      Ok (resp, fs)
  | kHead =>
      real_path ← GetRealPath (path_ req) config;
      match open_in real_path fs with
      | Some real_file =>
          resp ← AppendStatusLine k200Ok (str "OK") resp;
          resp ← AppendContentBase domain resp;
          resp ← AppendContentType (GetMimeType real_path) resp;
          resp ← AppendCloseConnection_default resp;
          resp ← AppendContentLength (wrapU 64 (GetFileSize real_file)) resp;
          resp ← AppendHeadersEnd false resp;
          Ok (resp, fs)
      | None =>
          resp ← AppendStatusLine k404NotFound (str "Not Found") resp;
          resp ← AppendContentBase domain resp;
          resp ← AppendCloseConnection true resp;
          resp ← AppendHeadersEnd false resp;
          Ok (resp, fs)
      end
  | kPut =>
      real_path ← GetRealPath (path_ req) config;
      match open_out real_path fs with
      | Some fs =>
          let fs := write_out real_path (body_ req) fs in
          resp ← AppendStatusLine k200Ok (str "OK") resp;
          resp ← AppendContentBase domain resp;
          resp ← AppendCloseConnection_default resp;
          resp ← AppendHeadersEnd false resp;
          Ok (resp, fs)
      | None =>
          resp ← AppendStatusLine k500InternalServerError (str "Internal Server Error") resp;
          resp ← AppendContentBase domain resp;
          resp ← AppendCloseConnection_default resp;
          resp ← AppendHeadersEnd false resp;
          Ok (resp, fs)
      end
  | kDelete =>
      real_path ← GetRealPath (path_ req) config;
      let '(errno, fs) := remove_file real_path fs in
      resp ← (if errno =? 0 then AppendStatusLine k200Ok (str "OK") resp
              else if errno =? ENOENT then AppendStatusLine k404NotFound (str "Not Found") resp
              else AppendStatusLine k500InternalServerError (str "Internal Server Error") resp);
      resp ← AppendContentBase domain resp;
      resp ← AppendCloseConnection_default resp;
      resp ← AppendHeadersEnd false resp;
      Ok (resp, fs)
  | kOptions =>
      resp ← AppendStatusLine k200Ok (str "OK") resp;
      resp ← AppendContentBase domain resp;
      resp ← AppendCloseConnection_default resp;
      resp ← AppendContentType html_type resp;
      resp ← AppendBody options_html resp;
      Ok (resp, fs)
  | kInvalid | kTrack =>
      resp ← AppendStatusLine k405MethodNotAllowd (str "Method Not Allowd") resp;
      resp ← AppendContentBase domain resp;
      resp ← AppendCloseConnection_default resp;
      resp ← AppendContentType html_type resp;
      resp ← AppendBody html_405 resp;
      Ok (resp, fs)
  end.

(** ** The callbacks *)

(** The calls a callback makes on its connection. *)
Inductive send_call :=
| CallSend (data : bytes)
| CallShutdownWrite.

(** A callback installed with [SetHttpCallback]. *)
Definition HttpCallback : Type := HttpRequest → HttpResponse → F → outcome (HttpResponse * F).

(** Whether the connection is to be closed after the response. *)
Definition wants_close (req : HttpRequest) : bool :=
  let connection := GetHeader (str "Connection") req in
  bool_decide (connection = str "close") ||
  (bool_decide (version_ req = kHttp10) && negb (bool_decide (connection = str "Keep-Alive"))).

Definition OnRequest (config : HttpServerConfig) (http_callback_ : option HttpCallback)
    (req : HttpRequest) (fs : F) : outcome (F * list send_call) :=
  response ← HttpResponse_new (wants_close req);
  '(response, fs) ← (match http_callback_ with
                     | Some cb => cb req response fs
                     | None => DefaultHttpCallback config req response fs
                     end);
  let calls := CallSend (contents (buffer_ response)) ::
               (if IsCloseConnection response then [CallShutdownWrite] else []) in
  _ ← HttpResponse_destroy response;
  Ok (fs, calls).

Definition bad_request : bytes := str "HTTP/1.1 400 Bad Request" ++ CRLF ++ CRLF.

(** [OnMessage]; [None] when the parser runs out of fuel. *)
Definition OnMessage {T} `{Timing T} (fuel : nat) (config : HttpServerConfig)
    (http_callback_ : option HttpCallback) (conn : Z) (receive_time : Z)
    (timing : T) (context : HttpContext) (buf : Buffer) (fs : F)
    : option (outcome (T * HttpContext * Buffer * F * list send_call)) :=
  match Timing.OnMessage conn receive_time timing with
  | Fail f => Some (Fail f)
  | Ok timing =>
      match ParseRequest fuel receive_time context buf with
      | None => None
      | Some (Fail f) => Some (Fail f)
      | Some (Ok (ok, context, buf)) =>
          let calls := if ok then [] else [CallSend bad_request; CallShutdownWrite] in
          Some (if IsGotAll context then
                  '(fs, calls') ← OnRequest config http_callback_ (request_ context) fs;
                  Ok (timing, Reset context, buf, fs, calls ++ calls')
                else Ok (timing, context, buf, fs, calls))
      end
  end.

(** [OnConnection]: the timing object first, then a fresh context. *)
Definition OnConnection {T} `{Timing T} (conn : Z) (view : conn_view) (now : Z)
    (timing : T) (context : option HttpContext) : outcome (T * option HttpContext) :=
  timing ← Timing.OnConnection conn view now timing;
  Ok (timing, if connected view then Some HttpContext_new else context).

End server.

(** ** The default handler as a function from requests to replies *)

Definition page (domain : bytes) (close : bool) (code : Z) (message html : bytes) : reply :=
  MkReply code message
    [(str "Content-Base", domain); connection_header close; (str "Content-Type", html_type);
     content_length (zlen html)] html.

Definition bare (domain : bytes) (close : bool) (code : Z) (message : bytes) : reply :=
  MkReply code message [(str "Content-Base", domain); connection_header close; content_length 0] [].

(** The reply, whether the connection is closed after it, and the files. *)
Definition handle {F} `{FileSystem F} (domain real_path : bytes) (close : bool) (req : HttpRequest) (fs : F)
    : reply * bool * F :=
  match method_ req with
  | kGet =>
      if bool_decide (path_ req = []) then (page domain close 200 (str "OK") welcome_html, close, fs)
      else match open_in real_path fs with
           | Some file =>
               (MkReply 200 (str "OK")
                  [(str "Content-Base", domain); (str "Content-Type", GetMimeType real_path);
                   connection_header close; content_length (zlen file)] file, close, fs)
           | None => (bare domain true 404 (str "Not Found"), true, fs)
           end
  | kPost => (bare domain close 200 (str "OK"), close, fs)
  | kHead =>
      match open_in real_path fs with
      | Some file =>
          (MkReply 200 (str "OK")
             [(str "Content-Base", domain); (str "Content-Type", GetMimeType real_path);
              connection_header close; content_length (zlen file); content_length 0] [], close, fs)
      | None => (bare domain true 404 (str "Not Found"), true, fs)
      end
  | kPut =>
      match open_out real_path fs with
      | Some fs => (bare domain close 200 (str "OK"), close, write_out real_path (body_ req) fs)
      | None => (bare domain close 500 (str "Internal Server Error"), close, fs)
      end
  | kDelete =>
      let '(errno, fs) := remove_file real_path fs in
      ((if errno =? 0 then bare domain close 200 (str "OK")
        else if errno =? ENOENT then bare domain close 404 (str "Not Found")
        else bare domain close 500 (str "Internal Server Error")), close, fs)
  | kOptions => (page domain close 200 (str "OK") options_html, close, fs)
  | kInvalid | kTrack => (page domain close 405 (str "Method Not Allowd") html_405, close, fs)
  end.

Lemma AppendCloseConnection_default_holds s close c r :
  holds s close c r → (s = kAppendStatusLine ∨ s = kAppendHeader) →
  fits (c ++ header_bytes (connection_header close)) →
  returns (AppendCloseConnection_default r)
    (holds kAppendHeader close (c ++ header_bytes (connection_header close))).
Proof.
  intros Hr Hs Hf. unfold AppendCloseConnection_default.
  rewrite (h_close _ _ _ _ Hr). by eapply AppendCloseConnection_holds.
Qed.

Lemma holds_eq s close c c' r : holds s close c r → c = c' → holds s close c' r.
Proof. by intros ? <-. Qed.

(** One call on the response, by the lemma of the call. *)
Ltac resp_call :=
  match goal with
  | |- returns (AppendStatusLine _ _ _ ≫= _) _ =>
      eapply returns_bind; [eapply AppendStatusLine_holds; [first [done|lia]|eassumption|fits_tac]|]
  | |- returns (AppendContentBase _ _ ≫= _) _ =>
      eapply returns_bind; [eapply AppendHeader_holds; [eassumption|tauto|fits_tac]|]
  | |- returns (AppendContentType _ _ ≫= _) _ =>
      eapply returns_bind; [eapply AppendHeader_holds; [eassumption|tauto|fits_tac]|]
  | |- returns (AppendCloseConnection _ _ ≫= _) _ =>
      eapply returns_bind; [eapply AppendCloseConnection_holds; [eassumption|tauto|fits_tac]|]
  | |- returns (AppendCloseConnection_default _ ≫= _) _ =>
      eapply returns_bind; [eapply AppendCloseConnection_default_holds; [eassumption|tauto|fits_tac]|]
  | |- returns (AppendHeadersEnd false _ ≫= _) _ =>
      eapply returns_bind; [eapply AppendHeadersEnd_nobody_holds; [eassumption|tauto|fits_tac]|]
  | |- returns (AppendContentLength _ _ ≫= _) _ =>
      eapply returns_bind; [eapply AppendContentLength_holds; [|eassumption|tauto|fits_tac]|]
  | |- returns (AppendBody _ _ ≫= _) _ =>
      eapply returns_bind; [eapply AppendBody_holds; [|eassumption|fits_tac]|]
  | |- returns (AppendBody_ifstream _ _ ≫= _) _ =>
      rewrite AppendBody_ifstream_eq by done;
      eapply returns_bind; [eapply AppendBody_holds; [|eassumption|fits_tac]|]
  end.

Ltac resp_norm :=
  unfold render, bare, page, k200Ok, k404NotFound in *;
  cbn [r_code r_message r_headers r_body fmap list_fmap concat] in *;
  rewrite ?app_nil_r in *.

(** What the handler guarantees of a response: the bytes of reply [p]. *)
Definition replied {F} (p : reply) (close : bool) (fs : F) (x : HttpResponse * F) : Prop :=
  x.2 = fs ∧ ∃ s, holds s close (render p) x.1 ∧ (state_rank kAppendHeader <=? state_rank s) = true.

Ltac resp_done :=
  cbn [returns]; unfold replied; cbn [fst snd]; split; [done|]; eexists; split; [eapply holds_eq; [eassumption|]|done];
  resp_norm; by rewrite <-?app_assoc, ?app_nil_l.

Ltac resp_run := repeat (resp_call; [..|cbv beta; intros ? ?]).

Section replies.
Context {F : Type} (domain : bytes) (close : bool) (fs : F) (resp : HttpResponse).
Hypothesis fresh : holds kAppendNothing close [] resp.

Lemma page_replied code message html :
  0 ≤ code < 2 ^ 15 → zlen html < max_content_length → fits (render (page domain close code message html)) →
  returns (resp ← AppendStatusLine code message resp;
           resp ← AppendContentBase domain resp;
           resp ← AppendCloseConnection_default resp;
           resp ← AppendContentType html_type resp;
           resp ← AppendBody html resp;
           Ok (resp, fs)) (replied (page domain close code message html) close fs).
Proof. intros Hcode Hl Hf. resp_norm. resp_run; [done..|]. resp_done. Qed.

Lemma bare_replied code message :
  0 ≤ code < 2 ^ 15 → fits (render (bare domain close code message)) →
  returns (resp ← AppendStatusLine code message resp;
           resp ← AppendContentBase domain resp;
           resp ← AppendCloseConnection_default resp;
           resp ← AppendHeadersEnd false resp;
           Ok (resp, fs)) (replied (bare domain close code message) close fs).
Proof. intros Hcode Hf. resp_norm. resp_run; [done..|]. resp_done. Qed.

Lemma not_found_replied :
  fits (render (bare domain true 404 (str "Not Found"))) →
  returns (resp ← AppendStatusLine k404NotFound (str "Not Found") resp;
           resp ← AppendContentBase domain resp;
           resp ← AppendCloseConnection true resp;
           resp ← AppendHeadersEnd false resp;
           Ok (resp, fs)) (replied (bare domain true 404 (str "Not Found")) true fs).
Proof. intros Hf. resp_norm. resp_run; [done..|]. resp_done. Qed.

Lemma file_replied mime file :
  zlen file < max_content_length →
  let p := MkReply 200 (str "OK") [(str "Content-Base", domain); (str "Content-Type", mime);
             connection_header close; content_length (zlen file)] file in
  fits (render p) →
  returns (resp ← AppendStatusLine k200Ok (str "OK") resp;
           resp ← AppendContentBase domain resp;
           resp ← AppendContentType mime resp;
           resp ← AppendCloseConnection_default resp;
           resp ← AppendBody_ifstream file resp;
           Ok (resp, fs)) (replied p close fs).
Proof. intros Hl p Hf. subst p. resp_norm. resp_run; [done..|]. resp_done. Qed.

Lemma head_replied mime file :
  zlen file < max_content_length →
  let p := MkReply 200 (str "OK") [(str "Content-Base", domain); (str "Content-Type", mime);
             connection_header close; content_length (zlen file); content_length 0] [] in
  fits (render p) →
  returns (resp ← AppendStatusLine k200Ok (str "OK") resp;
           resp ← AppendContentBase domain resp;
           resp ← AppendContentType mime resp;
           resp ← AppendCloseConnection_default resp;
           resp ← AppendContentLength (wrapU 64 (GetFileSize file)) resp;
           resp ← AppendHeadersEnd false resp;
           Ok (resp, fs)) (replied p close fs).
Proof.
  intros Hl p Hf. subst p. resp_norm. pose proof (zlen_nonneg file). unfold max_content_length in *.
  unfold GetFileSize. rewrite wrapU_small by lia. resp_run; [done..|]. resp_done.
Qed.
End replies.

(** Bodies the response can announce. *)
Definition small_file (o : option bytes) : Prop :=
  match o with Some d => zlen d < max_content_length | None => True end.

Lemma DefaultHttpCallback_spec {F} `{FileSystem F} config req real_path close (fs : F) resp p close' fs' :
  GetRealPath (path_ req) config = Ok real_path → small_file (open_in real_path fs) →
  holds kAppendNothing close [] resp →
  handle (domain_ config) real_path close req fs = (p, close', fs') → fits (render p) →
  returns (DefaultHttpCallback config req resp fs) (replied p close' fs').
Proof.
  intros Hp Hsmall Hr Hh Hf. unfold handle in Hh. unfold DefaultHttpCallback.
  destruct (method_ req); rewrite ?Hp; cbn [mbind outcome_bind].
  - simplify_eq. by apply page_replied.
  - case_bool_decide; [simplify_eq; by apply page_replied|].
    destruct (open_in real_path fs); simplify_eq; [by apply file_replied|by apply (not_found_replied _ close)].
  - simplify_eq. by apply bare_replied.
  - destruct (open_in real_path fs); simplify_eq; [by apply head_replied|by apply (not_found_replied _ close)].
  - destruct (open_out real_path fs); simplify_eq; by apply bare_replied.
  - destruct (remove_file real_path fs) as [errno fs1].
    destruct (errno =? 0); [|destruct (errno =? ENOENT)]; simplify_eq; by apply bare_replied.
  - simplify_eq. by apply page_replied.
  - simplify_eq. by apply page_replied.
Qed.

(** The calls that send reply [p]. *)
Definition reply_calls (p : reply) (close : bool) : list send_call :=
  CallSend (render p) :: (if close then [CallShutdownWrite] else []).

Lemma OnRequest_default {F} `{FileSystem F} config req real_path (fs : F) p close fs' :
  GetRealPath (path_ req) config = Ok real_path → small_file (open_in real_path fs) →
  handle (domain_ config) real_path (wants_close req) req fs = (p, close, fs') → fits (render p) →
  OnRequest config None req fs = Ok (fs', reply_calls p close).
Proof.
  intros Hp Hs Hh Hf. unfold OnRequest.
  pose proof (HttpResponse_new_holds (wants_close req)) as Hn.
  destruct (HttpResponse_new _) as [resp|]; [|done]. cbn [mbind outcome_bind returns] in *.
  pose proof (DefaultHttpCallback_spec config req real_path _ fs resp p close fs' Hp Hs Hn Hh Hf) as Hd.
  destruct (DefaultHttpCallback config req resp fs) as [[r fs1]|]; [|done].
  destruct Hd as [Hfs (s & [Hst Hcl _ Hc _] & Hrank)]. cbn [fst snd mbind outcome_bind] in *.
  unfold HttpResponse_destroy. rewrite Hst, Hrank. cbn [cassert mbind outcome_bind].
  subst fs1. unfold reply_calls, IsCloseConnection. by rewrite Hc, Hcl.
Qed.

(** The welcome page of the default configuration. *)
Definition sample_config : HttpServerConfig :=
  MkConfig false (Some 8000) default_domain_ default_docroot_ (Some kNoReusePort).

Definition get_request (path : bytes) : HttpRequest :=
  MkHttpRequest kGet kHttp11 path [] 0 ∅ [].



Definition content_lengths (p : reply) : list bytes :=
  (filter (λ h, h.1 = str "Content-Length") (r_headers p)).*2.

(** What a request needs to be answered: a document root, a file that the
    response can announce, and a reply that fits in the buffer. *)
Record answerable {F} `{FileSystem F} (config : HttpServerConfig) (real_path : bytes) (req : HttpRequest) (fs : F)
    : Prop := MkAnswerable {
  an_path : GetRealPath (path_ req) config = Ok real_path;
  an_small : small_file (open_in real_path fs);
  an_fits : fits (render (handle (domain_ config) real_path (wants_close req) req fs).1.1);
}.

Lemma OnRequest_answerable {F} `{FileSystem F} config real_path req (fs : F) :
  answerable config real_path req fs →
  let '(p, close, fs') := handle (domain_ config) real_path (wants_close req) req fs in
  OnRequest config None req fs = Ok (fs', reply_calls p close).
Proof.
  intros [Hp Hs Hf]. destruct (handle _ _ _ _ _) as [[p close] fs'] eqn:E. by eapply OnRequest_default.
Qed.

(** The reply is framed.  For every request other than [HEAD] that can be
    answered, [OnRequest] sends the rendering of a reply with exactly one
    [Content-Length], the number of bytes of its body in decimal, so a client
    can tell where it ends. *)
Theorem reply_framed {F} `{FileSystem F} config real_path req (fs : F) :
  answerable config real_path req fs → method_ req ≠ kHead →
  ∃ p close fs', OnRequest config None req fs = Ok (fs', reply_calls p close) ∧
    content_lengths p = [fmt_u (zlen (r_body p))].
Proof.
  intros Ha Hm. pose proof (OnRequest_answerable _ _ _ _ Ha) as Hr.
  destruct (handle _ _ _ _ _) as [[p close] fs'] eqn:E. exists p, close, fs'. split; [done|].
  unfold handle in E. unfold content_lengths. destruct (method_ req); simplify_eq; try done.
  - case_bool_decide; [by simplify_eq|]. by destruct (open_in real_path fs); simplify_eq.
  - by destruct (open_out real_path fs); simplify_eq.
  - destruct (remove_file real_path fs) as [e ?]. simplify_eq.
    by destruct (e =? 0); [|destruct (e =? ENOENT)].
Qed.

(** The sample: a server with one file. *)
Definition sample_path : bytes := default_docroot_ ++ str "/f".
Definition sample_fs : gmap bytes bytes := {[sample_path := str "hello"]}.
Definition sample_request (m : Method) (body : bytes) : HttpRequest := MkHttpRequest m kHttp11 (str "f") [] 0 ∅ body.

Lemma sample_answerable (m : Method) (fs : gmap bytes bytes) :
  fs = ∅ ∨ fs = sample_fs → answerable sample_config sample_path (sample_request m (str "hello")) fs.
Proof. intros [-> | ->]; destruct m; split; vm_compute; done. Qed.

Lemma reply_framed_witness :
  ∃ p close fs', OnRequest sample_config None (sample_request kGet (str "hello")) sample_fs = Ok (fs', reply_calls p close) ∧
    content_lengths p = [fmt_u (zlen (r_body p))].
Proof. apply (reply_framed sample_config sample_path); [apply sample_answerable; by right|discriminate]. Defined.

(** The reply to [HEAD] contradicts itself.  For a file that exists the
    handler appends the file's [Content-Length], and [AppendHeadersEnd] then
    appends a second one that says 0. *)
Theorem head_two_content_lengths {F} `{FileSystem F} config real_path req (fs : F) file :
  answerable config real_path req fs → method_ req = kHead → open_in real_path fs = Some file →
  ∃ p, OnRequest config None req fs = Ok (fs, reply_calls p (wants_close req)) ∧
    content_lengths p = [fmt_u (zlen file); fmt_u 0].
Proof.
  intros Ha Hm Ho. pose proof (OnRequest_answerable _ _ _ _ Ha) as Hr. unfold handle in Hr. rewrite Hm, Ho in Hr.
  eexists. by split; [exact Hr|].
Qed.

Lemma head_two_content_lengths_witness :
  ∃ p, OnRequest sample_config None (sample_request kHead (str "hello")) sample_fs = Ok (sample_fs, reply_calls p false) ∧
    content_lengths p = [str "5"; str "0"].
Proof.
  apply (head_two_content_lengths sample_config sample_path (sample_request kHead (str "hello")) sample_fs (str "hello"));
    [apply sample_answerable; by right|reflexivity|reflexivity].
Defined.



Lemma OnMessage_parse {F T} `{FileSystem F, Timing T} fuel config cb conn t (timing timing' : T) c b (fs : F) :
  Timing.OnMessage conn t timing = Ok timing' →
  good b → slack c b → HttpContext.state_ c ≠ kGotAll → (length (contents b) + 2 ≤ fuel)%nat →
  ∃ b', OnMessage fuel config cb conn t timing c b fs =
    (match parse t c (contents b) with
     | Fail f => Some (Fail f)
     | Ok (ok, c', rest) =>
         let calls := if ok then [] else [CallSend bad_request; CallShutdownWrite] in
         Some (if IsGotAll c' then
                 '(fs, calls') ← OnRequest config cb (request_ c') fs;
                 Ok (timing', Reset c', b', fs, calls ++ calls')
               else Ok (timing', c', b', fs, calls))
     end) ∧ (∀ ok c' rest, parse t c (contents b) = Ok (ok, c', rest) → contents b' = rest).
Proof.
  intros Ht Hg Hs Hst Hf. pose proof (ParseRequest_agrees fuel t c b Hg Hs Hst Hf) as Ha.
  unfold OnMessage. rewrite Ht. destruct (parse t c (contents b)) as [[[ok c'] rest]|f].
  - destruct Ha as (b' & -> & _ & Hc & _). exists b'. split; [done|]. by intros ? ? ? [= <- <- <-].
  - rewrite Ha. by exists b.
Qed.

(** From the bytes of a request to the bytes of its reply.  When a message
    completes a well-formed request in a new context, [OnMessage] parses it,
    hands it to the default handler, sends exactly the rendered reply, resets
    the context, and leaves in the buffer only what followed the request. *)
Theorem on_message_serves {F T} `{FileSystem F, Timing T} fuel config conn t (timing timing' : T)
    w b (fs : F) real_path p close fs' :
  valid_wire w → good b → contents b = print_request w → (length (contents b) + 2 ≤ fuel)%nat →
  Timing.OnMessage conn t timing = Ok timing' →
  GetRealPath (w_path w) config = Ok real_path → small_file (open_in real_path fs) →
  handle (domain_ config) real_path (wants_close (request_of t w)) (request_of t w) fs = (p, close, fs') →
  fits (render p) →
  ∃ b', OnMessage fuel config None conn t timing HttpContext_new b fs
        = Some (Ok (timing', Reset (MkHttpContext kGotAll (request_of t w)), b', fs', reply_calls p close)) ∧
    contents b' = if sends_body (w_method w) then [] else w_body w.
Proof.
  intros Hw Hg Hc Hf Ht Hp Hsm Hh Hfit.
  assert (slack HttpContext_new b) as Hs by (by eapply slack_print).
  destruct (OnMessage_parse fuel config None conn t timing timing' HttpContext_new b fs Ht Hg Hs ltac:(done) Hf)
    as (b' & Hm & Hrest).
  rewrite Hc in Hm, Hrest. unfold print_request in Hm, Hrest. rewrite parse_head in Hm, Hrest by done.
  assert (finish (MkHttpRequest (w_method w) (w_version w) (w_path w) (w_query w) t
    (add_headers (all_headers w) ∅) []) (w_body w) =
    (true, MkHttpContext kGotAll (request_of t w), if sends_body (w_method w) then [] else w_body w)) as Hfin.
  { unfold request_of. destruct (sends_body (w_method w)) eqn:Es.
    - rewrite (finish_body w t); [|done|apply Hw|done..]. by rewrite Z.eqb_refl.
    - unfold finish, expects_body. cbn [method_]. unfold sends_body in Es. by rewrite Es. }
  cbn [HttpContext_new HttpRequest_new body_ request_] in *. rewrite Hfin in *.
  exists b'. split; [|by eapply Hrest]. rewrite Hm.
  change (IsGotAll (MkHttpContext kGotAll (request_of t w))) with true. cbv iota.
  rewrite (OnRequest_default config (request_of t w) real_path fs p close fs') by done. done.
Qed.

(** A [PUT] over one segment, with the wheel as the timing policy. *)
Lemma on_message_serves_witness :
  ∃ b', OnMessage (T := TList.TimingList) 300 sample_config None 1 9
      (TList.MkTimingList 8 [1] {[1 := 0]}) HttpContext_new
      (sample_buffer (print_request (MkWire kPut (str "f") [] kHttp11 [] (str "hi")))) (∅ : gmap bytes bytes)
    = Some (Ok (TList.MkTimingList 8 [1] {[1 := 9]},
                Reset (MkHttpContext kGotAll (request_of 9 (MkWire kPut (str "f") [] kHttp11 [] (str "hi")))),
                b', {[default_docroot_ ++ str "/f" := str "hi"]},
                reply_calls (bare default_domain_ false 200 (str "OK")) false)) ∧
    contents b' = [].
Proof.
  eapply (on_message_serves (T := TList.TimingList) 300 sample_config 1 9
    (TList.MkTimingList 8 [1] {[1 := 0]}) _ (MkWire kPut (str "f") [] kHttp11 [] (str "hi")) _
    (∅ : gmap bytes bytes) (default_docroot_ ++ str "/f")).
  - split; try (repeat split; (discriminate || (apply (bool_decide_unpack _); vm_compute; exact I))).
    by left.
  - split; [|done..]. apply (bool_decide_unpack _). vm_compute. exact I.
  - vm_compute. reflexivity.
  - vm_compute. lia.
  - vm_compute. reflexivity.
  - vm_compute. reflexivity.
  - exact I.
  - vm_compute. reflexivity.
  - vm_compute. discriminate.
Defined.

Lemma aparse_false_not_all n t c l c' rest :
  HttpContext.state_ c ≠ kGotAll → aparse n t c l = Ok (false, c', rest) → HttpContext.state_ c' ≠ kGotAll.
Proof.
  assert (∀ r l, finish r l = (false, c', rest) → HttpContext.state_ c' ≠ kGotAll) as Hfin.
  { intros r l0. unfold finish. repeat case_match; intros [= <- <-]; done. }
  revert c l. induction n as [|n IH]; intros [st r] l Hst; cbn [aparse HttpContext.state_ request_]; [done|].
  destruct st; try done.
  - destruct (next_line l) as [[line rest']|]; [|done].
    destruct (request_line line r) as [[[] r']|]; cbn [mbind outcome_bind];
      [intros Hx; eapply IH; [|exact Hx]; done|intros [= <- _]; done|done].
  - destruct (next_line l) as [[line rest']|]; [|done].
    destruct (header_line line r); [intros Hx; eapply IH; [|exact Hx]; done|]. intros [= Hx]. by eapply Hfin.
  - intros [= Hx]. by eapply Hfin.
Qed.

(** C23: a refused request is answered with 400 and nothing else happens.  When
    the parser refuses what it was given, [OnMessage] sends the 400 reply, shuts
    the write side down, and neither calls the handler nor touches a file. *)
Theorem on_message_bad_request {F T} `{FileSystem F, Timing T} fuel config cb conn t (timing timing' : T)
    c b (fs : F) c' rest :
  Timing.OnMessage conn t timing = Ok timing' →
  good b → slack c b → HttpContext.state_ c ≠ kGotAll → (length (contents b) + 2 ≤ fuel)%nat →
  parse t c (contents b) = Ok (false, c', rest) →
  ∃ b', OnMessage fuel config cb conn t timing c b fs
        = Some (Ok (timing', c', b', fs, [CallSend bad_request; CallShutdownWrite])) ∧ contents b' = rest.
Proof.
  intros Ht Hg Hs Hst Hf Hp.
  destruct (OnMessage_parse fuel config cb conn t timing timing' c b fs Ht Hg Hs Hst Hf) as (b' & Hm & Hrest).
  exists b'. split; [|by eapply Hrest]. rewrite Hm, Hp. unfold IsGotAll.
  rewrite bool_decide_false; [done|]. by eapply aparse_false_not_all.
Qed.

Lemma on_message_bad_request_witness :
  ∃ c' b', OnMessage (T := TList.TimingList) 30 sample_config None 1 9
      (TList.MkTimingList 8 [1] {[1 := 0]}) HttpContext_new
      (sample_buffer (str "GET / HTTP/2.0" ++ CRLF)) (∅ : gmap bytes bytes)
    = Some (Ok (TList.MkTimingList 8 [1] {[1 := 9]}, c', b', ∅, [CallSend bad_request; CallShutdownWrite])).
Proof.
  edestruct (on_message_bad_request (T := TList.TimingList) 30 sample_config None 1 9
    (TList.MkTimingList 8 [1] {[1 := 0]}) (TList.MkTimingList 8 [1] {[1 := 9]}) HttpContext_new
    (sample_buffer (str "GET / HTTP/2.0" ++ CRLF)) (∅ : gmap bytes bytes)) as (b' & H & _).
  - vm_compute. reflexivity.
  - split; [|done..]. apply (bool_decide_unpack _). vm_compute. exact I.
  - intros _. vm_compute. discriminate.
  - discriminate.
  - vm_compute. lia.
  - vm_compute. reflexivity.
  - eexists _, b'. exact H.
Defined.

(** The path of a request is appended to the document root as it is: a target
    with dot segments names a file outside of it. *)
Theorem real_path_not_confined c x path :
  last (docroot_ c) = Some x → x ≠ "/"%char →
  GetRealPath (str "../" ++ path) c = Ok (docroot_ c ++ str "/../" ++ path).
Proof. intros E Hx. unfold GetRealPath. rewrite E. by rewrite bool_decide_false. Qed.

(** Every configuration file that is accepted makes start-up read an
    uninitialised member.  [HttpServerConfig(filename)] never sets [option_]
    (nor [port_] when the file has none), and [ReplaceIfNotDefault] compares it
    with the default. *)
Theorem config_file_indeterminate parse text o cli file_config :
  parse text = JObject o → config_fields o = Ok file_config →
  startup_config parse (Some text) cli
  = Fail (UndefinedBehaviour "read of an indeterminate value").
Proof.
  intros Hp Hc.
  assert (is_valid_ file_config = true ∧ option_ file_config = None) as [Hv Ho]
    by (unfold config_fields in Hc; by inv_ok).
  unfold startup_config, HttpServerConfig_file. rewrite Hp, Hc. cbn [mbind outcome_bind]. rewrite Hv.
  unfold ReplaceIfNotDefault. rewrite Hv, Ho. by destruct (port_ file_config).
Qed.

Lemma config_file_indeterminate_witness :
  startup_config (λ _, JObject {[str "port" := JNumber 9000]}) (Some []) HttpServerConfig_new
  = Fail (UndefinedBehaviour "read of an indeterminate value").
Proof.
  eapply (config_file_indeterminate _ [] {[str "port" := JNumber 9000]}); [reflexivity|].
  vm_compute. reflexivity.
Defined.
