(* ===== verification/Channel.v ===== *)
(** * [net::Channel] (net/channel.h, net/channel.cc)

    A channel is a file descriptor with the events it is interested in, the
    events that happened, and the callbacks for them.  Channels are shared: the
    owner, the loop and the poller refer to the same object, so they live in a
    heap.  [Update] and [Remove] go through the loop to the poller, which is an
    interface here ([Poller], implemented in Poller.v). *)

From stdpp Require Import base tactics list numbers strings sets gmap.
From Stdlib Require Import ZArith Lia.
From S2P Require Import Prelude.
From S2P Require Import CString.

(** ** Event masks *)
Definition POLLIN : Z := 1.
Definition POLLPRI : Z := 2.
Definition POLLOUT : Z := 4.
Definition POLLERR : Z := 8.
Definition POLLHUP : Z := 16.
Definition POLLNVAL : Z := 32.
Definition POLLRDHUP : Z := 8192.

Definition kNoneEvent : Z := 0.
Definition kReadEvent : Z := Z.lor POLLIN POLLPRI.
Definition kWriteEvent : Z := POLLOUT.

(** [mask & bits] as a condition. *)
Definition has (mask bits : Z) : bool := negb (Z.land mask bits =? 0).

(** ** The object *)

(** [Status]: -1, and then 0 and 1 for epoll, or an index for poll. *)
Definition kNew : Z := -1.
Definition kAdded : Z := 0.
Definition kDeleted : Z := 1.

Record Channel := MkChannel {
  fd_ : Z;
  events_ : Z;
  revents_ : Z;
  status_ : Z;
  is_tied_ : bool;
  is_event_handling_ : bool;
  is_added_to_loop_ : bool;
}.

#[global] Instance Channel_eq_dec : EqDecision Channel.
Proof. solve_decision. Defined.

Definition Channel_new (fd : Z) : Channel := MkChannel fd 0 0 kNew false false false.

Definition set_events (ev : Z) (c : Channel) : Channel :=
  MkChannel (fd_ c) ev (revents_ c) (status_ c) (is_tied_ c) (is_event_handling_ c) (is_added_to_loop_ c).
Definition SetRevents (revt : Z) (c : Channel) : Channel :=
  MkChannel (fd_ c) (events_ c) revt (status_ c) (is_tied_ c) (is_event_handling_ c) (is_added_to_loop_ c).
Definition SetStatus (s : Z) (c : Channel) : Channel :=
  MkChannel (fd_ c) (events_ c) (revents_ c) s (is_tied_ c) (is_event_handling_ c) (is_added_to_loop_ c).
Definition Tie (c : Channel) : Channel :=
  MkChannel (fd_ c) (events_ c) (revents_ c) (status_ c) true (is_event_handling_ c) (is_added_to_loop_ c).
Definition set_handling (b : bool) (c : Channel) : Channel :=
  MkChannel (fd_ c) (events_ c) (revents_ c) (status_ c) (is_tied_ c) b (is_added_to_loop_ c).
Definition set_added (b : bool) (c : Channel) : Channel :=
  MkChannel (fd_ c) (events_ c) (revents_ c) (status_ c) (is_tied_ c) (is_event_handling_ c) b.

Definition IsNoneEvent (c : Channel) : bool := events_ c =? kNoneEvent.
Definition IsWriting (c : Channel) : bool := has (events_ c) kWriteEvent.
Definition IsReading (c : Channel) : bool := has (events_ c) kReadEvent.

(** ** The heap of channels and the poller *)
Abbreviation chan := Z.
Abbreviation heap := (gmap chan Channel).

(** Access through a pointer. *)
Definition deref (h : heap) (c : chan) : outcome Channel :=
  match h !! c with Some x => Ok x | None => Fail (UndefinedBehaviour "dangling Channel*") end.

(** What the loop asks of its poller. *)
Class Poller (P : Type) := {
  UpdateChannel : chan → P → heap → outcome (P * heap);
  RemoveChannel : chan → P → heap → outcome (P * heap);
  HasChannel : chan → P → heap → outcome bool;
}.

Section channel.
Context {P : Type} `{Poller P}.

Definition Update (c : chan) (p : P) (h : heap) : outcome (P * heap) :=
  x ← deref h c;
  UpdateChannel c p (<[c := set_added true x]> h).

(** [events_ = f(events_); Update()]. *)
Definition change_events (f : Z → Z) (c : chan) (p : P) (h : heap) : outcome (P * heap) :=
  x ← deref h c;
  Update c p (<[c := set_events (f (events_ x)) x]> h).

Definition EnableReading : chan → P → heap → outcome (P * heap) := change_events (λ e, Z.lor e kReadEvent).
Definition DisableReading : chan → P → heap → outcome (P * heap) := change_events (λ e, Z.ldiff e kReadEvent).
Definition EnableWriting : chan → P → heap → outcome (P * heap) := change_events (λ e, Z.lor e kWriteEvent).
Definition DisableWriting : chan → P → heap → outcome (P * heap) := change_events (λ e, Z.ldiff e kWriteEvent).
Definition DisableAll : chan → P → heap → outcome (P * heap) := change_events (λ _, kNoneEvent).

Definition Remove (c : chan) (p : P) (h : heap) : outcome (P * heap) :=
  x ← deref h c;
  cassert "IsNoneEvent()" (IsNoneEvent x);;
  RemoveChannel c p (<[c := set_added false x]> h).

(** [~Channel()] in the loop's thread. *)
Definition Channel_destroy (c : chan) (p : P) (h : heap) : outcome heap :=
  x ← deref h c;
  cassert "!is_event_handling_" (negb (is_event_handling_ x));;
  cassert "!is_added_to_loop_" (negb (is_added_to_loop_ x));;
  known ← HasChannel c p h;
  cassert "!loop_->HasChannel(this)" (negb known);;
  Ok (delete c h).

End channel.

(** ** Dispatching events *)

(** The four callbacks of a channel; [None] when not set. *)
Record callbacks (S : Type) := MkCallbacks {
  read_callback_ : option (Z → S → outcome S);
  write_callback_ : option (S → outcome S);
  close_callback_ : option (S → outcome S);
  error_callback_ : option (S → outcome S);
}.
Arguments read_callback_ {S} _.
Arguments write_callback_ {S} _.
Arguments close_callback_ {S} _.
Arguments error_callback_ {S} _.

Definition call {S} (cb : option (S → outcome S)) (s : S) : outcome S :=
  match cb with Some f => f s | None => Ok s end.

(** The sequence of callbacks for what happened ([revents_] does not change
    while they run; [is_event_handling_] is the channel's own flag). *)
Definition HandleEventWithGuard {S} (cb : callbacks S) (revents receive_time : Z) (s : S) : outcome S :=
  s ← (if has revents POLLHUP && negb (has revents POLLIN) then call (close_callback_ cb) s else Ok s);
  s ← (if has revents (Z.lor POLLERR POLLNVAL) then call (error_callback_ cb) s else Ok s);
  s ← (if has revents (Z.lor (Z.lor POLLIN POLLPRI) POLLRDHUP)
       then call ((λ f, f receive_time) <$> read_callback_ cb) s else Ok s);
  (if has revents POLLOUT then call (write_callback_ cb) s else Ok s).

(** [HandleEvent]: a tied channel whose owner is gone does nothing. *)
Definition HandleEvent {S} (cb : callbacks S) (tied owner_alive : bool) (revents receive_time : Z) (s : S)
    : outcome S :=
  if tied then (if owner_alive then HandleEventWithGuard cb revents receive_time s else Ok s)
  else HandleEventWithGuard cb revents receive_time s.

(** ** [EventsToString] *)
Definition event_names : list (Z * bytes) :=
  [(POLLIN, str "IN "); (POLLPRI, str "PRI "); (POLLOUT, str "OUT "); (POLLHUP, str "HUP ");
   (POLLRDHUP, str "RDHUP "); (POLLERR, str "ERR "); (POLLNVAL, str "NVAL ")].

Definition EventsToString (fd ev : Z) : bytes :=
  fmt_d fd ++ str ": " ++
  concat ((λ '(bit, name), if has ev bit then name else []) <$> event_names).

Definition ReventsToString (c : Channel) : bytes := EventsToString (fd_ c) (revents_ c).
