(* ===== verification/Poller.v ===== *)
(** * The pollers (net/poller.h, net/poller.cc, net/epoll_poller.cc, net/poll_poller.cc)

    [EPollPoller] keeps the interest list in the kernel, [PollPoller] in an
    array of [pollfd]s whose indices are the channels' statuses.  Both implement
    the [Poller] interface of Channel.v; the contract is a map from descriptors
    to the channel registered for it and its events. *)

From stdpp Require Import base tactics list numbers strings sets gmap.
From Stdlib Require Import ZArith Lia.
From S2P Require Import Prelude.
From S2P Require Import Channel.

(** [channels_.find(fd) != channels_.end()] and [channels_[fd] == channel]. *)
Definition assert_registered (channels : gmap Z chan) (fd : Z) (c : chan) : outcome unit :=
  cassert "channels_.find(fd) != channels_.end()" (bool_decide (is_Some (channels !! fd)));;
  cassert "channels_[fd] == channel" (bool_decide (channels !! fd = Some c)).

(** [Poller::HasChannel]. *)
Definition has_channel (channels : gmap Z chan) (c : chan) (h : heap) : outcome bool :=
  x ← deref h c;
  Ok (bool_decide (channels !! fd_ x = Some c)).

(** ** [EPollPoller] *)
Module EPoll.

Inductive ctl_op := EPOLL_CTL_ADD | EPOLL_CTL_MOD | EPOLL_CTL_DEL.

(** The kernel's side of an epoll instance ([None]: -1). *)
Class Epoll (K : Type) := {
  epoll_ctl : ctl_op → Z → Z → chan → K → option K;
  interest : K → gmap Z (Z * chan);
}.

(** epoll_ctl(2): a descriptor is added once, then modified or deleted. *)
Class EpollLaws (K : Type) `{Epoll K} := {
  ctl_add fd ev c k : interest k !! fd = None →
    ∃ k', epoll_ctl EPOLL_CTL_ADD fd ev c k = Some k' ∧ interest k' = <[fd := (ev, c)]> (interest k);
  ctl_mod fd ev c k : is_Some (interest k !! fd) →
    ∃ k', epoll_ctl EPOLL_CTL_MOD fd ev c k = Some k' ∧ interest k' = <[fd := (ev, c)]> (interest k);
  ctl_del fd ev c k : is_Some (interest k !! fd) →
    ∃ k', epoll_ctl EPOLL_CTL_DEL fd ev c k = Some k' ∧ interest k' = delete fd (interest k);
}.

Record EPollPoller (K : Type) := MkEPoll {
  channels_ : gmap Z chan;
  epollfd_ : K;
  events_size : Z;      (* events_.size() *)
}.
Arguments MkEPoll {K} _ _ _.
Arguments channels_ {K} _.
Arguments epollfd_ {K} _.
Arguments events_size {K} _.

Definition kInitEventListSize : Z := 16.
Definition EPollPoller_new {K} (k : K) : EPollPoller K := MkEPoll ∅ k kInitEventListSize.

Section epoll.
Context {K : Type} `{Epoll K}.

Definition Update (op : ctl_op) (c : chan) (p : EPollPoller K) (h : heap) : outcome (EPollPoller K) :=
  x ← deref h c;
  match epoll_ctl op (fd_ x) (Channel.events_ x) c (epollfd_ p) with
  | Some k => Ok (MkEPoll (channels_ p) k (events_size p))
  | None =>
      match op with
      | EPOLL_CTL_DEL => Ok p
      | _ => Fail (FatalLog "epoll_ctl")
      end
  end.

Definition UpdateChannel (c : chan) (p : EPollPoller K) (h : heap) : outcome (EPollPoller K * heap) :=
  x ← deref h c;
  let status := status_ x in
  let fd := fd_ x in
  if (status =? kNew) || (status =? kDeleted) then
    p ← (if status =? kNew then
           cassert "channels_.find(fd) == channels_.end()" (bool_decide (channels_ p !! fd = None));;
           Ok (MkEPoll (<[fd := c]> (channels_ p)) (epollfd_ p) (events_size p))
         else
           assert_registered (channels_ p) fd c;;
           Ok p);
    let h := <[c := SetStatus kAdded x]> h in
    p ← Update EPOLL_CTL_ADD c p h;
    Ok (p, h)
  else if status =? kAdded then
    assert_registered (channels_ p) fd c;;
    cassert "status == kAdded" (status =? kAdded);;
    if IsNoneEvent x then
      p ← Update EPOLL_CTL_DEL c p h;
      Ok (p, <[c := SetStatus kDeleted x]> h)
    else
      p ← Update EPOLL_CTL_MOD c p h;
      Ok (p, h)
  else Fail (FatalLog "unknown Channel::Status type").

Definition RemoveChannel (c : chan) (p : EPollPoller K) (h : heap) : outcome (EPollPoller K * heap) :=
  x ← deref h c;
  let fd := fd_ x in
  assert_registered (channels_ p) fd c;;
  cassert "channel->IsNoneEvent()" (IsNoneEvent x);;
  let status := status_ x in
  cassert "status == kAdded || status == kDeleted" ((status =? kAdded) || (status =? kDeleted));;
  let p := MkEPoll (delete fd (channels_ p)) (epollfd_ p) (events_size p) in
  p ← (if status =? kAdded then Update EPOLL_CTL_DEL c p h else Ok p);
  Ok (p, <[c := SetStatus kNew x]> h).

#[global] Instance epoll_poller : Poller (EPollPoller K) := {|
  Channel.UpdateChannel := UpdateChannel;
  Channel.RemoveChannel := RemoveChannel;
  Channel.HasChannel c p h := has_channel (channels_ p) c h;
|}.

(** [FillActiveChannels]: [ready] is what [epoll_wait] wrote to [events_]. *)
Fixpoint FillActiveChannels (ready : list (chan * Z)) (p : EPollPoller K) (h : heap)
    : outcome (list chan * heap) :=
  match ready with
  | [] => Ok ([], h)
  | (c, ev) :: ready =>
      x ← deref h c;
      let h := <[c := SetRevents ev x]> h in
      assert_registered (channels_ p) (fd_ x) c;;
      '(active, h) ← FillActiveChannels ready p h;
      Ok (c :: active, h)
  end.

(** [Poll]: [ready] is [None] when [epoll_wait] failed (logged unless EINTR). *)
Definition Poll (ready : option (list (chan * Z))) (p : EPollPoller K) (h : heap)
    : outcome (list chan * EPollPoller K * heap) :=
  match ready with
  | None | Some [] => Ok ([], p, h)
  | Some ready =>
      let num_events := Z.of_nat (length ready) in
      cassert "num_events <= events_.size()" (num_events <=? events_size p);;
      '(active, h) ← FillActiveChannels ready p h;
      let p := if num_events =? events_size p
               then MkEPoll (channels_ p) (epollfd_ p) (events_size p * 2) else p in
      Ok (active, p, h)
  end.

End epoll.
End EPoll.

(** ** [PollPoller] *)
Module PPoll.

Record pollfd := MkPollfd {
  pfd_fd : Z;
  pfd_events : Z;
  pfd_revents : Z;
}.

Record PollPoller := MkPoll {
  channels_ : gmap Z chan;
  pollfds_ : list pollfd;
}.

Definition PollPoller_new : PollPoller := MkPoll ∅ [].

(** [0 <= status && status < static_cast<int>(pollfds_.size())]. *)
Definition assert_index (status : Z) (l : list pollfd) : outcome pollfd :=
  cassert "0 <= status && status < pollfds_.size()"
    ((0 <=? status) && (status <? Z.of_nat (length l)));;
  match l !! Z.to_nat status with
  | Some pfd => Ok pfd
  | None => Fail (UndefinedBehaviour "index out of range")
  end.

Definition UpdateChannel (c : chan) (p : PollPoller) (h : heap) : outcome (PollPoller * heap) :=
  x ← deref h c;
  if status_ x =? kNew then
    cassert "channels_.find(fd) == channels_.end()" (bool_decide (channels_ p !! fd_ x = None));;
    let pfd := MkPollfd (fd_ x) (wrapS 16 (Channel.events_ x)) 0 in
    let l := pollfds_ p ++ [pfd] in
    Ok (MkPoll (<[fd_ x := c]> (channels_ p)) l,
        <[c := SetStatus (Z.of_nat (length l) - 1) x]> h)
  else
    assert_registered (channels_ p) (fd_ x) c;;
    let status := status_ x in
    pfd ← assert_index status (pollfds_ p);
    cassert "pfd.fd == fd || pfd.fd == -fd - 1"
      ((pfd_fd pfd =? fd_ x) || (pfd_fd pfd =? - fd_ x - 1));;
    let pfd := MkPollfd (if IsNoneEvent x then - fd_ x - 1 else fd_ x)
                 (wrapS 16 (Channel.events_ x)) 0 in
    Ok (MkPoll (channels_ p) (<[Z.to_nat status := pfd]> (pollfds_ p)), h).

Definition RemoveChannel (c : chan) (p : PollPoller) (h : heap) : outcome (PollPoller * heap) :=
  x ← deref h c;
  assert_registered (channels_ p) (fd_ x) c;;
  cassert "channel->IsNoneEvent()" (IsNoneEvent x);;
  let status := status_ x in
  pfd ← assert_index status (pollfds_ p);
  cassert "pfd.fd == -fd - 1 && pfd.events == events"
    ((pfd_fd pfd =? - fd_ x - 1) && (pfd_events pfd =? Channel.events_ x));;
  let chs := delete (fd_ x) (channels_ p) in
  let n := length (pollfds_ p) in
  if status =? Z.of_nat n - 1 then
    Ok (MkPoll chs (take (n - 1) (pollfds_ p)), h)
  else
    match last (pollfds_ p) with
    | None => Fail (UndefinedBehaviour "back() of an empty vector")
    | Some back =>
        let channel_at_end := if pfd_fd back <? 0 then - pfd_fd back - 1 else pfd_fd back in
        (* iter_swap with the last element, later popped *)
        let l := <[Z.to_nat status := back]> (pollfds_ p) in
        match chs !! channel_at_end with
        | None => Fail (UndefinedBehaviour "null Channel*")
        | Some e =>
            y ← deref h e;
            Ok (MkPoll chs (take (n - 1) l), <[e := SetStatus status y]> h)
        end
    end.

#[global] Instance poll_poller : Poller PollPoller := {|
  Channel.UpdateChannel := UpdateChannel;
  Channel.RemoveChannel := RemoveChannel;
  Channel.HasChannel c p h := has_channel (channels_ p) c h;
|}.

(** [FillActiveChannels(num_events, ..)] over the array [poll] filled in. *)
Fixpoint FillActiveChannels (num_events : Z) (l : list pollfd) (p : PollPoller) (h : heap)
    : outcome (list chan * heap) :=
  match l with
  | [] => Ok ([], h)
  | pfd :: l =>
      if 0 <? num_events then
        if 0 <? pfd_revents pfd then
          match channels_ p !! pfd_fd pfd with
          | None => Fail (AssertionFailed "ch != channels_.end()")
          | Some c =>
              x ← deref h c;
              cassert "channel->fd() == pfd->fd" (fd_ x =? pfd_fd pfd);;
              let h := <[c := SetRevents (pfd_revents pfd) x]> h in
              '(active, h) ← FillActiveChannels (num_events - 1) l p h;
              Ok (c :: active, h)
          end
        else FillActiveChannels num_events l p h
      else Ok ([], h)
  end.

(** [Poll]: the kernel writes the [revents] of the array and returns the number
    of entries with events, or fails. *)
Definition Poll (num_events : Z) (revents : list Z) (p : PollPoller) (h : heap)
    : outcome (list chan * PollPoller * heap) :=
  let l := zip_with (λ pfd r, MkPollfd (pfd_fd pfd) (pfd_events pfd) r) (pollfds_ p) revents in
  let p := MkPoll (channels_ p) l in
  if 0 <? num_events then
    '(active, h) ← FillActiveChannels num_events l p h;
    Ok (active, p, h)
  else Ok ([], p, h).

End PPoll.

(** ** The contract *)

(** Who is registered for a descriptor, with which events, and the channels that
    were registered at some time. *)
Record registry := MkRegistry {
  reg : gmap Z (chan * Z);
  used : gset chan;
}.

Inductive poll_op :=
| OpUpdate (c : chan) (ev : Z)     (* events_ = ev; Update() *)
| OpRemove (c : chan).

(** Event masks a channel can have. *)
Definition mask (ev : Z) : bool := (0 <=? ev) && (ev <? 2 ^ 15).

(** [fd_of]: the descriptor of each channel, which never changes. *)
Definition registry_step (fd_of : chan → option Z) (o : poll_op) (r : registry) : option registry :=
  match o with
  | OpUpdate c ev =>
      fd ← fd_of c;
      if mask ev && (0 <=? fd) then
        match reg r !! fd with
        | None =>
            (* a first registration is for something *)
            if negb (ev =? 0) && bool_decide (c ∉ used r)
            then Some (MkRegistry (<[fd := (c, ev)]> (reg r)) ({[c]} ∪ used r)) else None
        | Some (c', _) =>
            if bool_decide (c' = c) then Some (MkRegistry (<[fd := (c, ev)]> (reg r)) (used r)) else None
        end
      else None
  | OpRemove c =>
      fd ← fd_of c;
      if bool_decide (reg r !! fd = Some (c, 0))
      then Some (MkRegistry (delete fd (reg r)) (used r)) else None
  end.

Fixpoint registry_run (fd_of : chan → option Z) (os : list poll_op) (r : registry) : option registry :=
  match os with
  | [] => Some r
  | o :: os => r ← registry_step fd_of o r; registry_run fd_of os r
  end.

Definition poller_step {P} `{Poller P} (o : poll_op) (s : P * heap) : outcome (P * heap) :=
  match o with
  | OpUpdate c ev => change_events (λ _, ev) c s.1 s.2
  | OpRemove c => Remove c s.1 s.2
  end.

Fixpoint poller_run {P} `{Poller P} (os : list poll_op) (s : P * heap) : outcome (P * heap) :=
  match os with
  | [] => Ok s
  | o :: os => s ← poller_step o s; poller_run os s
  end.

Definition fd_in (h : heap) (c : chan) : option Z := fd_ <$> h !! c.

(** ** What the two implementations have in common *)

Record common_inv (chs : gmap Z chan) (h : heap) (r : registry) : Prop := MkCommon {
  ci_channels fd c : chs !! fd = Some c ↔ ∃ ev, reg r !! fd = Some (c, ev);
  ci_reg fd c ev : reg r !! fd = Some (c, ev) →
    c ∈ used r ∧ mask ev = true ∧ 0 ≤ fd ∧ ∃ x, h !! c = Some x ∧ fd_ x = fd ∧ Channel.events_ x = ev;
  ci_new c x : h !! c = Some x → c ∉ used r → status_ x = kNew;
}.

Lemma common_empty h :
  (∀ c x, h !! c = Some x → status_ x = kNew) → common_inv ∅ h (MkRegistry ∅ ∅).
Proof.
  intros Hnew. split; cbn.
  - intros fd c. rewrite lookup_empty. split; [done|]. intros [ev Hev]. by rewrite lookup_empty in Hev.
  - intros fd c ev. by rewrite lookup_empty.
  - eauto.
Qed.

(** One registration per channel. *)
Lemma common_inj chs h r fd fd' c ev ev' :
  common_inv chs h r → reg r !! fd = Some (c, ev) → reg r !! fd' = Some (c, ev') → fd = fd'.
Proof.
  intros Hi H1 H2. destruct (ci_reg _ _ _ Hi _ _ _ H1) as (_ & _ & _ & x & Hx & <- & _).
  destruct (ci_reg _ _ _ Hi _ _ _ H2) as (_ & _ & _ & y & Hy & <- & _). congruence.
Qed.

Lemma common_update chs h r c x x' ev :
  common_inv chs h r → h !! c = Some x →
  (reg r !! fd_ x = None ∨ ∃ ev0, reg r !! fd_ x = Some (c, ev0)) →
  (∀ fd ev0, reg r !! fd = Some (c, ev0) → fd = fd_ x) →
  mask ev = true → 0 ≤ fd_ x → fd_ x' = fd_ x → Channel.events_ x' = ev →
  common_inv (<[fd_ x := c]> chs) (<[c := x']> h)
    (MkRegistry (<[fd_ x := (c, ev)]> (reg r)) ({[c]} ∪ used r)).
Proof.
  intros Hi Hx Hor Hown Hmask Hfd Hfd' Hev. split; cbn [reg used].
  - intros fd c'. destruct (decide (fd = fd_ x)) as [->|Hne].
    + rewrite !lookup_insert_eq. split; [intros [= <-]; by exists ev|by intros (? & [= <- _])].
    + rewrite !lookup_insert_ne by done. apply Hi.
  - intros fd c' ev'. destruct (decide (fd = fd_ x)) as [->|Hne].
    + rewrite lookup_insert_eq. intros [= <- <-]. split; [set_solver|]. split; [done|]. split; [done|].
      exists x'. by rewrite lookup_insert_eq.
    + rewrite lookup_insert_ne by done. intros Hr.
      destruct (ci_reg _ _ _ Hi _ _ _ Hr) as (? & ? & ? & y & Hy & ? & ?).
      split; [set_solver|]. split; [done|]. split; [done|]. exists y.
      rewrite lookup_insert_ne; [done|]. intros <-. by apply Hne, (Hown fd ev').
  - intros c' y Hy Hn. rewrite lookup_insert_ne in Hy by set_solver.
    apply (ci_new _ _ _ Hi c'); [done|set_solver].
Qed.

Lemma common_set_heap chs h r c x x' :
  common_inv chs h r → h !! c = Some x → c ∈ used r →
  fd_ x' = fd_ x → Channel.events_ x' = Channel.events_ x → common_inv chs (<[c := x']> h) r.
Proof.
  intros Hi Hx Hu Hfd Hev. split; [apply Hi| |].
  - intros fd c' ev Hr. destruct (ci_reg _ _ _ Hi _ _ _ Hr) as (? & ? & ? & y & Hy & ? & ?).
    do 3 (split; [done|]). destruct (decide (c' = c)) as [->|Hne].
    + exists x'. rewrite lookup_insert_eq. simplify_eq. by rewrite Hfd, Hev.
    + exists y. by rewrite lookup_insert_ne.
  - intros c' y. destruct (decide (c' = c)) as [->|Hne]; [done|].
    rewrite lookup_insert_ne by done. apply Hi.
Qed.

Lemma common_remove chs h r fd c ev :
  common_inv chs h r → reg r !! fd = Some (c, ev) →
  common_inv (delete fd chs) h (MkRegistry (delete fd (reg r)) (used r)).
Proof.
  intros Hi Hr. split; cbn [reg used].
  - intros fd' c'. destruct (decide (fd' = fd)) as [->|Hne].
    + rewrite !lookup_delete_eq. split; [done|by intros [? ?]].
    + rewrite !lookup_delete_ne by done. apply Hi.
  - intros fd' c' ev' Hr'. destruct (decide (fd' = fd)) as [->|Hne].
    + by rewrite lookup_delete_eq in Hr'.
    + rewrite lookup_delete_ne in Hr' by done. by apply (ci_reg _ _ _ Hi).
  - apply Hi.
Qed.

(** The assertions on [channels_] hold for a registered channel. *)
Lemma assert_registered_ok chs h r fd c ev :
  common_inv chs h r → reg r !! fd = Some (c, ev) → assert_registered chs fd c = Ok tt.
Proof.
  intros Hi Hr. assert (chs !! fd = Some c) as E by (apply Hi; eauto).
  unfold assert_registered. rewrite E. rewrite !bool_decide_true by done. done.
Qed.

Lemma not_registered chs h r fd : common_inv chs h r → reg r !! fd = None → chs !! fd = None.
Proof.
  intros Hi Hr. destruct (chs !! fd) as [c|] eqn:E; [|done].
  apply (ci_channels _ _ _ Hi) in E as [ev E]. congruence.
Qed.

(** The heap and the registry agree on a channel that is registered now. *)
Lemma registered_at chs h r c x ev :
  common_inv chs h r → h !! c = Some x → reg r !! fd_ x = Some (c, ev) →
  Channel.events_ x = ev ∧ c ∈ used r ∧ 0 ≤ fd_ x ∧ mask ev = true.
Proof.
  intros Hi Hx Hr. destruct (ci_reg _ _ _ Hi _ _ _ Hr) as (? & ? & ? & y & Hy & _ & ?). naive_solver.
Qed.

(** Decide a comparison of two status constants. *)
Ltac status_tests :=
  change (kNew =? kNew) with true in *; change (kNew =? kDeleted) with false in *;
  change (kDeleted =? kNew) with false in *; change (kDeleted =? kDeleted) with true in *;
  change (kDeleted =? kAdded) with false in *; change (kAdded =? kNew) with false in *;
  change (kAdded =? kDeleted) with false in *; change (kAdded =? kAdded) with true in *;
  cbn [orb cassert mbind outcome_bind].

(** ** [EPollPoller] implements the contract *)
Section epoll_correct.
Context {K : Type} `{EPoll.EpollLaws K}.
Import EPoll.

Record epoll_inv (p : EPollPoller K) (h : heap) (r : registry) : Prop := MkEpollInv {
  ei_common : common_inv (EPoll.channels_ p) h r;
  ei_live fd c ev x : reg r !! fd = Some (c, ev) → h !! c = Some x →
    (status_ x = kAdded ∧ interest (epollfd_ p) !! fd = Some (ev, c)) ∨
    (status_ x = kDeleted ∧ ev = 0 ∧ interest (epollfd_ p) !! fd = None);
  ei_none fd : reg r !! fd = None → interest (epollfd_ p) !! fd = None;
}.

(** Changing one descriptor's registration. *)
Lemma epoll_inv_update chs k k' n h r c x x' ev :
  epoll_inv (MkEPoll chs k n) h r → h !! c = Some x →
  (reg r !! fd_ x = None ∨ ∃ ev0, reg r !! fd_ x = Some (c, ev0)) →
  (∀ fd ev0, reg r !! fd = Some (c, ev0) → fd = fd_ x) →
  mask ev = true → 0 ≤ fd_ x → fd_ x' = fd_ x → Channel.events_ x' = ev →
  (status_ x' = kAdded ∧ interest k' = <[fd_ x := (ev, c)]> (interest k)) ∨
  (status_ x' = kDeleted ∧ ev = 0 ∧ interest k' = delete (fd_ x) (interest k)) →
  epoll_inv (MkEPoll (<[fd_ x := c]> chs) k' n) (<[c := x']> h)
    (MkRegistry (<[fd_ x := (c, ev)]> (reg r)) ({[c]} ∪ used r)).
Proof.
  intros [Hi Hl Hn] Hx Hor Hown Hm Hfd Hfd' Hev Hst.
  assert (∀ fd, fd ≠ fd_ x → interest k' !! fd = interest k !! fd) as Hother.
  { intros fd Hne. destruct Hst as [[_ ->]|(_ & _ & ->)];
      [by rewrite lookup_insert_ne|by rewrite lookup_delete_ne]. }
  split; cbn [EPoll.channels_ epollfd_ reg used].
  - by apply common_update.
  - intros fd c' ev' y. destruct (decide (fd = fd_ x)) as [->|Hne].
    + rewrite lookup_insert_eq. intros [= <- <-]. rewrite lookup_insert_eq. intros [= <-].
      destruct Hst as [[? ->]|(? & ? & ->)]; [left|right].
      * by rewrite lookup_insert_eq.
      * by rewrite lookup_delete_eq.
    + rewrite lookup_insert_ne by done. intros Hr Hy. rewrite Hother by done.
      rewrite lookup_insert_ne in Hy; [by eapply Hl|]. intros <-. by apply Hne, (Hown fd ev').
  - intros fd Hr. destruct (decide (fd = fd_ x)) as [->|Hne]; [by rewrite lookup_insert_eq in Hr|].
    rewrite lookup_insert_ne in Hr by done. rewrite Hother by done. by apply Hn.
Qed.

Lemma Update_ok op c chs k k' n h y :
  h !! c = Some y → epoll_ctl op (fd_ y) (Channel.events_ y) c k = Some k' →
  Update op c (MkEPoll chs k n) h = Ok (MkEPoll chs k' n).
Proof. intros Hy Hk. unfold Update, deref. rewrite Hy. cbn. by rewrite Hk. Qed.

(** [UpdateChannel] for the channel [c], now with events [ev]. *)
Lemma epoll_update p h r c x x0 ev :
  epoll_inv p h r → h !! c = Some x0 → fd_ x = fd_ x0 → status_ x = status_ x0 → Channel.events_ x = ev →
  mask ev = true → 0 ≤ fd_ x →
  (reg r !! fd_ x = None ∧ c ∉ used r) ∨ (∃ ev0, reg r !! fd_ x = Some (c, ev0)) →
  ∃ p' x', UpdateChannel c p (<[c := x]> h) = Ok (p', <[c := x']> h) ∧ fd_ x' = fd_ x0 ∧
    epoll_inv p' (<[c := x']> h) (MkRegistry (<[fd_ x := (c, ev)]> (reg r)) ({[c]} ∪ used r)).
Proof.
  intros Hi Hx0 Hfd0 Hst0 Hev Hm Hfd Hcase. destruct p as [chs k n].
  pose proof (ei_common _ _ _ Hi) as Hci. cbn [EPoll.channels_] in Hci.
  assert (∀ fd ev0, reg r !! fd = Some (c, ev0) → fd = fd_ x0) as Hown.
  { intros fd ev0 Hr. destruct (ci_reg _ _ _ Hci _ _ _ Hr) as (_ & _ & _ & y & Hy & ? & _). congruence. }
  assert (reg r !! fd_ x0 = None ∨ ∃ ev0, reg r !! fd_ x0 = Some (c, ev0)) as Hor
    by (rewrite <-Hfd0; destruct Hcase as [[? _]|?]; auto).
  unfold UpdateChannel, deref. rewrite lookup_insert_eq. cbn [mbind outcome_bind EPoll.channels_ epollfd_ events_size].
  rewrite Hst0, Hfd0 in *.
  destruct Hcase as [[Hnone Hnu]|[ev0 Hr]].
  - rewrite (ci_new _ _ _ Hci _ _ Hx0 Hnu). status_tests.
    rewrite (bool_decide_true (chs !! fd_ x0 = None)) by by eapply not_registered.
    cbn [cassert mbind outcome_bind]. rewrite insert_insert_eq.
    destruct (ctl_add (fd_ x0) ev c k) as (k' & Hk & Hint); [by apply (ei_none _ _ _ Hi)|].
    erewrite Update_ok; [|apply lookup_insert_eq|cbn; rewrite Hfd0, Hev; exact Hk].
    cbn [mbind outcome_bind]. eexists _, _. split; [done|]. split; [by cbn|].
    apply (epoll_inv_update chs k k' n h r c x0); try done. by left.
  - destruct (registered_at _ _ _ _ _ _ Hci Hx0 Hr) as (_ & Hu & _ & _).
    pose proof (assert_registered_ok _ _ _ _ _ _ Hci Hr) as Hreg. rewrite Hreg.
    rewrite <-(insert_id chs (fd_ x0) c) by (apply Hci; eauto).
    destruct (ei_live _ _ _ Hi _ _ _ _ Hr Hx0) as [[Hs Hint]|(Hs & _ & Hint)]; rewrite Hs in *; cbn in Hint; status_tests.
    + unfold IsNoneEvent. destruct (Z.eqb_spec (Channel.events_ x) kNoneEvent) as [E|E].
      * destruct (ctl_del (fd_ x0) ev c k) as (k' & Hk & Hint'); [by rewrite Hint|].
        erewrite Update_ok; [|apply lookup_insert_eq|rewrite Hfd0, Hev; exact Hk].
        cbn [mbind outcome_bind]. rewrite insert_insert_eq. eexists _, _. split; [done|]. split; [done|].
        apply (epoll_inv_update chs k k' n h r c x0); try done. right. split; [done|].
        split; [|done]. unfold kNoneEvent in E. congruence.
      * destruct (ctl_mod (fd_ x0) ev c k) as (k' & Hk & Hint'); [by rewrite Hint|].
        erewrite Update_ok; [|apply lookup_insert_eq|rewrite Hfd0, Hev; exact Hk].
        cbn [mbind outcome_bind]. eexists _, _. split; [done|]. split; [done|].
        apply (epoll_inv_update chs k k' n h r c x0); try done. by left.
    + rewrite insert_insert_eq.
      destruct (ctl_add (fd_ x0) ev c k) as (k' & Hk & Hint'); [done|].
      erewrite Update_ok; [|apply lookup_insert_eq|cbn; rewrite Hfd0, Hev; exact Hk].
      cbn [mbind outcome_bind]. eexists _, _. split; [done|]. split; [done|].
      apply (epoll_inv_update chs k k' n h r c x0); try done. by left.
Qed.

Lemma epoll_remove p h r c x x0 :
  epoll_inv p h r → h !! c = Some x0 → fd_ x = fd_ x0 → status_ x = status_ x0 → Channel.events_ x = 0 →
  reg r !! fd_ x = Some (c, 0) →
  ∃ p' x', RemoveChannel c p (<[c := x]> h) = Ok (p', <[c := x']> h) ∧ fd_ x' = fd_ x0 ∧
    epoll_inv p' (<[c := x']> h) (MkRegistry (delete (fd_ x) (reg r)) (used r)).
Proof.
  intros Hi Hx0 Hfd0 Hst0 Hev Hr. destruct p as [chs k n].
  pose proof (ei_common _ _ _ Hi) as Hci. cbn [EPoll.channels_] in Hci. rewrite Hfd0 in Hr.
  destruct (registered_at _ _ _ _ _ _ Hci Hx0 Hr) as (He0 & Hu & _ & _).
  unfold RemoveChannel, deref. rewrite lookup_insert_eq. cbn [mbind outcome_bind EPoll.channels_ epollfd_ events_size].
  rewrite Hfd0, Hst0. rewrite (assert_registered_ok _ _ _ _ _ _ Hci Hr). unfold IsNoneEvent. rewrite Hev.
  change (0 =? kNoneEvent) with true. cbn [cassert mbind outcome_bind].
  assert (∀ k' x', fd_ x' = fd_ x0 → Channel.events_ x' = 0 → interest k' = delete (fd_ x0) (interest k) →
    epoll_inv (MkEPoll (delete (fd_ x0) chs) k' n) (<[c := x']> h)
      (MkRegistry (delete (fd_ x0) (reg r)) (used r))) as Hdone.
  { intros k' x' Hf' He' Hk'. split; cbn [EPoll.channels_ epollfd_ reg used].
    - eapply common_remove; [|exact Hr]. apply (common_set_heap _ _ _ _ x0); congruence.
    - intros fd c' ev y Hr' Hy. destruct (decide (fd = fd_ x0)) as [->|Hne]; [by rewrite lookup_delete_eq in Hr'|].
      rewrite lookup_delete_ne in Hr' by done. rewrite Hk', lookup_delete_ne by done.
      destruct (decide (c' = c)) as [->|Hc]; [by destruct Hne; eapply common_inj|].
      rewrite lookup_insert_ne in Hy by done. by eapply (ei_live _ _ _ Hi).
    - intros fd Hr'. rewrite Hk'. destruct (decide (fd = fd_ x0)) as [->|Hne]; [apply lookup_delete_eq|].
      rewrite lookup_delete_ne in Hr' |- * by done. by apply (ei_none _ _ _ Hi). }
  destruct (ei_live _ _ _ Hi _ _ _ _ Hr Hx0) as [[Hs Hint]|(Hs & _ & Hint)]; rewrite Hs; cbn in Hint; status_tests.
  - destruct (ctl_del (fd_ x0) 0 c k) as (k' & Hk & Hint'); [by rewrite Hint|].
    erewrite Update_ok; [|apply lookup_insert_eq|rewrite Hfd0, Hev; exact Hk].
    cbn [mbind outcome_bind]. rewrite insert_insert_eq. eexists _, _. split; [done|]. split; [done|].
    by apply Hdone.
  - rewrite insert_insert_eq. eexists _, _. split; [done|]. split; [done|]. apply Hdone; [done..|].
    by rewrite delete_id.
Qed.
End epoll_correct.

(** ** From one call to the channel's methods *)

Lemma fd_in_insert h c x x' c' : h !! c = Some x → fd_ x' = fd_ x → fd_in (<[c := x']> h) c' = fd_in h c'.
Proof.
  intros Hx Hfd. unfold fd_in. destruct (decide (c' = c)) as [->|Hne].
  - rewrite lookup_insert_eq, Hx. cbn. by rewrite Hfd.
  - by rewrite lookup_insert_ne.
Qed.

(** An invariant that the two calls of the interface preserve. *)
Class PollerInv (P : Type) `{Poller P} (inv : P → heap → registry → Prop) := {
  inv_common p h r : inv p h r → ∃ chs, common_inv chs h r;
  inv_update p h r c x x0 ev :
    inv p h r → h !! c = Some x0 → fd_ x = fd_ x0 → status_ x = status_ x0 → Channel.events_ x = ev →
    mask ev = true → 0 ≤ fd_ x →
    (reg r !! fd_ x = None ∧ (c ∉ used r) ∧ ev ≠ 0) ∨ (∃ ev0, reg r !! fd_ x = Some (c, ev0)) →
    ∃ p' h', Channel.UpdateChannel c p (<[c := x]> h) = Ok (p', h') ∧ (∀ c', fd_in h' c' = fd_in h c') ∧
      inv p' h' (MkRegistry (<[fd_ x := (c, ev)]> (reg r)) ({[c]} ∪ used r));
  inv_remove p h r c x x0 :
    inv p h r → h !! c = Some x0 → fd_ x = fd_ x0 → status_ x = status_ x0 → Channel.events_ x = 0 →
    reg r !! fd_ x = Some (c, 0) →
    ∃ p' h', Channel.RemoveChannel c p (<[c := x]> h) = Ok (p', h') ∧ (∀ c', fd_in h' c' = fd_in h c') ∧
      inv p' h' (MkRegistry (delete (fd_ x) (reg r)) (used r));
}.

Section steps.
Context {P : Type} `{PollerInv P inv}.

Lemma poller_step_inv o p h r r' :
  inv p h r → registry_step (fd_in h) o r = Some r' →
  ∃ p' h', poller_step o (p, h) = Ok (p', h') ∧ inv p' h' r' ∧ (∀ c, fd_in h' c = fd_in h c).
Proof.
  intros Hi Hs. destruct (inv_common _ _ _ Hi) as [chs Hci]. destruct o as [c ev|c]; cbn [registry_step poller_step fst snd] in *;
    unfold fd_in in Hs; destruct (h !! c) as [x|] eqn:Hx; cbn in Hs; try done.
  - unfold change_events, Update, deref. rewrite Hx. cbn [mbind outcome_bind]. rewrite lookup_insert_eq.
    cbn [mbind outcome_bind]. rewrite insert_insert_eq.
    destruct (mask ev) eqn:Hm; [|done]. destruct (Z.leb_spec 0 (fd_ x)); [|done]. cbn [andb] in Hs.
    destruct (inv_update p h r c (set_added true (set_events ev x)) x ev) as (p' & h' & -> & Hfd & Hi');
      [done..| |].
    + cbn [fd_ set_added set_events]. destruct (reg r !! fd_ x) as [[c' ev0]|] eqn:Er.
      * case_bool_decide; [|done]. subst c'. right. by exists ev0.
      * destruct (Z.eqb_spec ev 0); [done|]. cbn [negb andb] in Hs. case_bool_decide; [|done]. by left.
    + exists p', h'. split; [done|]. split; [|done]. cbn [fd_ set_added set_events] in Hi'.
      destruct (reg r !! fd_ x) as [[c' ev0]|] eqn:Er.
      * case_bool_decide; [|done]. subst c'. injection Hs as <-.
        destruct (registered_at _ _ _ _ _ _ Hci Hx Er) as (_ & Hu & _ & _).
        replace (used r) with ({[c]} ∪ used r) by set_solver. done.
      * destruct (_ && _); [|done]. by injection Hs as <-.
  - case_bool_decide as Hr; [|done]. injection Hs as <-.
    destruct (registered_at _ _ _ _ _ _ Hci Hx Hr) as (He & _ & _ & _).
    unfold Remove, deref. rewrite Hx. cbn [mbind outcome_bind]. unfold IsNoneEvent. rewrite He.
    change (0 =? kNoneEvent) with true. cbn [cassert mbind outcome_bind].
    destruct (inv_remove p h r c (set_added false x) x) as (p' & h' & -> & Hfd & Hi'); [done..|].
    by exists p', h'.
Qed.

Lemma registry_step_ext f g o r : (∀ c, f c = g c) → registry_step f o r = registry_step g o r.
Proof. intros Hfg. destruct o; cbn; by rewrite Hfg. Qed.

Lemma registry_run_ext f g os r : (∀ c, f c = g c) → registry_run f os r = registry_run g os r.
Proof.
  intros Hfg. revert r. induction os as [|o os IH]; intros r; cbn; [done|].
  rewrite (registry_step_ext f g) by done. destruct (registry_step g o r); cbn; [apply IH|done].
Qed.

Lemma poller_run_inv os p h r r' :
  inv p h r → registry_run (fd_in h) os r = Some r' →
  ∃ p' h', poller_run os (p, h) = Ok (p', h') ∧ inv p' h' r'.
Proof.
  revert p h r. induction os as [|o os IH]; intros p h r Hi Hr; cbn [registry_run poller_run] in *.
  - injection Hr as <-. by exists p, h.
  - destruct (registry_step (fd_in h) o r) as [r1|] eqn:E; [|done]. cbn in Hr.
    destruct (poller_step_inv o p h r r1 Hi E) as (p1 & h1 & -> & Hi1 & Hfd). cbn [mbind outcome_bind].
    apply (IH p1 h1 r1 Hi1). rewrite <-Hr. by apply registry_run_ext.
Qed.
End steps.

#[global] Instance epoll_poller_inv {K} `{EPoll.EpollLaws K} : PollerInv (EPoll.EPollPoller K) epoll_inv.
Proof.
  split.
  - intros p h r Hi. eexists. apply Hi.
  - intros p h r c x x0 ev Hi Hx0 Hfd Hst Hev Hm Hpos Hcase.
    destruct (epoll_update p h r c x x0 ev) as (p' & x' & Hu & Hf' & Hi'); try done.
    { destruct Hcase as [(? & ? & _)|?]; auto. }
    exists p', (<[c := x']> h). split; [done|]. split; [|done]. intros c'. by eapply fd_in_insert.
  - intros p h r c x x0 Hi Hx0 Hfd Hst Hev Hr.
    destruct (epoll_remove p h r c x x0) as (p' & x' & Hu & Hf' & Hi'); try done.
    exists p', (<[c := x']> h). split; [done|]. split; [|done]. intros c'. by eapply fd_in_insert.
Qed.

(** ** [PollPoller] implements the contract *)
Section poll_correct.
Import PPoll.

(** The [pollfd] of a channel: a descriptor without events is stored as
    [-fd - 1], which poll(2) ignores. *)
Definition entry_of (fd ev : Z) (pfd : pollfd) : Prop :=
  pfd_fd pfd = (if ev =? 0 then - fd - 1 else fd) ∧ pfd_events pfd = ev.

Record poll_inv (p : PollPoller) (h : heap) (r : registry) : Prop := MkPollInv {
  pi_common : common_inv (PPoll.channels_ p) h r;
  pi_slot fd c ev x : reg r !! fd = Some (c, ev) → h !! c = Some x →
    ∃ i pfd, status_ x = Z.of_nat i ∧ pollfds_ p !! i = Some pfd ∧ entry_of fd ev pfd;
  pi_owner i pfd : pollfds_ p !! i = Some pfd →
    ∃ fd c ev x, reg r !! fd = Some (c, ev) ∧ h !! c = Some x ∧ status_ x = Z.of_nat i;
}.

Lemma entry_of_inj fd fd' ev ev' pfd : 0 ≤ fd → 0 ≤ fd' → entry_of fd ev pfd → entry_of fd' ev' pfd → fd = fd'.
Proof.
  intros ? ? [H1 _] [H2 _]. rewrite H1 in H2. destruct (ev =? 0), (ev' =? 0); lia.
Qed.

(** No two channels share a slot. *)
Lemma slot_inj p h r fd fd' c c' ev ev' x x' :
  poll_inv p h r → reg r !! fd = Some (c, ev) → h !! c = Some x →
  reg r !! fd' = Some (c', ev') → h !! c' = Some x' → status_ x = status_ x' → fd = fd'.
Proof.
  intros Hi Hr Hx Hr' Hx' Hs.
  destruct (pi_slot _ _ _ Hi _ _ _ _ Hr Hx) as (i & pfd & Hi1 & Hl1 & He1).
  destruct (pi_slot _ _ _ Hi _ _ _ _ Hr' Hx') as (i' & pfd' & Hi2 & Hl2 & He2).
  assert (i' = i) as -> by lia. simplify_eq.
  destruct (ci_reg _ _ _ (pi_common _ _ _ Hi) _ _ _ Hr) as (_ & _ & ? & _).
  destruct (ci_reg _ _ _ (pi_common _ _ _ Hi) _ _ _ Hr') as (_ & _ & ? & _).
  by eapply entry_of_inj.
Qed.

Lemma assert_index_ok i l pfd : l !! i = Some pfd → assert_index (Z.of_nat i) l = Ok pfd.
Proof.
  intros Hl. unfold assert_index. pose proof (lookup_lt_Some _ _ _ Hl).
  replace ((0 <=? Z.of_nat i) && (Z.of_nat i <? Z.of_nat (length l))) with true by lia.
  cbn [cassert mbind outcome_bind]. by rewrite Nat2Z.id, Hl.
Qed.

(** A channel's entry written at slot [i]: everyone else's is where it was. *)
Lemma poll_inv_update chs l l' h r c x x0 x' ev i pfd :
  poll_inv (MkPoll chs l) h r → h !! c = Some x0 → fd_ x = fd_ x0 →
  (reg r !! fd_ x = None ∨ ∃ ev0, reg r !! fd_ x = Some (c, ev0)) →
  mask ev = true → 0 ≤ fd_ x → fd_ x' = fd_ x → Channel.events_ x' = ev → status_ x' = Z.of_nat i →
  l' !! i = Some pfd → entry_of (fd_ x) ev pfd → (∀ j, j ≠ i → l' !! j = l !! j) →
  (∀ fd c' ev' y, fd ≠ fd_ x → reg r !! fd = Some (c', ev') → h !! c' = Some y → status_ y ≠ Z.of_nat i) →
  (∀ ev0, reg r !! fd_ x = Some (c, ev0) → status_ x0 = Z.of_nat i) →
  poll_inv (MkPoll (<[fd_ x := c]> chs) l') (<[c := x']> h)
    (MkRegistry (<[fd_ x := (c, ev)]> (reg r)) ({[c]} ∪ used r)).
Proof.
  intros Hi Hx0 Hfd0 Hor Hm Hpos Hfd' Hev' Hst' Hli He Hother Hfree Hown_slot.
  pose proof (pi_common _ _ _ Hi) as Hci. cbn [PPoll.channels_] in Hci.
  assert (∀ fd ev0, reg r !! fd = Some (c, ev0) → fd = fd_ x) as Hown.
  { intros fd ev0 Hr. destruct (ci_reg _ _ _ Hci _ _ _ Hr) as (_ & _ & _ & y & Hy & ? & _). congruence. }
  split; cbn [PPoll.channels_ pollfds_ reg used].
  - rewrite Hfd0 in *. apply (common_update _ _ _ _ x0); congruence || auto.
  - intros fd c' ev' y. destruct (decide (fd = fd_ x)) as [->|Hne].
    + rewrite lookup_insert_eq. intros [= <- <-]. rewrite lookup_insert_eq. intros [= <-]. by exists i, pfd.
    + rewrite lookup_insert_ne by done. intros Hr Hy.
      assert (c' ≠ c) by (intros ->; by apply Hne, (Hown fd ev')).
      rewrite lookup_insert_ne in Hy by done.
      destruct (pi_slot _ _ _ Hi _ _ _ _ Hr Hy) as (j & pfd' & Hj & Hlj & Hej). exists j, pfd'.
      split; [done|]. split; [|done]. rewrite Hother; [done|]. intros ->. by eapply Hfree.
  - intros j pfd' Hj. destruct (decide (j = i)) as [->|Hne].
    + exists (fd_ x), c, ev, x'. by rewrite !lookup_insert_eq.
    + rewrite Hother in Hj by done. destruct (pi_owner _ _ _ Hi _ _ Hj) as (fd & c' & ev' & y & Hr & Hy & Hs).
      assert (fd ≠ fd_ x) as Hnf.
      { intros ->. destruct Hor as [?|[ev0 Hr0]]; [congruence|].
        rewrite Hr0 in Hr. injection Hr as <- <-. specialize (Hown_slot _ Hr0).
        rewrite Hx0 in Hy. injection Hy as <-. lia. }
      exists fd, c', ev', y. rewrite lookup_insert_ne by done. split; [done|].
      rewrite lookup_insert_ne; [done|]. intros <-. by apply Hnf, (Hown fd ev').
Qed.

Lemma mask_short ev : mask ev = true → wrapS 16 ev = ev.
Proof. unfold mask. intros. apply wrapS_small; lia. Qed.

Lemma poll_update p h r c x x0 ev :
  poll_inv p h r → h !! c = Some x0 → fd_ x = fd_ x0 → status_ x = status_ x0 → Channel.events_ x = ev →
  mask ev = true → 0 ≤ fd_ x →
  (reg r !! fd_ x = None ∧ (c ∉ used r) ∧ ev ≠ 0) ∨ (∃ ev0, reg r !! fd_ x = Some (c, ev0)) →
  ∃ p' x', UpdateChannel c p (<[c := x]> h) = Ok (p', <[c := x']> h) ∧ fd_ x' = fd_ x0 ∧
    poll_inv p' (<[c := x']> h) (MkRegistry (<[fd_ x := (c, ev)]> (reg r)) ({[c]} ∪ used r)).
Proof.
  intros Hi Hx0 Hfd0 Hst0 Hev Hm Hpos Hcase. destruct p as [chs l].
  pose proof (pi_common _ _ _ Hi) as Hci. cbn [PPoll.channels_] in Hci.
  unfold UpdateChannel, deref. rewrite lookup_insert_eq. cbn [mbind outcome_bind PPoll.channels_ pollfds_].
  rewrite Hst0, Hev, mask_short by done. destruct Hcase as [(Hnone & Hnu & Hev0)|[ev0 Hr]].
  - rewrite (ci_new _ _ _ Hci _ _ Hx0 Hnu). status_tests.
    rewrite (bool_decide_true (chs !! fd_ x = None)) by by eapply not_registered.
    cbn [cassert mbind outcome_bind]. rewrite insert_insert_eq. eexists _, _. split; [done|]. split; [done|].
    eapply (poll_inv_update chs l _ h r c x x0 _ ev (length l)); try done.
    + by left.
    + cbn. rewrite length_app. cbn. lia.
    + apply list_lookup_middle. done.
    + split; cbn; [|done]. by destruct (Z.eqb_spec ev 0).
    + intros j Hj. destruct (decide (j < length l)%nat).
      * by rewrite lookup_app_l.
      * rewrite !lookup_ge_None_2; [done|lia|]. rewrite length_app. cbn. lia.
    + intros fd c' ev' y _ Hr Hy. destruct (pi_slot _ _ _ Hi _ _ _ _ Hr Hy) as (j & pfd & Hj & Hlj & _).
      apply lookup_lt_Some in Hlj. cbn in Hlj. lia.
    + intros ev0 ?. congruence.
  - assert (reg r !! fd_ x0 = Some (c, ev0)) as Hr' by congruence.
    destruct (pi_slot _ _ _ Hi _ _ _ _ Hr Hx0) as (i & pfd & Hsi & Hli & He). cbn [pollfds_] in Hli.
    rewrite Hsi. replace (Z.of_nat i =? kNew) with false by (unfold kNew; lia).
    rewrite (assert_registered_ok _ _ _ _ _ _ Hci Hr). cbn [mbind outcome_bind].
    rewrite (assert_index_ok _ _ _ Hli). cbn [mbind outcome_bind].
    replace ((pfd_fd pfd =? fd_ x) || (pfd_fd pfd =? - fd_ x - 1)) with true
      by (destruct He as [-> _]; destruct (ev0 =? 0); lia).
    cbn [cassert mbind outcome_bind]. rewrite Nat2Z.id. eexists _, x. split; [done|]. split; [done|].
    rewrite <-(insert_id chs (fd_ x) c) by (apply Hci; eauto).
    eapply (poll_inv_update chs l _ h r c x x0 x ev i); try done.
    + eauto.
    + congruence.
    + apply list_lookup_insert_eq. by apply lookup_lt_Some in Hli.
    + split; cbn; [|done]. unfold IsNoneEvent. by rewrite Hev.
    + intros j Hj. by apply list_lookup_insert_ne.
    + intros fd c' ev' y Hne Hrf Hy E. apply Hne.
      eapply (slot_inj _ _ _ _ _ _ _ _ _ _ _ Hi Hrf Hy Hr Hx0). congruence.
Qed.

(** Removing channel [c] at slot [i], whose place the last entry takes. *)
Lemma poll_inv_remove chs l l' h h' r c x0 i :
  poll_inv (MkPoll chs l) h r → h !! c = Some x0 → reg r !! fd_ x0 = Some (c, 0) → status_ x0 = Z.of_nat i →
  common_inv (delete (fd_ x0) chs) h' (MkRegistry (delete (fd_ x0) (reg r)) (used r)) →
  (∀ j pfd, l !! j = Some pfd → j ≠ i → ∃ j', l' !! j' = Some pfd ∧
     ∀ fd c' ev y, reg r !! fd = Some (c', ev) → h !! c' = Some y → status_ y = Z.of_nat j →
       ∃ y', h' !! c' = Some y' ∧ status_ y' = Z.of_nat j') →
  (∀ j' pfd, l' !! j' = Some pfd → ∃ j, l !! j = Some pfd ∧ j ≠ i ∧
     ∀ fd c' ev y, reg r !! fd = Some (c', ev) → h !! c' = Some y → status_ y = Z.of_nat j →
       ∃ y', h' !! c' = Some y' ∧ status_ y' = Z.of_nat j') →
  poll_inv (MkPoll (delete (fd_ x0) chs) l') h' (MkRegistry (delete (fd_ x0) (reg r)) (used r)).
Proof.
  intros Hi Hx0 Hr Hsi Hci' Hfwd Hbwd. pose proof (pi_common _ _ _ Hi) as Hci. cbn [PPoll.channels_] in Hci.
  split; cbn [PPoll.channels_ pollfds_ reg used]; [done|..].
  - intros fd c' ev y' Hr' Hy'. destruct (decide (fd = fd_ x0)) as [->|Hne]; [by rewrite lookup_delete_eq in Hr'|].
    rewrite lookup_delete_ne in Hr' by done.
    destruct (ci_reg _ _ _ Hci _ _ _ Hr') as (_ & _ & _ & y & Hy & _ & _).
    destruct (pi_slot _ _ _ Hi _ _ _ _ Hr' Hy) as (j & pfd & Hj & Hlj & He). cbn [pollfds_] in Hlj.
    destruct (Hfwd j pfd Hlj) as (j' & Hlj' & Hmove).
    { intros ->. apply Hne. eapply (slot_inj _ _ _ _ _ _ _ _ _ _ _ Hi Hr' Hy Hr Hx0). congruence. }
    destruct (Hmove _ _ _ _ Hr' Hy Hj) as (y2 & ? & ?). exists j', pfd. split; [congruence|]. done.
  - intros j' pfd Hj'. destruct (Hbwd _ _ Hj') as (j & Hlj & Hne & Hmove).
    destruct (pi_owner _ _ _ Hi _ _ Hlj) as (fd & c' & ev & y & Hr' & Hy & Hs).
    assert (fd ≠ fd_ x0).
    { intros ->. assert (c' = c) as -> by congruence. assert (y = x0) as -> by congruence. lia. }
    destruct (Hmove _ _ _ _ Hr' Hy Hs) as (y2 & ? & ?). exists fd, c', ev, y2.
    rewrite lookup_delete_ne by done. done.
Qed.

Lemma last_index {A} (l : list A) a : last l = Some a → l !! (length l - 1)%nat = Some a.
Proof. rewrite last_lookup. by replace (pred (length l)) with (length l - 1)%nat by lia. Qed.

Section remove.
Context (chs : gmap Z chan) (l : list pollfd) (h : heap) (r : registry) (c : chan) (x x0 : Channel) (i : nat).
Hypothesis Hi : poll_inv (MkPoll chs l) h r.
Hypothesis Hx0 : h !! c = Some x0.
Hypothesis Hr : reg r !! fd_ x0 = Some (c, 0).
Hypothesis Hsi : status_ x0 = Z.of_nat i.
Hypothesis Hx : fd_ x = fd_ x0 ∧ status_ x = status_ x0 ∧ Channel.events_ x = 0.
#[local] Abbreviation h1 := (<[c := x]> h).
#[local] Abbreviation r' := (MkRegistry (delete (fd_ x0) (reg r)) (used r)).

Lemma remove_common : common_inv chs h1 r.
Proof.
  pose proof (pi_common _ _ _ Hi) as Hci. destruct (registered_at _ _ _ _ _ _ Hci Hx0 Hr) as (He0 & Hu & _).
  destruct Hx as (? & ? & ?). apply (common_set_heap _ _ _ _ x0); (exact Hci || congruence).
Qed.

Lemma remove_status_kept c' y : h !! c' = Some y → ∃ y', h1 !! c' = Some y' ∧ status_ y' = status_ y.
Proof.
  intros Hy. destruct Hx as (? & ? & ?). destruct (decide (c' = c)) as [->|Hne].
  - rewrite lookup_insert_eq. exists x. split; [done|congruence].
  - rewrite lookup_insert_ne by done. by exists y.
Qed.

(** The last slot is dropped. *)
Lemma poll_remove_last : Z.of_nat i = Z.of_nat (length l) - 1 → poll_inv (MkPoll (delete (fd_ x0) chs) (take (length l - 1) l)) h1 r'.
Proof.
  intros Hlast. eapply (poll_inv_remove chs l _ h h1 r c x0 i); try done.
  - eapply common_remove; [apply remove_common|done].
  - intros j q Hj Hne. apply lookup_lt_Some in Hj as Hjl. exists j. split; [rewrite lookup_take_lt by lia; done|].
    intros fd c' ev y _ Hy Hs. destruct (remove_status_kept _ _ Hy) as (y' & ? & ?). exists y'. split; [done|congruence].
  - intros j q Hj. apply lookup_take_Some in Hj as [Hj Hjl]. exists j. split; [done|]. split; [lia|].
    intros fd c' ev y _ Hy Hs. destruct (remove_status_kept _ _ Hy) as (y' & ? & ?). exists y'. split; [done|congruence].
Qed.

(** The last entry, that of the channel [e], moves into the slot. *)
Lemma poll_remove_swap e y fde eve back :
  (i < length l)%nat → i ≠ (length l - 1)%nat → l !! (length l - 1)%nat = Some back → reg r !! fde = Some (e, eve) → h !! e = Some y →
  status_ y = Z.of_nat (length l - 1) → e ≠ c →
  poll_inv (MkPoll (delete (fd_ x0) chs) (take (length l - 1) (<[i := back]> l))) (<[e := SetStatus (Z.of_nat i) y]> h1) r'.
Proof.
  intros Hlt Hnl Hlb Hre Hye Hse Hec. assert (h1 !! e = Some y) as Hye1 by (by rewrite lookup_insert_ne).
  assert (∀ fd c' ev z j, reg r !! fd = Some (c', ev) → h !! c' = Some z → status_ z = Z.of_nat j → (c' = e ↔ j = (length l - 1)%nat)) as Hiff.
  { intros fd c' ev z j Hrz Hz Hs. split; [intros ->; assert (z = y) as -> by congruence; lia|]. intros ->.
    assert (fd = fde) as -> by (eapply (slot_inj _ _ _ _ _ _ _ _ _ _ _ Hi Hrz Hz Hre Hye); congruence). congruence. }
  assert (∀ fd c' ev z j, reg r !! fd = Some (c', ev) → h !! c' = Some z → status_ z = Z.of_nat j → j ≠ (length l - 1)%nat →
    ∃ y', <[e := SetStatus (Z.of_nat i) y]> h1 !! c' = Some y' ∧ status_ y' = Z.of_nat j) as Hstay.
  { intros fd c' ev z j Hrz Hz Hs Hjn. destruct (remove_status_kept _ _ Hz) as (y' & ? & ?). exists y'.
    rewrite lookup_insert_ne; [split; [done|congruence]|]. intros <-. by apply Hjn, (Hiff _ _ _ _ _ Hrz Hz Hs). }
  assert (∀ fd c' ev z, reg r !! fd = Some (c', ev) → h !! c' = Some z → status_ z = Z.of_nat (length l - 1) →
    ∃ y', <[e := SetStatus (Z.of_nat i) y]> h1 !! c' = Some y' ∧ status_ y' = Z.of_nat i) as Hmove.
  { intros fd c' ev z Hrz Hz Hs. assert (c' = e) as -> by (by eapply Hiff). rewrite lookup_insert_eq. by eexists. }
  eapply (poll_inv_remove chs l _ h _ r c x0 i); try done.
  - eapply common_remove; [|done]. destruct (ci_reg _ _ _ (pi_common _ _ _ Hi) _ _ _ Hre) as (? & _).
    by apply (common_set_heap _ _ _ _ y); [apply remove_common|..].
  - intros j q Hj Hne. apply lookup_lt_Some in Hj as Hjl. destruct (decide (j = length l - 1)%nat) as [->|Hjn].
    + exists i. assert (q = back) as -> by congruence. split; [rewrite lookup_take_lt by lia; by apply list_lookup_insert_eq|]. apply Hmove.
    + exists j. split; [rewrite lookup_take_lt by lia; by rewrite list_lookup_insert_ne by done|]. intros fd c' ev z Hrz Hz Hs. by eapply Hstay.
  - intros j q Hj. apply lookup_take_Some in Hj as [Hj Hjl]. destruct (decide (j = i)) as [->|Hne].
    + rewrite list_lookup_insert_eq in Hj by done. injection Hj as <-. exists (length l - 1)%nat. split; [done|]. split; [lia|]. apply Hmove.
    + rewrite list_lookup_insert_ne in Hj by done. exists j. split; [done|]. split; [done|]. intros fd c' ev z Hrz Hz Hs. eapply Hstay; try done. lia.
Qed.
End remove.

Lemma poll_remove p h r c x x0 :
  poll_inv p h r → h !! c = Some x0 → fd_ x = fd_ x0 → status_ x = status_ x0 → Channel.events_ x = 0 →
  reg r !! fd_ x = Some (c, 0) →
  ∃ p' h', RemoveChannel c p (<[c := x]> h) = Ok (p', h') ∧ (∀ c', fd_in h' c' = fd_in h c') ∧
    poll_inv p' h' (MkRegistry (delete (fd_ x) (reg r)) (used r)).
Proof.
  intros Hi Hx0 Hfd0 Hst0 Hev Hr. destruct p as [chs l]. rewrite Hfd0 in Hr |- *.
  pose proof (pi_common _ _ _ Hi) as Hci. cbn [PPoll.channels_] in Hci.
  destruct (pi_slot _ _ _ Hi _ _ _ _ Hr Hx0) as (i & pfd & Hsi & Hli & Hpfd & Hpev). cbn [pollfds_] in Hli.
  unfold RemoveChannel.
  assert (deref (<[c := x]> h) c = Ok x) as -> by (unfold deref; by rewrite lookup_insert_eq).
  cbn [mbind outcome_bind PPoll.channels_ pollfds_].
  rewrite Hfd0, Hst0, Hsi, Hev. rewrite (assert_registered_ok _ _ _ _ _ _ Hci Hr). unfold IsNoneEvent. rewrite Hev.
  change (0 =? kNoneEvent) with true. cbn [cassert mbind outcome_bind].
  rewrite (assert_index_ok _ _ _ Hli). cbn [mbind outcome_bind]. rewrite Hpfd, Hpev. cbn [Z.eqb].
  rewrite Z.eqb_refl. cbn [andb cassert mbind outcome_bind]. pose proof (lookup_lt_Some _ _ _ Hli) as Hlt.
  destruct (Z.eqb_spec (Z.of_nat i) (Z.of_nat (length l) - 1)) as [Hlast|Hnl].
  { eexists _, _. split; [done|]. split; [intros c'; by apply (fd_in_insert _ _ x0)|]. by eapply poll_remove_last. }
  destruct (last l) as [back|] eqn:Hback; [|apply last_None in Hback; subst l; cbn in Hlt; lia].
  pose proof (last_index _ _ Hback) as Hlb. destruct (pi_owner _ _ _ Hi _ _ Hlb) as (fde & e & eve & y & Hre & Hye & Hse).
  destruct (pi_slot _ _ _ Hi _ _ _ _ Hre Hye) as (ie & pe & Hie & Hlie & He & _). cbn [pollfds_] in Hlie.
  assert (ie = length l - 1)%nat as -> by lia. assert (pe = back) as -> by congruence. destruct (ci_reg _ _ _ Hci _ _ _ Hre) as (_ & _ & Hpe & _).
  assert ((if pfd_fd back <? 0 then - pfd_fd back - 1 else pfd_fd back) = fde) as ->.
  { rewrite He. destruct (eve =? 0); [replace (- fde - 1 <? 0) with true by lia|replace (fde <? 0) with false by lia]; lia. }
  assert (fde ≠ fd_ x0) as Hnf by (intros ->; assert (e = c) as -> by congruence; assert (y = x0) as -> by congruence; lia).
  assert (e ≠ c) as Hec by (intros ->; by apply Hnf; eapply common_inj).
  rewrite lookup_delete_ne by done. assert (chs !! fde = Some e) as -> by (apply Hci; eauto).
  unfold deref. rewrite lookup_insert_ne, Hye by done. cbn [mbind outcome_bind]. eexists _, _. split; [done|]. split.
  - intros c'. rewrite (fd_in_insert _ _ y) by (done || by rewrite lookup_insert_ne). by apply (fd_in_insert _ _ x0).
  - rewrite Nat2Z.id. eapply (poll_remove_swap chs l h r c x x0 i); try done. lia.
Qed.
End poll_correct.

#[global] Instance poll_poller_inv : PollerInv PPoll.PollPoller poll_inv.
Proof.
  split.
  - intros p h r Hi. eexists. apply Hi.
  - intros p h r c x x0 ev Hi Hx0 Hfd Hst Hev Hm Hpos Hcase.
    destruct (poll_update p h r c x x0 ev) as (p' & x' & Hu & Hf' & Hi'); try done.
    exists p', (<[c := x']> h). split; [done|]. split; [|done]. intros c'. by eapply fd_in_insert.
  - intros p h r c x x0 Hi Hx0 Hfd Hst Hev Hr. by eapply poll_remove.
Qed.

(** The kernel's table as a map. *)
#[global] Instance map_epoll : EPoll.Epoll (gmap Z (Z * chan)) := {|
  EPoll.epoll_ctl op fd ev c k :=
    match op, k !! fd with
    | EPoll.EPOLL_CTL_ADD, None => Some (<[fd := (ev, c)]> k)
    | EPoll.EPOLL_CTL_MOD, Some _ => Some (<[fd := (ev, c)]> k)
    | EPoll.EPOLL_CTL_DEL, Some _ => Some (delete fd k)
    | _, _ => None
    end;
  EPoll.interest k := k;
|}.

#[global] Instance map_epoll_laws : EPoll.EpollLaws (gmap Z (Z * chan)).
Proof.
  split; cbn.
  - intros fd ev c k ->. eauto.
  - intros fd ev c k [? ->]. eauto.
  - intros fd ev c k [? ->]. eauto.
Qed.

(** Channels that no poller has seen yet. *)
Definition all_new (h : heap) : Prop := map_Forall (λ _ x, status_ x = kNew) h.


Definition sample_heap : heap := {[1 := Channel_new 5; 2 := Channel_new 6; 3 := Channel_new 7]}.
Definition sample_ops : list poll_op :=
  [OpUpdate 1 3; OpUpdate 2 3; OpUpdate 3 4; OpUpdate 1 7; OpUpdate 2 0; OpRemove 2; OpUpdate 3 0].


(** C18: [PollPoller] watches what is registered.  Under the same contract no
    assertion of [PollPoller] fails, including those on the indices that
    removals move around, and the array passed to poll(2) has an entry for a
    descriptor and a non-empty set of events exactly when a channel is
    registered for it with these events. *)
Theorem poll_watches_registered h os r :
  all_new h → registry_run (fd_in h) os (MkRegistry ∅ ∅) = Some r →
  ∃ p' h', poller_run os (PPoll.PollPoller_new, h) = Ok (p', h') ∧
    ∀ fd ev, 0 ≤ fd → ev ≠ 0 →
      (∃ pfd, pfd ∈ PPoll.pollfds_ p' ∧ PPoll.pfd_fd pfd = fd ∧ PPoll.pfd_events pfd = ev) ↔
      (∃ c, reg r !! fd = Some (c, ev)).
Proof.
  intros Hnew Hr.
  destruct (poller_run_inv (inv := poll_inv) os PPoll.PollPoller_new h (MkRegistry ∅ ∅) r)
    as (p' & h' & Hrun & Hi); [|done|].
  - split; cbn; [apply common_empty; intros; by eapply Hnew| |].
    + intros fd c ev x. by rewrite lookup_empty.
    + intros i pfd. by rewrite lookup_nil.
  - exists p', h'. split; [done|]. intros fd ev Hfd Hev. split.
    + intros (pfd & [i Hl]%list_elem_of_lookup & <- & <-).
      destruct (pi_owner _ _ _ Hi _ _ Hl) as (fd' & c & ev' & x & Er & Hx & Hs).
      destruct (pi_slot _ _ _ Hi _ _ _ _ Er Hx) as (j & pfd' & Hj & Hl' & He).
      assert (j = i) as -> by lia. assert (pfd' = pfd) as -> by congruence. destruct He as [He1 He2].
      destruct (ci_reg _ _ _ (pi_common _ _ _ Hi) _ _ _ Er) as (_ & _ & ? & _).
      exists c. rewrite He1 in Hfd |- *. rewrite He2 in Hev |- *.
      destruct (Z.eqb_spec ev' 0); [lia|done].
    + intros [c Er]. destruct (ci_reg _ _ _ (pi_common _ _ _ Hi) _ _ _ Er) as (_ & _ & _ & x & Hx & _).
      destruct (pi_slot _ _ _ Hi _ _ _ _ Er Hx) as (j & pfd & _ & Hl & He1 & He2).
      exists pfd. split; [by eapply list_elem_of_lookup_2|]. split; [|done].
      rewrite He1. by destruct (Z.eqb_spec ev 0).
Qed.

Lemma poll_watches_registered_witness :
  ∃ p' h', poller_run sample_ops (PPoll.PollPoller_new, sample_heap) = Ok (p', h') ∧
    ∃ pfd, pfd ∈ PPoll.pollfds_ p' ∧ PPoll.pfd_fd pfd = 5 ∧ PPoll.pfd_events pfd = 7.
Proof.
  edestruct (poll_watches_registered sample_heap sample_ops) as (p' & h' & H1 & H2).
  - apply (bool_decide_unpack _). vm_compute. exact I.
  - vm_compute. reflexivity.
  - exists p', h'. split; [exact H1|]. apply (H2 5 7); [lia|lia|]. exists 1. reflexivity.
Defined.
