(* ===== verification/EventLoop.v ===== *)
(** * [net::EventLoop] (net/event_loop.h, net/event_loop.cc)

    The loop of one thread and its queue of functors, which any thread may
    append to.  The loop's thread is a program counter that goes through the
    body of [Loop]; other threads take their steps in between, and a call such
    as [QueueInLoop] is split where another thread can interfere: between the
    push under the mutex and the write to the event descriptor. *)

From stdpp Require Import base tactics list numbers strings sets gmap relations.
From Stdlib Require Import ZArith Lia.
From S2P Require Import Prelude.
From S2P Require Import Channel.

(** ** Calls on the loop's channels *)
Section channels.
Context {P : Type} `{Poller P}.

(** The members that [UpdateChannel] and [RemoveChannel] look at. *)
Record dispatch := MkDispatch {
  thread_id_ : Z;
  is_event_handling_ : bool;
  active_channels_ : list chan;
  current_active_channel_ : option chan;
}.

Definition IsInLoopThread (tid : Z) (d : dispatch) : bool := thread_id_ d =? tid.

Definition AssertInLoopThread (tid : Z) (d : dispatch) : outcome unit :=
  if IsInLoopThread tid d then Ok tt else Fail (FatalLog "EventLoop::abortNotInLoopThread").

Definition UpdateChannel (tid : Z) (c : chan) (d : dispatch) (p : P) (h : heap) : outcome (P * heap) :=
  AssertInLoopThread tid d;;
  Channel.UpdateChannel c p h.

Definition RemoveChannel (tid : Z) (c : chan) (d : dispatch) (p : P) (h : heap) : outcome (P * heap) :=
  AssertInLoopThread tid d;;
  (if is_event_handling_ d then
     cassert "current_active_channel_ == channel || channel is not active"
       (bool_decide (current_active_channel_ d = Some c) || bool_decide (c ∉ active_channels_ d))
   else Ok tt);;
  Channel.RemoveChannel c p h.

Definition HasChannel (tid : Z) (c : chan) (d : dispatch) (p : P) (h : heap) : outcome bool :=
  AssertInLoopThread tid d;;
  Channel.HasChannel c p h.
End channels.

(** ** The loop and its queue *)
Section loop.
Context {Functor : Type}.

(** Where the loop's thread is in [Loop()]. *)
Inductive position :=
| NotStarted
| Top                              (* while (!is_quit_) *)
| Polling                          (* in poller_->Poll *)
| Handling                         (* for (Channel* channel : active_channels_) *)
| Swapping                         (* DoPendingFunctors, before the swap *)
| Running (functors : list Functor)  (* the functors still to call *)
| Stopped.

Record EventLoop := MkLoop {
  pc : position;
  is_looping_ : bool;
  is_quit_ : bool;
  is_calling_pending_functors_ : bool;
  iteration_ : Z;
  pending_functors_ : list Functor;
  wakeup_fd_ : Z;                  (* the counter of the eventfd *)
  owes_wakeup : bool;              (* the loop's thread is about to call Wakeup() *)
  wakers : Z;                      (* other threads about to call Wakeup() *)
  (* history *)
  queued : list Functor;
  called : list Functor;
}.

Definition EventLoop_new : EventLoop :=
  MkLoop NotStarted false false false 0 [] 0 false 0 [] [].

Definition set_pc (x : position) (s : EventLoop) : EventLoop :=
  MkLoop x (is_looping_ s) (is_quit_ s) (is_calling_pending_functors_ s) (iteration_ s)
    (pending_functors_ s) (wakeup_fd_ s) (owes_wakeup s) (wakers s) (queued s) (called s).

(** [Quit]: the flag, and for another thread a wake-up to come. *)
Definition Quit (in_loop_thread : bool) (s : EventLoop) : EventLoop :=
  MkLoop (pc s) (is_looping_ s) true (is_calling_pending_functors_ s) (iteration_ s)
    (pending_functors_ s) (wakeup_fd_ s) (owes_wakeup s)
    (if in_loop_thread then wakers s else wakers s + 1) (queued s) (called s).

(** [QueueInLoop(cb)]: push under the mutex, then decide on the wake-up. *)
Definition QueueInLoop (in_loop_thread : bool) (cb : Functor) (s : EventLoop) : EventLoop :=
  let wake := negb in_loop_thread || is_calling_pending_functors_ s in
  MkLoop (pc s) (is_looping_ s) (is_quit_ s) (is_calling_pending_functors_ s) (iteration_ s)
    (pending_functors_ s ++ [cb]) (wakeup_fd_ s)
    (if wake && in_loop_thread then true else owes_wakeup s)
    (if wake && negb in_loop_thread then wakers s + 1 else wakers s)
    (queued s ++ [cb]) (called s).

(** [Wakeup()] adds 1 to the counter, [HandleRead()] reads it to 0. *)
Definition Wakeup (s : EventLoop) : EventLoop :=
  MkLoop (pc s) (is_looping_ s) (is_quit_ s) (is_calling_pending_functors_ s) (iteration_ s)
    (pending_functors_ s) (wakeup_fd_ s + 1) (owes_wakeup s) (wakers s) (queued s) (called s).
Definition HandleRead (s : EventLoop) : EventLoop :=
  MkLoop (pc s) (is_looping_ s) (is_quit_ s) (is_calling_pending_functors_ s) (iteration_ s)
    (pending_functors_ s) 0 (owes_wakeup s) (wakers s) (queued s) (called s).

(** The wake-up owed by the loop's thread or by another one, done. *)
Definition self_wakeup (s : EventLoop) : EventLoop :=
  let s := Wakeup s in
  MkLoop (pc s) (is_looping_ s) (is_quit_ s) (is_calling_pending_functors_ s) (iteration_ s)
    (pending_functors_ s) (wakeup_fd_ s) false (wakers s) (queued s) (called s).
Definition other_wakeup (s : EventLoop) : EventLoop :=
  let s := Wakeup s in
  MkLoop (pc s) (is_looping_ s) (is_quit_ s) (is_calling_pending_functors_ s) (iteration_ s)
    (pending_functors_ s) (wakeup_fd_ s) (owes_wakeup s) (wakers s - 1) (queued s) (called s).

(** The pieces of [Loop()] and [DoPendingFunctors()]. *)
Definition enter (s : EventLoop) : outcome EventLoop :=
  cassert "!is_looping_" (negb (is_looping_ s));;
  Ok (MkLoop Top true false (is_calling_pending_functors_ s) (iteration_ s)
        (pending_functors_ s) (wakeup_fd_ s) (owes_wakeup s) (wakers s) (queued s) (called s)).

Definition leave (s : EventLoop) : EventLoop :=
  MkLoop Stopped false (is_quit_ s) (is_calling_pending_functors_ s) (iteration_ s)
    (pending_functors_ s) (wakeup_fd_ s) (owes_wakeup s) (wakers s) (queued s) (called s).

Definition poll_returns (s : EventLoop) : EventLoop :=
  MkLoop Handling (is_looping_ s) (is_quit_ s) (is_calling_pending_functors_ s) (iteration_ s + 1)
    (pending_functors_ s) (wakeup_fd_ s) (owes_wakeup s) (wakers s) (queued s) (called s).

Definition set_calling (b : bool) (x : position) (s : EventLoop) : EventLoop :=
  MkLoop x (is_looping_ s) (is_quit_ s) b (iteration_ s)
    (pending_functors_ s) (wakeup_fd_ s) (owes_wakeup s) (wakers s) (queued s) (called s).

Definition swap_functors (s : EventLoop) : EventLoop :=
  MkLoop (Running (pending_functors_ s)) (is_looping_ s) (is_quit_ s) (is_calling_pending_functors_ s)
    (iteration_ s) [] (wakeup_fd_ s) (owes_wakeup s) (wakers s) (queued s) (called s).

Definition call_functor (f : Functor) (fs : list Functor) (s : EventLoop) : EventLoop :=
  MkLoop (Running fs) (is_looping_ s) (is_quit_ s) (is_calling_pending_functors_ s) (iteration_ s)
    (pending_functors_ s) (wakeup_fd_ s) (owes_wakeup s) (wakers s) (queued s) (called s ++ [f]).

(** The steps of the loop's thread.  Callbacks and functors may queue and quit;
    while a wake-up is owed, that is the thread's next step. *)
Inductive loop_step : EventLoop → EventLoop → Prop :=
| step_enter s s' : pc s = NotStarted → enter s = Ok s' → loop_step s s'
| step_check s : pc s = Top → is_quit_ s = false → loop_step s (set_pc Polling s)
| step_leave s : pc s = Top → is_quit_ s = true → loop_step s (leave s)
| step_poll s : pc s = Polling → loop_step s (poll_returns s)
| step_handle_wakeup s : pc s = Handling → 0 < wakeup_fd_ s → loop_step s (HandleRead s)
| step_handle_queue s f : pc s = Handling → loop_step s (QueueInLoop true f s)
| step_handle_quit s : pc s = Handling → loop_step s (Quit true s)
| step_handled s : pc s = Handling → loop_step s (set_calling true Swapping s)
| step_swap s : pc s = Swapping → loop_step s (swap_functors s)
| step_call s f fs : pc s = Running (f :: fs) → owes_wakeup s = false → loop_step s (call_functor f fs s)
| step_run_queue s f fs : pc s = Running fs → owes_wakeup s = false → loop_step s (QueueInLoop true f s)
| step_run_wakeup s : owes_wakeup s = true → loop_step s (self_wakeup s)
| step_run_quit s fs : pc s = Running fs → owes_wakeup s = false → loop_step s (Quit true s)
| step_done s : pc s = Running [] → owes_wakeup s = false → loop_step s (set_calling false Top s).

(** The steps of all other threads. *)
Inductive other_step : EventLoop → EventLoop → Prop :=
| step_other_queue s f : other_step s (QueueInLoop false f s)
| step_other_quit s : other_step s (Quit false s)
| step_other_wakeup s : 0 < wakers s → other_step s (other_wakeup s).

Definition step (s s' : EventLoop) : Prop := loop_step s s' ∨ other_step s s'.

(** The functors taken out of the queue and not called yet. *)
Definition running (s : EventLoop) : list Functor :=
  match pc s with Running fs => fs | _ => [] end.

(** *** The invariant *)
Record loop_inv (s : EventLoop) : Prop := MkLoopInv {
  li_history : queued s = called s ++ running s ++ pending_functors_ s;
  li_calling : is_calling_pending_functors_ s =
    match pc s with Swapping | Running _ => true | _ => false end;
  li_owes : owes_wakeup s = true → ∃ fs, pc s = Running fs;
  li_wakers : 0 ≤ wakers s ∧ 0 ≤ wakeup_fd_ s;
  li_looping : is_looping_ s = match pc s with NotStarted | Stopped => false | _ => true end;
  (* somebody will make the next Poll return *)
  li_wakeup : pending_functors_ s ≠ [] →
    0 < wakeup_fd_ s ∨ 0 < wakers s ∨ owes_wakeup s = true ∨ pc s = Handling ∨ pc s = Swapping;
  li_quit : is_quit_ s = true → pc s = Polling → 0 < wakeup_fd_ s ∨ 0 < wakers s;
}.

Lemma loop_inv_init : loop_inv EventLoop_new.
Proof. by split. Qed.

Ltac loop_cbn :=
  cbn [pc is_looping_ is_quit_ is_calling_pending_functors_ iteration_ pending_functors_ wakeup_fd_
       owes_wakeup wakers queued called
       set_pc leave poll_returns HandleRead QueueInLoop Quit set_calling swap_functors call_functor
       self_wakeup other_wakeup Wakeup negb orb andb] in *.

Lemma other_step_inv s s' : loop_inv s → other_step s s' → loop_inv s'.
Proof.
  intros Hi Hs. revert Hi.
  destruct Hs as [s f|s|s Hpos]; intros [Hh Hc Ho Hw Hl Hwk Hq]; split; unfold running in *;
    loop_cbn; try done; try lia.
  rewrite Hh. by rewrite <-!app_assoc.
Qed.

Lemma loop_step_inv s s' : loop_inv s → loop_step s s' → loop_inv s'.
Proof.
  intros Hi Hs. revert Hi.
  destruct Hs as [s s' Hpc He|s Hpc Hqt|s Hpc Hqt|s Hpc|s Hpc Hpos|s f Hpc|s Hpc|s Hpc|s Hpc
    |s f fs Hpc How|s f fs Hpc How|s How|s fs Hpc How|s Hpc How]; intros [Hh Hc Ho Hw Hl Hwk Hq];
    try (unfold enter in He; inv_ok);
    try (assert (owes_wakeup s = false) as How'
      by (destruct (owes_wakeup s); [destruct (Ho eq_refl) as [? ?]; congruence|done]));
    unfold running in *; try rewrite Hpc in *; try rewrite Hc in *;
    split; unfold running; loop_cbn; try rewrite Hpc in *; try rewrite Hc in *;
    try (rewrite Hh; by rewrite <-?app_assoc); try done; try congruence; try (intros; lia).
  all: try (intros Hp; destruct (Hwk Hp) as [?|[?|[?|[?|?]]]]; first [congruence|tauto|lia]).
  - intros _. tauto.
  - by rewrite app_nil_r.
  - intros _. by exists fs.
  - intros _. right. right. by left.
Qed.

Lemma loop_reachable_inv s : rtc step EventLoop_new s → loop_inv s.
Proof.
  assert (∀ s0, rtc step s0 s → loop_inv s0 → loop_inv s) as H.
  { induction 1 as [|s1 s2 s3 [Hs|Hs] _ IH]; intros Hi; [done|..]; apply IH;
      [by eapply loop_step_inv|by eapply other_step_inv]. }
  intros Hr. apply (H EventLoop_new); [done|apply loop_inv_init].
Qed.

(** The functors of the queue, called one after another. *)
Lemma call_all fs s :
  pc s = Running fs → owes_wakeup s = false →
  ∃ s', rtc loop_step s s' ∧ pc s' = Running [] ∧ owes_wakeup s' = false ∧
    called s' = called s ++ fs ∧ is_quit_ s' = is_quit_ s.
Proof.
  revert s. induction fs as [|f fs IH]; intros s Hpc How.
  - exists s. rewrite app_nil_r. by split.
  - destruct (IH (call_functor f fs s)) as (s' & Hr & ? & ? & Hc & ?); [done..|].
    exists s'. split; [eapply rtc_l; [by apply (step_call s f fs)|done]|]. split; [done|]. split; [done|].
    split; [|done]. rewrite Hc. cbn. by rewrite <-app_assoc.
Qed.
End loop.

(** C11: every queued functor is called once, in the order of the queue.  In every
    state that the loop's thread and any other threads can reach together, what
    was queued is what was called, followed by what was swapped out and is about
    to be called, followed by what waits in [pending_functors_]. *)
Theorem functors_once_in_order {Functor} (s : @EventLoop Functor) :
  rtc step EventLoop_new s → queued s = called s ++ running s ++ pending_functors_ s.
Proof. intros Hr. by apply loop_reachable_inv in Hr as []. Qed.

Definition sample_trace : @EventLoop nat :=
  QueueInLoop false 7%nat EventLoop_new.

Lemma functors_once_in_order_witness :
  queued sample_trace = called sample_trace ++ running sample_trace ++ pending_functors_ sample_trace
  ∧ pending_functors_ sample_trace = [7%nat].
Proof.
  split; [|reflexivity]. apply functors_once_in_order. apply rtc_once. right. constructor.
Defined.



(** One turn of the loop serves the queue.  From a [Poll] with functors in the
    queue, the loop's own thread can finish the iteration without anybody else,
    and when it is back at the top it has called all of them, in order. *)
Theorem one_turn_serves_queue {Functor} (s : @EventLoop Functor) :
  rtc step EventLoop_new s → pc s = Polling →
  ∃ s', rtc loop_step s s' ∧ pc s' = Top ∧ called s' = called s ++ pending_functors_ s.
Proof.
  intros Hr%loop_reachable_inv Hpc.
  assert (owes_wakeup s = false) as How.
  { destruct (owes_wakeup s) eqn:E; [|done]. destruct (li_owes _ Hr E). congruence. }
  set (s1 := swap_functors (set_calling true Swapping (poll_returns s))).
  destruct (call_all (pending_functors_ s) s1) as (s2 & Hs2 & Hpc2 & How2 & Hc2 & _); [done..|].
  exists (set_calling false Top s2). split; [|by split].
  eapply rtc_l; [by apply (step_poll s)|]. eapply rtc_l; [by apply step_handled|].
  eapply rtc_l; [by apply step_swap|]. eapply rtc_r; [exact Hs2|]. by apply step_done.
Qed.

Lemma one_turn_serves_queue_witness :
  ∃ s s' : @EventLoop nat, pending_functors_ s = [7%nat] ∧ rtc loop_step s s' ∧ called s' = [7%nat].
Proof.
  pose (s1 := @MkLoop nat Top true false false 0 [] 0 false 0 [] []).
  pose (s := QueueInLoop false 7%nat (set_pc Polling s1)).
  destruct (one_turn_serves_queue s) as (s' & Hs & _ & Hc).
  - eapply rtc_l; [left; apply (step_enter _ s1); reflexivity|].
    eapply rtc_l; [left; apply (step_check s1); reflexivity|].
    apply rtc_once. right. constructor.
  - reflexivity.
  - exists s, s'. split; [reflexivity|]. split; [exact Hs|exact Hc].
Defined.

(** A [Quit] that comes before [Loop] is forgotten.  Whatever happened to the
    loop before its thread entered [Loop], the flag is cleared on entry and the
    loop goes on to [Poll]. *)
Theorem quit_before_loop_lost {Functor} (s : @EventLoop Functor) :
  rtc step EventLoop_new s → pc s = NotStarted →
  ∃ s1 s2, loop_step s s1 ∧ loop_step s1 s2 ∧ is_quit_ s1 = false ∧ pc s2 = Polling ∧ is_quit_ s2 = false.
Proof.
  intros Hr%loop_reachable_inv Hpc. pose proof (li_looping _ Hr) as Hl. rewrite Hpc in Hl.
  eexists _, _. split; [apply (step_enter s); [done|unfold enter; rewrite Hl; reflexivity]|].
  split; [by apply step_check|]. done.
Qed.

Lemma quit_before_loop_lost_witness :
  ∃ s1 s2 : @EventLoop nat, loop_step (Quit false EventLoop_new) s1 ∧ loop_step s1 s2 ∧
    is_quit_ s1 = false ∧ pc s2 = Polling ∧ is_quit_ s2 = false.
Proof.
  apply (quit_before_loop_lost (Quit false EventLoop_new)); [|reflexivity].
  apply rtc_once. right. constructor.
Defined.
