(* ===== verification/EventLoopThread.v ===== *)
(** * [net::EventLoopThread] (net/event_loop_thread.h, net/event_loop_thread.cc)
    and [Thread] (base/thread.h, base/thread.cc)

    A thread that owns an event loop.  Two threads take steps: the owner, which
    constructs the object, calls [StartLoop] and later the destructor, and the
    child, which goes through [ThreadData::RunInThread] and [ThreadFunc]; the
    loop inside is the one of [EventLoop], with its own steps.  A step is a
    critical section, a call on the loop, or a piece of code that no other
    thread can observe half done. *)

From stdpp Require Import base tactics list numbers strings sets gmap relations.
From Stdlib Require Import ZArith Lia Ascii.
From S2P Require Import Prelude.
From S2P Require Import CString.
From S2P Require Import EventLoop.

(** ** [Thread] *)
Record Thread := MkThread {
  started_ : bool;
  joined_ : bool;
  tid_ : Z;
  name_ : bytes;
  latch_ : Z;            (* the count of the [CountDownLatch] *)
}.

(** The thread and the number of threads created after it; [snprintf] into 32
    bytes cuts nothing off, the longest text has 17 characters. *)
Definition Thread_new (name : bytes) (num_created_ : Z) : Thread * Z :=
  let num := wrapS 32 (num_created_ + 1) in
  (MkThread false false 0 (if bool_decide (name = []) then str "Thread" ++ fmt_d num else name) 1, num).

(** [Start] up to [latch_.Wait()]: [created] is the answer of [pthread_create]. *)
Definition Thread_Start (created : bool) (t : Thread) : outcome Thread :=
  cassert "!started_" (negb (started_ t));;
  if created then Ok (MkThread true (joined_ t) (tid_ t) (name_ t) (latch_ t))
  else Fail (FatalLog "Failed in pthread_create").

(** [RunInThread] up to [latch_->CountDown()], in the new thread. *)
Definition RunInThread_begin (tid : Z) (t : Thread) : Thread :=
  MkThread (started_ t) (joined_ t) tid (name_ t) (latch_ t - 1).

(** What [latch_.Wait()] waits for, and the assertion behind it. *)
Definition Thread_Start_ready (t : Thread) : bool := negb (0 <? latch_ t).
Definition Thread_Start_end (t : Thread) : outcome unit := cassert "tid_ > 0" (0 <? tid_ t).

(** [Join()]: what is checked before [pthread_join]. *)
Definition Thread_Join (t : Thread) : outcome Thread :=
  cassert "started_" (started_ t);;
  cassert "!joined_" (negb (joined_ t));;
  Ok (MkThread (started_ t) true (tid_ t) (name_ t) (latch_ t)).

(** [~Thread()]: whether the thread is detached. *)
Definition Thread_destroy (t : Thread) : bool := started_ t && negb (joined_ t).

(** The name the system shows for the thread when [func_] is called, and after
    it returned or threw. *)
Inductive func_result := Returns | ThrowsStd | ThrowsOther.
Definition RunInThread_end (r : func_result) : outcome bytes :=
  match r with
  | Returns => Ok (str "finished")
  | ThrowsStd => Fail (FatalLog "exception caught in Thread")   (* abort() *)
  | ThrowsOther => Fail (Exception "unknown exception")           (* rethrown *)
  end.
Definition running_name (t : Thread) : bytes := if bool_decide (name_ t = []) then str "Thread" else name_ t.

(** ** [EventLoopThread] *)

(** Where the owner is. *)
Inductive owner_pc :=
| Constructed
| InStart            (* Thread::Start, latch_.Wait() *)
| Checking           (* while (loop_ == nullptr), before the test *)
| Waiting            (* in cond_.Wait() *)
| Returned           (* StartLoop returned the loop *)
| Quitting           (* the destructor, loop_ was not null *)
| Waking             (* in Quit(), the flag is set *)
| Joining            (* in thread_.Join() *)
| Destroyed.

(** Where the child is. *)
Inductive child_pc :=
| NotCreated
| Booting            (* RunInThread, before CountDown *)
| Named              (* before ThreadFunc constructs its loop *)
| InCallback         (* the loop exists, callback_ runs *)
| InLoop             (* in or right before loop.Loop() *)
| Leaving            (* loop_ is null again, the loop still exists *)
| Finished.

Section event_loop_thread.
Context {Functor : Type}.

Record EventLoopThread := MkELT {
  owner : owner_pc;
  child : child_pc;
  thread_ : Thread;
  loop_ : bool;                                (* loop_ != nullptr *)
  loop : option (@EventLoop Functor);          (* the object on the child's stack *)
  signalled : bool;                            (* a notification for the waiting owner *)
  is_exiting_ : bool;
  callback_ran : bool;                         (* history *)
}.

Definition EventLoopThread_new (name : bytes) (num_created_ : Z) : EventLoopThread :=
  MkELT Constructed NotCreated (Thread_new name num_created_).1 false None false false false.

Definition set_owner (o : owner_pc) (s : EventLoopThread) : EventLoopThread :=
  MkELT o (child s) (thread_ s) (loop_ s) (loop s) (signalled s) (is_exiting_ s) (callback_ran s).
Definition set_child (c : child_pc) (s : EventLoopThread) : EventLoopThread :=
  MkELT (owner s) c (thread_ s) (loop_ s) (loop s) (signalled s) (is_exiting_ s) (callback_ran s).
Definition set_thread (t : Thread) (s : EventLoopThread) : EventLoopThread :=
  MkELT (owner s) (child s) t (loop_ s) (loop s) (signalled s) (is_exiting_ s) (callback_ran s).
Definition set_loop (l : option (@EventLoop Functor)) (s : EventLoopThread) : EventLoopThread :=
  MkELT (owner s) (child s) (thread_ s) (loop_ s) l (signalled s) (is_exiting_ s) (callback_ran s).

(** *** The owner *)

(** [StartLoop] up to the latch of [Thread::Start]. *)
Definition StartLoop_begin (created : bool) (s : EventLoopThread) : outcome EventLoopThread :=
  cassert "!thread_.IsStarted()" (negb (started_ (thread_ s)));;
  t ← Thread_Start created (thread_ s);
  Ok (set_child Booting (set_thread t (set_owner InStart s))).

(** One test of the [while] loop of [StartLoop], under the mutex. *)
Definition StartLoop_test (s : EventLoopThread) : EventLoopThread :=
  if loop_ s then set_owner Returned s
  else MkELT Waiting (child s) (thread_ s) (loop_ s) (loop s) false (is_exiting_ s) (callback_ran s).

(** [~EventLoopThread] up to [loop_->Quit()]. *)
Definition destroy_begin (s : EventLoopThread) : EventLoopThread :=
  MkELT (if loop_ s then Quitting else Destroyed) (child s) (thread_ s) (loop_ s) (loop s) (signalled s)
    true (callback_ran s).

(** [loop_->Quit()] sets the flag and then wakes the loop up; the loop may be gone. *)
Definition destroy_quit (s : EventLoopThread) : outcome EventLoopThread :=
  match loop s with
  | Some l => Ok (set_owner Waking (set_loop (Some (Quit false l)) s))
  | None => Fail (UndefinedBehaviour "call on a destroyed EventLoop")
  end.
Definition destroy_wakeup (s : EventLoopThread) : outcome EventLoopThread :=
  match loop s with
  | Some l => t ← Thread_Join (thread_ s); Ok (set_thread t (set_owner Joining (set_loop (Some (other_wakeup l)) s)))
  | None => Fail (UndefinedBehaviour "call on a destroyed EventLoop")
  end.

(** *** The child *)

(** [ThreadFunc] between the callback and [loop.Loop()]: publish the loop. *)
Definition publish (s : EventLoopThread) : EventLoopThread :=
  MkELT (owner s) InLoop (thread_ s) true (loop s) (match owner s with Waiting => true | _ => signalled s end)
    (is_exiting_ s) true.

(** ... and after it. *)
Definition unpublish (s : EventLoopThread) : EventLoopThread :=
  MkELT (owner s) Leaving (thread_ s) false (loop s) (signalled s) (is_exiting_ s) (callback_ran s).

Inductive owner_step : EventLoopThread → EventLoopThread → Prop :=
| owner_start s s' : owner s = Constructed → StartLoop_begin true s = Ok s' → owner_step s s'
| owner_latch s : owner s = InStart → Thread_Start_ready (thread_ s) = true → Thread_Start_end (thread_ s) = Ok tt →
    owner_step s (set_owner Checking s)
| owner_test s : owner s = Checking → owner_step s (StartLoop_test s)
| owner_woken s : owner s = Waiting → signalled s = true → owner_step s (set_owner Checking s)
| owner_destroy s : owner s = Constructed ∨ owner s = Returned → owner_step s (destroy_begin s)
| owner_quit s s' : owner s = Quitting → destroy_quit s = Ok s' → owner_step s s'
| owner_wakeup s s' : owner s = Waking → destroy_wakeup s = Ok s' → owner_step s s'
| owner_joined s : owner s = Joining → child s = Finished → owner_step s (set_owner Destroyed s).

Inductive child_step : EventLoopThread → EventLoopThread → Prop :=
| child_boot s tid : child s = Booting → 0 < tid → child_step s (set_child Named (set_thread (RunInThread_begin tid (thread_ s)) s))
| child_construct s : child s = Named → child_step s (set_child InCallback (set_loop (Some EventLoop_new) s))
| child_publish s : child s = InCallback → child_step s (publish s)
| child_loop s l l' : child s = InLoop → loop s = Some l → loop_step l l' → child_step s (set_loop (Some l') s)
| child_unpublish s l : child s = InLoop → loop s = Some l → pc l = Stopped → child_step s (unpublish s)
| child_finish s : child s = Leaving → child_step s (set_child Finished (set_loop None s)).

(** Threads that got the loop from [StartLoop], and wake-ups of the condition
    without a reason. *)
Inductive outside_step : EventLoopThread → EventLoopThread → Prop :=
| outside_loop s l l' : callback_ran s = true → loop s = Some l → other_step l l' →
    (owner s = Waking → 0 < wakers l') → outside_step s (set_loop (Some l') s)
| outside_spurious s : owner s = Waiting → outside_step s (set_owner Checking s).

Definition step (s s' : EventLoopThread) : Prop := owner_step s s' ∨ child_step s s' ∨ outside_step s s'.

Definition reachable (s : EventLoopThread) : Prop := ∃ name n, rtc step (EventLoopThread_new name n) s.

(** Nobody but the destructor asks the loop to quit. *)
Definition raises (s s' : EventLoopThread) : Prop :=
  ∃ l l', loop s = Some l ∧ loop s' = Some l' ∧ is_quit_ l = false ∧ is_quit_ l' = true.
Definition calm_step (s s' : EventLoopThread) : Prop :=
  owner_step s s' ∨ (child_step s s' ∨ outside_step s s') ∧ ¬ raises s s'.

Definition calm (s : EventLoopThread) : Prop := ∃ name n, rtc calm_step (EventLoopThread_new name n) s.

(** *** The invariant *)

(** What the owner's position says about the child. *)
Definition owner_ok (s : EventLoopThread) : Prop :=
  match owner s with
  | Constructed => child s = NotCreated
  | InStart => child s ≠ NotCreated
  | Checking => child s ≠ NotCreated ∧ child s ≠ Booting
  | Waiting => child s ≠ NotCreated ∧ child s ≠ Booting ∧ (child s = InLoop → signalled s = true)
  | Returned | Quitting | Joining => callback_ran s = true
  | Waking => callback_ran s = true ∧ ∀ l, loop s = Some l → 0 < wakers l
  | Destroyed => True
  end.

(** What the child's position says about the loop. *)
Definition child_ok (s : EventLoopThread) : Prop :=
  match child s with
  | NotCreated | Booting | Named => loop_ s = false ∧ loop s = None ∧ callback_ran s = false
  | InCallback => loop_ s = false ∧ loop s = Some EventLoop_new ∧ callback_ran s = false
  | InLoop => loop_ s = true ∧ (∃ l, loop s = Some l ∧ loop_inv l) ∧ callback_ran s = true
  | Leaving => loop_ s = false ∧ (∃ l, loop s = Some l ∧ loop_inv l ∧ pc l = Stopped) ∧ callback_ran s = true
  | Finished => loop_ s = false ∧ loop s = None ∧ callback_ran s = true
  end.

Definition thread_ok (s : EventLoopThread) : Prop :=
  started_ (thread_ s) = negb (match child s with NotCreated => true | _ => false end) ∧
  (match child s with NotCreated | Booting => latch_ (thread_ s) = 1 | _ => latch_ (thread_ s) = 0 ∧ 0 < tid_ (thread_ s) end) ∧
  (match owner s with Joining => joined_ (thread_ s) = true | Destroyed => True | _ => joined_ (thread_ s) = false end).

Record thread_inv (s : EventLoopThread) : Prop := MkThreadInv {
  ti_owner : owner_ok s;
  ti_child : child_ok s;
  ti_thread : thread_ok s;
}.

Lemma thread_inv_init name n : thread_inv (EventLoopThread_new name n).
Proof. by split. Qed.

Ltac elt_cbn :=
  unfold owner_ok, child_ok, thread_ok in *;
  cbn [owner child thread_ loop_ loop signalled is_exiting_ callback_ran set_owner set_child set_thread set_loop
       publish unpublish destroy_begin started_ joined_ tid_ name_ latch_ RunInThread_begin] in *.

(** The loop changed, and nothing else. *)
Lemma child_ok_loop s l l' :
  child_ok s → callback_ran s = true → loop s = Some l → loop_inv l' → (pc l = Stopped → pc l' = Stopped) →
  child_ok (set_loop (Some l') s).
Proof.
  elt_cbn. intros Hc Hr El Hi Hp. destruct (child s); destruct Hc as (H1 & H2 & H3); try congruence.
  - split; [done|]. split; [|done]. by exists l'.
  - split; [done|]. split; [|done]. exists l'. split; [done|]. split; [done|]. destruct H2 as (l0 & E & _ & Hp0).
    apply Hp. congruence.
Qed.

Lemma child_ok_inv s l : child_ok s → loop s = Some l → loop_inv l.
Proof.
  elt_cbn. intros Hc El. destruct (child s); destruct Hc as (H1 & H2 & H3); try congruence.
  - assert (l = EventLoop_new) as -> by congruence. apply loop_inv_init.
  - destruct H2 as (l0 & E & Hi). congruence.
  - destruct H2 as (l0 & E & Hi & _). congruence.
Qed.

Ltac elt_done := elt_cbn; first [done|tauto|congruence|intuition (congruence || lia)].
Ltac elt_cases s := destruct (child s); elt_done.

Lemma owner_step_inv s s' : thread_inv s → owner_step s s' → thread_inv s'.
Proof.
  intros [Ho Hc Ht] Hs. destruct Hs as [s s' Hpc E|s Hpc Hr He|s Hpc|s Hpc Hsig|s Hpc|s s' Hpc E|s s' Hpc E|s Hpc Hch].
  - unfold StartLoop_begin, Thread_Start in E. inv_ok. elt_cbn. rewrite Hpc in *. rewrite Ho in *. split; elt_done.
  - elt_cbn. rewrite Hpc in *. unfold Thread_Start_ready in Hr. split; elt_cbn; [|done|done].
    destruct Ht as (_ & Hl & _). destruct (child s); try done; rewrite Hl in Hr; done.
  - unfold StartLoop_test. elt_cbn. rewrite Hpc in *. destruct Ho as [Ho1 Ho2].
    destruct (loop_ s) eqn:El; split; elt_cbn; rewrite ?El; elt_cases s.
  - elt_cbn. rewrite Hpc in *. split; elt_cbn; tauto.
  - elt_cbn. destruct (loop_ s) eqn:El; split; elt_cbn; rewrite ?El; try done; destruct Hpc as [Hpc|Hpc]; rewrite Hpc in *;
      elt_cases s.
  - unfold destroy_quit in E. pose proof (child_ok_inv s) as Hli. unfold owner_ok, thread_ok in *. rewrite Hpc in *.
    destruct (loop s) as [l|] eqn:El; [|done]. specialize (Hli l Hc eq_refl). inv_ok. split.
    + elt_cbn. split; [done|]. intros l' [= <-]. pose proof (li_wakers _ Hli). cbn. lia.
    + apply (child_ok_loop s l); [done..| |done]. eapply other_step_inv; [done|constructor].
    + done.
  - unfold destroy_wakeup, Thread_Join in E. pose proof (child_ok_inv s) as Hli. unfold owner_ok, thread_ok in *.
    rewrite Hpc in *. destruct (loop s) as [l|] eqn:El; [|done]. specialize (Hli l Hc eq_refl). inv_ok.
    destruct Ho as [Ho Hw]. specialize (Hw l eq_refl). split.
    + done.
    + apply (child_ok_loop s l); [done..| |done]. eapply other_step_inv; [done|by constructor].
    + elt_cbn. tauto.
  - elt_cbn. rewrite Hpc, Hch in *. split; elt_cbn; rewrite ?Hch; tauto.
Qed.

Lemma loop_step_stopped (l l' : @EventLoop Functor) : loop_inv l → loop_step l l' → pc l ≠ Stopped.
Proof.
  intros Hi Hs. destruct Hs; try congruence. match goal with H : owes_wakeup _ = true |- _ => destruct (li_owes _ Hi H) end.
  congruence.
Qed.

Lemma loop_step_wakers (l l' : @EventLoop Functor) : loop_step l l' → wakers l' = wakers l.
Proof.
  intros Hs. destruct Hs; try done; [unfold enter in *; by inv_ok|cbn; by rewrite ?andb_false_r..].
Qed.

Lemma child_step_inv s s' : thread_inv s → child_step s s' → thread_inv s'.
Proof.
  intros [Ho Hc Ht] Hs. destruct Hs as [s tid Hch Htid|s Hch|s Hch|s l l' Hch El Hl|s l Hch El Hp|s Hch].
  - elt_cbn. rewrite Hch in *. split; elt_cbn; destruct (owner s); elt_done.
  - elt_cbn. rewrite Hch in *. split; elt_cbn; destruct (owner s); elt_done.
  - elt_cbn. rewrite Hch in *. destruct Hc as (Hc1 & Hc2 & Hc3). split; elt_cbn.
    + destruct (owner s); elt_done.
    + split; [done|]. split; [|done]. exists EventLoop_new. split; [done|]. apply loop_inv_init.
    + done.
  - pose proof (child_ok_inv s l Hc El) as Hi. assert (callback_ran s = true) as Hr by (elt_cbn; rewrite Hch in *; tauto).
    split; [|apply (child_ok_loop s l); [done..|by eapply loop_step_inv|]|done].
    + elt_cbn. destruct (owner s); try done. destruct Ho as [Ho Hw]. split; [done|]. intros l0 [= <-].
      rewrite (loop_step_wakers _ _ Hl). by apply Hw.
    + intros Hst. by apply loop_step_stopped in Hl.
  - pose proof (child_ok_inv s l Hc El) as Hi. elt_cbn. rewrite Hch in *. destruct Hc as (Hc1 & Hc2 & Hc3). split; elt_cbn.
    + destruct (owner s); elt_done.
    + split; [done|]. split; [|done]. by exists l.
    + done.
  - elt_cbn. rewrite Hch in *. destruct Hc as (Hc1 & Hc2 & Hc3). split; elt_cbn; [|done|done].
    destruct (owner s); elt_done.
Qed.

Lemma outside_step_inv s s' : thread_inv s → outside_step s s' → thread_inv s'.
Proof.
  intros [Ho Hc Ht] Hs. destruct Hs as [s l l' Hr El Hl Hw|s Hpc].
  - pose proof (child_ok_inv s l Hc El) as Hi.
    split; [|apply (child_ok_loop s l); [done..|by eapply other_step_inv|by destruct Hl]|done].
    elt_cbn. destruct (owner s) eqn:E; try done. split; [tauto|]. intros l0 [= <-]. by apply Hw.
  - elt_cbn. rewrite Hpc in *. split; elt_cbn; tauto.
Qed.

Lemma thread_reachable_inv s : reachable s → thread_inv s.
Proof.
  intros (name & n & Hr). pose proof (thread_inv_init name n) as Hi. revert Hi.
  induction Hr as [|s1 s2 s3 [Hs|[Hs|Hs]] _ IH]; intros Hi; [done|..]; apply IH;
    eauto using owner_step_inv, child_step_inv, outside_step_inv.
Qed.

Lemma calm_reachable s : calm s → reachable s.
Proof.
  intros (name & n & Hr). exists name, n. eapply (rtc_subrel _ step); [|done].
  intros x y [?|[[?|?] _]]; unfold step; tauto.
Qed.

(** *** When nobody else quits the loop *)
Definition serving (s : EventLoopThread) : Prop :=
  match owner s with
  | Waking | Joining | Destroyed => True
  | _ => child s ≠ Leaving ∧ child s ≠ Finished ∧ ∀ l, loop s = Some l → is_quit_ l = false ∧ pc l ≠ Stopped
  end.

Lemma not_raised s s' l l' :
  ¬ raises s s' → loop s = Some l → loop s' = Some l' → is_quit_ l = false → is_quit_ l' = false.
Proof. intros Hn E E' Hq. destruct (is_quit_ l') eqn:H; [|done]. destruct Hn. by exists l, l'. Qed.

Lemma loop_step_to_stopped (l l' : @EventLoop Functor) : loop_step l l' → pc l' = Stopped → is_quit_ l = true ∨ pc l = Stopped.
Proof.
  intros Hs Hp. destruct Hs; cbn in Hp; try congruence; auto. unfold enter in *. inv_ok. cbn in Hp. congruence.
Qed.

Lemma serving_step s s' : thread_inv s → serving s → calm_step s s' → serving s'.
Proof.
  intros Hi Hv [Hs|[[Hs|Hs] Hn]]; unfold serving in *.
  - destruct Hs as [s s' Hpc E|s Hpc _ _|s Hpc|s Hpc _|s Hpc|s s' Hpc E|s s' Hpc E|s Hpc _]; try (rewrite Hpc in Hv; done).
    + unfold StartLoop_begin, Thread_Start in E. inv_ok. rewrite Hpc in Hv. elt_cbn. split_and!; [done|done|apply Hv].
    + unfold StartLoop_test. rewrite Hpc in Hv. by destruct (loop_ s).
    + elt_cbn. destruct (loop_ s); [|done]. by destruct Hpc as [Hpc|Hpc]; rewrite Hpc in Hv.
    + unfold destroy_quit in E. destruct (loop s); by inv_ok.
    + unfold destroy_wakeup in E. destruct (loop s); by inv_ok.
  - destruct Hs as [s tid Hch Htid|s Hch|s Hch|s l l' Hch El Hl|s l Hch El Hp|s Hch]; elt_cbn;
      destruct (owner s) eqn:Ho; try done; destruct Hv as (Hv1 & Hv2 & Hv3); try congruence;
      first
        [ destruct (Hv3 l El) as [Hq Hst]; done
        | split; [done|]; split; [done|];
          first
            [ done
            | intros l0 [= <-]; done
            | intros l0 [= <-]; destruct (Hv3 l El) as [Hq Hst]; split; [by eapply not_raised|];
              intros Hst'; destruct (loop_step_to_stopped _ _ Hl Hst'); congruence ] ].
  - destruct Hs as [s l l' Hr El Hl Hw|s Hpc]; elt_cbn; [|by rewrite Hpc in Hv].
    destruct (owner s) eqn:Ho; try done; destruct Hv as (Hv1 & Hv2 & Hv3);
      (split; [done|]; split; [done|]; intros l0 [= <-]; destruct (Hv3 l El) as [Hq Hst];
       split; [by eapply not_raised|by destruct Hl]).
Qed.

Lemma calm_inv s : calm s → thread_inv s ∧ serving s.
Proof.
  intros Hc. pose proof (thread_reachable_inv s (calm_reachable s Hc)) as Hi. split; [done|]. destruct Hc as (name & n & Hr).
  assert (serving (EventLoopThread_new name n)) as H0 by by cbn.
  assert (thread_inv (EventLoopThread_new name n)) as Hi0 by apply thread_inv_init. clear Hi. revert H0 Hi0.
  induction Hr as [|s1 s2 s3 Hs _ IH]; intros H0 Hi0; [done|]. apply IH; [by eapply serving_step|].
  destruct Hs as [Hs|[[Hs|Hs] _]]; eauto using owner_step_inv, child_step_inv, outside_step_inv.
Qed.

(** *** [StartLoop] returns *)
Definition own_step (s s' : EventLoopThread) : Prop := owner_step s s' ∨ child_step s s'.

(** The child gets as far as publishing its loop. *)
Lemma child_publishes s :
  thread_inv s → child s ≠ NotCreated → child s ≠ Leaving → child s ≠ Finished →
  ∃ s', rtc child_step s s' ∧ thread_inv s' ∧ child s' = InLoop ∧ owner s' = owner s.
Proof.
  intros Hi H1 H2 H3.
  assert (∀ s s1, child_step s s1 → owner s1 = owner s → thread_inv s →
    (∃ s', rtc child_step s1 s' ∧ thread_inv s' ∧ child s' = InLoop ∧ owner s' = owner s1) →
    ∃ s', rtc child_step s s' ∧ thread_inv s' ∧ child s' = InLoop ∧ owner s' = owner s) as Hstep.
  { intros x y Hs Ho _ (z & Hr & ? & ? & ?). exists z. split; [by eapply rtc_l|]. split; [done|]. split; [done|congruence]. }
  assert (∀ s, thread_inv s → child s = InCallback → ∃ s', rtc child_step s s' ∧ thread_inv s' ∧ child s' = InLoop ∧ owner s' = owner s) as C3.
  { intros x Hx Ex. eapply Hstep; [by apply child_publish|done|done|]. eexists. split; [done|]. split; [|done].
    by eapply child_step_inv, child_publish. }
  assert (∀ s, thread_inv s → child s = Named → ∃ s', rtc child_step s s' ∧ thread_inv s' ∧ child s' = InLoop ∧ owner s' = owner s) as C2.
  { intros x Hx Ex. eapply Hstep; [by apply child_construct|done|done|]. apply C3; [|done].
    by eapply child_step_inv, child_construct. }
  destruct (child s) eqn:Ec; try congruence.
  - eapply Hstep; [by apply (child_boot s 1)|done|done|]. apply C2; [|done]. by eapply child_step_inv, (child_boot s 1).
  - by apply C2.
  - by apply C3.
  - by exists s.
Qed.

(** The owner leaves [StartLoop] once the loop is published. *)
Lemma owner_returns s :
  thread_inv s → child s = InLoop → owner s = InStart ∨ owner s = Checking ∨ owner s = Waiting →
  ∃ s', rtc owner_step s s' ∧ owner s' = Returned.
Proof.
  intros Hi Hc Ho.
  assert (∀ s, thread_inv s → child s = InLoop → owner s = Checking → ∃ s', rtc owner_step s s' ∧ owner s' = Returned) as C.
  { intros x Hx Ex Eo. exists (StartLoop_test x). split; [by apply rtc_once, owner_test|]. unfold StartLoop_test.
    pose proof (ti_child _ Hx) as Hcx. unfold child_ok in Hcx. rewrite Ex in Hcx. by destruct Hcx as (-> & _). }
  pose proof (ti_thread _ Hi) as (_ & Ht & _). rewrite Hc in Ht. destruct Ht as [Hl Htid].
  assert (owner s = InStart ∨ owner s = Waiting → ∃ s1, owner_step s s1 ∧ s1 = set_owner Checking s) as Hmove.
  { intros [E|E]; eexists; (split; [|done]).
    - apply owner_latch; [done|unfold Thread_Start_ready; by rewrite Hl|]. unfold Thread_Start_end.
      by replace (0 <? tid_ (thread_ s)) with true by lia.
    - apply owner_woken; [done|]. pose proof (ti_owner _ Hi) as Hoo. unfold owner_ok in Hoo. rewrite E in Hoo. tauto. }
  destruct Ho as [E|[E|E]]; [|by apply C|]; (destruct Hmove as (s1 & Hs & ->); [tauto|]);
    (destruct (C (set_owner Checking s)) as (s' & Hr & ?); [by eapply owner_step_inv|done|done|]);
    exists s'; (split; [by eapply rtc_l|done]).
Qed.


(** *** The destructor *)

(** Once asked to quit, a loop that was entered gets to its end by itself. *)
Lemma loop_quits (l : @EventLoop Functor) :
  loop_inv l → is_quit_ l = true → pc l ≠ NotStarted → ∃ l', rtc loop_step l l' ∧ pc l' = Stopped.
Proof.
  intros Hi Hq Hne.
  assert (∀ l : @EventLoop Functor, is_quit_ l = true → pc l = Top → ∃ l', rtc loop_step l l' ∧ pc l' = Stopped) as Ctop.
  { intros x Hx Ex. exists (leave x). split; [by apply rtc_once, step_leave|done]. }
  assert (∀ (l : @EventLoop Functor) fs, is_quit_ l = true → pc l = Running fs → owes_wakeup l = false →
    ∃ l', rtc loop_step l l' ∧ pc l' = Stopped) as Crun.
  { intros x fs Hx Ex Hox. destruct (call_all fs x Ex Hox) as (y & Hr & Hpy & Hoy & _ & Hqy).
    destruct (Ctop (set_calling false Top y)) as (z & Hz & ?); [by rewrite <-Hx, <-Hqy|done|]. exists z. split; [|done].
    etrans; [exact Hr|]. eapply rtc_l; [by apply step_done|done]. }
  assert (∀ l : @EventLoop Functor, is_quit_ l = true → pc l = Swapping → owes_wakeup l = false → ∃ l', rtc loop_step l l' ∧ pc l' = Stopped) as Cswap.
  { intros x Hx Ex Hox. destruct (Crun (swap_functors x) (pending_functors_ x)) as (z & Hz & ?); [done..|].
    exists z. split; [|done]. eapply rtc_l; [by apply step_swap|done]. }
  assert (∀ l : @EventLoop Functor, is_quit_ l = true → pc l = Handling → owes_wakeup l = false → ∃ l', rtc loop_step l l' ∧ pc l' = Stopped) as Chandle.
  { intros x Hx Ex Hox. destruct (Cswap (set_calling true Swapping x)) as (z & Hz & ?); [done..|].
    exists z. split; [|done]. eapply rtc_l; [by apply step_handled|done]. }
  assert (owes_wakeup l = false ∨ ∃ fs, owes_wakeup l = true ∧ pc l = Running fs) as [How|(fs & How & Hp)].
  { destruct (owes_wakeup l) eqn:E; [right|by left]. destruct (li_owes _ Hi E) as [fs ?]. by exists fs. }
  - destruct (pc l) eqn:Hp; [done|by apply Ctop| |by apply Chandle|by apply Cswap|by eapply Crun|by exists l].
    destruct (Chandle (poll_returns l)) as (z & Hz & ?); [done..|]. exists z. split; [|done].
    eapply rtc_l; [by apply step_poll|done].
  - destruct (Crun (self_wakeup l) fs) as (z & Hz & ?); [done..|]. exists z. split; [|done].
    eapply rtc_l; [by apply step_run_wakeup|done].
Qed.

Lemma loop_step_quit (l l' : @EventLoop Functor) :
  loop_step l l' → pc l ≠ NotStarted → is_quit_ l = true → is_quit_ l' = true ∧ pc l' ≠ NotStarted.
Proof. intros Hs Hn Hq. destruct Hs; cbn; try congruence; split; congruence. Qed.

(** The child follows its loop. *)
Lemma child_follows s l l' :
  rtc loop_step l l' → child s = InLoop → loop s = Some l → pc l ≠ NotStarted → is_quit_ l = true →
  rtc calm_step s (set_loop (Some l') s).
Proof.
  intros Hr. revert s. induction Hr as [l|l l1 l' Hs _ IH]; intros s Hc El Hn Hq.
  - destruct s. cbn in El. subst. done.
  - destruct (loop_step_quit _ _ Hs Hn Hq) as [Hq1 Hn1]. eapply rtc_l; [|apply (IH (set_loop (Some l1) s)); done].
    right. split; [left; by eapply child_loop|]. intros (x & y & Ex & _ & Hx & _). congruence.
Qed.

(** The child that cannot leave its loop. *)
Definition stuck (s : EventLoopThread) : Prop :=
  (owner s = Waking ∨ owner s = Joining) ∧ child s = InLoop ∧
  ∃ l, loop s = Some l ∧ (pc l = NotStarted ∨ is_quit_ l = false ∧ pc l ≠ Stopped).

Lemma stuck_step s s' : thread_inv s → stuck s → calm_step s s' → stuck s'.
Proof.
  intros Hi (Ho & Hc & l & El & Hl) [Hs|[[Hs|Hs] Hn]].
  - destruct Hs as [s s' Hpc E|s Hpc _ _|s Hpc|s Hpc _|s Hpc|s s' Hpc E|s s' Hpc E|s Hpc Hch];
      try (exfalso; intuition congruence).
    unfold destroy_wakeup, Thread_Join in E. rewrite El in E. inv_ok. split; [by right|]. split; [done|]. by eexists.
  - destruct Hs as [s tid Hch Htid|s Hch|s Hch|s l0 l' Hch El0 Hst|s l0 Hch El0 Hp|s Hch]; try congruence.
    + assert (l0 = l) as -> by congruence. split; [done|]. split; [done|]. exists l'. split; [done|]. right.
      destruct Hl as [Hp|[Hq Hp]].
      * destruct Hst; cbn; try congruence; [unfold enter in *; by inv_ok|].
        destruct (li_owes _ (child_ok_inv _ _ (ti_child _ Hi) El)); congruence.
      * split; [by eapply not_raised|]. intros Hst'. destruct (loop_step_to_stopped _ _ Hst Hst'); congruence.
    + assert (l0 = l) as -> by congruence. exfalso. destruct Hl as [?|[? ?]]; congruence.
  - destruct Hs as [s l0 l' Hr El0 Hst Hw|s Hpc]; [|exfalso; intuition congruence].
    assert (l0 = l) as -> by congruence. split; [done|]. split; [done|]. exists l'. split; [done|].
    destruct Hl as [Hp|[Hq Hp]]; [left; by destruct Hst|]. right. split; [by eapply not_raised|by destruct Hst].
Qed.

Lemma stuck_forever s s' : thread_inv s → stuck s → rtc calm_step s s' → stuck s'.
Proof.
  intros Hi Hs Hr. revert Hi Hs. induction Hr as [|s1 s2 s3 Hst _ IH]; intros Hi Hs; [done|].
  apply IH; [|by eapply stuck_step]. destruct Hst as [Hst|[[Hst|Hst] _]]; eauto using owner_step_inv, child_step_inv, outside_step_inv.
Qed.


End event_loop_thread.

(** ** Runs *)
Section runs.
Abbreviation elt := (@EventLoopThread nat).

(** The owner got the loop, the child has not called [Loop] yet. *)
Definition started_elt (o : owner_pc) (l : @EventLoop nat) (exiting : bool) : elt :=
  MkELT o InLoop (MkThread true false 5 (str "Thread7") 0) true (Some l) false exiting true.

Lemma started_elt_calm : calm (started_elt Returned EventLoop_new false).
Proof.
  exists [], 6.
  assert (∀ s s' : elt, child_step s s' → (∀ l, loop s = Some l → is_quit_ l = true) ∨ (∀ l, loop s' = Some l → is_quit_ l = false) →
    calm_step s s') as Hch.
  { intros s s' Hs Hq. right. split; [by left|]. intros (l & l' & E & E' & Hf & Ht). destruct Hq as [Hq|Hq];
      [rewrite (Hq l E) in Hf|rewrite (Hq l' E') in Ht]; done. }
  eapply rtc_l; [left; by apply owner_start|].
  eapply rtc_l; [apply Hch; [by apply (child_boot _ 5)|by right]|].
  eapply rtc_l; [left; by apply owner_latch|].
  eapply rtc_l; [apply Hch; [by apply child_construct|right; by intros l [= <-]]|].
  eapply rtc_l; [apply Hch; [by apply child_publish|right; by intros l [= <-]]|].
  eapply rtc_l; [left; by apply owner_test|]. done.
Qed.


End runs.
