(* ===== verification/TcpConnection.v ===== *)
(** * [net::TcpConnection] (net/tcp_connnection.h, net/tcp_connnection.cc)

    One connection in its loop: the state machine, the output path (write what
    the socket takes, keep the rest in the output buffer and wait until the
    socket is writable) and the orderly shutdown.  The [world] of a connection
    is the object itself, its channel in the loop's poller, the socket (the bytes
    the kernel accepted, whether the write side is shut down, and the answers the
    kernel will give to the next writes) and the functors queued in the loop. *)

From stdpp Require Import base tactics list numbers strings sets gmap.
From Stdlib Require Import ZArith Lia Ascii.
From S2P Require Import Prelude.
From S2P Require Import CString.
From S2P Require Import Buffer.
From S2P Require Import Channel.
From S2P Require Import Poller.

Inductive State := kDisconnected | kConnecting | kConnected | kDisconnecting.
#[global] Instance State_eq_dec : EqDecision State.
Proof. solve_decision. Defined.

Definition StateToString (s : State) : bytes :=
  match s with
  | kDisconnected => str "kDisconnected"
  | kConnecting => str "kConnecting"
  | kConnected => str "kConnected"
  | kDisconnecting => str "kDisconnecting"
  end.

Record TcpConnection := MkConn {
  state_ : State;
  is_reading_ : bool;
  channel_ : chan;
  has_write_complete_callback : bool;
  has_high_water_mark_callback : bool;
  high_water_mark_ : Z;
  input_buffer_ : Buffer;
  output_buffer_ : Buffer;
}.

(** Functors bound to the connection. *)
Inductive task :=
| SendInLoopTask (data : bytes)
| ShutdownInLoopTask
| ShutdownAndForceCloseInLoopTask (seconds : Z)
| ForceCloseInLoopTask
| StartReadInLoopTask
| StopReadInLoopTask
| WriteCompleteTask
| HighWaterMarkTask (len : Z).

(** Timers bound to the connection with a weak callback. *)
Inductive timer :=
| ForceCloseTimer (seconds : Z)
| ForceCloseInLoopTimer (seconds : Z).

(** What [write(2)] answers: a count, or [-1] and an error number. *)
Inductive write_answer := Wrote (n : Z) | WriteError (errno : Z).

Definition EWOULDBLOCK : Z := 11.
Definition EPIPE : Z := 32.
Definition ECONNRESET : Z := 104.

Record world (P : Type) := MkWorld {
  conn : TcpConnection;
  poller : P;
  channels : heap;
  wire : bytes;
  write_shut : bool;
  kernel : list write_answer;
  tasks : list task;
  timers : list timer;
}.
Arguments MkWorld {P} _ _ _ _ _ _ _ _.
Arguments conn {P} _.
Arguments poller {P} _.
Arguments channels {P} _.
Arguments wire {P} _.
Arguments write_shut {P} _.
Arguments kernel {P} _.
Arguments tasks {P} _.
Arguments timers {P} _.

Definition kHighWaterMark : Z := 64 * 1024 * 1024.

Definition TcpConnection_new (c : chan) (write_complete high_water : bool) : outcome TcpConnection :=
  i ← Buffer_new kInitialSize;
  o ← Buffer_new kInitialSize;
  Ok (MkConn kConnecting true c write_complete high_water kHighWaterMark i o).

Section connection.
Context {P : Type} `{Poller P}.
Implicit Types w : world P.

Definition set_conn (c : TcpConnection) w : world P :=
  MkWorld c (poller w) (channels w) (wire w) (write_shut w) (kernel w) (tasks w) (timers w).
Definition set_channels (x : P * heap) w : world P :=
  MkWorld (conn w) x.1 x.2 (wire w) (write_shut w) (kernel w) (tasks w) (timers w).

Definition SetState (s : State) w : world P :=
  let c := conn w in
  set_conn (MkConn s (is_reading_ c) (channel_ c) (has_write_complete_callback c)
              (has_high_water_mark_callback c) (high_water_mark_ c) (input_buffer_ c) (output_buffer_ c)) w.
Definition set_reading (b : bool) w : world P :=
  let c := conn w in
  set_conn (MkConn (state_ c) b (channel_ c) (has_write_complete_callback c)
              (has_high_water_mark_callback c) (high_water_mark_ c) (input_buffer_ c) (output_buffer_ c)) w.
Definition set_input (b : Buffer) w : world P :=
  let c := conn w in
  set_conn (MkConn (state_ c) (is_reading_ c) (channel_ c) (has_write_complete_callback c)
              (has_high_water_mark_callback c) (high_water_mark_ c) b (output_buffer_ c)) w.
Definition set_output (b : Buffer) w : world P :=
  let c := conn w in
  set_conn (MkConn (state_ c) (is_reading_ c) (channel_ c) (has_write_complete_callback c)
              (has_high_water_mark_callback c) (high_water_mark_ c) (input_buffer_ c) b) w.

Definition IsConnected w : bool := bool_decide (state_ (conn w) = kConnected).
Definition IsDisconnected w : bool := bool_decide (state_ (conn w) = kDisconnected).

(** A method of the connection's channel. *)
Definition on_channel (m : chan → P → heap → outcome (P * heap)) w : outcome (world P) :=
  x ← m (channel_ (conn w)) (poller w) (channels w);
  Ok (set_channels x w).

Definition channel_is (test : Channel → bool) w : outcome bool :=
  x ← deref (channels w) (channel_ (conn w));
  Ok (test x).

Definition QueueInLoop (t : task) w : world P :=
  MkWorld (conn w) (poller w) (channels w) (wire w) (write_shut w) (kernel w) (tasks w ++ [t]) (timers w).
Definition RunAfter (t : timer) w : world P :=
  MkWorld (conn w) (poller w) (channels w) (wire w) (write_shut w) (kernel w) (tasks w) (timers w ++ [t]).

(** [socket::Write(fd, data, len)]: the return value, [errno] when it is -1, and
    the world after it; without an answer left the socket is full. *)
Definition socket_Write (data : bytes) w : Z * Z * world P :=
  let put n k := MkWorld (conn w) (poller w) (channels w) (wire w ++ ztake n data) (write_shut w) k
                   (tasks w) (timers w) in
  match kernel w with
  | Wrote n :: k => let n := Z.max 0 (Z.min n (zlen data)) in (n, 0, put n k)
  | WriteError e :: k => (-1, e, put 0 k)
  | [] => (-1, EWOULDBLOCK, put 0 [])
  end.

(** [socket_->ShutdownWrite()]. *)
Definition ShutdownWrite w : world P :=
  MkWorld (conn w) (poller w) (channels w) (wire w) true (kernel w) (tasks w) (timers w).

(** ** Output *)

Definition SendInLoop (data : bytes) w : outcome (world P) :=
  if bool_decide (state_ (conn w) = kDisconnected) then Ok w
  else
    let len := zlen data in
    writing ← channel_is IsWriting w;
    let '(nwrote, remaining, fault_error, w) :=
      if negb writing && (readable_bytes (output_buffer_ (conn w)) =? 0) then
        let '(nwrote, errno, w) := socket_Write data w in
        if 0 <=? nwrote then
          let remaining := len - nwrote in
          (nwrote, remaining, false,
           if (remaining =? 0) && has_write_complete_callback (conn w)
           then QueueInLoop WriteCompleteTask w else w)
        else
          (0, len, negb (errno =? EWOULDBLOCK) && ((errno =? EPIPE) || (errno =? ECONNRESET)), w)
      else (0, len, false, w) in
    cassert "remaining <= len" (remaining <=? len);;
    if negb fault_error && (0 <? remaining) then
      let old_len := readable_bytes (output_buffer_ (conn w)) in
      let w := if (high_water_mark_ (conn w) <=? old_len + remaining) && (old_len <? high_water_mark_ (conn w))
                  && has_high_water_mark_callback (conn w)
               then QueueInLoop (HighWaterMarkTask (old_len + remaining)) w else w in
      b ← Append (zdrop nwrote data) (output_buffer_ (conn w));
      let w := set_output b w in
      writing ← channel_is IsWriting w;
      if negb writing then on_channel EnableWriting w else Ok w
    else Ok w.

Definition ShutdownInLoop w : outcome (world P) :=
  writing ← channel_is IsWriting w;
  Ok (if negb writing then ShutdownWrite w else w).

Definition HandleWrite w : outcome (world P) :=
  writing ← channel_is IsWriting w;
  if writing : bool then
    let '(n, _, w) := socket_Write (contents (output_buffer_ (conn w))) w in
    if 0 <? n then
      b ← Retrieve n (output_buffer_ (conn w));
      let w := set_output b w in
      if readable_bytes b =? 0 then
        w ← on_channel DisableWriting w;
        let w := if has_write_complete_callback (conn w) then QueueInLoop WriteCompleteTask w else w in
        if bool_decide (state_ (conn w) = kDisconnecting) then ShutdownInLoop w else Ok w
      else Ok w
    else Ok w
  else Ok w.

Definition ShutdownAndForceCloseInLoop (seconds : Z) w : outcome (world P) :=
  w ← ShutdownInLoop w;
  Ok (RunAfter (ForceCloseInLoopTimer seconds) w).

(** ** Reading on and off *)
Definition StartReadInLoop w : outcome (world P) :=
  reading ← channel_is IsReading w;
  if negb (is_reading_ (conn w)) || negb reading then
    w ← on_channel EnableReading w; Ok (set_reading true w)
  else Ok w.

Definition StopReadInLoop w : outcome (world P) :=
  reading ← channel_is IsReading w;
  if is_reading_ (conn w) || reading then
    w ← on_channel DisableReading w; Ok (set_reading false w)
  else Ok w.

(** ** The callbacks the owner installed *)
Context (message_callback_ : Z → world P → outcome (world P)).
Context (connection_callback_ close_callback_ : world P → outcome (world P)).

Definition ConnectEstablished w : outcome (world P) :=
  cassert "state_ == kConnecting" (bool_decide (state_ (conn w) = kConnecting));;
  let w := SetState kConnected w in
  x ← deref (channels w) (channel_ (conn w));
  let w := set_channels (poller w, <[channel_ (conn w) := Tie x]> (channels w)) w in
  w ← on_channel EnableReading w;
  connection_callback_ w.

Definition ConnectDestroyed w : outcome (world P) :=
  w ← (if bool_decide (state_ (conn w) = kConnected) then
         w ← on_channel DisableAll (SetState kDisconnected w);
         connection_callback_ w
       else Ok w);
  on_channel Remove w.

Definition HandleClose w : outcome (world P) :=
  cassert "state_ == kConnected || state_ == kDisconnecting"
    (bool_decide (state_ (conn w) = kConnected) || bool_decide (state_ (conn w) = kDisconnecting));;
  w ← on_channel DisableAll (SetState kDisconnected w);
  w ← connection_callback_ w;
  close_callback_ w.

(** [HandleError()] reads SO_ERROR and logs it. *)
Definition HandleError w : outcome (world P) := Ok w.

Definition HandleRead (answer : readv_result) (receive_time : Z) w : outcome (world P) :=
  '(n, _, b) ← ReadFromFd answer (input_buffer_ (conn w));
  let w := set_input b w in
  if 0 <? n then message_callback_ receive_time w
  else if n =? 0 then HandleClose w
  else HandleError w.

Definition ForceCloseInLoop w : outcome (world P) :=
  if bool_decide (state_ (conn w) = kConnected) || bool_decide (state_ (conn w) = kDisconnecting)
  then HandleClose w else Ok w.

(** ** Calls from any thread *)

(** A functor of the queue, called in the loop; the two user callbacks do
    nothing to the connection here. *)
Definition run_task (t : task) w : outcome (world P) :=
  match t with
  | SendInLoopTask data => SendInLoop data w
  | ShutdownInLoopTask => ShutdownInLoop w
  | ShutdownAndForceCloseInLoopTask seconds => ShutdownAndForceCloseInLoop seconds w
  | ForceCloseInLoopTask => ForceCloseInLoop w
  | StartReadInLoopTask => StartReadInLoop w
  | StopReadInLoopTask => StopReadInLoop w
  | WriteCompleteTask | HighWaterMarkTask _ => Ok w
  end.

(** [loop_->RunInLoop(t)]: now in the loop's thread, otherwise through the queue. *)
Definition RunInLoop (in_loop_thread : bool) (t : task) w : outcome (world P) :=
  if in_loop_thread then run_task t w else Ok (QueueInLoop t w).

Definition Send (in_loop_thread : bool) (data : bytes) w : outcome (world P) :=
  if bool_decide (state_ (conn w) = kConnected)
  then RunInLoop in_loop_thread (SendInLoopTask data) w else Ok w.

(** [Send(Buffer* message)]: what is left in [message] too. *)
Definition Send_Buffer (in_loop_thread : bool) (message : Buffer) w : outcome (world P * Buffer) :=
  if bool_decide (state_ (conn w) = kConnected) then
    '(data, message) ← RetrieveAllAsString message;
    w ← RunInLoop in_loop_thread (SendInLoopTask data) w;
    Ok (w, message)
  else Ok (w, message).

Definition Shutdown (in_loop_thread : bool) w : outcome (world P) :=
  if bool_decide (state_ (conn w) = kConnected)
  then RunInLoop in_loop_thread ShutdownInLoopTask (SetState kDisconnecting w) else Ok w.

Definition ShutdownAndForceCloseAfter (in_loop_thread : bool) (seconds : Z) w : outcome (world P) :=
  if bool_decide (state_ (conn w) = kConnected)
  then RunInLoop in_loop_thread (ShutdownAndForceCloseInLoopTask seconds) (SetState kDisconnecting w) else Ok w.

Definition ForceClose w : world P :=
  if bool_decide (state_ (conn w) = kConnected) || bool_decide (state_ (conn w) = kDisconnecting)
  then QueueInLoop ForceCloseInLoopTask (SetState kDisconnecting w) else w.

Definition ForceCloseWithDelay (seconds : Z) w : world P :=
  if bool_decide (state_ (conn w) = kConnected) || bool_decide (state_ (conn w) = kDisconnecting)
  then RunAfter (ForceCloseTimer seconds) (SetState kDisconnecting w) else w.

Definition StartRead (in_loop_thread : bool) w : outcome (world P) := RunInLoop in_loop_thread StartReadInLoopTask w.
Definition StopRead (in_loop_thread : bool) w : outcome (world P) := RunInLoop in_loop_thread StopReadInLoopTask w.

(** [DoPendingFunctors]: the queue is taken out, then called in order. *)
Fixpoint run_tasks (ts : list task) w : outcome (world P) :=
  match ts with
  | [] => Ok w
  | t :: ts => w ← run_task t w; run_tasks ts w
  end.
Definition DoPendingFunctors w : outcome (world P) :=
  run_tasks (tasks w)
    (MkWorld (conn w) (poller w) (channels w) (wire w) (write_shut w) (kernel w) [] (timers w)).

(** [~TcpConnection()]. *)
Definition TcpConnection_destroy w : outcome unit :=
  cassert "state_ == kDisconnected" (bool_decide (state_ (conn w) = kDisconnected)).

End connection.

(** ** The output path is a queue in front of the socket *)
Section output.
Context {P : Type} `{PollerInv P inv}.
Context (on_connection on_close : world P → outcome (world P)).
Implicit Types w : world P.

(** Errors after which [SendInLoop] throws the data away. *)
Definition is_fault (a : write_answer) : bool :=
  match a with Wrote _ => false | WriteError e => (e =? EPIPE) || (e =? ECONNRESET) end.

(** The event masks of a connection's channel. *)
Definition io_events (ev : Z) : Prop := ev ∈ [0; kReadEvent; kWriteEvent; Z.lor kReadEvent kWriteEvent].

(** The channel is registered; [x] is the object. *)
Record registered (w : world P) (r : registry) (x : Channel) : Prop := MkRegistered {
  rg_inv : inv (poller w) (channels w) r;
  rg_chan : channels w !! channel_ (conn w) = Some x;
  rg_reg : reg r !! fd_ x = Some (channel_ (conn w), Channel.events_ x);
  rg_io : io_events (Channel.events_ x);
}.

(** [sent] is everything handed to the connection so far. *)
Record conn_inv (sent : bytes) (w : world P) : Prop := MkConnInv {
  cv_channel : ∃ r x, registered w r x ∧ (IsWriting x = true ↔ contents (output_buffer_ (conn w)) ≠ []);
  cv_output : good (output_buffer_ (conn w));
  cv_bytes : wire w ++ contents (output_buffer_ (conn w)) = sent;
  cv_writer : writer_index_ (output_buffer_ (conn w)) ≤ kCheapPrepend + zlen sent;
  cv_shut : write_shut w = true ↔ state_ (conn w) = kDisconnecting ∧ contents (output_buffer_ (conn w)) = [];
  cv_state : state_ (conn w) = kConnected ∨ state_ (conn w) = kDisconnecting;
  cv_kernel : Forall (λ a, is_fault a = false) (kernel w);
}.

(** The connection with only its channel's events changed. *)
Lemma change_events_ok f w r x :
  registered w r x → io_events (f (Channel.events_ x)) →
  ∃ ph r' x', on_channel (change_events f) w = Ok (set_channels ph w) ∧ registered (set_channels ph w) r' x' ∧
    Channel.events_ x' = f (Channel.events_ x).
Proof.
  intros [Hi Hc Hr Hio] Hf. unfold on_channel.
  set (c := channel_ (conn w)) in *. set (ev := f (Channel.events_ x)) in *.
  destruct (inv_common _ _ _ Hi) as [chs Hci].
  destruct (registered_at _ _ _ _ _ _ Hci Hc Hr) as (_ & _ & Hpos & _).
  assert (mask ev = true) as Hm.
  { unfold io_events in Hf. unfold mask. set_unfold in Hf. destruct Hf as [->|[->|[->|[->|[]]]]]; done. }
  assert (registry_step (fd_in (channels w)) (OpUpdate c ev) r =
    Some (MkRegistry (<[fd_ x := (c, ev)]> (reg r)) (used r))) as Hs.
  { cbn. unfold fd_in. rewrite Hc. cbn. rewrite Hm, Hr. replace (0 <=? fd_ x) with true by lia. cbn.
    by rewrite bool_decide_true. }
  destruct (poller_step_inv (inv := inv) _ (poller w) (channels w) _ _ Hi Hs) as (p' & h' & Hst & Hi' & Hfd).
  assert (change_events f c (poller w) (channels w) = Ok (p', h')) as ->.
  { rewrite <-Hst. cbn. unfold change_events, deref. by rewrite Hc. }
  cbn [mbind outcome_bind]. eexists (p', h'), _.
  destruct (inv_common _ _ _ Hi') as [chs' Hci'].
  destruct (ci_reg _ _ _ Hci' (fd_ x) c ev) as (_ & _ & _ & x' & Hx' & Hfd' & Hev'); [apply lookup_insert_eq|].
  exists x'. split; [done|]. split; [|done].
  split; cbn [set_channels poller channels conn fst snd]; [exact Hi'|done| |by rewrite Hev'].
  cbn [reg]. rewrite Hfd', lookup_insert_eq. by rewrite Hev'.
Qed.

Lemma io_enable_writing ev : io_events ev → io_events (Z.lor ev kWriteEvent) ∧ has (Z.lor ev kWriteEvent) kWriteEvent = true.
Proof. unfold io_events. intros Hf. set_unfold in Hf. destruct Hf as [->|[->|[->|[->|[]]]]]; split; try done; set_solver. Qed.

Lemma io_disable_writing ev : io_events ev → io_events (Z.ldiff ev kWriteEvent) ∧ has (Z.ldiff ev kWriteEvent) kWriteEvent = false.
Proof. unfold io_events. intros Hf. set_unfold in Hf. destruct Hf as [->|[->|[->|[->|[]]]]]; split; try done; set_solver. Qed.

Lemma no_fault_tail k : Forall (λ a, is_fault a = false) k → Forall (λ a, is_fault a = false) (tail k).
Proof. destruct k; [done|]. by intros [_ ?]%Forall_cons. Qed.

(** What a write does, as far as the connection can tell. *)
Lemma socket_Write_ok data w :
  Forall (λ a, is_fault a = false) (kernel w) →
  ∃ n e k, socket_Write data w =
    (n, e, MkWorld (conn w) (poller w) (channels w) (wire w ++ ztake n data) (write_shut w) k (tasks w) (timers w)) ∧
    -1 ≤ n ≤ zlen data ∧ (n = -1 → (e =? EPIPE) || (e =? ECONNRESET) = false) ∧
    k = tail (kernel w) ∧ (∀ m k', kernel w = Wrote m :: k' → 1 ≤ m → data ≠ [] → 1 ≤ n).
Proof.
  intros Hk. unfold socket_Write. pose proof (zlen_nonneg data).
  destruct (kernel w) as [|[m|e] k] eqn:E.
  - exists (-1), EWOULDBLOCK, []. rewrite !(ztake_0 _ data) by lia. naive_solver lia.
  - eexists _, _, _. split; [done|]. split; [lia|]. split; [lia|]. split; [done|].
    intros m' k' [= -> ->] Hm Hd. assert (zlen data ≠ 0) by (destruct data; [done|rewrite zlen_cons; pose proof (zlen_nonneg data); lia]). lia.
  - exists (-1), e, k. rewrite !(ztake_0 _ data) by lia. apply Forall_cons in Hk as [Hk _].
    split; [done|]. split; [lia|]. naive_solver.
Qed.

Lemma contents_empty b : good b → (readable_bytes b =? 0) = bool_decide (contents b = []).
Proof.
  intros Hg. rewrite <-zlen_contents by auto. pose proof (zlen_nonneg (contents b)).
  destruct (contents b) eqn:E; [done|]. rewrite zlen_cons in *. pose proof (zlen_nonneg l).
  rewrite bool_decide_false by done. lia.
Qed.

(** The invariant in terms of what the connection writes to; [x] is its channel. *)
Lemma conn_inv_writing sent w :
  conn_inv sent w → channel_is IsWriting w = Ok (negb (bool_decide (contents (output_buffer_ (conn w)) = []))).
Proof.
  intros [(r & x & Hr & Hw) _ _ _ _ _ _]. unfold channel_is, deref. rewrite (rg_chan _ _ _ Hr). cbn.
  f_equal. destruct (bool_decide_reflect (contents (output_buffer_ (conn w)) = [])); destruct (IsWriting x); naive_solver.
Qed.

Lemma registered_same w w' r x :
  poller w' = poller w → channels w' = channels w → channel_ (conn w') = channel_ (conn w) →
  registered w r x → registered w' r x.
Proof. intros Hp Hc Hn [? ? ? ?]. split; rewrite ?Hp, ?Hc, ?Hn; done. Qed.

Lemma EnableWriting_ok w r x :
  registered w r x →
  ∃ ph r' x', on_channel EnableWriting w = Ok (set_channels ph w) ∧ registered (set_channels ph w) r' x' ∧
    IsWriting x' = true.
Proof.
  intros Hr. destruct (io_enable_writing _ (rg_io _ _ _ Hr)) as [? ?].
  destruct (change_events_ok (λ e, Z.lor e kWriteEvent) w r x) as (ph & r' & x' & ? & ? & He); [done..|].
  exists ph, r', x'. split; [done|]. split; [done|]. unfold IsWriting. by rewrite He.
Qed.

Lemma DisableWriting_ok w r x :
  registered w r x →
  ∃ ph r' x', on_channel DisableWriting w = Ok (set_channels ph w) ∧ registered (set_channels ph w) r' x' ∧
    IsWriting x' = false.
Proof.
  intros Hr. destruct (io_disable_writing _ (rg_io _ _ _ Hr)) as [? ?].
  destruct (change_events_ok (λ e, Z.ldiff e kWriteEvent) w r x) as (ph & r' & x' & ? & ? & He); [done..|].
  exists ph, r', x'. split; [done|]. split; [done|]. unfold IsWriting. by rewrite He.
Qed.

(** Appending what a write left over, and asking for the next chance to write. *)
Lemma append_rest_ok sent rest w r x :
  registered w r x → good (output_buffer_ (conn w)) →
  wire w ++ contents (output_buffer_ (conn w)) ++ rest = sent → rest ≠ [] →
  writer_index_ (output_buffer_ (conn w)) + zlen rest ≤ kCheapPrepend + zlen sent →
  2 * kCheapPrepend + zlen sent ≤ vector_max_size → write_shut w = false →
  state_ (conn w) = kConnected → Forall (λ a, is_fault a = false) (kernel w) →
  ∃ w', (b ← Append rest (output_buffer_ (conn w));
         let w := set_output b w in
         writing ← channel_is IsWriting w;
         if negb writing then on_channel EnableWriting w else Ok w) = Ok w' ∧
    conn_inv sent w' ∧ state_ (conn w') = kConnected.
Proof.
  intros Hr Hg Hb Hne Hw Hm Hs Hst Hk.
  destruct (Append_good rest (output_buffer_ (conn w))) as (b & -> & Hg' & Hc & Hwi); [done|unfold room; lia|].
  cbn [mbind outcome_bind]. set (w1 := set_output b w).
  assert (registered w1 r x) as Hr1 by (by apply (registered_same w)).
  unfold channel_is at 1, deref at 1. rewrite (rg_chan _ _ _ Hr1). cbn [mbind outcome_bind].
  assert (contents b ≠ []) as Hbne. { rewrite Hc. by destruct (contents _), rest. }
  assert (∀ ph r' x', registered (set_channels ph w1) r' x' → IsWriting x' = true →
            conn_inv sent (set_channels ph w1) ∧ state_ (conn w1) = kConnected) as Hdone.
  { intros ph r' x' Hr' Hx'. split; [|exact Hst]. split; cbn.
    - exists r', x'. split; [done|]. by rewrite Hx'.
    - done.
    - by rewrite Hc.
    - lia.
    - rewrite Hs. split; [done|]. intros [? ?]. congruence.
    - by left.
    - done. }
  destruct (IsWriting x) eqn:Hx; cbn [negb].
  - exists w1. split; [done|]. apply (Hdone (poller w, channels w) r x); done.
  - destruct (EnableWriting_ok w1 r x Hr1) as (ph & r' & x' & Hok & Hr' & Hx').
    eexists. split; [exact Hok|]. by eapply Hdone.
Qed.

(** Queueing a functor leaves everything the invariant speaks about alone. *)
Lemma conn_inv_queue sent t w : conn_inv sent w → conn_inv sent (QueueInLoop t w).
Proof.
  intros [(r & x & Hr & Hx) ? ? ? ? ? ?]. split; try done.
  exists r, x. split; [by apply (registered_same w)|done].
Qed.

Lemma conn_inv_queue_if sent (b : bool) t w : conn_inv sent w → conn_inv sent (if b then QueueInLoop t w else w).
Proof. destruct b; [apply conn_inv_queue|done]. Qed.

(** The second half of [SendInLoop], after [n] bytes went to the socket. *)
Lemma finish_send_ok sent d n w k ts :
  conn_inv sent w → state_ (conn w) = kConnected →
  2 * kCheapPrepend + zlen sent + zlen d ≤ vector_max_size →
  0 ≤ n ≤ zlen d → (n = 0 ∨ contents (output_buffer_ (conn w)) = []) → Forall (λ a, is_fault a = false) k →
  let w := MkWorld (conn w) (poller w) (channels w) (wire w ++ ztake n d) (write_shut w) k ts (timers w) in
  ∃ w', (cassert "remaining <= len" (zlen d - n <=? zlen d);;
    if negb false && (0 <? zlen d - n) then
      let old_len := readable_bytes (output_buffer_ (conn w)) in
      let w := if (high_water_mark_ (conn w) <=? old_len + (zlen d - n)) && (old_len <? high_water_mark_ (conn w))
                  && has_high_water_mark_callback (conn w)
               then QueueInLoop (HighWaterMarkTask (old_len + (zlen d - n))) w else w in
      b ← Append (zdrop n d) (output_buffer_ (conn w));
      let w := set_output b w in
      writing ← channel_is IsWriting w;
      if negb writing then on_channel EnableWriting w else Ok w
    else Ok w) = Ok w' ∧ conn_inv (sent ++ d) w' ∧ state_ (conn w') = kConnected.
Proof.
  intros [(r & x & Hr & Hx) Hg Hb Hwi Hs _ _] Hst Hm Hn Hor Hk w1.
  assert (write_shut w = false) as Hs'. { destruct (write_shut w); [|done]. destruct (proj1 Hs) as [? _]; [done|congruence]. }
  pose proof (zlen_nonneg sent). step_assert lia. cbn [negb andb].
  assert (wire w ++ ztake n d ++ contents (output_buffer_ (conn w)) ++ zdrop n d = sent ++ d) as Hbytes.
  { rewrite <-Hb. destruct Hor as [->| ->]; rewrite ?ztake_0, ?zdrop_0 by lia; cbn; rewrite <-!app_assoc; [done|].
    cbn. by rewrite ztake_zdrop. }
  destruct (Z.ltb_spec 0 (zlen d - n)) as [Hrest|Hall].
  - cbv zeta. set (w2 := if _ && _ && _ then _ else _).
    assert (∃ ts', w2 = MkWorld (conn w) (poller w) (channels w) (wire w ++ ztake n d) (write_shut w)
                           k ts' (timers w)) as [ts' Hw2].
    { unfold w2. destruct (_ && _ && _); by eexists. }
    clearbody w2. subst w2. eapply append_rest_ok; cbn; try done.
    + apply (registered_same w); done.
    + by rewrite <-app_assoc.
    + intros E'%(f_equal zlen). rewrite zlen_zdrop, zlen_nil in E' by lia. lia.
    + rewrite zlen_zdrop, zlen_app by lia. lia.
    + rewrite zlen_app. lia.
  - eexists. split; [done|]. split; [|done]. rewrite (zdrop_all n), app_nil_r in Hbytes by lia.
    split; cbn; try done.
    + exists r, x. split; [by apply (registered_same w)|done].
    + by rewrite <-app_assoc.
    + rewrite zlen_app. pose proof (zlen_nonneg d). lia.
    + by left.
Qed.

Lemma SendInLoop_ok sent d w :
  conn_inv sent w → state_ (conn w) = kConnected →
  2 * kCheapPrepend + zlen sent + zlen d ≤ vector_max_size →
  ∃ w', SendInLoop d w = Ok w' ∧ conn_inv (sent ++ d) w' ∧ state_ (conn w') = kConnected.
Proof.
  intros Hinv Hst Hm. unfold SendInLoop. rewrite bool_decide_false by (rewrite Hst; done).
  rewrite (conn_inv_writing _ _ Hinv). cbn [mbind outcome_bind].
  rewrite contents_empty, negb_involutive, andb_diag by apply Hinv.
  pose proof (zlen_nonneg d) as Hd. pose proof (cv_kernel _ _ Hinv) as Hk.
  destruct (bool_decide_reflect (contents (output_buffer_ (conn w)) = [])) as [E|E].
  - destruct (socket_Write_ok d w Hk) as (n & e & k & -> & Hn & He & -> & _).
    destruct (Z.leb_spec 0 n) as [Hpos|Hneg].
    + cbv beta iota. set (w2 := if (zlen d - n =? 0) && _ then _ else _).
      assert (∃ ts, w2 = MkWorld (conn w) (poller w) (channels w) (wire w ++ ztake n d) (write_shut w)
                           (tail (kernel w)) ts (timers w)) as [ts Hw2].
      { unfold w2. destruct ((_ =? 0) && _); by eexists. }
      clearbody w2. subst w2.
      apply (finish_send_ok sent); [done..|lia|by right|by apply no_fault_tail].
    + assert (n = -1) as -> by lia. rewrite He, andb_false_r by done. cbv beta iota.
      destruct (finish_send_ok sent d 0 w (tail (kernel w)) (tasks w)) as (w' & Hw' & ?);
        [done..|lia|by left|by apply no_fault_tail|].
      rewrite Z.sub_0_r in Hw'. exists w'. done.
  - destruct (finish_send_ok sent d 0 w (kernel w) (tasks w)) as (w' & Hw' & ?); [done..|lia|by left|done|].
    rewrite Z.sub_0_r, ztake_0, app_nil_r in Hw' by lia. exists w'. destruct w. done.
Qed.


Lemma Shutdown_ok sent w :
  conn_inv sent w → ∃ w', Shutdown on_connection on_close true w = Ok w' ∧ conn_inv sent w' ∧
    state_ (conn w') = kDisconnecting ∧ output_buffer_ (conn w') = output_buffer_ (conn w).
Proof.
  intros Hinv. unfold Shutdown. pose proof (conn_inv_writing _ _ Hinv) as Hwr.
  destruct Hinv as [(r & x & Hr & Hx) Hg Hb Hwi Hs Hst Hk].
  destruct (bool_decide_reflect (state_ (conn w) = kConnected)) as [E|E].
  - cbn [RunInLoop run_task]. unfold ShutdownInLoop.
    assert (channel_is IsWriting (SetState kDisconnecting w) = channel_is IsWriting w) as -> by done.
    rewrite Hwr. cbn [mbind outcome_bind]. rewrite negb_involutive. eexists. split; [done|].
    assert (∃ x, registered (SetState kDisconnecting w) r x ∧ (IsWriting x = true ↔ contents (output_buffer_ (conn w)) ≠ []))
      as (x' & Hr' & Hx') by (exists x; split; [by apply (registered_same w)|done]).
    destruct (bool_decide_reflect (contents (output_buffer_ (conn w)) = [])) as [Ec|Ec].
    + split; [|done]. split; cbn; try done; [exists r, x'; split; [by eapply registered_same, Hr'|done]|by right].
    + split; [|done]. split; cbn; try done; [by exists r, x'| |by right].
      rewrite Hs. naive_solver congruence.
  - exists w. split; [done|]. split; [|naive_solver]. split; try done. by exists r, x.
Qed.

(** The part of [HandleWrite] after the last byte went out. *)
Lemma drained_ok sent w r x :
  registered w r x → good (output_buffer_ (conn w)) → contents (output_buffer_ (conn w)) = [] → wire w = sent →
  writer_index_ (output_buffer_ (conn w)) ≤ kCheapPrepend + zlen sent →
  (state_ (conn w) = kConnected ∧ write_shut w = false ∨ state_ (conn w) = kDisconnecting) →
  Forall (λ a, is_fault a = false) (kernel w) →
  ∃ w', (w ← on_channel DisableWriting w;
         let w := if has_write_complete_callback (conn w) then QueueInLoop WriteCompleteTask w else w in
         if bool_decide (state_ (conn w) = kDisconnecting) then ShutdownInLoop w else Ok w) = Ok w' ∧
    conn_inv sent w' ∧ conn w' = conn w ∧ kernel w' = kernel w.
Proof.
  intros Hr Hg Hc Hb Hwi Hst Hk.
  destruct (DisableWriting_ok w r x Hr) as (ph & r1 & x1 & -> & Hr1 & Hx1). cbn [mbind outcome_bind].
  set (w2 := if has_write_complete_callback _ then _ else _).
  assert (∃ ts, w2 = MkWorld (conn w) ph.1 ph.2 (wire w) (write_shut w) (kernel w) ts (timers w)) as [ts Hw2].
  { unfold w2. destruct (has_write_complete_callback _); by eexists. }
  assert (registered w2 r1 x1) as Hr2.
  { apply (registered_same (set_channels ph w)); rewrite ?Hw2; done. }
  clearbody w2. assert (conn w2 = conn w) as Ec by (by rewrite Hw2). rewrite !Ec.
  destruct (bool_decide_reflect (state_ (conn w) = kDisconnecting)) as [E|E].
  - unfold ShutdownInLoop, channel_is, deref. rewrite (rg_chan _ _ _ Hr2). cbn [mbind outcome_bind]. rewrite Hx1.
    eexists. split; [done|]. rewrite Hw2 in *. split; [|done]. split; cbn; try done.
    + exists r1, x1. split; [by eapply registered_same, Hr2|]. rewrite Hx1, Hc. naive_solver.
    + by rewrite Hc, app_nil_r.
    + by right.
  - exists w2. split; [done|]. rewrite Hw2 in *. split; [|done]. destruct Hst as [[Hst Hsh]|Hst]; [|done].
    split; cbn; try done.
    + exists r1, x1. split; [done|]. rewrite Hx1, Hc. naive_solver.
    + by rewrite Hc, app_nil_r.
    + rewrite Hsh, Hst. naive_solver.
    + by left.
Qed.

Lemma HandleWrite_ok sent w :
  conn_inv sent w →
  ∃ w', HandleWrite w = Ok w' ∧ conn_inv sent w' ∧ state_ (conn w') = state_ (conn w) ∧
    (∀ m k, kernel w = Wrote m :: k → 1 ≤ m → contents (output_buffer_ (conn w)) ≠ [] →
       kernel w' = k ∧ zlen (contents (output_buffer_ (conn w'))) < zlen (contents (output_buffer_ (conn w)))) ∧
    (contents (output_buffer_ (conn w)) = [] → w' = w).
Proof.
  intros Hinv. unfold HandleWrite. rewrite (conn_inv_writing _ _ Hinv). cbn [mbind outcome_bind].
  destruct (bool_decide_reflect (contents (output_buffer_ (conn w)) = [])) as [Ec|Ec]; cbn [negb].
  { exists w. naive_solver. }
  destruct Hinv as [(r & x & Hr & Hx) Hg Hb Hwi Hs Hst Hk].
  set (out := contents (output_buffer_ (conn w))) in *.
  destruct (socket_Write_ok out w Hk) as (n & e & k & -> & Hn & _ & -> & Hpos).
  cbv beta iota. cbn [conn].
  assert (∀ m k, kernel w = Wrote m :: k → 1 ≤ m → out ≠ [] → 0 < n) as Hpos' by (intros; assert (1 ≤ n) by eauto; lia).
  destruct (Z.ltb_spec 0 n) as [Hn0|Hn0].
  2:{ eexists. split; [done|]. split; [|split; [done|split; [|done]]; intros m k Hk' ??; assert (0 < n) by eauto; lia].
      split; cbn; try done; [exists r, x; split; [by apply (registered_same w)|done]| |by apply no_fault_tail].
      rewrite ztake_0, app_nil_r by lia. done. }
  destruct (Retrieve_good n (output_buffer_ (conn w))) as (b & -> & Hg' & Hc' & Hwi'); [done|unfold out in *; lia|].
  cbn [mbind outcome_bind]. rewrite contents_empty by done. fold out in Hc'.
  assert (zlen (contents b) < zlen out) as Hless by (rewrite Hc', zlen_zdrop; lia).
  assert (write_shut w = true → False) as Hns by naive_solver.
  assert ((wire w ++ ztake n out) ++ contents b = sent) as Hb' by (rewrite <-app_assoc, Hc', ztake_zdrop; exact Hb).
  destruct (bool_decide_reflect (contents b = [])) as [Eb|Eb].
  - set (w1 := set_output b _). rewrite Eb, app_nil_r in Hb'.
    destruct (drained_ok sent w1 r x) as (w' & Hw' & Hi' & Hc1 & Hk1); cbn; try done.
    + by apply (registered_same w).
    + lia.
    + destruct Hst; [left|by right]. split; [done|]. by destruct (write_shut w).
    + by apply no_fault_tail.
    + exists w'. split; [exact Hw'|]. split; [done|]. rewrite Hc1, Hk1. split; [done|]. split; [|done].
      intros m k Hk' _ _. cbn. by rewrite Hk'.
  - eexists. split; [done|]. split; [|split; [done|split; [|done]]; intros m k Hk' _ _; cbn; by rewrite Hk'].
    split; cbn; try done.
    + exists r, x. split; [by apply (registered_same w)|naive_solver].
    + lia.
    + naive_solver.
    + by apply no_fault_tail.
Qed.

(** A new connection in its loop. *)
Record fresh (p : P) (h : heap) (r : registry) (c : chan) (x : Channel) : Prop := MkFresh {
  fresh_inv : inv p h r;
  fresh_chan : h !! c = Some x;
  fresh_fd : 0 ≤ fd_ x;
  fresh_events : Channel.events_ x = 0;
  fresh_used : c ∉ used r;
  fresh_reg : reg r !! fd_ x = None;
}.

Definition establish (c : chan) (wc hw : bool) (p : P) (h : heap) (kern : list write_answer) : outcome (world P) :=
  t ← TcpConnection_new c wc hw;
  ConnectEstablished on_connection (MkWorld t p h [] false kern [] []).

Lemma establish_ok c wc hw p h r x kern :
  (∀ w, on_connection w = Ok w) → fresh p h r c x → Forall (λ a, is_fault a = false) kern →
  ∃ w, establish c wc hw p h kern = Ok w ∧ conn_inv [] w ∧ state_ (conn w) = kConnected ∧ channel_ (conn w) = c ∧
    kernel w = kern.
Proof.
  intros Hcb [Hi Hc Hfd Hev Hu Hreg] Hk. unfold establish, TcpConnection_new.
  destruct (Buffer_new_good kInitialSize) as (b & -> & Hg & Hb & _ & Hw); [done..|]. cbn [mbind outcome_bind].
  unfold ConnectEstablished, deref, on_channel, EnableReading, change_events, Update, set_channels, SetState.
  cbn [conn state_ set_conn channels channel_ poller fst snd wire write_shut kernel tasks timers is_reading_
       has_write_complete_callback has_high_water_mark_callback high_water_mark_ input_buffer_ output_buffer_].
  unfold deref.
  rewrite bool_decide_true, Hc by done. cbn [cassert mbind outcome_bind].
  do 2 (rewrite lookup_insert_eq; cbn [mbind outcome_bind]). rewrite !insert_insert_eq. set (y := set_added true _).
  destruct (inv_update (inv := inv) p h r c y x (Z.lor 0 kReadEvent)) as (p' & h' & Hup & _ & Hi'); try done.
  { cbn. by rewrite Hev. }
  { by left. }
  rewrite Hup. cbn [mbind outcome_bind]. rewrite Hcb. eexists. split; [done|].
  split; [|done]. destruct (inv_common _ _ _ Hi') as [chs' Hci'].
  destruct (ci_reg _ _ _ Hci' (fd_ y) c (Z.lor 0 kReadEvent)) as (_ & _ & _ & x' & Hx' & Hfd' & Hev'); [apply lookup_insert_eq|].
  split; cbn; try done.
  - eexists (MkRegistry (<[fd_ y := (c, _)]> (reg r)) ({[c]} ∪ used r)), x'. split; [|unfold IsWriting; rewrite Hev', Hb; vm_compute; naive_solver].
    split; cbn; [exact Hi'|done|by rewrite Hfd', lookup_insert_eq, Hev'|rewrite Hev'; unfold io_events; set_solver].
  - rewrite Hw. done.
  - naive_solver.
  - by left.
Qed.

(** ** What a connection's user and its socket can do in the loop *)
Inductive conn_op := SendOp (data : bytes) | WritableOp | ShutdownOp.

Definition conn_step (o : conn_op) w : outcome (world P) :=
  match o with
  | SendOp data => Send on_connection on_close true data w
  | WritableOp => HandleWrite w
  | ShutdownOp => Shutdown on_connection on_close true w
  end.

Fixpoint conn_run (os : list conn_op) w : outcome (world P) :=
  match os with
  | [] => Ok w
  | o :: os => w ← conn_step o w; conn_run os w
  end.

(** The bytes sent before the first [Shutdown()]. *)
Fixpoint accepted (os : list conn_op) : bytes :=
  match os with
  | [] | ShutdownOp :: _ => []
  | SendOp data :: os => data ++ accepted os
  | WritableOp :: os => accepted os
  end.

Lemma conn_run_closed os sent w :
  conn_inv sent w → state_ (conn w) = kDisconnecting →
  ∃ w', conn_run os w = Ok w' ∧ conn_inv sent w' ∧ state_ (conn w') = kDisconnecting.
Proof.
  revert w. induction os as [|[d| |] os IH]; intros w Hi Hst; cbn [conn_run conn_step].
  - by exists w.
  - unfold Send. rewrite bool_decide_false by (by rewrite Hst). apply (IH w Hi Hst).
  - destruct (HandleWrite_ok sent w Hi) as (w1 & -> & Hi1 & Hst1 & _). cbn [mbind outcome_bind].
    apply IH; [done|congruence].
  - unfold Shutdown. rewrite bool_decide_false by (by rewrite Hst). apply (IH w Hi Hst).
Qed.

Lemma conn_run_ok os sent w :
  conn_inv sent w → state_ (conn w) = kConnected →
  2 * kCheapPrepend + zlen sent + zlen (accepted os) ≤ vector_max_size →
  ∃ w', conn_run os w = Ok w' ∧ conn_inv (sent ++ accepted os) w' ∧
    (state_ (conn w') = kDisconnecting ↔ ShutdownOp ∈ os).
Proof.
  revert sent w. induction os as [|[d| |] os IH]; intros sent w Hi Hst Hm; cbn [conn_run conn_step accepted] in *.
  - exists w. rewrite app_nil_r, Hst. split; [done|]. split; [done|]. set_solver.
  - unfold Send. rewrite bool_decide_true by done. cbn [RunInLoop run_task]. rewrite zlen_app in Hm.
    pose proof (zlen_nonneg (accepted os)).
    destruct (SendInLoop_ok sent d w) as (w1 & -> & Hi1 & Hst1); [done..|lia|]. cbn [mbind outcome_bind].
    destruct (IH (sent ++ d) w1) as (w' & Hrun & Hi' & Hsh); [done..|rewrite zlen_app; lia|].
    exists w'. rewrite app_assoc. split; [done|]. split; [done|]. set_solver.
  - destruct (HandleWrite_ok sent w Hi) as (w1 & -> & Hi1 & Hst1 & _). cbn [mbind outcome_bind].
    destruct (IH sent w1) as (w' & Hrun & Hi' & Hsh); [done|congruence|done|].
    exists w'. split; [done|]. split; [done|]. set_solver.
  - destruct (Shutdown_ok sent w Hi) as (w1 & -> & Hi1 & Hst1 & _). cbn [mbind outcome_bind].
    destruct (conn_run_closed os sent w1 Hi1 Hst1) as (w' & Hrun & Hi' & Hst').
    exists w'. rewrite app_nil_r. split; [done|]. split; [done|]. set_solver.
Qed.

Lemma conn_run_app os1 os2 w : conn_run (os1 ++ os2) w = (w ← conn_run os1 w; conn_run os2 w).
Proof. revert w. induction os1 as [|o os1 IH]; intros w; [done|]. cbn. destruct (conn_step o w); [apply IH|done]. Qed.


Lemma drain_ok n sent w :
  conn_inv sent w → (length (contents (output_buffer_ (conn w))) ≤ n)%nat →
  (∀ i, (i < length (contents (output_buffer_ (conn w))))%nat → ∃ m, kernel w !! i = Some (Wrote m) ∧ 1 ≤ m) →
  ∃ w', conn_run (replicate n WritableOp) w = Ok w' ∧ conn_inv sent w' ∧
    contents (output_buffer_ (conn w')) = [] ∧ state_ (conn w') = state_ (conn w).
Proof.
  revert w. induction n as [|n IH]; intros w Hi Hlen Hk; cbn [replicate conn_run conn_step].
  { exists w. repeat (split; [done|]). split; [apply nil_length_inv; lia|done]. }
  destruct (HandleWrite_ok sent w Hi) as (w1 & -> & Hi1 & Hst1 & Hprog & Hsame). cbn [mbind outcome_bind].
  assert (contents (output_buffer_ (conn w1)) = [] ∨ ∃ m, kernel w = Wrote m :: kernel w1 ∧
     (length (contents (output_buffer_ (conn w1))) < length (contents (output_buffer_ (conn w))))%nat) as Hcase.
  { destruct (decide (contents (output_buffer_ (conn w)) = [])) as [E|E].
    - left. by rewrite Hsame.
    - right. destruct (Hk 0%nat) as (m & Hm & Hm1). { destruct (contents _); [done|cbn; lia]. }
      destruct (kernel w) as [|a k] eqn:Ek; [done|]. cbn in Hm. injection Hm as ->.
      destruct (Hprog m k) as [-> Hl]; [done..|]. exists m. split; [done|]. unfold zlen in Hl. lia. }
  destruct (IH w1) as (w' & Hrun & Hi' & Hc' & Hst'); [done| | |exists w'; rewrite Hst', Hst1; done].
  - destruct Hcase as [->|(m & _ & ?)]; [cbn; lia|lia].
  - intros i Hlt. destruct Hcase as [E|(m & Ek & Hl)]; [rewrite E in Hlt; cbn in Hlt; lia|].
    destruct (Hk (S i)) as (m' & Hm' & ?); [lia|]. rewrite Ek in Hm'. by exists m'.
Qed.

(** C19: buffered output drains.  Whatever was sent, once the socket takes at
    least one byte at each of as many writable events as bytes are buffered, all
    that was sent is on the wire, the channel no longer waits for writability,
    and the write side is shut down if [Shutdown] was called before. *)
Theorem output_drains c wc hw p h r x kern os w :
  (∀ w, on_connection w = Ok w) → fresh p h r c x → Forall (λ a, is_fault a = false) kern →
  2 * kCheapPrepend + zlen (accepted os) ≤ vector_max_size →
  (w ← establish c wc hw p h kern; conn_run os w) = Ok w →
  (∀ i, (i < length (contents (output_buffer_ (conn w))))%nat → ∃ m, kernel w !! i = Some (Wrote m) ∧ 1 ≤ m) →
  ∃ w', conn_run (replicate (length (contents (output_buffer_ (conn w)))) WritableOp) w = Ok w' ∧
    wire w' = accepted os ∧ channel_is IsWriting w' = Ok false ∧ (ShutdownOp ∈ os → write_shut w' = true).
Proof.
  intros Hcb Hf Hk Hm Hrun Hkern.
  destruct (establish_ok c wc hw p h r x kern) as (w0 & Hw0 & Hi & Hst & _); [done..|].
  rewrite Hw0 in Hrun. cbn [mbind outcome_bind] in Hrun.
  destruct (conn_run_ok os [] w0) as (w1 & Hw1 & Hi' & Hsh); [done..|]. assert (w1 = w) as -> by congruence.
  destruct (drain_ok (length (contents (output_buffer_ (conn w)))) (accepted os) w) as (w' & -> & Hi2 & Hc & Hst2);
    [done..|]. exists w'. split; [done|].
  pose proof (cv_bytes _ _ Hi2) as Hb. rewrite Hc, app_nil_r in Hb. split; [done|].
  rewrite (conn_inv_writing _ _ Hi2), bool_decide_true by done. split; [done|].
  intros Hin. apply (cv_shut _ _ Hi2). by rewrite Hst2, Hsh.
Qed.

Lemma HandleClose_ok sent w :
  (∀ w, on_connection w = Ok w) → (∀ w, on_close w = Ok w) → conn_inv sent w →
  ∃ w' r x, HandleClose on_connection on_close w = Ok w' ∧ state_ (conn w') = kDisconnected ∧
    registered w' r x ∧ Channel.events_ x = 0.
Proof.
  intros Hcb Hcl [(r & x & Hr & _) _ _ _ _ Hst _]. unfold HandleClose.
  step_assert ltac:(destruct Hst as [-> | ->]; done).
  destruct (change_events_ok (λ _, kNoneEvent) (SetState kDisconnected w) r x) as (ph & r' & x' & Hok & Hr' & Hx').
  - by apply (registered_same w).
  - unfold io_events. set_solver.
  - unfold DisableAll. rewrite Hok. cbn [mbind outcome_bind]. rewrite Hcb. cbn [mbind outcome_bind]. rewrite Hcl.
    by exists (set_channels ph (SetState kDisconnected w)), r', x'.
Qed.

Lemma Remove_ok w r x :
  registered w r x → Channel.events_ x = 0 →
  ∃ ph r', on_channel Remove w = Ok (set_channels ph w) ∧ inv ph.1 ph.2 r' ∧
    ∀ fd ev, reg r' !! fd ≠ Some (channel_ (conn w), ev).
Proof.
  intros [Hi Hc Hr _] He. rewrite He in Hr. unfold on_channel, Remove, deref. rewrite Hc. cbn [mbind outcome_bind].
  unfold IsNoneEvent. rewrite He. cbn [cassert mbind outcome_bind].
  replace (0 =? kNoneEvent) with true by done. cbn [cassert mbind outcome_bind].
  destruct (inv_remove (inv := inv) (poller w) (channels w) r (channel_ (conn w)) (set_added false x) x)
    as (p' & h' & -> & _ & Hi'); try done.
  exists (p', h'), (MkRegistry (delete (fd_ x) (reg r)) (used r)). split; [done|]. split; [done|].
  intros fd ev. cbn [reg]. destruct (inv_common _ _ _ Hi) as [chs Hci].
  destruct (decide (fd = fd_ x)) as [->|Hne]; [by rewrite lookup_delete_eq|].
  rewrite lookup_delete_ne by done. intros Hr'. apply Hne. by eapply common_inj.
Qed.

(** A connection that the peer closes comes down in order.  From the
    established connection, after any output activity, [HandleClose] and then
    [ConnectDestroyed] (which the close callback schedules) run without failing
    an assertion, the descriptor is no longer registered with the poller, and
    the destructor's assertion holds. *)
Theorem close_then_destroy c wc hw p h r x kern os :
  (∀ w, on_connection w = Ok w) → (∀ w, on_close w = Ok w) → fresh p h r c x →
  Forall (λ a, is_fault a = false) kern → 2 * kCheapPrepend + zlen (accepted os) ≤ vector_max_size →
  ∃ w r', (w ← establish c wc hw p h kern; w ← conn_run os w;
           w ← HandleClose on_connection on_close w; ConnectDestroyed on_connection w) = Ok w ∧
    inv (poller w) (channels w) r' ∧ (∀ fd ev, reg r' !! fd ≠ Some (channel_ (conn w), ev)) ∧ TcpConnection_destroy w = Ok tt.
Proof.
  intros Hcb Hcl Hf Hk Hm. destruct (establish_ok c wc hw p h r x kern) as (w0 & -> & Hi & Hst & _); [done..|].
  cbn [mbind outcome_bind]. destruct (conn_run_ok os [] w0) as (w & -> & Hi' & Hsh); [done..|].
  cbn [mbind outcome_bind].
  destruct (HandleClose_ok _ _ Hcb Hcl Hi') as (w1 & r1 & x1 & -> & Hst1 & Hr1 & Hx1). cbn [mbind outcome_bind].
  unfold ConnectDestroyed. rewrite bool_decide_false by (by rewrite Hst1). cbn [mbind outcome_bind].
  destruct (Remove_ok w1 r1 x1 Hr1 Hx1) as (ph & r2 & -> & Hi2 & Hno).
  eexists _, r2. split; [done|]. split; [done|]. split; [done|].
  unfold TcpConnection_destroy. cbn [set_channels conn]. by rewrite bool_decide_true.
Qed.


(** Destroying a connection that is only half closed aborts.  [Shutdown] moves
    the state to kDisconnecting and leaves the channel reading; from there
    [ConnectDestroyed] skips [DisableAll], and [Channel::Remove] fails its
    assertion.  ([~TcpServer] calls it on every connection it still has.) *)
Theorem destroy_disconnecting_aborts w x :
  state_ (conn w) = kDisconnecting → channels w !! channel_ (conn w) = Some x → Channel.events_ x ≠ 0 →
  ConnectDestroyed on_connection w = Fail (AssertionFailed "IsNoneEvent()").
Proof.
  intros Hst Hc He. unfold ConnectDestroyed. rewrite bool_decide_false by (by rewrite Hst). cbn [mbind outcome_bind].
  unfold on_channel, Remove, deref. rewrite Hc. cbn [mbind outcome_bind]. unfold IsNoneEvent.
  replace (_ =? kNoneEvent) with false by (unfold kNoneEvent; lia). done.
Qed.

End output.

(** ** A connection on an epoll poller of its own *)
Abbreviation sample_poller := (EPoll.EPollPoller_new (∅ : gmap Z (Z * chan))).
Definition sample_answers : list write_answer := [Wrote 2; WriteError EWOULDBLOCK; Wrote 1; Wrote 1; Wrote 3].
Definition sample_run : list conn_op := [SendOp (str "hello"); WritableOp; ShutdownOp; SendOp (str "late")].

Lemma sample_fresh :
  fresh (inv := epoll_inv) sample_poller {[1 := Channel_new 5]} (MkRegistry ∅ ∅) 1 (Channel_new 5).
Proof.
  split; try done. split; cbn.
  - apply common_empty. intros c x Hx. by apply lookup_singleton_Some in Hx as [_ <-].
  - intros fd c ev x. by rewrite lookup_empty.
  - intros fd _. by rewrite lookup_empty.
Qed.


Lemma output_drains_witness :
  ∃ w, (w ← establish Ok 1 true true sample_poller {[1 := Channel_new 5]} sample_answers;
        conn_run Ok Ok sample_run w) = Ok w ∧
  ∃ w', conn_run Ok Ok [WritableOp; WritableOp; WritableOp] w = Ok w' ∧ wire w' = str "hello".
Proof.
  eexists. split; [vm_compute; reflexivity|].
  edestruct (output_drains (inv := epoll_inv) Ok Ok 1 true true sample_poller {[1 := Channel_new 5]} (MkRegistry ∅ ∅)
    (Channel_new 5) sample_answers sample_run) as (w' & H1 & H2 & _).
  - intros w. reflexivity.
  - exact sample_fresh.
  - apply (bool_decide_unpack _). vm_compute. exact I.
  - vm_compute. discriminate.
  - vm_compute. reflexivity.
  - intros i Hi. vm_compute in Hi. destruct i as [|[|[|i]]]; [exists 1|exists 1|exists 3|lia]; split; (reflexivity || lia).
  - exists w'. split; [exact H1|exact H2].
Defined.

Lemma close_then_destroy_witness :
  ∃ w, (w ← establish Ok 1 true true sample_poller {[1 := Channel_new 5]} sample_answers;
        w ← conn_run Ok Ok sample_run w; w ← HandleClose Ok Ok w; ConnectDestroyed Ok w) = Ok w ∧
    TcpConnection_destroy w = Ok tt.
Proof.
  destruct (close_then_destroy (inv := epoll_inv) Ok Ok 1 true true sample_poller {[1 := Channel_new 5]} (MkRegistry ∅ ∅)
    (Channel_new 5) sample_answers sample_run) as (w & r' & H1 & _ & _ & H2).
  - intros w. reflexivity.
  - intros w. reflexivity.
  - exact sample_fresh.
  - apply (bool_decide_unpack _). vm_compute. exact I.
  - vm_compute. discriminate.
  - exists w. split; [exact H1|exact H2].
Defined.

Lemma destroy_disconnecting_aborts_witness :
  (w ← establish Ok 1 true true sample_poller {[1 := Channel_new 5]} sample_answers;
   w ← conn_run Ok Ok [ShutdownOp] w; ConnectDestroyed Ok w) = Fail (AssertionFailed "IsNoneEvent()").
Proof.
  assert (∃ w, (w ← establish Ok 1 true true sample_poller {[1 := Channel_new 5]} sample_answers;
                conn_run Ok Ok [ShutdownOp] w) = Ok w ∧
               state_ (conn w) = kDisconnecting ∧
               channels w !! channel_ (conn w) = Some (MkChannel 5 3 0 0 true false true)) as (w & Hw & Hs & Hc).
  { eexists. split; [vm_compute; reflexivity|]. split; vm_compute; reflexivity. }
  apply bind_Ok in Hw as (w0 & -> & Hw). cbn [mbind outcome_bind]. rewrite Hw. cbn [mbind outcome_bind].
  apply (destroy_disconnecting_aborts Ok w _ Hs Hc). discriminate.
Defined.
