(* ===== verification/HttpConnection.v ===== *)
(** * A connection of the HTTP server: [HttpServer] (http/http_server.cc) on
    [TcpConnection] (net/tcp_connnection.cc)

    The callbacks that [HttpServer] installs on its connections, run by the
    connection's own handlers: what the socket delivers goes through the input
    buffer, the parser, the default handler and the output path.  The state of
    the server that a connection works on (the parser's context, the files and
    the timing object) is a [session]; it travels with the poller through the
    [world] of the connection. *)

From stdpp Require Import base tactics list numbers strings sets gmap.
From Stdlib Require Import ZArith Lia Ascii.
From S2P Require Import Prelude.
From S2P Require Import CString.
From S2P Require Import Buffer.
From S2P Require Import HttpRequest.
From S2P Require Import HttpContext.
From S2P Require Import HttpResponse.
From S2P Require Import Timing.
From S2P Require Import HttpServer.
From S2P Require Import Channel.
From S2P Require Import Poller.
From S2P Require Import TcpConnection.

(** What happens to a connection in its loop: the socket has input or room. *)
Inductive socket_event := Readable (receive_time : Z) (data : bytes) | Writable.

(** ** The state of the server next to the poller *)
Record session (F T : Type) := MkSession {
  s_context : option HttpContext;     (* [conn->context()] *)
  s_files : F;
  s_timing : T;
}.
Arguments MkSession {F T} _ _ _.
Arguments s_context {F T} _.
Arguments s_files {F T} _.
Arguments s_timing {F T} _.

Section lifted.
Context {P U : Type} `{Poller P}.

(** A poller with something next to it that it does not touch. *)
#[global] Instance lifted_poller : Poller (P * U) := {|
  Channel.UpdateChannel c p h := '(p', h) ← Channel.UpdateChannel c p.1 h; Ok ((p', p.2), h);
  Channel.RemoveChannel c p h := '(p', h) ← Channel.RemoveChannel c p.1 h; Ok ((p', p.2), h);
  Channel.HasChannel c p h := Channel.HasChannel c p.1 h;
|}.

Definition lifted_inv (inv : P → heap → registry → Prop) (u : U) (p : P * U) (h : heap) (r : registry) : Prop :=
  inv p.1 h r ∧ p.2 = u.

#[global] Instance lifted_poller_inv inv `{!PollerInv P inv} u : PollerInv (P * U) (lifted_inv inv u).
Proof.
  split.
  - intros p h r [Hi _]. by eapply inv_common.
  - intros p h r c x x0 ev [Hi Hu] ? ? ? ? ? ? ?.
    destruct (inv_update p.1 h r c x x0 ev) as (p' & h' & E & Hfd & Hi'); [done..|].
    exists (p', p.2), h'. cbn. rewrite E. by repeat split.
  - intros p h r c x x0 [Hi Hu] ? ? ? ? ?.
    destruct (inv_remove p.1 h r c x x0) as (p' & h' & E & Hfd & Hi'); [done..|].
    exists (p', p.2), h'. cbn. rewrite E. by repeat split.
Qed.
End lifted.

(** ** The callbacks *)
Section server.
Context {P F T : Type} `{Poller P, FileSystem F, Timing T}.
Implicit Types w : world (P * session F T).

Definition session_of w : session F T := (poller w).2.
Definition set_session (s : session F T) w : world (P * session F T) := set_channels ((poller w).1, s, channels w) w.

(** What the timing object sees of the connection. *)
Definition view_of w : conn_view := MkConnView true (IsConnected w).

(** [HttpServer::OnConnection] at the time [now]. *)
Definition http_connection (now : Z) w : outcome (world (P * session F T)) :=
  let s := session_of w in
  '(timing, context) ← HttpServer.OnConnection (channel_ (conn w)) (view_of w) now (s_timing s) (s_context s);
  Ok (set_session (MkSession context (s_files s) timing) w).

(** The close callback only leaves the server's map: not the connection's affair. *)
Definition http_close w : outcome (world (P * session F T)) := Ok w.

Section handlers.
Context (now : Z) (config : HttpServerConfig).

(** The calls of [OnMessage] on its connection, in the loop's thread. *)
Fixpoint perform (calls : list send_call) w : outcome (world (P * session F T)) :=
  match calls with
  | [] => Ok w
  | CallSend data :: calls =>
      w ← Send (http_connection now) http_close true data w; perform calls w
  | CallShutdownWrite :: calls =>
      w ← Shutdown (http_connection now) http_close true w; perform calls w
  end.

(** [HttpServer::OnMessage]; [AnyCast] throws when there is no context. *)
Definition http_message (receive_time : Z) w : outcome (world (P * session F T)) :=
  let s := session_of w in
  let buf := input_buffer_ (conn w) in
  match s_context s with
  | None => Fail (Exception "std::bad_cast")
  | Some context =>
      match OnMessage (length (contents buf) + 2) config None (channel_ (conn w)) receive_time
              (s_timing s) context buf (s_files s) with
      | None => Fail (UndefinedBehaviour "ParseRequest does not return")
      | Some m =>
          '(timing, context, buf, fs, calls) ← m;
          perform calls (set_session (MkSession (Some context) fs timing) (set_input buf w))
      end
  end.

Definition socket_step (e : socket_event) w : outcome (world (P * session F T)) :=
  match e with
  | Readable t data => HandleRead http_message (http_connection now) http_close (ReadvOk data) t w
  | Writable => HandleWrite w
  end.

Fixpoint socket_run (es : list socket_event) w : outcome (world (P * session F T)) :=
  match es with
  | [] => Ok w
  | e :: es => w ← socket_step e w; socket_run es w
  end.

End handlers.

(** A connection the server just accepted. *)
Definition http_establish (now : Z) (c : chan) (p : P) (h : heap) (kern : list write_answer) (fs : F) (timing : T)
    : outcome (world (P * session F T)) :=
  establish (http_connection now) c false false (p, MkSession None fs timing) h kern.

End server.

(** ** The contract: a server without buffers, channels and partial writes *)
Record aserver (F T : Type) := MkServer {
  a_context : HttpContext;
  a_unread : bytes;      (* received and not consumed *)
  a_files : F;
  a_timing : T;
  a_sent : bytes;        (* every byte of the replies so far *)
  a_open : bool;         (* whether replies are still sent *)
}.
Arguments MkServer {F T} _ _ _ _ _ _.
Arguments a_context {F T} _.
Arguments a_unread {F T} _.
Arguments a_files {F T} _.
Arguments a_timing {F T} _.
Arguments a_sent {F T} _.
Arguments a_open {F T} _.

Section contract.
Context {F T : Type} `{FileSystem F, Timing T}.
Context (config : HttpServerConfig) (c : chan).
Implicit Types s : aserver F T.

Definition acall (s : aserver F T) (call : send_call) : aserver F T :=
  match call with
  | CallSend data =>
      MkServer (a_context s) (a_unread s) (a_files s) (a_timing s)
        (if a_open s then a_sent s ++ data else a_sent s) (a_open s)
  | CallShutdownWrite => MkServer (a_context s) (a_unread s) (a_files s) (a_timing s) (a_sent s) false
  end.
Definition acalls (calls : list send_call) s : aserver F T := foldl acall s calls.

(** One segment: the reference parser on all unread bytes, then the handler. *)
Definition areact (t : Z) (data : bytes) s : outcome (aserver F T) :=
  timing ← Timing.OnMessage c t (a_timing s);
  '(ok, context, rest) ← parse t (a_context s) (a_unread s ++ data);
  let calls := if ok : bool then [] else [CallSend bad_request; CallShutdownWrite] in
  if IsGotAll context then
    '(fs, calls') ← OnRequest config None (request_ context) (a_files s);
    Ok (acalls (calls ++ calls') (MkServer (Reset context) rest fs timing (a_sent s) (a_open s)))
  else Ok (acalls calls (MkServer context rest (a_files s) timing (a_sent s) (a_open s))).

Definition astep (e : socket_event) s : outcome (aserver F T) :=
  match e with Readable t data => areact t data s | Writable => Ok s end.

Fixpoint arun (es : list socket_event) s : outcome (aserver F T) :=
  match es with
  | [] => Ok s
  | e :: es => s ← astep e s; arun es s
  end.

Definition received (e : socket_event) : bytes := match e with Readable _ data => data | Writable => [] end.
Definition input (es : list socket_event) : bytes := concat (received <$> es).

(** [SetMethod] compares seven bytes: a line that starts in the middle of the
    block must have them, which it has when the segment was not split there. *)
Definition line_start s (data : bytes) s' : Prop :=
  a_unread s' = [] ∨ 7 ≤ zlen (a_unread s') ∨
  (HttpContext.state_ (a_context s) = HttpContext.state_ (a_context s') ∧ a_unread s' = a_unread s ++ data).

(** The run stays within what the buffers can hold. *)
Fixpoint affordable (es : list socket_event) s : Prop :=
  match es with
  | [] => True
  | e :: es =>
      match e with Readable _ data => data ≠ [] | Writable => True end ∧
      match astep e s with
      | Ok s' => 2 * kCheapPrepend + zlen (a_sent s') ≤ vector_max_size ∧
                 (HttpContext.state_ (a_context s') = kExpectRequestLine → line_start s (received e) s') ∧
                 affordable es s'
      | Fail _ => True
      end
  end.

End contract.

(** ** The input buffer between two messages *)

(** An empty buffer starts at the front, and the block has room for a line there. *)
Definition tidy (b : Buffer) : Prop :=
  kCheapPrepend + 7 ≤ capacity b ∧ (reader_index_ b = writer_index_ b → reader_index_ b = kCheapPrepend).

Lemma RetrieveUntil_tidy p b b' : good b → tidy b → RetrieveUntil p b = Ok b' → good b' ∧ tidy b'.
Proof.
  intros Hg Ht Hr. assert (reader_index_ b ≤ p ≤ writer_index_ b) as Hp.
  { unfold RetrieveUntil, Peek, OffsetofWrite in Hr. inv_ok. lia. }
  destruct (RetrieveUntil_good p b Hg Hp) as (b1 & Hr1 & Hg1 & _). assert (b1 = b') as -> by congruence.
  split; [done|]. pose proof (good_wf _ Hg) as Hwf.
  unfold RetrieveUntil, Retrieve in Hr. rewrite wrapU_small, !readable_bytes_wf in Hr by (done || buf_lia).
  inv_ok. destruct Ht as [? _].
  destruct (Z.ltb_spec (p - Peek b) (writer_index_ b - reader_index_ b)); inv_ok; unfold tidy; cbn.
  - split; [done|]. rewrite add64_small by buf_lia. unfold Peek in *. lia.
  - done.
Qed.

Lemma parse_step_tidy t l l' :
  good (buf l) → tidy (buf l) → parse_step t l = Ok l' → good (buf l') ∧ tidy (buf l').
Proof.
  destruct l as [ok more [st r] b]. cbn [buf]. intros Hg Ht. unfold parse_step. cbn [HttpContext.state_ request_].
  intros E. destruct st; repeat case_match; inv_ok; repeat case_match; inv_ok; cbn [buf];
    eauto using RetrieveUntil_tidy.
Qed.

Lemma ParseRequest_tidy fuel t c b ok c' b' :
  good b → tidy b → ParseRequest fuel t c b = Some (Ok (ok, c', b')) → tidy b'.
Proof.
  intros Hg Ht. unfold ParseRequest.
  assert (∀ l l', good (buf l) → tidy (buf l) → parse_while fuel t l = Some (Ok l') → tidy (buf l')) as H.
  { induction fuel as [|fuel IH]; intros l l' Hgl Htl; cbn [parse_while]; destruct (has_more l); try done;
      try by intros [= <-].
    destruct (parse_step t l) as [l1|] eqn:E; [|done].
    destruct (parse_step_tidy t l l1 Hgl Htl E). by apply IH. }
  destruct (parse_while _ _ _) as [[l|]|] eqn:E; cbn; try done. intros [= <- <- <-].
  exact (H (MkLoop true true c b) l Hg Ht E).
Qed.

Lemma ReadFromFd_tidy data b n e b' :
  good b → tidy b → room b (zlen data) → data ≠ [] → ReadFromFd (ReadvOk data) b = Ok (n, e, b') → tidy b'.
Proof.
  intros Hg [Ht _] Hr Hd Hrd. destruct (ReadFromFd_good data b Hg Hr) as (b1 & Hrd1 & Hg1 & Hc & _).
  rewrite Hrd1 in Hrd. simplify_eq.
  destruct (ReadFromFd_no_tighter data b _ _ b' ltac:(auto) ltac:(auto) ltac:(auto) Hr Hrd1) as [_ Hcap].
  split; [lia|]. intros E. apply (f_equal zlen) in Hc. rewrite zlen_contents, readable_bytes_wf, zlen_app in Hc by auto.
  pose proof (zlen_nonneg (contents b)). destruct data as [|x d]; [done|]. rewrite zlen_cons in Hc.
  pose proof (zlen_nonneg d). lia.
Qed.

Lemma Buffer_new_tidy : ∃ b, Buffer_new kInitialSize = Ok b ∧ good b ∧ tidy b ∧ contents b = [] ∧ writer_index_ b = kCheapPrepend.
Proof.
  destruct (Buffer_new_good kInitialSize) as (b & E & Hg & Hc & _ & Hw); [done..|]. exists b.
  split; [done|]. split; [done|]. split; [|done]. vm_compute in E. injection E as <-. split; [by vm_compute|done].
Qed.

(** ** The reference parser consumes what it completes *)
Lemma finish_length r l ok c' rest : finish r l = (ok, c', rest) → (length rest ≤ length l)%nat.
Proof. unfold finish. repeat case_match; intros [= <- <- <-]; cbn; lia. Qed.

Lemma aparse_length n t c l ok c' rest :
  aparse n t c l = Ok (ok, c', rest) →
  (length rest ≤ length l)%nat ∧
  (HttpContext.state_ c = kExpectRequestLine → HttpContext.state_ c' = kGotAll → (length rest < length l)%nat).
Proof.
  revert c l. induction n as [|n IH]; intros [st r] l; cbn [aparse HttpContext.state_ request_].
  { intros [= <- <- <-]. cbn. split; [lia|]. by intros ->. }
  destruct st.
  - destruct (next_line l) as [[line rest']|] eqn:E; [|by intros [= <- <- <-]].
    apply next_line_spec in E as [-> _]. rewrite !length_app. cbn [length CRLF].
    destruct (request_line line r) as [[[] r']|]; cbn [mbind outcome_bind]; [|intros [= <- <- <-]|done].
    + intros [Hl _]%IH. split; intros; lia.
    + rewrite !length_app. cbn. split; [lia|done].
  - split; [|done]. revert H. destruct (next_line l) as [[line rest']|] eqn:E; [|by intros [= <- <- <-]].
    apply next_line_spec in E as [-> _]. rewrite !length_app. cbn [length CRLF].
    destruct (header_line line r) as [r'|]; [intros [Hl _]%IH; lia|]. intros [= Hf%finish_length]. lia.
  - intros [= Hf]. split; [by eapply finish_length|done].
  - intros [= <- <- <-]. done.
Qed.

(** ** The connection implements the contract *)
Section simulation.
Context {P F T : Type} `{PollerInv P inv, FileSystem F, Timing T}.
Context (now : Z) (config : HttpServerConfig) (c : chan).
Implicit Types (w : world (P * session F T)) (s : aserver F T).

Definition session_in (s : aserver F T) : session F T := MkSession (Some (a_context s)) (a_files s) (a_timing s).

(** [n] bounds the input so far. *)
Record simulates (n : Z) (s : aserver F T) w : Prop := MkSimulates {
  sm_conn : conn_inv (inv := lifted_inv inv (session_in s)) (a_sent s) w;
  sm_open : a_open s = bool_decide (state_ (conn w) = kConnected);
  sm_channel : channel_ (conn w) = c;
  sm_good : good (input_buffer_ (conn w));
  sm_tidy : tidy (input_buffer_ (conn w));
  sm_unread : contents (input_buffer_ (conn w)) = a_unread s;
  sm_writer : writer_index_ (input_buffer_ (conn w)) ≤ kCheapPrepend + n;
  sm_slack : slack (a_context s) (input_buffer_ (conn w));
  sm_state : HttpContext.state_ (a_context s) ≠ kGotAll;
}.

(** The output path leaves the input side alone. *)
Definition same_input w w' : Prop :=
  input_buffer_ (conn w') = input_buffer_ (conn w) ∧ channel_ (conn w') = channel_ (conn w).

Lemma on_channel_conn f w w' : on_channel f w = Ok w' → conn w' = conn w.
Proof. unfold on_channel. intros E. by inv_ok. Qed.

Lemma socket_Write_conn data w : conn (socket_Write data w).2 = conn w.
Proof. unfold socket_Write. by destruct (kernel w) as [|[]]. Qed.

Lemma SendInLoop_input data w w' : SendInLoop data w = Ok w' → same_input w w'.
Proof.
  unfold SendInLoop, same_input. case_bool_decide; intros E; [by inv_ok|].
  pose proof (socket_Write_conn data w) as Hw. destruct (socket_Write data w) as [[n e] w0]. cbn in Hw.
  inv_ok. repeat case_match; simplify_eq; inv_ok; repeat case_match; inv_ok;
    repeat match goal with H : on_channel _ _ = Ok _ |- _ => apply on_channel_conn in H; rewrite H; clear H end;
    cbn; by rewrite ?Hw.
Qed.

Lemma ShutdownInLoop_input w w' : ShutdownInLoop w = Ok w' → same_input w w'.
Proof. unfold ShutdownInLoop. intros E. inv_ok. by case_match. Qed.

Lemma Shutdown_input on_conn on_close w w' : Shutdown on_conn on_close true w = Ok w' → same_input w w'.
Proof.
  unfold Shutdown. case_bool_decide; intros E; [|by inv_ok].
  by apply (ShutdownInLoop_input (SetState kDisconnecting w)).
Qed.

Lemma HandleWrite_input w w' : HandleWrite w = Ok w' → same_input w w'.
Proof.
  unfold HandleWrite. intros E. apply bind_Ok in E as (b & _ & E). destruct b; [|by inv_ok].
  pose proof (socket_Write_conn (contents (output_buffer_ (conn w))) w) as Hw.
  destruct (socket_Write _ w) as [[n e] w0]. cbn in Hw. unfold same_input. rewrite <-Hw.
  destruct (0 <? n); [|by inv_ok]. apply bind_Ok in E as (b & _ & E).
  destruct (readable_bytes b =? 0); [|by inv_ok]. apply bind_Ok in E as (w1 & E1 & E).
  apply on_channel_conn in E1. set (w2 := if has_write_complete_callback _ then _ else _) in E.
  assert (conn w2 = conn w1) as E2 by (unfold w2; by destruct (has_write_complete_callback _)).
  clearbody w2. case_bool_decide; inv_ok; [apply ShutdownInLoop_input in E as [-> ->]|]; by rewrite E2, E1.
Qed.

Lemma simulates_input n s w w' :
  simulates n s w → same_input w w' → conn_inv (inv := lifted_inv inv (session_in s)) (a_sent s) w' →
  a_open s = bool_decide (state_ (conn w') = kConnected) → simulates n s w'.
Proof. intros [] [Ei Ec] ? ?. by split; rewrite ?Ei, ?Ec. Qed.

Lemma session_of_simulates n s w : simulates n s w → session_of w = session_in s.
Proof. intros Hs. destruct (cv_channel _ _ (sm_conn _ _ _ Hs)) as (r & x & Hr & _). apply (rg_inv _ _ _ Hr). Qed.

(** Another session next to the poller, another input buffer. *)
Lemma conn_inv_session u u' sent b w :
  conn_inv (inv := lifted_inv inv u) sent w →
  conn_inv (inv := lifted_inv inv u') sent (set_session u' (set_input b w)).
Proof.
  intros [(r & x & [[Hi _] Hc Hr Hio] & Hx) ? ? ? ? ? ?]. split; try done.
  exists r, x. split; [|done]. by split.
Qed.

Lemma acalls_sent calls s : ∃ more, a_sent (acalls calls s) = a_sent s ++ more.
Proof.
  revert s. induction calls as [|call calls IH]; intros s; [by exists []; rewrite app_nil_r|].
  change (acalls (call :: calls) s) with (acalls calls (acall s call)).
  destruct (IH (acall s call)) as [more ->]. destruct call as [d|]; cbn; [|by exists more].
  destruct (a_open s); [|by exists more]. exists (d ++ more). by rewrite app_assoc.
Qed.

Lemma perform_simulates n calls s w :
  simulates n s w → 2 * kCheapPrepend + zlen (a_sent (acalls calls s)) ≤ vector_max_size →
  ∃ w', perform now calls w = Ok w' ∧ simulates n (acalls calls s) w'.
Proof.
  revert s w. induction calls as [|call calls IH]; intros s w Hs Hb; [by exists w|].
  change (acalls (call :: calls) s) with (acalls calls (acall s call)) in *.
  destruct (acalls_sent calls (acall s call)) as [more Hm]. pose proof (zlen_nonneg more) as Hz.
  rewrite Hm, zlen_app in Hb.
  assert (∃ w1, match call with CallSend d => Send (http_connection now) http_close true d w
                | CallShutdownWrite => Shutdown (http_connection now) http_close true w end = Ok w1 ∧
            simulates n (acall s call) w1) as (w1 & Hw1 & Hs1).
  { pose proof (sm_conn _ _ _ Hs) as Hc. pose proof (sm_open _ _ _ Hs) as Ho. destruct call as [d|]; cbn in Hb.
    - unfold Send. case_bool_decide as Hst.
      + rewrite Ho, zlen_app in Hb. cbn [RunInLoop run_task].
        destruct (SendInLoop_ok (inv := lifted_inv inv (session_in s)) (http_connection now) http_close (a_sent s) d w) as (w1 & Hw1 & Hc1 & Hst1);
          [done..|lia|]. exists w1. split; [done|].
        destruct (SendInLoop_input _ _ _ Hw1) as [Ei Ec]. cbn. rewrite Ho.
        destruct Hs. split; cbn; rewrite ?Ei, ?Ec, ?Hst1; done.
      + exists w. split; [done|]. destruct Hs. split; cbn; rewrite ?Ho; (done || congruence).
    - destruct (Shutdown_ok (inv := lifted_inv inv (session_in s)) (http_connection now) http_close _ _ Hc)
        as (w1 & Hw1 & Hc1 & Hst1 & _). exists w1. split; [done|].
      destruct (Shutdown_input _ _ _ _ Hw1) as [Ei Ec]. destruct Hs. split; cbn; rewrite ?Ei, ?Ec, ?Hst1; done. }
  assert (perform now (call :: calls) w = (w ← Ok w1; perform now calls w)) as ->
    by (rewrite <-Hw1; by destruct call).
  cbn [mbind outcome_bind]. apply IH; [done|]. rewrite Hm, zlen_app. lia.
Qed.

(** What [OnMessage] leaves behind, before its calls are made. *)
Lemma message_simulates n s w b1 b2 context fs timing :
  simulates n s w → good b2 → tidy b2 → writer_index_ b2 ≤ kCheapPrepend + n →
  slack context b2 → HttpContext.state_ context ≠ kGotAll →
  let s1 := MkServer context (contents b2) fs timing (a_sent s) (a_open s) in
  simulates n s1 (set_session (session_in s1) (set_input b2 (set_input b1 w))).
Proof.
  intros [] ? ? ? ? ? s1. split; try done. change (a_sent s1) with (a_sent s).
  by apply (conn_inv_session (session_in s) (session_in s1) _ b2 w).
Qed.

(** The position after a complete request has room for the next line. *)
Lemma slack_reset s data s' context b :
  line_start s data s' → good b → tidy b → contents b = a_unread s' →
  (HttpContext.state_ (a_context s) = kExpectRequestLine → (length (a_unread s') < length (a_unread s ++ data))%nat) →
  HttpContext.state_ (a_context s') = kExpectRequestLine → slack context b.
Proof.
  intros Hl Hg [Hcap He] Hc Hlt Hst _. pose proof (good_wf _ Hg) as Hwf. pose proof (zlen_contents b Hwf) as Hz.
  rewrite readable_bytes_wf, Hc in Hz by done. destruct Hwf. unfold Peek. destruct Hl as [E|[E|[E1 E2]]].
  - rewrite E, zlen_nil in Hz. rewrite He by lia. lia.
  - lia.
  - rewrite E1, E2 in Hlt. specialize (Hlt Hst). lia.
Qed.

Lemma acalls_state calls s :
  a_context (acalls calls s) = a_context s ∧ a_unread (acalls calls s) = a_unread s ∧ a_files (acalls calls s) = a_files s.
Proof.
  revert s. induction calls as [|call calls IH]; intros s; [done|].
  change (acalls (call :: calls) s) with (acalls calls (acall s call)).
  destruct (IH (acall s call)) as (-> & -> & ->). by destruct call.
Qed.

Lemma react_simulates n s w t data :
  simulates n s w → data ≠ [] → 2 * kCheapPrepend + n + zlen data ≤ vector_max_size →
  match areact config c t data s with
  | Ok s' =>
      2 * kCheapPrepend + zlen (a_sent s') ≤ vector_max_size →
      (HttpContext.state_ (a_context s') = kExpectRequestLine → line_start s data s') →
      ∃ w', socket_step now config (Readable t data) w = Ok w' ∧ simulates (n + zlen data) s' w'
  | Fail f => socket_step now config (Readable t data) w = Fail f
  end.
Proof.
  intros Hs Hd Hb. pose proof Hs as [Hc Ho Hch Hg Ht Hu Hw Hsl Hst].
  assert (0 < zlen data) as Hpos. { destruct data as [|? d]; [done|]. rewrite zlen_cons. pose proof (zlen_nonneg d). lia. }
  set (b := input_buffer_ (conn w)) in *.
  destruct (ReadFromFd_good data b) as (b1 & Hrd & Hg1 & Hc1 & Hw1); [done|unfold room; lia|].
  assert (tidy b1) as Ht1 by (apply (ReadFromFd_tidy data b (zlen data) None b1); [done|done|unfold room; lia|done|done]).
  assert (slack (a_context s) b1) as Hs1.
  { intros E. specialize (Hsl E).
    destruct (ReadFromFd_no_tighter data b (zlen data) None b1); [auto..|unfold room in *; lia|done|]. unfold Peek in *. lia. }
  cbn [socket_step]. unfold HandleRead. fold b. rewrite Hrd. cbn [mbind outcome_bind].
  replace (0 <? zlen data) with true by lia. unfold http_message.
  change (session_of (set_input b1 w)) with (session_of w). rewrite (session_of_simulates _ _ _ Hs).
  change (channel_ (conn (set_input b1 w))) with (channel_ (conn w)). rewrite Hch.
  change (input_buffer_ (conn (set_input b1 w))) with b1. cbn [session_in s_context s_timing s_files].
  unfold areact, OnMessage. destruct (Timing.OnMessage c t (a_timing s)) as [timing|f]; [|done]. cbn [mbind outcome_bind].
  pose proof (ParseRequest_agrees (length (contents b1) + 2) t (a_context s) b1 Hg1 Hs1 Hst ltac:(lia)) as Ha.
  rewrite Hc1, Hu in Ha |- *. destruct (parse t (a_context s) (a_unread s ++ data)) as [[[ok context] rest]|f] eqn:Ep.
  2:{ by rewrite Ha. }
  destruct Ha as (b2 & Hpr & Hg2 & Hc2 & Hw2 & Hs2). rewrite Hpr. cbn [mbind outcome_bind].
  pose proof (ParseRequest_tidy _ _ _ _ _ _ _ Hg1 Ht1 Hpr) as Ht2.
  assert (simulates (n + zlen data) s w) as Hsn by (destruct Hs; split; (done || lia)).
  pose proof (aparse_length _ _ _ _ _ _ _ Ep) as [_ Hlen].
  set (calls := if ok then _ else _).
  destruct (IsGotAll context) eqn:Hgot; [apply bool_decide_eq_true in Hgot|apply bool_decide_eq_false in Hgot].
  - destruct (OnRequest config None (request_ context) (a_files s)) as [[fs calls']|f]; [|done].
    cbn [mbind outcome_bind]. intros Hb' Hline. rewrite <-Hc2 in *.
    apply perform_simulates; [|done]. apply (message_simulates (n + zlen data) s w b1 b2); [done..|lia| |done].
    destruct (acalls_state (calls ++ calls') (MkServer (Reset context) (contents b2) fs timing (a_sent s) (a_open s)))
      as (Ec & Eu & _). apply (slack_reset s data (acalls (calls ++ calls') (MkServer (Reset context) (contents b2) fs timing (a_sent s) (a_open s)))); rewrite ?Ec, ?Eu; try done.
    + apply Hline. by rewrite Ec.
    + intros E. by apply Hlen.
  - cbn [mbind outcome_bind]. intros Hb' _. rewrite <-Hc2 in *. apply perform_simulates; [|done].
    apply (message_simulates (n + zlen data) s w b1 b2); [done..|lia|done|done].
Qed.

Lemma write_simulates n s w :
  simulates n s w → ∃ w', socket_step now config Writable w = Ok w' ∧ simulates n s w'.
Proof.
  intros Hs. cbn [socket_step]. pose proof (sm_conn _ _ _ Hs) as Hc.
  destruct (HandleWrite_ok (inv := lifted_inv inv (session_in s)) (http_connection now) http_close _ _ Hc)
    as (w' & Hw & Hc' & Hst & _).
  exists w'. split; [done|]. apply (simulates_input n s w); [done|by apply HandleWrite_input|done|].
  rewrite Hst. apply Hs.
Qed.

Lemma run_simulates es n s w :
  simulates n s w → affordable config c es s → 2 * kCheapPrepend + n + zlen (input es) ≤ vector_max_size →
  match arun config c es s with
  | Ok s' => ∃ w', socket_run now config es w = Ok w' ∧ simulates (n + zlen (input es)) s' w'
  | Fail f => socket_run now config es w = Fail f
  end.
Proof.
  revert n s w. induction es as [|e es IH]; intros n s w Hs Haf Hb; cbn [arun socket_run].
  { exists w. split; [done|]. by rewrite Z.add_0_r. }
  destruct Haf as [Hne Haf]. change (input (e :: es)) with (received e ++ input es) in *.
  rewrite zlen_app in *. pose proof (zlen_nonneg (input es)). destruct e as [t data|]; cbn [astep received] in *.
  - pose proof (react_simulates n s w t data Hs Hne ltac:(lia)) as Hr.
    destruct (areact config c t data s) as [s'|f]; [|by rewrite Hr]. destruct Haf as (Hb' & Hl & Haf).
    destruct (Hr Hb' Hl) as (w1 & -> & Hs1). cbn [mbind outcome_bind].
    rewrite Z.add_assoc. apply IH; [done..|lia].
  - destruct Haf as (_ & _ & Haf). destruct (write_simulates n s w Hs) as (w1 & -> & Hs1). cbn [mbind outcome_bind].
    rewrite zlen_nil in *. rewrite Z.add_0_l. by apply IH.
Qed.

(** The connection callback runs last. *)
Lemma ConnectEstablished_last cb w : ConnectEstablished cb w = (w ← ConnectEstablished Ok w; cb w).
Proof.
  unfold ConnectEstablished. destruct (cassert _ _); [|done]. cbn [mbind outcome_bind].
  destruct (deref _ _); [|done]. cbn [mbind outcome_bind]. by destruct (on_channel _ _).
Qed.

Definition accepted_server (fs : F) (timing : T) : aserver F T := MkServer HttpContext_new [] fs timing [] true.

Lemma http_establish_simulates p h r x kern (fs : F) (timing timing' : T) :
  fresh (inv := inv) p h r c x → Forall (λ a, is_fault a = false) kern →
  Timing.OnConnection c (MkConnView true true) now timing = Ok timing' →
  ∃ w, http_establish now c p h kern fs timing = Ok w ∧ simulates 0 (accepted_server fs timing') w.
Proof.
  intros Hf Hk Ht. set (u := MkSession None fs timing).
  assert (fresh (inv := lifted_inv inv u) (p, u) h r c x) as Hf' by (destruct Hf; by split).
  destruct (establish_ok (inv := lifted_inv inv u) Ok c false false (p, u) h r x kern) as (w & Hw & Hc & Hst & Hch & _);
    [done..|]. unfold http_establish. fold u. unfold establish in *.
  destruct Buffer_new_tidy as (b & Hb & Hg & Htd & Hcb & Hwb).
  unfold TcpConnection_new in *. rewrite Hb in *. cbn [mbind outcome_bind] in *.
  rewrite ConnectEstablished_last, Hw. cbn [mbind outcome_bind].
  assert (input_buffer_ (conn w) = b) as Hi.
  { unfold ConnectEstablished in Hw. inv_ok. match goal with H : on_channel _ _ = Ok _ |- _ => apply on_channel_conn in H; by rewrite H end. }
  assert (session_of w = u) as Hu.
  { destruct (cv_channel _ _ Hc) as (r' & x' & Hr & _). apply (rg_inv _ _ _ Hr). }
  unfold http_connection. rewrite Hu, Hch. unfold view_of, IsConnected. rewrite bool_decide_true by done.
  unfold HttpServer.OnConnection. cbn [s_timing s_context u connected]. rewrite Ht. cbn [mbind outcome_bind].
  set (s0 := accepted_server fs timing'). exists (set_session (session_in s0) w). split; [done|].
  assert (conn_inv (inv := lifted_inv inv (session_in s0)) [] (set_session (session_in s0) w)) as Hc0.
  { pose proof (conn_inv_session u (session_in s0) [] b w Hc) as H'.
    by replace (set_session (session_in s0) (set_input b w)) with (set_session (session_in s0) w) in H'
      by (rewrite <-Hi; unfold set_session, set_channels, set_input; cbn; by destruct w as [[]]). }
  split; cbn; rewrite ?Hi, ?Hst; try done.
  - by rewrite Hwb.
  - destruct Htd as [Hcap Hr0]. intros _. unfold Peek. pose proof (good_wf _ Hg) as Hwf.
    apply (f_equal zlen) in Hcb. rewrite zlen_contents, readable_bytes_wf, zlen_nil in Hcb by done. rewrite Hr0 by lia. lia.
Qed.

(** What [simulates] says to an observer. *)
Lemma simulates_observed n s w :
  simulates n s w →
  wire w ++ contents (output_buffer_ (conn w)) = a_sent s ∧ session_of w = session_in s ∧
  contents (input_buffer_ (conn w)) = a_unread s ∧ (write_shut w = true ↔ a_open s = false ∧ wire w = a_sent s).
Proof.
  intros Hs. pose proof (sm_conn _ _ _ Hs) as Hc. pose proof (cv_bytes _ _ Hc) as Hb.
  split; [done|]. split; [by eapply session_of_simulates|]. split; [apply Hs|].
  rewrite (cv_shut _ _ Hc), (sm_open _ _ _ Hs), bool_decide_eq_false.
  destruct (cv_state _ _ Hc) as [->| ->]; split; intros [Hx Hy]; try done; (split; [done|]).
  - by rewrite <-Hb, Hy, app_nil_r.
  - rewrite Hy in Hb. apply (app_inv_head (a_sent s)). by rewrite app_nil_r.
Qed.

(** A connection of the HTTP server implements the buffer-free server.  A
    newly accepted connection, over any poller that keeps its contract, any
    timing object and file system, any segmentation of the input, any partial
    writes and any interleaving of input and writable events, goes through the
    same states as the reference server [arun], which parses the unread bytes as
    a list and appends every reply to one byte stream: the socket's output
    followed by the output buffer is that stream, the unread input, the files,
    the context and the timing object agree, and the write side is shut down
    exactly when the reference has closed and everything is on the wire.  When
    the reference fails (an assertion, an exception), the code fails with the
    same failure. *)
Theorem http_connection_refines p h r x kern (fs : F) (timing timing' : T) es :
  fresh (inv := inv) p h r c x → Forall (λ a, is_fault a = false) kern →
  Timing.OnConnection c (MkConnView true true) now timing = Ok timing' →
  affordable config c es (accepted_server fs timing') → 2 * kCheapPrepend + zlen (input es) ≤ vector_max_size →
  match arun config c es (accepted_server fs timing') with
  | Ok s =>
      ∃ w, (w ← http_establish now c p h kern fs timing; socket_run now config es w) = Ok w ∧
        wire w ++ contents (output_buffer_ (conn w)) = a_sent s ∧ session_of w = session_in s ∧
        contents (input_buffer_ (conn w)) = a_unread s ∧ (write_shut w = true ↔ a_open s = false ∧ wire w = a_sent s)
  | Fail f => (w ← http_establish now c p h kern fs timing; socket_run now config es w) = Fail f
  end.
Proof.
  intros Hf Hk Ht Ha Hb. destruct (http_establish_simulates p h r x kern fs timing timing') as (w & -> & Hs); [done..|].
  cbn [mbind outcome_bind]. pose proof (run_simulates es 0 _ w Hs Ha ltac:(lia)) as Hr.
  destruct (arun config c es _) as [s|f]; [|done]. destruct Hr as (w' & Hw' & Hs').
  exists w'. split; [done|]. by eapply simulates_observed.
Qed.

End simulation.

(** ** A parse that stops between two lines goes on where it stopped *)

(** The parser waits for the rest of a line. *)
Definition waits (c : HttpContext) : Prop :=
  HttpContext.state_ c = kExpectRequestLine ∨ HttpContext.state_ c = kExpectHeaders.

Lemma aparse_continue n m t c l x c' rest :
  (length l < n)%nat → (length (l ++ x) < m)%nat → aparse n t c l = Ok (true, c', rest) → waits c' →
  aparse m t c (l ++ x) = parse t c' (rest ++ x).
Proof.
  intros Hn Hm E Hw. revert m c l Hn Hm E. induction n as [|n IH]; intros m c l Hn Hm; [lia|].
  assert (∀ c, aparse m t c (l ++ x) = parse t c (l ++ x)) as Hend by (intros; apply aparse_fuel; lia).
  assert (∀ r l, finish r l = (true, c', rest) → False) as Hfin.
  { intros r l0. unfold finish. repeat case_match; intros [= <- <-]; by destruct Hw. }
  destruct m as [|m]; [lia|]. destruct c as [st r]. cbn [aparse HttpContext.state_ request_]. destruct st.
  - destruct (next_line l) as [[line rest']|] eqn:Hl; [|intros [= <- <-]; apply (Hend (MkHttpContext kExpectRequestLine r))].
    rewrite (next_line_more _ _ _ x Hl). apply next_line_spec in Hl as [-> _]. rewrite !length_app in Hn, Hm. cbn in Hn, Hm.
    destruct (request_line line r) as [[[] r']|]; cbn [mbind outcome_bind]; [|done..].
    apply IH; [lia|rewrite length_app; lia].
  - destruct (next_line l) as [[line rest']|] eqn:Hl; [|intros [= <- <-]; apply (Hend (MkHttpContext kExpectHeaders r))].
    rewrite (next_line_more _ _ _ x Hl). apply next_line_spec in Hl as [-> _]. rewrite !length_app in Hn, Hm. cbn in Hn, Hm.
    destruct (header_line line r) as [r'|]; [apply IH; [lia|rewrite length_app; lia]|]. intros [= Hx]. by apply Hfin in Hx.
  - intros [= Hx]. by apply Hfin in Hx.
  - intros [= <- <-]. by destruct Hw.
Qed.

Lemma parse_continue t c l x c' rest :
  parse t c l = Ok (true, c', rest) → waits c' → parse t c (l ++ x) = parse t c' (rest ++ x).
Proof. intros. unfold parse at 1. by eapply aparse_continue; [..|done|done]; lia. Qed.

(** Nothing was consumed while the parser still waits for the request line. *)
Lemma parse_line_waits t c l c' rest :
  parse t c l = Ok (true, c', rest) → HttpContext.state_ c' = kExpectRequestLine →
  HttpContext.state_ c = kExpectRequestLine ∧ rest = l.
Proof.
  unfold parse. destruct c as [st r]. cbn [aparse HttpContext.state_ request_]. destruct st.
  - destruct (next_line l) as [[line rest']|]; [|by intros [= <- <-]].
    destruct (request_line line r) as [[[] r']|]; cbn [mbind outcome_bind]; [|done..].
    by intros ?%aparse_headers_state.
  - intros E ?. by apply (aparse_headers_state (S (length l)) t r l) in E.
  - intros [= Hf] Hs. unfold finish in Hf. repeat case_match; simplify_eq; done.
  - intros [= <- <-]. done.
Qed.

Lemma parse_untimed t t' c c' l :
  retime 0 c = retime 0 c' → untimed (parse t c l) = untimed (parse t' c' l).
Proof.
  intros E. unfold parse. rewrite <-(aparse_retime _ t 0 0 c), <-(aparse_retime _ t' 0 0 c'). by rewrite E.
Qed.

(** A request line or header line cut off before its end is not a line yet. *)
Lemma headers_prefix hs n t r l more :
  Forall valid_header hs → (length l < n)%nat → more ≠ [] →
  l ++ more = concat ((λ h, print_header h ++ CRLF) <$> hs) ++ CRLF →
  ∃ c' rest, aparse n t (MkHttpContext kExpectHeaders r) l = Ok (true, c', rest) ∧ waits c'.
Proof.
  intros Hv. revert n r l. induction Hv as [|h hs Hh _ IH]; intros n r l Hn Hm E; (destruct n as [|n]; [lia|]);
    cbn [aparse HttpContext.state_ request_];
    (destruct (next_line l) as [[line rest]|] eqn:Hl; [|by eexists _, _; split; [done|right]]).
  - apply next_line_spec in Hl as [-> _]. apply (f_equal length) in E. destruct more; [done|].
    rewrite !length_app in E. cbn in E. lia.
  - pose proof (next_line_more _ _ _ more Hl) as Hl'. apply next_line_spec in Hl as [Hl _].
    rewrite E in Hl'. cbn [fmap list_fmap concat] in Hl', E. rewrite <-!app_assoc, next_line_print in Hl'
      by by apply print_header_clean. injection Hl' as <- Hrest.
    rewrite header_line_print by done. apply (IH n); [|done|by rewrite <-Hrest].
    rewrite Hl, !length_app in Hn. cbn in Hn. lia.
Qed.

(** A new context, up to the body that [Reset] leaves. *)
Definition expects_line (c : HttpContext) : Prop :=
  c = MkHttpContext kExpectRequestLine (SetBody (body_ (request_ c)) HttpRequest_new).

Lemma head_prefix w t c l more :
  valid_wire w → expects_line c → l ++ more = print_head w → more ≠ [] →
  ∃ c' rest, parse t c l = Ok (true, c', rest) ∧ waits c'.
Proof.
  intros Hw Hc E Hm. unfold parse. rewrite Hc. cbn [aparse HttpContext.state_ request_].
  destruct (next_line l) as [[line rest]|] eqn:Hl; [|by eexists _, _; split; [done|left]].
  pose proof (next_line_more _ _ _ more Hl) as Hl'. apply next_line_spec in Hl as [Hl _].
  rewrite E in Hl'. unfold print_head in Hl'. rewrite next_line_print in Hl' by by apply print_line_clean.
  injection Hl' as <- Hrest. rewrite request_line_print by done. cbn [mbind outcome_bind].
  eapply headers_prefix; [by apply all_headers_valid| |exact Hm|by rewrite <-Hrest].
  rewrite Hl, !length_app. cbn. lia.
Qed.

(** ** Well-formed requests on one connection *)

(** The segments [segs] bring the request: the last one completes it, and with it
    the head, so that the body comes in one piece. *)
Record delivers (w : wire_request) (segs : list (Z * bytes)) : Prop := MkDelivers {
  dl_valid : valid_wire w;
  dl_body : sends_body (w_method w) = false → w_body w = [];
  dl_nonempty : Forall (λ seg, seg.2 ≠ []) segs;
  dl_bytes : seg_bytes segs = print_request w;
  dl_last : ∃ init last, segs = init ++ [last] ∧ (length (seg_bytes init) < length (print_head w))%nat;
}.

Section serving.
Context {F T : Type} `{FileSystem F, Timing T}.
Context (config : HttpServerConfig) (c : chan).
Implicit Types s : aserver F T.

Definition real_path_of (w : wire_request) : bytes :=
  match GetRealPath (w_path w) config with Ok p => p | Fail _ => [] end.

(** The reply to a request by the handler's reference. *)
Definition answer (w : wire_request) (fs : F) : reply * bool * F :=
  handle (domain_ config) (real_path_of w) (wants_close (request_of 0 w)) (request_of 0 w) fs.

(** The replies to a list of requests: the bytes, whether the connection is
    still open, and the files. *)
Fixpoint serve (ws : list wire_request) (open : bool) (fs : F) : bytes * bool * F :=
  match ws with
  | [] => ([], open, fs)
  | w :: ws =>
      let '(p, close, fs) := answer w fs in
      let '(out, open', fs) := serve ws (open && negb close) fs in
      ((if open then render p else []) ++ out, open', fs)
  end.

Fixpoint servable (ws : list wire_request) (fs : F) : Prop :=
  match ws with
  | [] => True
  | w :: ws => answerable config (real_path_of w) (request_of 0 w) fs ∧ servable ws (answer w fs).2
  end.

(** Requests the handler cannot tell apart. *)
Definition same_request (r r' : HttpRequest) : Prop :=
  method_ r = method_ r' ∧ version_ r = version_ r' ∧ path_ r = path_ r' ∧ headers_ r = headers_ r' ∧
  (method_ r = kPut → body_ r = body_ r').

Lemma handle_same domain real_path close r r' (fs : F) :
  same_request r r' → handle domain real_path close r fs = handle domain real_path close r' fs.
Proof.
  intros (Hm & _ & Hp & _ & Hb). unfold handle. rewrite <-Hm, <-Hp. destruct (method_ r); try done. by rewrite Hb.
Qed.

Lemma wants_close_same r r' : same_request r r' → wants_close r = wants_close r'.
Proof. intros (_ & Hv & _ & Hh & _). unfold wants_close, GetHeader. by rewrite Hv, Hh. Qed.

Lemma OnRequest_same r r' real_path (fs : F) :
  same_request r r' → answerable config real_path r' fs →
  let '(p, close, fs') := handle (domain_ config) real_path (wants_close r') r' fs in
  OnRequest config None r fs = Ok (fs', reply_calls p close).
Proof.
  intros Hs [Hp Hsm Hf]. rewrite <-(wants_close_same _ _ Hs), <-(handle_same _ _ _ _ _ _ Hs) in *.
  apply (OnRequest_answerable config real_path r fs). split; [|done..]. destruct Hs as (_ & _ & -> & _). done.
Qed.

(** The timing object accepts messages. *)
Context (alive : T → Prop).
Hypothesis alive_step : ∀ t x, alive x → ∃ x', Timing.OnMessage c t x = Ok x' ∧ alive x'.

(** The bytes [l] of a request that the context [c0] expects have arrived. *)
Record partway (c0 : HttpContext) (l : bytes) (s : aserver F T) : Prop := MkPartway {
  pw_waits : waits (a_context s);
  pw_alive : alive (a_timing s);
  pw_parse : ∀ t x, untimed (parse t (a_context s) (a_unread s ++ x)) = untimed (parse 0 c0 (l ++ x));
}.

Definition same_output s s' : Prop := a_files s' = a_files s ∧ a_sent s' = a_sent s ∧ a_open s' = a_open s.

Lemma segment_partway w c0 l s t data more :
  valid_wire w → expects_line c0 → partway c0 l s → (l ++ data) ++ more = print_head w → more ≠ [] →
  ∃ s', areact config c t data s = Ok s' ∧ partway c0 (l ++ data) s' ∧ same_output s s' ∧
    (HttpContext.state_ (a_context s') = kExpectRequestLine → line_start s data s').
Proof.
  intros Hw Hc0 [_ Ha Hp] E Hm. destruct (alive_step t _ Ha) as (timing' & Ht & Ha').
  destruct (head_prefix w 0 c0 (l ++ data) more Hw Hc0 E Hm) as (c' & rest & Hpre & Hwait).
  pose proof (Hp t data) as Hd. rewrite Hpre in Hd. cbn [untimed mbind outcome_bind] in Hd.
  destruct (untimed_inv _ _ _ _ Hd) as (c'' & Hc'' & Heq).
  assert (waits c'') as Hwait'. { unfold waits in *. by rewrite <-(proj1 (retime_same _ _ Heq)). }
  unfold areact. rewrite Ht. cbn [mbind outcome_bind]. rewrite Hc''. cbn [mbind outcome_bind].
  unfold IsGotAll. rewrite bool_decide_false by (destruct Hwait' as [-> | ->]; done).
  eexists. split; [done|]. split; [|split; [done|]].
  - split; [done|done|]. intros t' x. cbn [acalls foldl a_context a_unread].
    rewrite (parse_continue 0 c0 (l ++ data) x c' rest Hpre Hwait). by apply parse_untimed.
  - cbn. intros Hst. right. right. destruct (parse_line_waits _ _ _ _ _ Hc'' Hst) as [Hs1 Hs2]. cbn. split; [congruence|done].
Qed.

Definition reading (segs : list (Z * bytes)) : list socket_event := (λ seg, Readable seg.1 seg.2) <$> segs.

Lemma segments_partway w c0 segs l s more :
  valid_wire w → expects_line c0 → partway c0 l s → Forall (λ seg, seg.2 ≠ []) segs →
  (l ++ seg_bytes segs) ++ more = print_head w → more ≠ [] → 2 * kCheapPrepend + zlen (a_sent s) ≤ vector_max_size →
  ∃ s', arun config c (reading segs) s = Ok s' ∧ affordable config c (reading segs) s ∧
    partway c0 (l ++ seg_bytes segs) s' ∧ same_output s s'.
Proof.
  intros Hw Hc0 Hp Hne. revert l s Hp. induction Hne as [|[t data] segs Hd _ IH]; intros l s Hp E Hm Hb.
  { exists s. rewrite app_nil_r. done. }
  change (seg_bytes ((t, data) :: segs)) with (data ++ seg_bytes segs) in *.
  change (reading ((t, data) :: segs)) with (Readable t data :: reading segs). cbn [arun affordable astep received].
  destruct (segment_partway w c0 l s t data (seg_bytes segs ++ more)) as (s1 & -> & Hp1 & (Hf & Hs & Ho) & Hl); [done..| | |].
  { by rewrite <-E, <-!app_assoc. }
  { intros [_ ?]%app_eq_nil. done. }
  cbn [mbind outcome_bind]. rewrite app_assoc in E |- *.
  destruct (IH (l ++ data) s1) as (s' & Hrun & Haf & Hp' & (Hf' & Hs' & Ho')); [done..|by rewrite Hs|].
  exists s'. split; [done|]. split; [|split; [done|unfold same_output; by rewrite Hf', Hs', Ho']].
  split; [done|]. by rewrite Hs.
Qed.

(** Between two requests. *)
Record at_rest (s : aserver F T) : Prop := MkAtRest {
  ar_context : expects_line (a_context s);
  ar_unread : a_unread s = [];
  ar_alive : alive (a_timing s);
}.

Lemma at_rest_partway s : at_rest s → partway (a_context s) [] s.
Proof.
  intros [Hc Hu Ha]. split; [left; by rewrite Hc|done|]. intros t x. rewrite Hu. by apply parse_untimed.
Qed.

(** What the server has done once the request [w] was answered. *)
Definition answered (w : wire_request) s s' : Prop :=
  let '(p, close, fs) := answer w (a_files s) in
  at_rest s' ∧ a_files s' = fs ∧ a_sent s' = a_sent s ++ (if a_open s then render p else []) ∧
  a_open s' = a_open s && negb close.

Lemma finish_wire w t (body : bytes) :
  valid_wire w → (sends_body (w_method w) = false → w_body w = []) →
  ∃ r, finish (MkHttpRequest (w_method w) (w_version w) (w_path w) (w_query w) t (add_headers (all_headers w) ∅) body)
         (w_body w) = (true, MkHttpContext kGotAll r, []) ∧ same_request r (request_of 0 w).
Proof.
  intros Hw Hnb. unfold request_of. destruct (sends_body (w_method w)) eqn:Es.
  - rewrite (finish_body w t); [|done|apply Hw|done..]. rewrite Z.eqb_refl. by eexists.
  - rewrite (Hnb eq_refl). unfold finish, expects_body. cbn [method_]. unfold sends_body in Es. rewrite Es.
    eexists. split; [done|]. unfold same_request. cbn. repeat (split; [done|]). intros Hm. by rewrite Hm in Es.
Qed.

Lemma retime_request c1 r : retime 0 c1 = retime 0 (MkHttpContext kGotAll r) → same_request (request_ c1) r ∧ HttpContext.state_ c1 = kGotAll.
Proof.
  destruct c1 as [st [m1 v1 p1 q1 t1 h1 b1]], r as [m v p q t h b]. unfold retime, SetReceiveTime, same_request. cbn.
  intros [= -> -> -> -> -> -> ->]. done.
Qed.

Lemma acalls_reply p close s :
  acalls (reply_calls p close) s =
  MkServer (a_context s) (a_unread s) (a_files s) (a_timing s) (a_sent s ++ (if a_open s then render p else []))
    (a_open s && negb close).
Proof. destruct s as [? ? ? ? ? []], close; cbn; by rewrite ?app_nil_r. Qed.

Lemma request_completed w c0 l s t data :
  valid_wire w → (sends_body (w_method w) = false → w_body w = []) → expects_line c0 → partway c0 l s →
  l ++ data = print_request w → answerable config (real_path_of w) (request_of 0 w) (a_files s) →
  ∃ s', areact config c t data s = Ok s' ∧ answered w s s'.
Proof.
  intros Hw Hnb Hc0 [_ Ha Hp] E Han. destruct (alive_step t _ Ha) as (timing' & Ht & Ha').
  pose proof (Hp t data) as Hd. rewrite E in Hd. unfold print_request in Hd. rewrite (parse_head w 0 c0) in Hd by done.
  destruct (finish_wire w 0 (body_ (request_ c0)) Hw Hnb) as (r & Hfin & Hsame). rewrite Hfin in Hd.
  destruct (untimed_inv _ _ _ _ Hd) as (c1 & Hc1 & Heq). symmetry in Heq.
  destruct (retime_request c1 r Heq) as [Hsame1 Hgot].
  assert (same_request (request_ c1) (request_of 0 w)) as Hreq.
  { destruct Hsame as (? & ? & ? & ? & Hb), Hsame1 as (? & ? & ? & ? & Hb1). unfold same_request.
    repeat (split; [congruence|]). intros. rewrite Hb1, Hb; congruence. }
  unfold areact. rewrite Ht. cbn [mbind outcome_bind]. rewrite Hc1. cbn [mbind outcome_bind].
  unfold IsGotAll. rewrite bool_decide_true by done.
  pose proof (OnRequest_same _ _ _ _ Hreq Han) as Hon. unfold answered, answer. destruct (handle _ _ _ _ _) as [[p close] fs'].
  rewrite Hon. cbn [mbind outcome_bind app]. eexists. split; [done|]. rewrite acalls_reply. cbn. by split.
Qed.

Lemma answered_sent w s s' : answered w s s' → zlen (a_sent s) ≤ zlen (a_sent s').
Proof.
  unfold answered. destruct (answer _ _) as [[p close] fs]. intros (_ & _ & -> & _). rewrite zlen_app.
  pose proof (zlen_nonneg (if a_open s then render p else [])). lia.
Qed.

Lemma arun_app es1 es2 s : arun config c (es1 ++ es2) s = (s ← arun config c es1 s; arun config c es2 s).
Proof. revert s. induction es1 as [|e es1 IH]; intros s; [done|]. cbn. destruct (astep _ _ e s); [apply IH|done]. Qed.

Lemma affordable_app es1 es2 s s' :
  affordable config c es1 s → arun config c es1 s = Ok s' → affordable config c es2 s' → affordable config c (es1 ++ es2) s.
Proof.
  revert s. induction es1 as [|e es1 IH]; intros s; cbn [arun affordable app]; [by intros _ [= ->]|].
  intros [? Hs]. split; [done|]. destruct (astep config c e s) as [s1|]; [|done]. cbn [mbind outcome_bind] in *.
  destruct Hs as (? & ? & ?). split; [done|]. split; [done|]. by apply IH.
Qed.

Lemma request_served w segs s :
  delivers w segs → at_rest s → answerable config (real_path_of w) (request_of 0 w) (a_files s) →
  (∀ s', answered w s s' → 2 * kCheapPrepend + zlen (a_sent s') ≤ vector_max_size) →
  ∃ s', arun config c (reading segs) s = Ok s' ∧ affordable config c (reading segs) s ∧ answered w s s'.
Proof.
  intros [Hw Hnb Hne Hby (init & [t data] & -> & Hlt)] Hr Han Hbound.
  apply Forall_app in Hne as [Hne Hlast]. apply Forall_cons in Hlast as [Hd _]. cbn [snd] in Hd.
  assert (seg_bytes (init ++ [(t, data)]) = seg_bytes init ++ data) as Esb.
  { unfold seg_bytes. rewrite fmap_app, concat_app. cbn. by rewrite app_nil_r. }
  rewrite Esb in Hby.
  assert (∃ more, seg_bytes init ++ more = print_head w ∧ more ≠ []) as (more & Hmore & Hne').
  { unfold print_request in Hby. destruct (app_eq_inv _ _ _ _ Hby) as [(k & Hk & _)|(k & Hk & _)].
    - apply (f_equal length) in Hk. rewrite length_app in Hk. lia.
    - exists k. split; [done|]. intros ->. rewrite app_nil_r in Hk. rewrite <-Hk in Hlt. lia. }
  pose proof (ar_context _ Hr) as Hc0. pose proof (at_rest_partway s Hr) as Hp.
  assert (2 * kCheapPrepend + zlen (a_sent s) ≤ vector_max_size) as Hb0.
  { destruct (request_completed w (a_context s) [] s 0 (print_request w)) as (s' & _ & Ha); [done..|].
    pose proof (answered_sent _ _ _ Ha). specialize (Hbound _ Ha). lia. }
  destruct (segments_partway w (a_context s) init [] s more) as (s1 & Hrun & Haf & Hp1 & (Hf & Hs & Ho)); [done..|].
  destruct (request_completed w (a_context s) (seg_bytes init) s1 t data) as (s2 & Hlast & Ha); [done..|by rewrite Hf|].
  assert (answered w s s2) as Ha2. { unfold answered in *. by rewrite Hf, Hs, Ho in Ha. }
  unfold reading. rewrite fmap_app. fold (reading init). cbn [fmap list_fmap fst snd].
  exists s2. rewrite arun_app, Hrun. cbn [mbind outcome_bind arun astep]. rewrite Hlast. split; [done|]. split; [|done].
  eapply affordable_app; [done..|]. cbn [affordable astep received]. rewrite Hlast. split; [done|].
  split; [by apply Hbound|]. split; [|done]. intros _. left. unfold answered in Ha2. destruct (answer _ _) as [[? ?] ?].
  apply Ha2.
Qed.

Lemma requests_served ws segss s :
  Forall2 delivers ws segss → at_rest s → servable ws (a_files s) →
  let '(out, open, fs) := serve ws (a_open s) (a_files s) in
  2 * kCheapPrepend + zlen (a_sent s) + zlen out ≤ vector_max_size →
  ∃ s', arun config c (reading (concat segss)) s = Ok s' ∧ affordable config c (reading (concat segss)) s ∧
    at_rest s' ∧ a_files s' = fs ∧ a_sent s' = a_sent s ++ out ∧ a_open s' = open.
Proof.
  intros Hd. revert s. induction Hd as [|w segs ws segss Hw _ IH]; intros s Hr Hsv; cbn [serve servable concat] in *.
  { intros _. exists s. by rewrite app_nil_r. }
  destruct Hsv as [Han Hsv]. destruct (answer w (a_files s)) as [[p close] fs1] eqn:Ea. cbn [snd] in Hsv.
  destruct (serve ws (a_open s && negb close) fs1) as [[out open] fs] eqn:Es. intros Hb. rewrite zlen_app in Hb.
  pose proof (zlen_nonneg out) as Ho.
  destruct (request_served w segs s) as (s1 & Hrun & Haf & Ha); [done..| |].
  { intros s' Ha. unfold answered in Ha. rewrite Ea in Ha. destruct Ha as (_ & _ & -> & _). rewrite zlen_app. lia. }
  unfold answered in Ha. rewrite Ea in Ha. destruct Ha as (Hr1 & Hf1 & Hs1 & Ho1).
  specialize (IH s1 Hr1). rewrite Hf1, Ho1, Es in IH.
  destruct IH as (s' & Hrun' & Haf' & Hr' & Hf' & Hs' & Ho'); [done|rewrite Hs1, zlen_app; lia|].
  exists s'. unfold reading in *. rewrite fmap_app, arun_app, Hrun. cbn [mbind outcome_bind].
  split; [done|]. split; [by eapply affordable_app|]. by rewrite Hs', Hs1, <-app_assoc.
Qed.

(** The input of a run, without the writable events in between. *)
Definition reads (es : list socket_event) : list (Z * bytes) :=
  omap (λ e, match e with Readable t data => Some (t, data) | Writable => None end) es.

Lemma arun_reads es s : arun config c es s = arun config c (reading (reads es)) s.
Proof.
  revert s. induction es as [|[t data|] es IH]; intros s; [done| |apply IH].
  change (reading (reads (Readable t data :: es))) with (Readable t data :: reading (reads es)). cbn.
  destruct (areact _ _ _ _ _); [apply IH|done].
Qed.

Lemma affordable_reads es s :
  2 * kCheapPrepend + zlen (a_sent s) ≤ vector_max_size → affordable config c (reading (reads es)) s → affordable config c es s.
Proof.
  revert s. induction es as [|[t data|] es IH]; intros s Hb; [done| |].
  - change (reading (reads (Readable t data :: es))) with (Readable t data :: reading (reads es)).
    cbn [affordable astep]. destruct (areact _ _ _ _ _); [|done]. intros (? & ? & ? & ?). auto.
  - intros Haf. cbn. split; [done|]. split; [done|]. split; [|by apply IH].
    intros _. right. right. by rewrite app_nil_r.
Qed.

End serving.

Lemma input_reads es : input es = seg_bytes (reads es).
Proof.
  unfold input, seg_bytes. induction es as [|[t data|] es IH]; [done| |apply IH].
  cbn [fmap list_fmap concat received]. rewrite IH. done.
Qed.

(** The server answers every request of a connection, in order.  On a newly
    accepted connection let well-formed requests arrive, cut into any non-empty
    segments (each body with the end of its head), with writable events anywhere
    in between and any partial writes: no assertion fails and no exception is
    thrown, what the socket took followed by the output buffer is exactly the
    rendered replies of the reference handler in the order of the requests, up to
    the first reply after which the connection closes; the files are those the
    requests leave; nothing of the input is left over; and the write side is shut
    down exactly when a reply closed the connection and all replies are on the
    wire. *)
Theorem http_connection_serves {P F T} `{PollerInv P inv, FileSystem F, Timing T}
    (now : Z) config c (alive : T → Prop) p h r x kern (fs : F) (timing timing' : T) ws segss es out open fs' :
  fresh (inv := inv) p h r c x → Forall (λ a, is_fault a = false) kern →
  Timing.OnConnection c (MkConnView true true) now timing = Ok timing' → alive timing' →
  (∀ t y, alive y → ∃ y', Timing.OnMessage c t y = Ok y' ∧ alive y') →
  Forall2 delivers ws segss → reads es = concat segss → servable config ws fs →
  serve config ws true fs = (out, open, fs') →
  2 * kCheapPrepend + zlen (input es) ≤ vector_max_size → 2 * kCheapPrepend + zlen out ≤ vector_max_size →
  ∃ w, (w ← http_establish now c p h kern fs timing; socket_run now config es w) = Ok w ∧
    wire w ++ contents (output_buffer_ (conn w)) = out ∧ s_files (session_of w) = fs' ∧
    contents (input_buffer_ (conn w)) = [] ∧ (write_shut w = true ↔ open = false ∧ wire w = out).
Proof.
  intros Hf Hk Ht Ha Hal Hd He Hsv Hse Hin Hout.
  assert (at_rest alive (accepted_server fs timing')) as Hr by done.
  pose proof (requests_served config c alive Hal ws segss _ Hd Hr Hsv) as Hs. cbn [accepted_server a_files a_open a_sent] in Hs.
  rewrite Hse in Hs. destruct Hs as (s & Hrun & Haf & Hr' & Hfs & Hsent & Hop); [rewrite zlen_nil; lia|].
  rewrite <-He, <-arun_reads in Hrun. rewrite <-He in Haf. apply affordable_reads in Haf; [|done].
  destruct (http_establish_simulates now c p h r x kern fs timing timing') as (w0 & -> & Hs0); [done..|].
  pose proof (run_simulates now config c es 0 _ w0 Hs0 Haf ltac:(lia)) as Hw.
  fold (accepted_server fs timing') in Hrun. rewrite Hrun in Hw. destruct Hw as (w & Hw & Hsim). cbn [mbind outcome_bind].
  exists w. destruct (simulates_observed _ _ _ _ Hsim) as (Hb & Hu & Hc & Hsh). rewrite Hsent, Hop in *.
  split; [done|]. split; [done|]. rewrite Hu, Hc. split; [done|]. split; [apply Hr'|done].
Qed.

(** ** A [PUT] in two segments and a [GET] that closes, with the timing list *)
Definition list_alive (c : chan) (l : TList.TimingList) : Prop :=
  TList.last_receive_time l !! c ≠ None ∧ c ∈ TList.connection_list_ l.

Lemma list_alive_step c t l : list_alive c l → ∃ l', Timing.OnMessage c t l = Ok l' ∧ list_alive c l'.
Proof.
  intros [Hn Hin]. cbn. unfold TList.OnMessage, TList.erase. rewrite !bool_decide_true by done.
  cbn [cassert mbind outcome_bind]. rewrite bool_decide_true by by rewrite last_snoc. cbn [cassert mbind outcome_bind].
  eexists. split; [done|]. split; cbn; [by rewrite lookup_insert_eq|set_solver].
Qed.

Definition sample_requests : list wire_request :=
  [MkWire kPut (str "f") [] kHttp11 [] (str "hi"); MkWire kGet (str "f") [] kHttp10 [] []].
Definition sample_segments : list (list (Z * bytes)) :=
  [[(1, take 10 (print_request (MkWire kPut (str "f") [] kHttp11 [] (str "hi"))));
    (2, drop 10 (print_request (MkWire kPut (str "f") [] kHttp11 [] (str "hi"))))];
   [(3, print_request (MkWire kGet (str "f") [] kHttp10 [] []))]].
Definition sample_events : list socket_event :=
  match reading (concat sample_segments) with
  | [e1; e2; e3] => [e1; e2; Writable; e3; Writable]
  | es => es
  end.

Lemma sample_delivers : Forall2 delivers sample_requests sample_segments.
Proof.
  repeat constructor; try (apply (bool_decide_unpack _); vm_compute; exact I); try discriminate; try done; cbn;
    try by left.
  - by eexists [_], _; split; [reflexivity|vm_compute; lia].
  - by eexists [], _; split; [reflexivity|vm_compute; lia].
Qed.

Lemma sample_servable : servable sample_config sample_requests (∅ : gmap bytes bytes).
Proof. repeat split; vm_compute; (reflexivity || discriminate). Qed.

Lemma http_connection_serves_witness :
  ∃ w, (w ← http_establish 0 1 sample_poller {[1 := Channel_new 5]} sample_answers (∅ : gmap bytes bytes)
             (TList.TimingList_new 8);
        socket_run 0 sample_config sample_events w) = Ok w ∧
    wire w ++ contents (output_buffer_ (conn w)) = (serve sample_config sample_requests true (∅ : gmap bytes bytes)).1.1 ∧
    s_files (session_of w) !! sample_path = Some (str "hi").
Proof.
  set (served := serve sample_config sample_requests true (∅ : gmap bytes bytes)).
  destruct (http_connection_serves (inv := epoll_inv) 0 sample_config 1 (list_alive 1) sample_poller
    {[1 := Channel_new 5]} (MkRegistry ∅ ∅) (Channel_new 5) sample_answers (∅ : gmap bytes bytes)
    (TList.TimingList_new 8) (TList.MkTimingList 8 [1] {[1 := 0]}) sample_requests sample_segments sample_events
    served.1.1 served.1.2 served.2)
    as (w & H1 & H2 & H3 & _).
  - exact sample_fresh.
  - apply (bool_decide_unpack _). vm_compute. exact I.
  - vm_compute. reflexivity.
  - split; [vm_compute; discriminate|cbn; set_solver].
  - intros t y. apply list_alive_step.
  - exact sample_delivers.
  - vm_compute. reflexivity.
  - exact sample_servable.
  - fold served. destruct served as [[? ?] ?]. reflexivity.
  - vm_compute. discriminate.
  - vm_compute. discriminate.
  - exists w. split; [exact H1|]. split; [exact H2|]. rewrite H3. vm_compute. reflexivity.
Defined.

(** One more byte after a refused request line stops the whole server. *)
Lemma http_connection_refines_witness :
  (w ← http_establish 0 1 sample_poller {[1 := Channel_new 5]} sample_answers (∅ : gmap bytes bytes) (TList.TimingList_new 8);
   socket_run 0 sample_config [Readable 1 (str "GET / HTTP/2.0" ++ CRLF); Readable 2 (str "x")] w)
  = Fail (AssertionFailed "method_ == kInvalid").
Proof.
  refine (http_connection_refines (inv := epoll_inv) 0 sample_config 1 sample_poller
    {[1 := Channel_new 5]} (MkRegistry ∅ ∅) (Channel_new 5) sample_answers (∅ : gmap bytes bytes)
    (TList.TimingList_new 8) (TList.MkTimingList 8 [1] {[1 := 0]})
    [Readable 1 (str "GET / HTTP/2.0" ++ CRLF); Readable 2 (str "x")] sample_fresh _ _ _ _).
  - apply (bool_decide_unpack _). vm_compute. exact I.
  - vm_compute. reflexivity.
  - split; [discriminate|]. split; [vm_compute; discriminate|]. split; [|split; [discriminate|exact I]].
    intros _. right. right. split; vm_compute; reflexivity.
  - vm_compute. discriminate.
Defined.
