(* ===== verification/TimerQueue.v ===== *)
(** * [net::TimerQueue] and [net::Timer] (net/timer_queue.h, net/timer_queue.cc,
    net/timer.h, net/timer.cc, net/timer_id.h)

    The timers of a loop: a [std::set] of (expiration, [Timer*]) pairs in
    order, a second set to find a timer by its id, and a timerfd armed for the
    earliest expiration.  A timer's callback may add and cancel timers while
    [HandleRead] is running the expired ones.  Timers live in a heap: a pointer
    can be dangling, and the allocator may hand out an address again once its
    timer is deleted.  Times are in microseconds. *)

From stdpp Require Import base tactics list numbers strings sets gmap sorting.
From Stdlib Require Import ZArith Lia.
From S2P Require Import Prelude.

(** ** [Timer] *)
Record Timer := MkTimer {
  callback_ : Z;
  expiration_ : Z;
  interval_ : Z;          (* Timestamp(interval_) in microseconds *)
  is_repeat_ : bool;      (* interval > 0.0 *)
  sequence_ : Z;
}.

(** [int64_t] addition. *)
Definition add_int64 (a b : Z) : outcome Z :=
  if bool_decide (- 2 ^ 63 ≤ a + b < 2 ^ 63) then Ok (a + b) else Fail (UndefinedBehaviour "signed overflow").

Definition Restart (now : Z) (t : Timer) : outcome Timer :=
  e ← (if is_repeat_ t then add_int64 now (interval_ t) else Ok 0);
  Ok (MkTimer (callback_ t) e (interval_ t) (is_repeat_ t) (sequence_ t)).

(** ** [std::set<Entry>]: pairs in lexicographic order *)
Abbreviation Entry := (Z * Z)%type.
Abbreviation TimerId := (Z * Z)%type.       (* timer_, sequence_ *)

Definition entry_lt (a b : Entry) : bool := (a.1 <? b.1) || (a.1 =? b.1) && (a.2 <? b.2).

Fixpoint set_insert (e : Entry) (l : list Entry) : list Entry * bool :=
  match l with
  | [] => ([e], true)
  | x :: l' =>
      if entry_lt e x then (e :: l, true)
      else if entry_lt x e then (let '(r, b) := set_insert e l' in (x :: r, b))
      else (l, false)
  end.

(** [erase(key)]: the set and the number of elements removed. *)
Fixpoint set_erase (e : Entry) (l : list Entry) : list Entry * Z :=
  match l with
  | [] => ([], 0)
  | x :: l' =>
      if bool_decide (x = e) then (l', 1)
      else (let '(r, n) := set_erase e l' in (x :: r, n))
  end.

(** The elements before [lower_bound(e)] and those from it on. *)
Fixpoint lower_bound (e : Entry) (l : list Entry) : list Entry * list Entry :=
  match l with
  | [] => ([], [])
  | x :: l' => if entry_lt x e then (let '(a, b) := lower_bound e l' in (x :: a, b)) else ([], l)
  end.

(** ** The queue *)
Record TimerQueue := MkQueue {
  heap_ : gmap Z Timer;
  timers_ : list Entry;
  active_timers_ : gset TimerId;
  is_calling_expired_timers_ : bool;
  canceling_timers_ : gset TimerId;
  timerfd_ : option Z;                 (* when the timerfd fires *)
  now_ : Z;                            (* what Timestamp::Now() answers *)
  num_created_ : Z;
  ran_ : list Z;                       (* sequence numbers of the timers whose callback was called *)
}.

Definition TimerQueue_new (now : Z) : TimerQueue := MkQueue ∅ [] ∅ false ∅ None now 0 [].

Definition UINTPTR_MAX : Z := 2 ^ 64 - 1.
Definition kMicroSecondsPerSecond : Z := 1000000.

(** [HowMuchTimeFromNow]: a [timespec]. *)
Definition HowMuchTimeFromNow (when now : Z) : outcome (Z * Z) :=
  d ← add_int64 when (- now);
  let microseconds := if d <? 100 then 100 else d in
  Ok (Z.quot microseconds kMicroSecondsPerSecond, Z.rem microseconds kMicroSecondsPerSecond * 1000).

Definition ResetTimerfd (expiration : Z) (q : TimerQueue) : outcome TimerQueue :=
  '(tv_sec, tv_nsec) ← HowMuchTimeFromNow expiration (now_ q);
  Ok (MkQueue (heap_ q) (timers_ q) (active_timers_ q) (is_calling_expired_timers_ q) (canceling_timers_ q)
        (Some (now_ q + tv_sec * 1000000 + tv_nsec / 1000)) (now_ q) (num_created_ q) (ran_ q)).

Definition timer_at (h : gmap Z Timer) (p : Z) : outcome Timer :=
  match h !! p with Some t => Ok t | None => Fail (UndefinedBehaviour "dangling Timer*") end.

Definition sizes_agree (q : TimerQueue) : outcome unit :=
  cassert "timers_.size() == active_timers_.size()"
    (bool_decide (Z.of_nat (length (timers_ q)) = Z.of_nat (size (active_timers_ q)))).

Definition set_sets (ts : list Entry) (act : gset TimerId) (q : TimerQueue) : TimerQueue :=
  MkQueue (heap_ q) ts act (is_calling_expired_timers_ q) (canceling_timers_ q) (timerfd_ q) (now_ q)
    (num_created_ q) (ran_ q).
Definition set_heap (h : gmap Z Timer) (q : TimerQueue) : TimerQueue :=
  MkQueue h (timers_ q) (active_timers_ q) (is_calling_expired_timers_ q) (canceling_timers_ q) (timerfd_ q) (now_ q)
    (num_created_ q) (ran_ q).
Definition set_calling (b : bool) (q : TimerQueue) : TimerQueue :=
  MkQueue (heap_ q) (timers_ q) (active_timers_ q) b (canceling_timers_ q) (timerfd_ q) (now_ q)
    (num_created_ q) (ran_ q).
Definition set_canceling (s : gset TimerId) (q : TimerQueue) : TimerQueue :=
  MkQueue (heap_ q) (timers_ q) (active_timers_ q) (is_calling_expired_timers_ q) s (timerfd_ q) (now_ q)
    (num_created_ q) (ran_ q).
(** [read(timerfd_)]: an expired one-shot timer is no longer armed. *)
Definition ReadTimerfd (q : TimerQueue) : TimerQueue :=
  MkQueue (heap_ q) (timers_ q) (active_timers_ q) (is_calling_expired_timers_ q) (canceling_timers_ q) None (now_ q)
    (num_created_ q) (ran_ q).
Definition log_run (s : Z) (q : TimerQueue) : TimerQueue :=
  MkQueue (heap_ q) (timers_ q) (active_timers_ q) (is_calling_expired_timers_ q) (canceling_timers_ q) (timerfd_ q) (now_ q)
    (num_created_ q) (ran_ q ++ [s]).

Definition Insert (p : Z) (q : TimerQueue) : outcome (TimerQueue * bool) :=
  sizes_agree q;;
  t ← timer_at (heap_ q) p;
  let when := expiration_ t in
  let earliest_changed := match timers_ q with [] => true | e :: _ => when <? e.1 end in
  let '(ts, inserted) := set_insert (when, p) (timers_ q) in
  cassert "result.second" inserted;;
  let id := (p, sequence_ t) in
  cassert "result.second" (bool_decide (id ∉ active_timers_ q));;
  let q := set_sets ts ({[id]} ∪ active_timers_ q) q in
  sizes_agree q;;
  Ok (q, earliest_changed).

Definition AddTimerInLoop (p : Z) (q : TimerQueue) : outcome TimerQueue :=
  '(q, earliest_changed) ← Insert p q;
  if earliest_changed : bool then
    t ← timer_at (heap_ q) p;
    ResetTimerfd (expiration_ t) q
  else Ok q.

Definition CancelInLoop (timer : TimerId) (q : TimerQueue) : outcome TimerQueue :=
  sizes_agree q;;
  q ← (if bool_decide (timer ∈ active_timers_ q) then
         t ← timer_at (heap_ q) timer.1;
         let '(ts, n) := set_erase (expiration_ t, timer.1) (timers_ q) in
         cassert "n == 1" (n =? 1);;
         Ok (set_heap (delete timer.1 (heap_ q)) (set_sets ts (active_timers_ q ∖ {[timer]}) q))
       else if is_calling_expired_timers_ q then Ok (set_canceling ({[timer]} ∪ canceling_timers_ q) q)
       else Ok q);
  sizes_agree q;;
  Ok q.

(** Erase the expired timers from the active set. *)
Fixpoint erase_active (expired : list Entry) (h : gmap Z Timer) (act : gset TimerId) : outcome (gset TimerId) :=
  match expired with
  | [] => Ok act
  | e :: l =>
      t ← timer_at h e.2;
      cassert "n == 1" (bool_decide ((e.2, sequence_ t) ∈ act));;
      erase_active l h (act ∖ {[(e.2, sequence_ t)]})
  end.

Definition GetExpired (now : Z) (q : TimerQueue) : outcome (list Entry * TimerQueue) :=
  sizes_agree q;;
  let '(expired, rest) := lower_bound (now, UINTPTR_MAX) (timers_ q) in
  cassert "end == timers_.end() || now < end->first" (match rest with [] => true | e :: _ => now <? e.1 end);;
  act ← erase_active expired (heap_ q) (active_timers_ q);
  let q := set_sets rest act q in
  sizes_agree q;;
  Ok (expired, q).

(** [Reset]: repeat or delete each expired timer, then arm for the next one. *)
Fixpoint reset_each (expired : list Entry) (now : Z) (q : TimerQueue) : outcome TimerQueue :=
  match expired with
  | [] => Ok q
  | e :: l =>
      t ← timer_at (heap_ q) e.2;
      q ← (if is_repeat_ t && bool_decide ((e.2, sequence_ t) ∉ canceling_timers_ q) then
             t' ← Restart now t;
             '(q, _) ← Insert e.2 (set_heap (<[e.2 := t']> (heap_ q)) q);
             Ok q
           else Ok (set_heap (delete e.2 (heap_ q)) q));
      reset_each l now q
  end.

Definition Reset (expired : list Entry) (now : Z) (q : TimerQueue) : outcome TimerQueue :=
  q ← reset_each expired now q;
  next_expire ← (match timers_ q with
                 | [] => Ok 0
                 | e :: _ => t ← timer_at (heap_ q) e.2; Ok (expiration_ t)
                 end);
  if 0 <? next_expire then ResetTimerfd next_expire q else Ok q.

(** ** Callbacks *)

(** What a callback asks of the queue, in the loop's thread. *)
Inductive request :=
| ReqAdd (callback when interval : Z) (repeat : bool)
| ReqCancel (id : TimerId).

Section queue.
(** The requests each callback makes, and the address [new Timer] returns for
    the timers alive. *)
Context (program : Z → list request) (alloc : gmap Z Timer → Z).

Definition AddTimer (cb when interval : Z) (repeat : bool) (q : TimerQueue) : outcome (TimerQueue * TimerId) :=
  let p := alloc (heap_ q) in
  let s := num_created_ q + 1 in
  let q := MkQueue (<[p := MkTimer cb when interval repeat s]> (heap_ q)) (timers_ q) (active_timers_ q)
             (is_calling_expired_timers_ q) (canceling_timers_ q) (timerfd_ q) (now_ q) s (ran_ q) in
  q ← AddTimerInLoop p q;
  Ok (q, (p, s)).

Definition do_request (r : request) (q : TimerQueue) : outcome TimerQueue :=
  match r with
  | ReqAdd cb when interval repeat => '(q, _) ← AddTimer cb when interval repeat q; Ok q
  | ReqCancel id => CancelInLoop id q
  end.

Fixpoint do_requests (rs : list request) (q : TimerQueue) : outcome TimerQueue :=
  match rs with
  | [] => Ok q
  | r :: rs => q ← do_request r q; do_requests rs q
  end.

(** [it.second->Run()] for each expired timer. *)
Fixpoint run_each (expired : list Entry) (q : TimerQueue) : outcome TimerQueue :=
  match expired with
  | [] => Ok q
  | e :: l =>
      t ← timer_at (heap_ q) e.2;
      q ← do_requests (program (callback_ t)) (log_run (sequence_ t) q);
      run_each l q
  end.

Definition HandleRead (q : TimerQueue) : outcome TimerQueue :=
  let now := now_ q in
  let q := ReadTimerfd q in
  '(expired, q) ← GetExpired now q;
  q ← run_each expired (set_canceling ∅ (set_calling true q));
  Reset expired now (set_calling false q).

End queue.

(** ** The ordered set *)
Definition before (a b : Entry) : Prop := entry_lt a b = true.

Lemma entry_lt_spec a b : entry_lt a b = true ↔ a.1 < b.1 ∨ a.1 = b.1 ∧ a.2 < b.2.
Proof. unfold entry_lt. rewrite orb_true_iff, andb_true_iff, !Z.ltb_lt, Z.eqb_eq. done. Qed.

Lemma before_trans a b c : before a b → before b c → before a c.
Proof. unfold before. rewrite !entry_lt_spec. lia. Qed.

Lemma before_total a b : entry_lt a b = false → entry_lt b a = false → a = b.
Proof.
  intros H1 H2. apply not_true_iff_false in H1, H2. rewrite entry_lt_spec in H1, H2.
  destruct a as [a1 a2], b as [b1 b2]; cbn in *. f_equal; lia.
Qed.

Abbreviation sorted := (StronglySorted before).

Lemma set_insert_spec e l :
  sorted l → e ∉ l →
  ∃ r, set_insert e l = (r, true) ∧ r ≡ₚ e :: l ∧ sorted r ∧
    match l with [] => r = [e] | x :: _ => ∃ y r', r = y :: r' ∧ y.1 = Z.min e.1 x.1 end.
Proof.
  induction l as [|x l IH]; intros Hs Hni; cbn [set_insert].
  { exists [e]. split; [done|]. split; [done|]. split; [|done]. repeat constructor. }
  apply not_elem_of_cons in Hni as [Hne Hni]. apply StronglySorted_inv in Hs as [Hs Hx].
  destruct (entry_lt e x) eqn:E1.
  - exists (e :: x :: l). split; [done|]. split; [done|]. split.
    + constructor; [by constructor|]. constructor; [done|].
      eapply Forall_impl; [exact Hx|]. intros y Hy. by eapply before_trans.
    + exists e, (x :: l). split; [done|]. apply entry_lt_spec in E1. lia.
  - destruct (entry_lt x e) eqn:E2; [|by destruct Hne; apply before_total].
    destruct (IH Hs Hni) as (r & -> & Hp & Hr & _). exists (x :: r). split; [done|].
    split; [rewrite Hp; constructor|]. split.
    + constructor; [done|]. rewrite Hp. by constructor.
    + exists x, r. split; [done|]. apply entry_lt_spec in E2. lia.
Qed.

Lemma set_erase_spec e l :
  e ∈ l → ∃ r, set_erase e l = (r, 1) ∧ l ≡ₚ e :: r ∧ sublist r l.
Proof.
  induction l as [|x l IH]; intros Hin; [set_solver|]. cbn [set_erase].
  destruct (bool_decide_reflect (x = e)) as [->|Hne].
  - exists l. split; [done|]. split; [done|]. by constructor.
  - destruct IH as (r & -> & Hp & Hs); [set_solver|]. exists (x :: r). split; [done|].
    split; [rewrite Hp at 1; constructor|by constructor].
Qed.

Lemma sorted_sublist (l k : list Entry) : sublist l k → sorted k → sorted l.
Proof.
  induction 1 as [|x l k Hl IH|x l k Hl IH]; intros Hs; [done| |]; apply StronglySorted_inv in Hs as [Hs Hx].
  - constructor; [auto|]. rewrite Forall_forall in Hx |- *. intros y Hy. apply Hx. by eapply elem_of_sublist.
  - auto.
Qed.

Lemma sorted_head_le x l e : sorted (x :: l) → e ∈ x :: l → x.1 ≤ e.1.
Proof.
  intros Hs [->|Hin]%elem_of_cons; [lia|]. apply StronglySorted_inv in Hs as [_ Hx].
  rewrite Forall_forall in Hx. apply Hx, entry_lt_spec in Hin. lia.
Qed.

Lemma lower_bound_spec e l :
  sorted l → ∃ a b, lower_bound e l = (a, b) ∧ l = a ++ b ∧ Forall (λ x, entry_lt x e = true) a ∧
    Forall (λ x, entry_lt x e = false) b.
Proof.
  induction l as [|x l IH]; intros Hs; cbn [lower_bound]; [by exists [], []|].
  apply StronglySorted_inv in Hs as [Hs Hx]. destruct (entry_lt x e) eqn:E.
  - destruct (IH Hs) as (a & b & -> & -> & ? & ?). exists (x :: a), b. split; [done|]. split; [done|].
    split; [by constructor|done].
  - exists [], (x :: l). split; [done|]. split; [done|]. split; [done|]. constructor; [done|].
    eapply Forall_impl; [exact Hx|]. intros y Hy. destruct (entry_lt y e) eqn:E'; [|done].
    assert (before x e) by (by eapply before_trans). unfold before in *. congruence.
Qed.

(** ** The invariant *)
Definition time_max : Z := 2 ^ 61.
Definition timer_ok (t : Timer) : Prop := 0 < expiration_ t ≤ 2 * time_max ∧ 0 ≤ interval_ t ≤ time_max.
Definition clock_ok (q : TimerQueue) : Prop := 0 < now_ q ≤ time_max.

Definition idof (h : gmap Z Timer) (p : Z) : TimerId := (p, default 0 (sequence_ <$> h !! p)).

(** [det] are the expired timers that are out of the sets and not deleted yet. *)
Record queue_inv (det : list Z) (q : TimerQueue) : Prop := MkQueueInv {
  qi_sorted : sorted (timers_ q);
  qi_nodup : NoDup ((timers_ q).*2 ++ det);
  qi_heap p : is_Some (heap_ q !! p) ↔ p ∈ (timers_ q).*2 ++ det;
  qi_when w p : (w, p) ∈ timers_ q → ∃ t, heap_ q !! p = Some t ∧ expiration_ t = w;
  qi_active : active_timers_ q = list_to_set (idof (heap_ q) <$> (timers_ q).*2);
  qi_ptr p : is_Some (heap_ q !! p) → p < UINTPTR_MAX;
  qi_time p t : heap_ q !! p = Some t → timer_ok t;
  qi_seq p t : heap_ q !! p = Some t → sequence_ t ≤ num_created_ q;
  qi_uniq p p' t t' : heap_ q !! p = Some t → heap_ q !! p' = Some t' → sequence_ t = sequence_ t' → p = p';
  qi_clock : clock_ok q;
}.

(** The timerfd will wake the loop up in time for the earliest timer (timerfds
    are armed at least 100 microseconds ahead). *)
Definition armed (q : TimerQueue) : Prop :=
  match timers_ q with
  | [] => True
  | e :: _ => ∃ d, timerfd_ q = Some d ∧ d ≤ Z.max e.1 (now_ q + 100)
  end.

#[global] Instance idof_inj h : Inj (=) (=) (idof h).
Proof. intros p p' [= ? _]. done. Qed.

Lemma idof_ext h h' (ps : list Z) : (∀ p, p ∈ ps → h' !! p = h !! p) → idof h' <$> ps = idof h <$> ps.
Proof. intros Hext. apply list_fmap_ext. intros i p Hp. unfold idof. by rewrite Hext by (by eapply list_elem_of_lookup_2). Qed.

Lemma sizes_ok (h : gmap Z Timer) (ts : list Entry) (act : gset TimerId) :
  NoDup ts.*2 → act = list_to_set (idof h <$> ts.*2) →
  Z.of_nat (length ts) = Z.of_nat (size act).
Proof.
  intros Hnd ->. rewrite size_list_to_set by (by apply NoDup_fmap_2; [apply _|]). by rewrite !length_fmap.
Qed.

Lemma sizes_agree_ok q :
  NoDup (timers_ q).*2 → active_timers_ q = list_to_set (idof (heap_ q) <$> (timers_ q).*2) → sizes_agree q = Ok tt.
Proof. intros Hnd Ha. unfold sizes_agree. rewrite bool_decide_true by (by eapply sizes_ok). done. Qed.

Lemma queue_inv_sizes det q : queue_inv det q → sizes_agree q = Ok tt.
Proof.
  intros Hi. apply sizes_agree_ok; [|apply Hi]. pose proof (qi_nodup _ _ Hi) as Hnd. by apply NoDup_app in Hnd as [? _].
Qed.

Lemma elem_active det q p s :
  queue_inv det q → (p, s) ∈ active_timers_ q ↔ ∃ t, heap_ q !! p = Some t ∧ sequence_ t = s ∧ (expiration_ t, p) ∈ timers_ q.
Proof.
  intros Hi. rewrite (qi_active _ _ Hi), elem_of_list_to_set, list_elem_of_fmap. split.
  - intros (p' & [= -> Hs] & ([w p''] & Hp & Hin)%list_elem_of_fmap). cbn in Hp. subst p''.
    destruct (qi_when _ _ Hi _ _ Hin) as (t & Ht & <-). exists t. rewrite Ht in Hs. cbn in Hs. done.
  - intros (t & Ht & <- & Hin). exists p. unfold idof. rewrite Ht. split; [done|].
    by apply (list_elem_of_fmap_2 snd _ (expiration_ t, p)).
Qed.

Lemma ResetTimerfd_ok e q :
  clock_ok q → 0 < e ≤ 2 * time_max →
  ResetTimerfd e q = Ok (MkQueue (heap_ q) (timers_ q) (active_timers_ q) (is_calling_expired_timers_ q)
    (canceling_timers_ q) (Some (Z.max e (now_ q + 100))) (now_ q) (num_created_ q) (ran_ q)).
Proof.
  unfold clock_ok, time_max. intros Hc He. unfold ResetTimerfd, HowMuchTimeFromNow, add_int64, kMicroSecondsPerSecond.
  rewrite bool_decide_true by lia. cbn [mbind outcome_bind]. do 3 f_equal.
  set (m := if _ <? 100 then 100 else _). assert (m = Z.max (e - now_ q) 100) as Hm.
  { unfold m. destruct (Z.ltb_spec (e + - now_ q) 100); lia. }
  clearbody m. rewrite Z.div_mul by done. pose proof (Z.quot_rem m 1000000). lia.
Qed.

(** The same queue with a timer moved from the detached ones into the sets. *)
Lemma Insert_ok p det q :
  queue_inv (p :: det) q →
  ∃ t ts act b, heap_ q !! p = Some t ∧ Insert p q = Ok (set_sets ts act q, b) ∧ queue_inv det (set_sets ts act q) ∧
    ts ≡ₚ (expiration_ t, p) :: timers_ q ∧
    ∃ y l, ts = y :: l ∧
      if b then y.1 = expiration_ t else ∃ x l', timers_ q = x :: l' ∧ x.1 = y.1.
Proof.
  intros Hi. destruct (qi_heap _ _ Hi p) as [_ [t Ht]]; [set_solver|].
  destruct Hi as [Hso Hnd Hh Hw Ha Hp Hti Hseq Hun Hck].
  assert (p ∉ (timers_ q).*2) as Hnp. { apply NoDup_app in Hnd as (_ & Hd & _). intros ?%Hd. set_solver. }
  assert (NoDup (timers_ q).*2) as Hnd0 by (by apply NoDup_app in Hnd as [? _]).
  unfold Insert. rewrite (sizes_agree_ok q) by done. cbn [mbind outcome_bind]. unfold timer_at. rewrite Ht. cbn [mbind outcome_bind].
  destruct (set_insert_spec (expiration_ t, p) (timers_ q)) as (ts & -> & Hperm & Hs' & Hhd); [done| |].
  { intros Hin. apply Hnp. by apply (list_elem_of_fmap_2 snd _ (expiration_ t, p)). }
  cbn [cassert mbind outcome_bind].
  assert (ts.*2 ≡ₚ p :: (timers_ q).*2) as Hps by (by rewrite Hperm).
  rewrite bool_decide_true. 2:{ rewrite Ha, elem_of_list_to_set, list_elem_of_fmap. intros (p' & [= -> _] & ?). done. }
  cbn [cassert mbind outcome_bind]. set (act := {[_]} ∪ _).
  assert (act = list_to_set (idof (heap_ q) <$> ts.*2)) as Hact.
  { unfold act. rewrite Ha. rewrite (list_to_set_perm_L (idof (heap_ q) <$> ts.*2) (idof (heap_ q) <$> p :: (timers_ q).*2)) by (by rewrite Hps).
    cbn. unfold idof at 2. by rewrite Ht. }
  assert (queue_inv det (set_sets ts act q)) as Hi'.
  { split; cbn; try done.
    - rewrite Hps. cbn. by rewrite <-Permutation_middle in Hnd.
    - intros p'. rewrite Hh, Hps. set_solver.
    - intros w p'. rewrite Hperm. intros [[= -> ->]|Hin]%elem_of_cons; eauto. }
  rewrite (queue_inv_sizes det) by done. cbn [mbind outcome_bind].
  eexists t, ts, act, _. split; [done|]. split; [done|]. split; [done|]. split; [done|].
  destruct (timers_ q) as [|x l]; [subst; eexists _, _; split; [done|done]|].
  destruct Hhd as (y & l' & -> & Hy). exists y, l'. split; [done|].
  cbn [fst] in Hy. destruct (Z.ltb_spec (expiration_ t) x.1); [lia|]. exists x, l. split; [done|lia].
Qed.

Lemma AddTimerInLoop_ok p det q :
  queue_inv (p :: det) q →
  ∃ q' t, AddTimerInLoop p q = Ok q' ∧ queue_inv det q' ∧ heap_ q !! p = Some t ∧ (armed q → armed q') ∧
    heap_ q' = heap_ q ∧ ran_ q' = ran_ q ∧ num_created_ q' = num_created_ q ∧ now_ q' = now_ q ∧
    canceling_timers_ q' = canceling_timers_ q ∧ timers_ q' ≡ₚ (expiration_ t, p) :: timers_ q.
Proof.
  intros Hi. destruct (Insert_ok p det q Hi) as (t & ts & act & b & Ht & Hins & Hi' & Hperm & y & l & -> & Hb).
  unfold AddTimerInLoop. rewrite Hins. cbn [mbind outcome_bind]. destruct b.
  - unfold timer_at. cbn [heap_ set_sets]. rewrite Ht. cbn [mbind outcome_bind].
    pose proof (qi_time _ _ Hi _ _ Ht) as [? _]. rewrite ResetTimerfd_ok by (done || apply Hi).
    eexists _, t. split; [done|]. split; [destruct Hi'; by split|]. split; [done|]. split; [|done].
    intros _. unfold armed. cbn. eexists. split; [done|]. rewrite Hb. lia.
  - eexists _, t. split; [done|]. split; [done|]. split; [done|]. split; [|done].
    destruct Hb as (x & l' & Eq & Hx). unfold armed. cbn. rewrite Eq, Hx. done.
Qed.

(** ** How a queue evolves: sequence numbers are never used again *)
Definition known (q : TimerQueue) (s : Z) : Prop :=
  num_created_ q < s ∨ ∃ p t, heap_ q !! p = Some t ∧ sequence_ t = s.

Record evolves (q q' : TimerQueue) : Prop := MkEvolves {
  ev_created : num_created_ q ≤ num_created_ q';
  ev_heap p t : heap_ q' !! p = Some t → known q (sequence_ t);
  ev_ran : ∃ new, ran_ q' = ran_ q ++ new ∧ ∀ s, s ∈ new → known q s;
}.

Lemma known_evolves q q' s : evolves q q' → known q' s → known q s.
Proof. intros [Hc Hh _] [?|(p & t & Ht & <-)]; [left; lia|by eapply Hh]. Qed.

#[global] Instance evolves_preorder : PreOrder evolves.
Proof.
  split.
  - intros q. split; [done| |].
    + intros p t Ht. right. eauto.
    + exists []. rewrite app_nil_r. split; [done|]. set_solver.
  - intros q1 q2 q3 H12 H23. split.
    + destruct H12, H23. lia.
    + intros p t Ht. by eapply known_evolves, ev_heap.
    + destruct (ev_ran _ _ H12) as (n1 & E1 & K1), (ev_ran _ _ H23) as (n2 & E2 & K2).
      exists (n1 ++ n2). rewrite E2, E1, app_assoc. split; [done|].
      intros s [?|?]%elem_of_app; [auto|]. by eapply known_evolves, K2.
Qed.

(** Nothing but the heap, the counter and the log matters. *)
Lemma evolves_same q q' :
  heap_ q' = heap_ q → num_created_ q' = num_created_ q → ran_ q' = ran_ q → evolves q q'.
Proof.
  intros Hh Hn Hr. split; [lia| |exists []; rewrite Hr, app_nil_r; set_solver].
  rewrite Hh. intros p t ?. right. eauto.
Qed.

(** A timer that is no longer alive does not come back. *)
Lemma evolves_gone q q' s :
  evolves q q' → s ≤ num_created_ q → (∀ p t, heap_ q !! p = Some t → sequence_ t ≠ s) →
  ∃ new, ran_ q' = ran_ q ++ new ∧ s ∉ new.
Proof.
  intros [_ _ (new & E & K)] Hs Hg. exists new. split; [done|]. intros [?|(p & t & Ht & Heq)]%K; [lia|]. by eapply Hg.
Qed.

(** ** Requests *)

(** The queue without one of its active timers. *)
Lemma erase_timer_inv det q p t r :
  queue_inv det q → heap_ q !! p = Some t → timers_ q ≡ₚ (expiration_ t, p) :: r → sublist r (timers_ q) →
  queue_inv det (set_heap (delete p (heap_ q)) (set_sets r (active_timers_ q ∖ {[(p, sequence_ t)]}) q)) ∧ p ∉ det.
Proof.
  intros Hi Ht Hperm Hsub. assert ((timers_ q).*2 ≡ₚ p :: r.*2) as Hps by (by rewrite Hperm).
  pose proof (qi_nodup _ _ Hi) as Hnd. rewrite Hps in Hnd. cbn in Hnd. apply NoDup_cons in Hnd as [Hpn Hnd].
  split; [|set_solver]. destruct Hi as [Hso _ Hh Hw Ha Hp Hti Hseq Hun Hck]. split; cbn; try done.
  - by eapply sorted_sublist.
  - intros p'. destruct (decide (p' = p)) as [->|Hne].
    + rewrite lookup_delete_eq. split; [by intros []|done].
    + rewrite lookup_delete_ne, Hh, Hps by done. set_solver.
  - intros w p' Hin'. rewrite lookup_delete_ne.
    + apply Hw. by eapply elem_of_sublist.
    + intros ->. apply Hpn. apply elem_of_app. left. by apply (list_elem_of_fmap_2 snd _ (w, p')).
  - rewrite Ha. rewrite (list_to_set_perm_L (idof (heap_ q) <$> (timers_ q).*2) (idof (heap_ q) <$> p :: r.*2)) by (by rewrite Hps).
    cbn [fmap list_fmap list_to_set]. rewrite (idof_ext (heap_ q) (delete p (heap_ q))).
    + unfold idof at 1. rewrite Ht. cbn.
      assert ((p, sequence_ t) ∉ (list_to_set (idof (heap_ q) <$> r.*2) : gset TimerId)); [|set_solver].
      rewrite elem_of_list_to_set, list_elem_of_fmap. intros (p' & [= -> _] & ?). set_solver.
    + intros p' Hp'. rewrite lookup_delete_ne; [done|]. set_solver.
  - intros p' Hp'. apply Hp. destruct (decide (p' = p)) as [->|]; [by rewrite Ht|]. by rewrite lookup_delete_ne in Hp' by done.
  - intros p' t' [_ Hl]%lookup_delete_Some. eauto.
  - intros p' t' [_ Hl]%lookup_delete_Some. eauto.
  - intros p1 p2 t1 t2 [_ ?]%lookup_delete_Some [_ ?]%lookup_delete_Some. eauto.
Qed.

Lemma erase_timer_armed q r h act :
  sorted (timers_ q) → sublist r (timers_ q) → armed q → armed (set_heap h (set_sets r act q)).
Proof.
  unfold armed. cbn. intros Hso Hsub. destruct r as [|e r]; [done|].
  destruct (timers_ q) as [|x l]; [by apply sublist_nil_r in Hsub|].
  intros (d & -> & Hd). exists d. split; [done|].
  assert (x.1 ≤ e.1); [|lia]. apply (sorted_head_le x l); [done|]. eapply elem_of_sublist; [|done]. set_solver.
Qed.

Lemma CancelInLoop_ok id det q :
  queue_inv det q →
  ∃ q', CancelInLoop id q = Ok q' ∧ queue_inv det q' ∧ (armed q → armed q') ∧ evolves q q' ∧
    ran_ q' = ran_ q ∧ now_ q' = now_ q ∧ num_created_ q' = num_created_ q ∧
    (∀ p, p ∈ det → heap_ q' !! p = heap_ q !! p) ∧
    (id ∈ active_timers_ q → heap_ q' = delete id.1 (heap_ q)).
Proof.
  intros Hi. unfold CancelInLoop. rewrite (queue_inv_sizes det) by done. cbn [mbind outcome_bind].
  destruct (bool_decide_reflect (id ∈ active_timers_ q)) as [Hin|Hni].
  - destruct id as [p s]. pose proof Hin as (t & Ht & Hs & Hts)%(elem_active det); [|done].
    cbn [fst]. unfold timer_at. rewrite Ht. cbn [mbind outcome_bind].
    destruct (set_erase_spec (expiration_ t, p) (timers_ q)) as (r & -> & Hperm & Hsub); [done|].
    replace (1 =? 1) with true by done. cbn [cassert mbind outcome_bind]. rewrite <-Hs.
    destruct (erase_timer_inv det q p t r) as [Hi' Hpd]; [done..|].
    rewrite (queue_inv_sizes det) by done. eexists. split; [done|]. split; [done|].
    split; [apply erase_timer_armed; [apply Hi|done]|]. split.
    { split; [done| |exists []; rewrite app_nil_r; set_solver].
      cbn. intros p' t' [_ ?]%lookup_delete_Some. right. eauto. }
    split; [done|]. split; [done|]. split; [done|]. split; [|done].
    intros p' Hp'. cbn. rewrite lookup_delete_ne; [done|]. intros ->. set_solver.
  - destruct (is_calling_expired_timers_ q); cbn [mbind outcome_bind].
    + assert (queue_inv det (set_canceling ({[id]} ∪ canceling_timers_ q) q)) as Hi' by (destruct Hi; by split).
      rewrite (queue_inv_sizes det) by done. eexists. split; [done|]. split; [done|]. split; [done|].
      split; [by apply evolves_same|]. done.
    + rewrite (queue_inv_sizes det) by done. exists q. split; [done|]. split; [done|]. split; [done|]. done.
Qed.

Section correct.
Context (program : Z → list request) (alloc : gmap Z Timer → Z).

(** [new] returns the address of no live object. *)
Definition alloc_ok : Prop := ∀ h, h !! alloc h = None ∧ alloc h < UINTPTR_MAX.

Definition request_ok (r : request) : Prop :=
  match r with
  | ReqAdd _ when interval _ => 0 < when ≤ time_max ∧ 0 ≤ interval ≤ time_max
  | ReqCancel _ => True
  end.
Definition program_ok : Prop := ∀ cb, Forall request_ok (program cb).

Lemma AddTimer_ok cb when interval repeat det q :
  alloc_ok → request_ok (ReqAdd cb when interval repeat) → queue_inv det q →
  ∃ q' id, AddTimer alloc cb when interval repeat q = Ok (q', id) ∧ queue_inv det q' ∧ (armed q → armed q') ∧ evolves q q' ∧
    ran_ q' = ran_ q ∧ now_ q' = now_ q ∧ (∀ p, p ∈ det → heap_ q' !! p = heap_ q !! p).
Proof.
  intros Hal [Hwh Hint] Hi. destruct (Hal (heap_ q)) as [Hfr Hpt]. unfold AddTimer.
  set (p := alloc (heap_ q)) in *. set (t0 := MkTimer _ _ _ _ _). set (q1 := MkQueue _ _ _ _ _ _ _ _ _).
  assert (p ∉ (timers_ q).*2 ++ det) as Hnp. { rewrite <-(qi_heap _ _ Hi), Hfr. by intros []. }
  assert (queue_inv (p :: det) q1) as Hi1.
  { destruct Hi as [Hso Hnd Hh Hw Ha Hp Hti Hseq Hun Hck]. unfold q1. split; cbn; try done.
    - rewrite <-Permutation_middle. by constructor.
    - intros p'. destruct (decide (p' = p)) as [->|Hne].
      + rewrite lookup_insert_eq. set_solver.
      + rewrite lookup_insert_ne, Hh by done. set_solver.
    - intros w p' Hin. destruct (Hw _ _ Hin) as (t & Ht & ?). exists t. rewrite lookup_insert_ne; [done|congruence].
    - rewrite Ha. rewrite (idof_ext (heap_ q) (<[p:=t0]> (heap_ q))); [done|]. intros p' Hp'. rewrite lookup_insert_ne; [done|]. set_solver.
    - intros p' [t [[<- _]|[_ ?]]%lookup_insert_Some]; eauto.
    - intros p' t [[_ <-]|[_ ?]]%lookup_insert_Some; [|eauto]. unfold timer_ok, time_max in *. cbn. lia.
    - intros p' t [[_ <-]|[_ Hl]]%lookup_insert_Some; [cbn; lia|]. specialize (Hseq _ _ Hl). lia.
    - intros p1 p2 t1 t2 [[<- <-]|[? H1]]%lookup_insert_Some [[<- <-]|[? H2]]%lookup_insert_Some Heq; try done; cbn in Heq.
      + specialize (Hseq _ _ H2). lia.
      + specialize (Hseq _ _ H1). lia.
      + eauto. }
  destruct (AddTimerInLoop_ok p det q1 Hi1) as (q' & t & -> & Hi' & Ht & Harm & Hh & Hr & Hn & Hnow & _ & _).
  cbn [mbind outcome_bind]. eexists q', _. split; [done|]. split; [done|]. split; [exact Harm|].
  split; [|split; [done|split; [done|]]].
  - split; [rewrite Hn; cbn; lia| |exists []; rewrite Hr, app_nil_r; set_solver].
    rewrite Hh. cbn. intros p' t' [[_ <-]|[_ ?]]%lookup_insert_Some; [left; cbn; lia|right; eauto].
  - intros p' Hp'. rewrite Hh. cbn. rewrite lookup_insert_ne; [done|]. set_solver.
Qed.

(** What a sequence of requests leaves alone. *)
Record kept (det : list Z) (q q' : TimerQueue) : Prop := MkKept {
  kp_inv : queue_inv det q';
  kp_armed : armed q → armed q';
  kp_evolves : evolves q q';
  kp_ran : ran_ q' = ran_ q;
  kp_now : now_ q' = now_ q;
  kp_det p : p ∈ det → heap_ q' !! p = heap_ q !! p;
}.

Lemma do_request_ok r det q :
  alloc_ok → request_ok r → queue_inv det q → ∃ q', do_request alloc r q = Ok q' ∧ kept det q q'.
Proof.
  intros Hal Hr Hi. destruct r as [cb when interval repeat|id]; cbn [do_request].
  - destruct (AddTimer_ok cb when interval repeat det q) as (q' & id & -> & ? & ? & ? & ? & ? & ?); [done..|].
    exists q'. split; [done|]. by split.
  - destruct (CancelInLoop_ok id det q Hi) as (q' & -> & ? & ? & ? & ? & ? & ? & ? & _). exists q'. split; [done|]. by split.
Qed.

Lemma kept_trans det q1 q2 q3 : kept det q1 q2 → kept det q2 q3 → kept det q1 q3.
Proof.
  intros [? ? ? ? ? ?] [? ? ? ? ? Hd]. split; try done; [auto|by etrans|congruence|congruence|].
  intros p Hp. rewrite Hd by done. auto.
Qed.

Lemma do_requests_ok rs det q :
  alloc_ok → Forall request_ok rs → queue_inv det q → ∃ q', do_requests alloc rs q = Ok q' ∧ kept det q q'.
Proof.
  intros Hal Hrs Hi. revert q Hi. induction Hrs as [|r rs Hr _ IH]; intros q Hi; cbn [do_requests].
  - exists q. split; [done|]. by split.
  - destruct (do_request_ok r det q) as (q1 & -> & K1); [done..|]. cbn [mbind outcome_bind].
    destruct (IH q1) as (q' & -> & K2); [apply K1|]. exists q'. split; [done|]. by eapply kept_trans.
Qed.

(** ** Serving the expired timers *)
Definition seqs (h : gmap Z Timer) (expired : list Entry) : list Z := (λ e, (idof h e.2).2) <$> expired.

Lemma log_run_inv det s q : queue_inv det q → queue_inv det (log_run s q).
Proof. intros []. by split. Qed.

Lemma run_each_ok expired det q :
  alloc_ok → program_ok → queue_inv det q → (∀ e, e ∈ expired → e.2 ∈ det) →
  ∃ q', run_each program alloc expired q = Ok q' ∧ queue_inv det q' ∧ evolves q q' ∧ now_ q' = now_ q ∧
    ran_ q' = ran_ q ++ seqs (heap_ q) expired.
Proof.
  intros Hal Hpr. revert q. induction expired as [|e l IH]; intros q Hi Hd; cbn [run_each].
  { exists q. split; [done|]. split; [done|]. split; [done|]. split; [done|]. by rewrite app_nil_r. }
  destruct (qi_heap _ _ Hi e.2) as [_ [t Ht]]; [set_solver|]. unfold timer_at. rewrite Ht. cbn [mbind outcome_bind].
  destruct (do_requests_ok (program (callback_ t)) det (log_run (sequence_ t) q)) as (q1 & -> & [Hi1 _ Hev Hr Hn Hdet]);
    [done|apply Hpr|by apply log_run_inv|]. cbn [mbind outcome_bind].
  destruct (IH q1 Hi1) as (q' & -> & Hi' & Hev' & Hn' & Hr'); [set_solver|]. exists q'. split; [done|]. split; [done|].
  split; [etrans; [|done]; etrans; [|done]|split; [by rewrite Hn', Hn|]].
  - split; [done|intros p t' ?; right; eauto|]. exists [sequence_ t]. split; [done|].
    intros s ->%list_elem_of_singleton. right. eauto.
  - rewrite Hr', Hr. cbn [log_run ran_]. rewrite <-app_assoc. f_equal. unfold seqs. cbn [fmap list_fmap app].
    assert ((idof (heap_ q) e.2).2 = sequence_ t) as -> by (unfold idof; by rewrite Ht). f_equal.
    apply list_fmap_ext. intros i e' He'%list_elem_of_lookup_2. unfold idof. cbn. rewrite Hdet by set_solver. done.
Qed.

Lemma erase_active_ok (expired rest : list Entry) h :
  NoDup (expired ++ rest).*2 → (∀ e, e ∈ expired → is_Some (h !! e.2)) →
  erase_active expired h (list_to_set (idof h <$> (expired ++ rest).*2)) = Ok (list_to_set (idof h <$> rest.*2)).
Proof.
  induction expired as [|e l IH]; intros Hnd Hh; cbn [erase_active]; [done|].
  destruct (Hh e) as [t Ht]; [set_solver|]. unfold timer_at. rewrite Ht. cbn [mbind outcome_bind].
  cbn [app fmap list_fmap] in Hnd |- *. apply NoDup_cons in Hnd as [Hne Hnd].
  assert (idof h e.2 = (e.2, sequence_ t)) as Hid by (unfold idof; by rewrite Ht).
  cbn [list_to_set]. rewrite Hid, bool_decide_true by set_solver. cbn [cassert mbind outcome_bind].
  rewrite <-IH; [|done|intros; apply Hh; set_solver]. f_equal.
  assert ((e.2, sequence_ t) ∉ (list_to_set (idof h <$> (l ++ rest).*2) : gset TimerId)); [|set_solver].
  rewrite elem_of_list_to_set, list_elem_of_fmap. intros (p' & [= <- _] & ?). set_solver.
Qed.

Lemma GetExpired_ok q :
  queue_inv [] q →
  ∃ expired rest act, GetExpired (now_ q) q = Ok (expired, set_sets rest act q) ∧
    queue_inv expired.*2 (set_sets rest act q) ∧ timers_ q = expired ++ rest ∧
    Forall (λ e, e.1 ≤ now_ q) expired ∧ Forall (λ e, now_ q < e.1) rest.
Proof.
  intros Hi. unfold GetExpired. rewrite (queue_inv_sizes []) by done. cbn [mbind outcome_bind].
  destruct (lower_bound_spec (now_ q, UINTPTR_MAX) (timers_ q)) as (expired & rest & -> & Heq & He & Hr); [apply Hi|].
  assert (∀ e, e ∈ timers_ q → e.2 < UINTPTR_MAX) as Hptr.
  { intros [w p] Hin. destruct (qi_when _ _ Hi _ _ Hin) as (t & Ht & _). by apply (qi_ptr _ _ Hi); exists t. }
  assert (Forall (λ e, now_ q < e.1) rest) as Hrest.
  { rewrite Forall_forall in Hr |- *. intros e Hin. specialize (Hr e Hin). apply not_true_iff_false in Hr.
    rewrite entry_lt_spec in Hr. cbn in Hr. assert (e.2 < UINTPTR_MAX) by (apply Hptr; rewrite Heq; set_solver). lia. }
  assert (match rest with [] => true | e :: _ => now_ q <? e.1 end = true) as ->.
  { destruct rest as [|e rest]; [done|]. apply Forall_cons in Hrest as [? _]. lia. }
  cbn [cassert mbind outcome_bind].
  destruct Hi as [Hso Hnd Hh Hw Ha Hp Hti Hseq Hun Hck]. rewrite app_nil_r in Hnd.
  rewrite Ha, Heq, erase_active_ok; [|by rewrite <-Heq|].
  2:{ intros [w p] Hin. destruct (Hw w p) as (t & Ht & _); [rewrite Heq; set_solver|]. by exists t. }
  cbn [mbind outcome_bind]. rewrite Heq, fmap_app in Hnd.
  assert (queue_inv expired.*2 (set_sets rest (list_to_set (idof (heap_ q) <$> rest.*2)) q)) as Hi'.
  { split; cbn; try done.
    - rewrite Heq in Hso. eapply sorted_sublist; [|done]. by apply sublist_inserts_l.
    - by rewrite Permutation_app_comm.
    - intros p. rewrite Hh, Heq, fmap_app, app_nil_r. set_solver.
    - intros w p Hin. apply Hw. rewrite Heq. set_solver. }
  rewrite (queue_inv_sizes _ _ Hi'). eexists expired, rest, _. split; [done|]. split; [done|]. split; [done|].
  split; [|done]. eapply Forall_impl; [exact He|]. intros e. rewrite entry_lt_spec. cbn. lia.
Qed.

(** The queue after one detached timer is deleted. *)
Lemma delete_detached_inv p det q :
  queue_inv (p :: det) q → queue_inv det (set_heap (delete p (heap_ q)) q).
Proof.
  intros [Hso Hnd Hh Hw Ha Hp Hti Hseq Hun Hck]. rewrite <-Permutation_middle in Hnd. apply NoDup_cons in Hnd as [Hpn Hnd].
  split; cbn; try done.
  - intros p'. destruct (decide (p' = p)) as [->|Hne].
    + rewrite lookup_delete_eq. split; [by intros []|done].
    + rewrite lookup_delete_ne, Hh by done. set_solver.
  - intros w p' Hin'. rewrite lookup_delete_ne; [by apply Hw|].
    intros ->. apply Hpn, elem_of_app. left. by apply (list_elem_of_fmap_2 snd _ (w, p')).
  - rewrite Ha, (idof_ext (heap_ q) (delete p (heap_ q))); [done|]. intros p' Hp'. rewrite lookup_delete_ne; [done|]. set_solver.
  - intros p' [t [_ ?]%lookup_delete_Some]. eauto.
  - intros p' t' [_ Hl]%lookup_delete_Some. eauto.
  - intros p' t' [_ Hl]%lookup_delete_Some. eauto.
  - intros p1 p2 t1 t2 [_ ?]%lookup_delete_Some [_ ?]%lookup_delete_Some. eauto.
Qed.

(** ... and after its expiration is moved. *)
Lemma restart_detached_inv p det q t t' :
  queue_inv (p :: det) q → heap_ q !! p = Some t → timer_ok t' → sequence_ t' = sequence_ t →
  queue_inv (p :: det) (set_heap (<[p := t']> (heap_ q)) q).
Proof.
  intros [Hso Hnd Hh Hw Ha Hp Hti Hseq Hun Hck] Ht Hok Hs.
  assert (p ∉ (timers_ q).*2) as Hnp. { apply NoDup_app in Hnd as (_ & Hd & _). intros ?%Hd. set_solver. }
  split; cbn; try done.
  - intros p'. rewrite <-Hh. destruct (decide (p' = p)) as [->|Hne].
    + rewrite lookup_insert_eq, Ht. by split.
    + by rewrite lookup_insert_ne by done.
  - intros w p' Hin'. rewrite lookup_insert_ne; [by apply Hw|].
    intros ->. apply Hnp. by apply (list_elem_of_fmap_2 snd _ (w, p')).
  - rewrite Ha, (idof_ext (heap_ q) (<[p:=t']> (heap_ q))); [done|]. intros p' Hp'. rewrite lookup_insert_ne; [done|]. set_solver.
  - intros p' [t0 [[<- _]|[_ ?]]%lookup_insert_Some]; eauto.
  - intros p' t0 [[_ <-]|[_ ?]]%lookup_insert_Some; eauto.
  - intros p' t0 [[_ <-]|[_ ?]]%lookup_insert_Some; [|eauto]. rewrite Hs. eauto.
  - intros p1 p2 t1 t2 [[<- <-]|[? H1]]%lookup_insert_Some [[<- <-]|[? H2]]%lookup_insert_Some Heq; try done; try rewrite Hs in Heq; eauto.
Qed.

Lemma Restart_ok now t :
  0 < now ≤ time_max → timer_ok t → is_repeat_ t = true →
  ∃ t', Restart now t = Ok t' ∧ timer_ok t' ∧ sequence_ t' = sequence_ t ∧ expiration_ t' = now + interval_ t.
Proof.
  intros Hn [? ?] Hr. unfold time_max in *. unfold Restart, add_int64. rewrite Hr, bool_decide_true by lia. eexists. split; [done|].
  split; [|done]. unfold timer_ok, time_max. cbn. lia.
Qed.

Lemma reset_each_ok expired q :
  queue_inv expired.*2 q →
  ∃ q', reset_each expired (now_ q) q = Ok q' ∧ queue_inv [] q' ∧ evolves q q' ∧ ran_ q' = ran_ q ∧ now_ q' = now_ q.
Proof.
  revert q. induction expired as [|e l IH]; intros q Hi; cbn [reset_each]; [by exists q|].
  cbn [fmap list_fmap] in Hi. destruct (qi_heap _ _ Hi e.2) as [_ [t Ht]]; [set_solver|].
  unfold timer_at. rewrite Ht. cbn [mbind outcome_bind]. destruct (is_repeat_ t && _) eqn:E.
  - apply andb_true_iff in E as [Hrep _].
    destruct (Restart_ok (now_ q) t) as (t' & -> & Hok & Hs & _); [apply Hi|by eapply qi_time|done|]. cbn [mbind outcome_bind].
    set (q1 := set_heap _ q). assert (queue_inv (e.2 :: l.*2) q1) as Hi1 by (by eapply restart_detached_inv).
    destruct (Insert_ok e.2 l.*2 q1 Hi1) as (t1 & ts & act & b & _ & -> & Hi2 & _). cbn [mbind outcome_bind].
    destruct (IH _ Hi2) as (q' & Hq' & Hi' & Hev & Hr & Hn). exists q'. split; [exact Hq'|]. split; [done|].
    split; [|done]. etrans; [|exact Hev]. split; [done| |exists []; rewrite app_nil_r; set_solver].
    cbn. intros p' t0 [[_ <-]|[_ ?]]%lookup_insert_Some; right; [exists e.2, t; by rewrite Hs|eauto].
  - cbn [mbind outcome_bind]. pose proof (delete_detached_inv _ _ _ Hi) as Hi1.
    destruct (IH _ Hi1) as (q' & Hq' & Hi' & Hev & Hr & Hn). exists q'. split; [exact Hq'|]. split; [done|].
    split; [|done]. etrans; [|exact Hev]. split; [done| |exists []; rewrite app_nil_r; set_solver].
    cbn. intros p' t0 [_ ?]%lookup_delete_Some. right. eauto.
Qed.

Lemma Reset_ok expired q :
  queue_inv expired.*2 q →
  ∃ q', Reset expired (now_ q) q = Ok q' ∧ queue_inv [] q' ∧ evolves q q' ∧ ran_ q' = ran_ q ∧ now_ q' = now_ q ∧ armed q'.
Proof.
  intros Hi. destruct (reset_each_ok expired q Hi) as (q1 & Hq1 & Hi1 & Hev & Hr & Hn).
  unfold Reset. rewrite Hq1. cbn [mbind outcome_bind]. destruct (timers_ q1) as [|e l] eqn:El.
  - exists q1. split; [done|]. split; [done|]. split; [done|]. split; [done|]. split; [done|]. unfold armed. by rewrite El.
  - destruct (qi_when _ _ Hi1 e.1 e.2) as (t & Ht & Hw); [rewrite El; destruct e; set_solver|].
    unfold timer_at. rewrite Ht. cbn [mbind outcome_bind]. pose proof (qi_time _ _ Hi1 _ _ Ht) as [? _].
    replace (0 <? expiration_ t) with true by lia. rewrite ResetTimerfd_ok by (done || apply Hi1).
    eexists. split; [done|]. split; [destruct Hi1; by split|]. split; [etrans; [done|by apply evolves_same]|].
    split; [done|]. split; [done|]. unfold armed. cbn. rewrite El. eexists. split; [done|]. rewrite Hw. lia.
Qed.

Lemma HandleRead_ok q :
  alloc_ok → program_ok → queue_inv [] q →
  ∃ q' expired rest, HandleRead program alloc q = Ok q' ∧ queue_inv [] q' ∧ armed q' ∧ evolves q q' ∧ now_ q' = now_ q ∧
    timers_ q = expired ++ rest ∧ Forall (λ e, e.1 ≤ now_ q) expired ∧ Forall (λ e, now_ q < e.1) rest ∧
    ran_ q' = ran_ q ++ seqs (heap_ q) expired.
Proof.
  intros Hal Hpr Hi. unfold HandleRead. set (q0 := ReadTimerfd q).
  assert (queue_inv [] q0) as Hi0 by (destruct Hi; by split).
  destruct (GetExpired_ok q0 Hi0) as (expired & rest & act & Hg & Hi1 & Heq & He & Hrest).
  change (now_ q) with (now_ q0). rewrite Hg. cbn [mbind outcome_bind].
  set (q1 := set_canceling ∅ _). assert (queue_inv expired.*2 q1) as Hi1' by (destruct Hi1; by split).
  destruct (run_each_ok expired expired.*2 q1 Hal Hpr Hi1') as (q2 & -> & Hi2 & Hev2 & Hn2 & Hr2).
  { intros e Hin. by apply list_elem_of_fmap_2. }
  cbn [mbind outcome_bind]. set (q3 := set_calling false q2).
  assert (queue_inv expired.*2 q3) as Hi3 by (destruct Hi2; by split).
  destruct (Reset_ok expired q3 Hi3) as (q' & Hq' & Hi' & Hev & Hr & Hn & Harm).
  assert (now_ q3 = now_ q0) as Hnow by exact Hn2. rewrite Hnow in Hq'.
  exists q', expired, rest. split; [done|]. split; [done|]. split; [done|]. split.
  { etrans; [|exact Hev]. etrans; [|by apply (evolves_same q2)]. etrans; [|exact Hev2]. by apply evolves_same. }
  split; [by rewrite Hn|]. split; [done|]. split; [done|]. split; [done|]. rewrite Hr. cbn. rewrite Hr2. done.
Qed.

(** ** Runs *)
Inductive tq_op := OpRequest (r : request) | OpTick (d : Z) | OpRead.

Definition tick (d : Z) (q : TimerQueue) : TimerQueue :=
  MkQueue (heap_ q) (timers_ q) (active_timers_ q) (is_calling_expired_timers_ q) (canceling_timers_ q) (timerfd_ q)
    (now_ q + d) (num_created_ q) (ran_ q).

Definition tq_step (o : tq_op) (q : TimerQueue) : outcome TimerQueue :=
  match o with
  | OpRequest r => do_request alloc r q
  | OpTick d => Ok (tick d q)
  | OpRead => HandleRead program alloc q
  end.

Fixpoint tq_run (os : list tq_op) (q : TimerQueue) : outcome TimerQueue :=
  match os with
  | [] => Ok q
  | o :: os => q ← tq_step o q; tq_run os q
  end.

(** Time goes forward and does not run out; the requests are for such times. *)
Fixpoint tq_ops_ok (now : Z) (os : list tq_op) : Prop :=
  match os with
  | [] => True
  | OpRequest r :: os => request_ok r ∧ tq_ops_ok now os
  | OpTick d :: os => 0 ≤ d ∧ now + d ≤ time_max ∧ tq_ops_ok (now + d) os
  | OpRead :: os => tq_ops_ok now os
  end.

Lemma tq_run_ok os q :
  alloc_ok → program_ok → queue_inv [] q → armed q → tq_ops_ok (now_ q) os →
  ∃ q', tq_run os q = Ok q' ∧ queue_inv [] q' ∧ armed q' ∧ evolves q q'.
Proof.
  intros Hal Hpr. revert q. induction os as [|[r|d|] os IH]; intros q Hi Ha Hok; cbn [tq_run tq_step tq_ops_ok] in *.
  - by exists q.
  - destruct Hok as [Hr Hok]. destruct (do_request_ok r [] q) as (q1 & -> & K); [done..|]. cbn [mbind outcome_bind].
    destruct (IH q1) as (q' & Hq' & ? & ? & ?); [apply K|by apply K|by rewrite (kp_now _ _ _ K)|].
    exists q'. split; [done|]. split; [done|]. split; [done|]. etrans; [apply K|done].
  - destruct Hok as (Hd & Hmax & Hok). cbn [mbind outcome_bind].
    destruct (IH (tick d q)) as (q' & Hq' & ? & ? & ?); [| |exact Hok|].
    + destruct Hi as [? ? ? ? ? ? ? ? ? [? ?]]. split; try done. unfold clock_ok. cbn. lia.
    + unfold armed in *. cbn. destruct (timers_ q); [done|]. destruct Ha as (x & ? & ?). exists x. split; [done|lia].
    + exists q'. split; [done|]. split; [done|]. split; [done|]. etrans; [|done]. by apply evolves_same.
  - destruct (HandleRead_ok q Hal Hpr Hi) as (q1 & _ & _ & -> & Hi1 & Ha1 & Hev & Hn & _). cbn [mbind outcome_bind].
    destruct (IH q1) as (q' & Hq' & ? & ? & ?); [done|done|by rewrite Hn|].
    exists q'. split; [done|]. split; [done|]. split; [done|]. by etrans.
Qed.

Lemma new_queue_inv now : 0 < now ≤ time_max → queue_inv [] (TimerQueue_new now).
Proof.
  intros Hn. split; cbn; try done; try (intros *; rewrite lookup_empty; done); try set_solver; try constructor.
  all: try (intros *; rewrite lookup_empty; intros []; done).
  all: rewrite lookup_empty; first [by intros []|set_solver].
Qed.

(** C16: the timers of a loop are served.  After any sequence of [AddTimer],
    [Cancel], passing time and calls of [HandleRead], with callbacks that add and
    cancel timers themselves, no assertion fails and no deleted timer is used;
    the timerfd is armed no later than the earliest expiration (or the 100
    microseconds that a timerfd is always ahead); and the next [HandleRead] calls
    exactly the callbacks of the timers that are due, in the order of their
    expiration, and leaves the timerfd armed again. *)
Theorem timer_queue_serves now os :
  alloc_ok → program_ok → 0 < now ≤ time_max → tq_ops_ok now os →
  ∃ q, tq_run os (TimerQueue_new now) = Ok q ∧ armed q ∧
  ∃ q' expired rest, HandleRead program alloc q = Ok q' ∧ armed q' ∧
    timers_ q = expired ++ rest ∧ Forall (λ e, e.1 ≤ now_ q) expired ∧ Forall (λ e, now_ q < e.1) rest ∧
    ran_ q' = ran_ q ++ seqs (heap_ q) expired ∧ StronglySorted before expired.
Proof.
  intros Hal Hpr Hn Hok.
  destruct (tq_run_ok os (TimerQueue_new now)) as (q & -> & Hi & Ha & _); [done|done|by apply new_queue_inv|done|done|].
  exists q. split; [done|]. split; [done|].
  destruct (HandleRead_ok q Hal Hpr Hi) as (q' & expired & rest & ? & _ & ? & _ & _ & Heq & ? & ? & ?).
  exists q', expired, rest. do 6 (split; [done|]). pose proof (qi_sorted _ _ Hi) as Hs. rewrite Heq in Hs.
  eapply sorted_sublist; [|done]. by apply sublist_inserts_r.
Qed.

(** C25: a cancelled timer never runs.  Once [Cancel] is called on a timer that is
    waiting, its callback is not called any more, whatever else happens to the
    queue, even when its address is used for another timer. *)
Theorem cancelled_timer_never_runs now os os' q p s :
  alloc_ok → program_ok → 0 < now ≤ time_max → tq_ops_ok now os →
  tq_run os (TimerQueue_new now) = Ok q → (p, s) ∈ active_timers_ q → tq_ops_ok (now_ q) os' →
  ∃ q1 q2 new, CancelInLoop (p, s) q = Ok q1 ∧ tq_run os' q1 = Ok q2 ∧ ran_ q2 = ran_ q ++ new ∧ s ∉ new.
Proof.
  intros Hal Hpr Hn Hok Hrun Hact Hok'.
  destruct (tq_run_ok os (TimerQueue_new now)) as (q0 & Hq0 & Hi & Ha & _); [done|done|by apply new_queue_inv|done|done|].
  assert (q0 = q) as -> by congruence.
  destruct (CancelInLoop_ok (p, s) [] q Hi) as (q1 & Hc & Hi1 & Ha1 & _ & Hr1 & Hn1 & Hnum & _ & Hdel).
  destruct (tq_run_ok os' q1) as (q2 & Hrun2 & _ & _ & Hev); [done|done|done|auto|by rewrite Hn1|].
  pose proof (proj1 (elem_active [] q p s Hi) Hact) as (t & Ht & Hs & _).
  destruct (evolves_gone q1 q2 s Hev) as (new & Hnew & Hni).
  - rewrite Hnum, <-Hs. by eapply (qi_seq [] q).
  - rewrite (Hdel Hact). cbn. intros p' t' [Hne Ht']%lookup_delete_Some Hs'. apply Hne.
    apply (qi_uniq _ _ Hi p p' t t' Ht Ht'). congruence.
  - exists q1, q2, new. rewrite <-Hr1. done.
Qed.

End correct.

(** ** A queue in use *)

(** Addresses from the top of the space downwards. *)
Definition below_all (h : gmap Z Timer) : Z := map_fold (λ p _ a, Z.min a (p - 1)) (UINTPTR_MAX - 1) h.

Lemma below_all_ok : alloc_ok below_all.
Proof.
  intros h. unfold below_all.
  assert (∀ p, is_Some (h !! p) → map_fold (λ p _ a, Z.min a (p - 1)) (UINTPTR_MAX - 1) h < p) as Hlt.
  { apply (map_fold_weak_ind (λ a (h : gmap Z Timer), ∀ p, is_Some (h !! p) → a < p)).
    - intros p. rewrite lookup_empty. by intros [].
    - intros i x m a _ IH p [y [[<- _]|[_ ?]]%lookup_insert_Some]; [lia|]. specialize (IH p). assert (a < p) by eauto. lia. }
  split.
  - apply eq_None_not_Some. intros H. specialize (Hlt _ H). lia.
  - apply (map_fold_weak_ind (λ a (h : gmap Z Timer), a < UINTPTR_MAX)); [lia|]. intros. lia.
Qed.

(** Callback 1 adds a timer and cancels itself; callback 2 does nothing. *)
Definition sample_program (cb : Z) : list request :=
  if cb =? 1 then [ReqAdd 2 400 0 false; ReqCancel (UINTPTR_MAX - 1, 1)] else [].

Lemma sample_program_ok : program_ok sample_program.
Proof.
  intros cb. unfold sample_program. destruct (cb =? 1); [|constructor].
  repeat constructor; unfold time_max; cbn; lia.
Qed.

Definition sample_timer_ops : list tq_op :=
  [OpRequest (ReqAdd 1 200 50 true); OpRequest (ReqAdd 2 250 100 true); OpTick 150].

Lemma timer_queue_serves_witness :
  ∃ q q', tq_run sample_program below_all sample_timer_ops (TimerQueue_new 100) = Ok q ∧
    HandleRead sample_program below_all q = Ok q' ∧ ran_ q' = [1; 2].
Proof.
  destruct (timer_queue_serves sample_program below_all 100 sample_timer_ops) as (q & H1 & _ & q' & ex & re & H2 & _ & H3 & _ & _ & H4 & _).
  - exact below_all_ok.
  - exact sample_program_ok.
  - vm_compute. split; [reflexivity|discriminate].
  - vm_compute. repeat split; discriminate.
  - exists q, q'. split; [exact H1|]. split; [exact H2|].
    assert (HandleRead sample_program below_all q = (q ← tq_run sample_program below_all sample_timer_ops (TimerQueue_new 100);
            HandleRead sample_program below_all q)) as E by (rewrite H1; reflexivity).
    rewrite E in H2. vm_compute in H2. injection H2 as <-. reflexivity.
Defined.

Lemma cancelled_timer_never_runs_witness :
  ∃ q q1 q2 new, tq_run sample_program below_all sample_timer_ops (TimerQueue_new 100) = Ok q ∧
    CancelInLoop (UINTPTR_MAX - 2, 2) q = Ok q1 ∧
    tq_run sample_program below_all [OpRead; OpTick 300; OpRead] q1 = Ok q2 ∧ ran_ q2 = ran_ q ++ new ∧ 2 ∉ new.
Proof.
  edestruct (cancelled_timer_never_runs sample_program below_all 100 sample_timer_ops [OpRead; OpTick 300; OpRead])
    as (q1 & q2 & new & H1 & H2 & H3 & H4).
  - exact below_all_ok.
  - exact sample_program_ok.
  - vm_compute. split; [reflexivity|discriminate].
  - vm_compute. repeat split; discriminate.
  - vm_compute. reflexivity.
  - instantiate (1 := 2). instantiate (1 := UINTPTR_MAX - 2). apply (bool_decide_unpack _). vm_compute. exact I.
  - vm_compute. repeat split; discriminate.
  - eexists _, q1, q2, new. split; [|split; [exact H1|split; [exact H2|split; [exact H3|exact H4]]]].
    vm_compute. reflexivity.
Defined.
