(* ===== verification/Connector.v ===== *)
(** * [net::Connector] (net/connector.h, net/connector.cc)

    One outgoing connection attempt at a time: create a non-blocking socket,
    connect, wait until it is writable, hand the socket over or retry with a
    doubling delay.  The world of a connector is the object, the sockets it has
    open, the sockets it handed over, the functors it queued in its loop and its
    retry timers. *)

From stdpp Require Import base tactics list numbers strings sets gmap.
From Stdlib Require Import ZArith Lia.
From S2P Require Import Prelude.

Inductive ConnectorState := kDisconnected | kConnecting | kConnected.
#[global] Instance ConnectorState_eq_dec : EqDecision ConnectorState.
Proof. solve_decision. Defined.

Record Connector := MkConnector {
  is_connect_ : bool;
  state_ : ConnectorState;
  channel_ : option (Z * bool);      (* descriptor; registered with the poller *)
  retry_delay_ms_ : Z;
}.

Definition kMaxRetryDelayMs : Z := 30 * 1000.
Definition kInitRetryDelayMs : Z := 500.

Definition Connector_new : Connector := MkConnector false kDisconnected None kInitRetryDelayMs.

Inductive task := StartInLoopTask | StopInLoopTask | ResetChannelTask.
#[global] Instance task_eq_dec : EqDecision task.
Proof. solve_decision. Defined.

Record world := MkWorld {
  connector : Connector;
  open_ : gset Z;
  next_fd : Z;                (* the descriptor the next socket(2) returns *)
  delivered : list Z;
  queue : list task;
  timers : list Z;            (* delays of the pending StartInLoop timers *)
}.

Definition set_connector (c : Connector) (w : world) : world :=
  MkWorld c (open_ w) (next_fd w) (delivered w) (queue w) (timers w).
Definition SetState (s : ConnectorState) (w : world) : world :=
  let c := connector w in set_connector (MkConnector (is_connect_ c) s (channel_ c) (retry_delay_ms_ c)) w.
Definition set_connect (b : bool) (w : world) : world :=
  let c := connector w in set_connector (MkConnector b (state_ c) (channel_ c) (retry_delay_ms_ c)) w.
Definition set_channel (ch : option (Z * bool)) (w : world) : world :=
  let c := connector w in set_connector (MkConnector (is_connect_ c) (state_ c) ch (retry_delay_ms_ c)) w.
Definition set_delay (d : Z) (w : world) : world :=
  let c := connector w in set_connector (MkConnector (is_connect_ c) (state_ c) (channel_ c) d) w.
Definition QueueInLoop (t : task) (w : world) : world :=
  MkWorld (connector w) (open_ w) (next_fd w) (delivered w) (queue w ++ [t]) (timers w).
Definition RunAfter (ms : Z) (w : world) : world :=
  MkWorld (connector w) (open_ w) (next_fd w) (delivered w) (queue w) (timers w ++ [ms]).

(** [socket::CreateNonblockingOrDie] and [socket::Close]. *)
Definition CreateNonblocking (w : world) : Z * world :=
  (next_fd w, MkWorld (connector w) ({[next_fd w]} ∪ open_ w) (next_fd w + 1) (delivered w) (queue w) (timers w)).
Definition Close (fd : Z) (w : world) : world :=
  MkWorld (connector w) (open_ w ∖ {[fd]}) (next_fd w) (delivered w) (queue w) (timers w).
(** [new_connection_callback_(sockfd)] takes the socket over. *)
Definition new_connection_callback_ (fd : Z) (w : world) : world :=
  MkWorld (connector w) (open_ w ∖ {[fd]}) (next_fd w) (delivered w ++ [fd]) (queue w) (timers w).

Definition Retry (sockfd : Z) (w : world) : world :=
  let w := SetState kDisconnected (Close sockfd w) in
  if is_connect_ (connector w) then
    let delay := retry_delay_ms_ (connector w) in
    set_delay (Z.min (delay * 2) kMaxRetryDelayMs) (RunAfter delay w)
  else w.

Definition Connecting (sockfd : Z) (w : world) : outcome world :=
  let w := SetState kConnecting w in
  cassert "!channel_" (bool_decide (channel_ (connector w) = None));;
  Ok (set_channel (Some (sockfd, true)) w).

(** The switch over [errno] in [Connect]. *)
Inductive connect_class := ClassConnecting | ClassRetry | ClassGiveUp.
Definition EINTR : Z := 4.
Definition EAGAIN : Z := 11.
Definition EADDRINUSE : Z := 98.
Definition EADDRNOTAVAIL : Z := 99.
Definition ENETUNREACH : Z := 101.
Definition EISCONN : Z := 106.
Definition ECONNREFUSED : Z := 111.
Definition EINPROGRESS : Z := 115.
Definition classify (old_errno : Z) : connect_class :=
  if bool_decide (old_errno ∈ [0; EINPROGRESS; EINTR; EISCONN]) then ClassConnecting
  else if bool_decide (old_errno ∈ [EAGAIN; EADDRINUSE; EADDRNOTAVAIL; ECONNREFUSED; ENETUNREACH]) then ClassRetry
  else ClassGiveUp.

(** [Connect]; [old_errno] is what connect(2) answers. *)
Definition Connect (old_errno : Z) (w : world) : outcome world :=
  let '(sockfd, w) := CreateNonblocking w in
  match classify old_errno with
  | ClassConnecting => Connecting sockfd w
  | ClassRetry => Ok (Retry sockfd w)
  | ClassGiveUp => Ok (Close sockfd w)
  end.

Definition StartInLoop (old_errno : Z) (w : world) : outcome world :=
  cassert "state_ == kDisconnected" (bool_decide (state_ (connector w) = kDisconnected));;
  if is_connect_ (connector w) then Connect old_errno w else Ok w.

(** [Start] in the loop's thread, or from another one. *)
Definition Start (in_loop_thread : bool) (old_errno : Z) (w : world) : outcome world :=
  let w := set_connect true w in
  if in_loop_thread then StartInLoop old_errno w else Ok (QueueInLoop StartInLoopTask w).

Definition Stop (w : world) : world := QueueInLoop StopInLoopTask (set_connect false w).

(** [DisableAll], [Remove], and [ResetChannel] later. *)
Definition RemoveAndResetChannel (w : world) : outcome (Z * world) :=
  match channel_ (connector w) with
  | Some (fd, _) =>
      Ok (fd, QueueInLoop ResetChannelTask (set_channel (Some (fd, false)) w))
  | None => Fail (UndefinedBehaviour "channel_ is null")
  end.

(** [channel_.reset()]: the destructor of a channel wants it unregistered. *)
Definition ResetChannel (w : world) : outcome world :=
  cassert "!is_added_to_loop_" (match channel_ (connector w) with Some (_, true) => false | _ => true end);;
  Ok (set_channel None w).

Definition StopInLoop (w : world) : outcome world :=
  if bool_decide (state_ (connector w) = kConnecting) then
    let w := SetState kDisconnected w in
    '(sockfd, w) ← RemoveAndResetChannel w;
    Ok (Retry sockfd w)
  else Ok w.

Definition Restart (old_errno : Z) (w : world) : outcome world :=
  StartInLoop old_errno (set_connect true (set_delay kInitRetryDelayMs (SetState kDisconnected w))).

(** [HandleWrite]: [err] is SO_ERROR, [self] whether the socket is connected to itself. *)
Definition HandleWrite (err : Z) (self : bool) (w : world) : outcome world :=
  if bool_decide (state_ (connector w) = kConnecting) then
    '(sockfd, w) ← RemoveAndResetChannel w;
    if negb (err =? 0) then Ok (Retry sockfd w)
    else if self then Ok (Retry sockfd w)
    else
      let w := SetState kConnected w in
      Ok (if is_connect_ (connector w) then new_connection_callback_ sockfd w else Close sockfd w)
  else
    cassert "state_ == kDisconnected" (bool_decide (state_ (connector w) = kDisconnected));;
    Ok w.

Definition HandleError (w : world) : outcome world :=
  if bool_decide (state_ (connector w) = kConnecting) then
    '(sockfd, w) ← RemoveAndResetChannel w;
    Ok (Retry sockfd w)
  else Ok w.

(** [~Connector()]. *)
Definition Connector_destroy (w : world) : outcome unit :=
  cassert "!channel_" (bool_decide (channel_ (connector w) = None)).

(** ** What happens to a connector *)
Inductive event :=
| EvStop                              (* the user calls Stop() *)
| EvWritable (err : Z) (self : bool)  (* the socket is writable *)
| EvError                             (* the socket has an error *)
| EvTask (old_errno : Z)              (* the loop calls the next queued functor *)
| EvTimer (old_errno : Z)             (* a retry timer fires *)
| EvRestart (old_errno : Z).          (* TcpClient: the connection is gone, connect again *)

Definition run_task (t : task) (old_errno : Z) (w : world) : outcome world :=
  match t with
  | StartInLoopTask => StartInLoop old_errno w
  | StopInLoopTask => StopInLoop w
  | ResetChannelTask => ResetChannel w
  end.

(** One event; an event that cannot happen in [w] changes nothing.  The loop
    empties its queue in the same turn, before a timer set in that turn (half a
    second ahead or more) can fire and before a connection made in it is lost. *)
Definition step (e : event) (w : world) : outcome world :=
  match e with
  | EvStop => Ok (Stop w)
  | EvWritable err self =>
      match channel_ (connector w) with Some (_, true) => HandleWrite err self w | _ => Ok w end
  | EvError => match channel_ (connector w) with Some (_, true) => HandleError w | _ => Ok w end
  | EvTask old_errno =>
      match queue w with
      | t :: q => run_task t old_errno (MkWorld (connector w) (open_ w) (next_fd w) (delivered w) q (timers w))
      | [] => Ok w
      end
  | EvTimer old_errno =>
      match queue w, timers w with
      | [], _ :: ts => StartInLoop old_errno (MkWorld (connector w) (open_ w) (next_fd w) (delivered w) [] ts)
      | _, _ => Ok w
      end
  | EvRestart old_errno =>
      match queue w, state_ (connector w) with
      | [], kConnected => Restart old_errno w
      | _, _ => Ok w
      end
  end.

Fixpoint run (es : list event) (w : world) : outcome world :=
  match es with
  | [] => Ok w
  | e :: es => w ← step e w; run es w
  end.

Definition world_new (fd : Z) : world := MkWorld Connector_new ∅ fd [] [] [].

(** ** The invariant *)

(** The socket of the attempt in progress. *)
Definition in_progress (w : world) : gset Z :=
  match state_ (connector w), channel_ (connector w) with
  | kConnecting, Some (fd, _) => {[fd]}
  | _, _ => ∅
  end.

(** How often the queue will reset the channel. *)
Definition resets (w : world) : nat := length (filter (.= ResetChannelTask) (queue w)).

Record connector_inv (w : world) : Prop := MkInv {
  ci_state : state_ (connector w) = kConnecting ↔ ∃ fd, channel_ (connector w) = Some (fd, true);
  ci_resets : resets w = match channel_ (connector w) with Some (_, false) => 1%nat | _ => 0%nat end;
  ci_start : StartInLoopTask ∉ queue w;
  ci_timers : (length (timers w) ≤ 1)%nat ∧ (timers w ≠ [] → state_ (connector w) = kDisconnected);
  ci_delays : Forall (λ d, kInitRetryDelayMs ≤ d ≤ kMaxRetryDelayMs) (retry_delay_ms_ (connector w) :: timers w);
  ci_open : open_ w = in_progress w;
  ci_fds : (∀ fd, fd ∈ open_ w → fd < next_fd w) ∧ Forall (λ fd, fd < next_fd w) (delivered w);
  ci_delivered : NoDup (delivered w) ∧ (∀ fd, fd ∈ open_ w → fd ∉ delivered w);
}.

Lemma resets_snoc t w : resets (QueueInLoop t w) = (resets w + if decide (t = ResetChannelTask) then 1 else 0)%nat.
Proof. unfold resets. cbn. rewrite filter_app, length_app. f_equal. by destruct t. Qed.

Lemma new_inv fd : connector_inv (world_new fd).
Proof.
  split; cbn; try done; try set_solver.
  all: first [split; [done|by intros [? ?]] | repeat constructor; done | split; [set_solver|done] | split; [constructor|set_solver]].
Qed.

(** A world in which no attempt is in progress and no timer is set. *)
Record idle (w : world) : Prop := MkIdle {
  id_channel : ∀ fd, channel_ (connector w) ≠ Some (fd, true);
  id_resets : resets w = match channel_ (connector w) with Some (_, false) => 1%nat | _ => 0%nat end;
  id_start : StartInLoopTask ∉ queue w;
  id_timers : timers w = [];
  id_delay : kInitRetryDelayMs ≤ retry_delay_ms_ (connector w) ≤ kMaxRetryDelayMs;
  id_delivered : NoDup (delivered w);
  id_fds : Forall (λ fd, fd < next_fd w) (delivered w);
}.

Lemma Retry_inv fd w : idle w → open_ w = {[fd]} → connector_inv (Retry fd w).
Proof.
  intros [Hc Hr Hs Ht Hd Hnd Hf] Ho. unfold Retry. cbn [SetState set_connector Close connector is_connect_].
  assert (open_ w ∖ {[fd]} = ∅) as Ho' by (rewrite Ho; set_solver).
  unfold kInitRetryDelayMs, kMaxRetryDelayMs in *.
  destruct (is_connect_ (connector w)); split; cbn; rewrite ?Ho', ?Ht; try done; try (split; [set_solver|done]);
    try (split; [done|]; set_solver); try (split; [done|by intros [fd' ?%Hc]]); try (repeat constructor; lia).
  all: unfold kInitRetryDelayMs, kMaxRetryDelayMs; repeat constructor; lia.
Qed.

Lemma Close_inv fd w :
  idle w → open_ w = {[fd]} → state_ (connector w) ≠ kConnecting → connector_inv (Close fd w).
Proof.
  intros [Hc Hr Hs Ht Hd Hnd Hf] Ho Hst. assert (open_ w ∖ {[fd]} = ∅) as Ho' by (rewrite Ho; set_solver).
  split; cbn; rewrite ?Ho', ?Ht; try done.
  all: first [split; [done|by intros [fd' ?%Hc]] | split; [cbn; lia|done] | repeat constructor; lia
             | unfold in_progress; cbn; by destruct (state_ (connector w)) | split; [set_solver|done] | split; [done|set_solver]].
Qed.

Lemma deliver_inv fd w :
  idle w → open_ w = {[fd]} → fd < next_fd w → fd ∉ delivered w → state_ (connector w) ≠ kConnecting →
  connector_inv (new_connection_callback_ fd w).
Proof.
  intros [Hc Hr Hs Ht Hd Hnd Hf] Ho Hlt Hni Hst. assert (open_ w ∖ {[fd]} = ∅) as Ho' by (rewrite Ho; set_solver).
  split; cbn; rewrite ?Ho', ?Ht; try done.
  all: try first [split; [done|by intros [fd' ?%Hc]] | split; [cbn; lia|done] | repeat constructor; lia
             | unfold in_progress; cbn; by destruct (state_ (connector w))].
  - split; [set_solver|]. apply Forall_app. split; [done|by repeat constructor].
  - split; [|set_solver]. apply NoDup_app. split; [done|]. split; [set_solver|]. apply NoDup_singleton.
Qed.

(** The end of an attempt: the channel is out of the poller and the socket is
    the only one open. *)
Lemma RemoveAndResetChannel_ok s w fd :
  connector_inv w → channel_ (connector w) = Some (fd, true) → s ≠ kConnecting →
  ∃ w', RemoveAndResetChannel w = Ok (fd, w') ∧ idle w' ∧ open_ w' = {[fd]} ∧ fd < next_fd w' ∧ (fd ∉ delivered w') ∧
    idle (SetState s w').
Proof.
  intros [Hs Hr Hst Ht Hd Ho Hf Hdl] Hc s0. unfold RemoveAndResetChannel. rewrite Hc.
  assert (state_ (connector w) = kConnecting) as Hcon by (apply Hs; eauto).
  unfold in_progress in Ho. rewrite Hcon, Hc in Ho. rewrite Hc in Hr.
  assert (timers w = []) as Ht0. { destruct (timers w); [done|]. destruct Ht as [_ Ht]. by rewrite Ht in Hcon. }
  apply Forall_cons in Hd as [Hd _].
  assert (resets (QueueInLoop ResetChannelTask (set_channel (Some (fd, false)) w)) = 1%nat) as Hr1.
  { rewrite resets_snoc. change (resets (set_channel _ w)) with (resets w). rewrite Hr. done. }
  assert (StartInLoopTask ∉ (queue w ++ [ResetChannelTask])) as Hq by set_solver.
  destruct Hf as [Hf1 Hf2], Hdl as [Hdl1 Hdl2].
  eexists. split; [done|]. split; [by split|]. split; [done|]. split; [apply Hf1; set_solver|].
  split; [apply Hdl2; set_solver|]. by split.
Qed.

(** ** Every event keeps it *)
Lemma StartInLoop_inv old_errno w :
  connector_inv w → channel_ (connector w) = None → timers w = [] → state_ (connector w) = kDisconnected →
  ∃ w', StartInLoop old_errno w = Ok w' ∧ connector_inv w'.
Proof.
  intros [Hs Hr Hst Ht Hd Ho Hf Hdl] Hc Ht0 Hdis. unfold StartInLoop. rewrite bool_decide_true by done. cbn [cassert mbind outcome_bind].
  destruct (is_connect_ (connector w)) eqn:Econ; [|exists w; split; [done|by split]].
  unfold in_progress in Ho. rewrite Hdis in Ho. apply Forall_cons in Hd as [Hd _].
  unfold Connect, CreateNonblocking. set (w1 := MkWorld _ _ _ _ _ _).
  assert (open_ w1 = {[next_fd w]}) as Ho1 by (cbn; rewrite Ho; set_solver).
  assert (Forall (λ fd, fd < next_fd w1) (delivered w1)) as Hf1 by (eapply Forall_impl; [apply Hf|cbn; lia]).
  assert (next_fd w ∉ delivered w) as Hni. { intros Hin. destruct Hf as [_ Hf]. rewrite Forall_forall in Hf. apply Hf in Hin. lia. }
  assert (idle w1) as Hid. { split; cbn; try done; [by rewrite Hc|by destruct Hdl]. }
  destruct (classify old_errno).
  - unfold Connecting. cbn [SetState set_connector connector channel_ w1]. rewrite Hc, bool_decide_true by done.
    eexists. split; [done|]. rewrite Hc in Hr. split; cbn; try done.
    + split; eauto.
    + rewrite Ht0. split; [cbn; lia|done].
    + constructor; [done|]. by rewrite Ht0.
    + split; [|done]. intros fd. fold (open_ w1). change ({[next_fd w]} ∪ open_ w) with (open_ w1). rewrite Ho1. intros ->%elem_of_singleton. lia.
    + split; [apply Hdl|]. intros fd. change ({[next_fd w]} ∪ open_ w) with (open_ w1). rewrite Ho1. by intros ->%elem_of_singleton.
  - eexists. split; [done|]. by apply Retry_inv.
  - eexists. split; [done|]. apply Close_inv; [done|done|]. cbn. by rewrite Hdis.
Qed.

Lemma end_attempt_inv w fd :
  connector_inv w → channel_ (connector w) = Some (fd, true) →
  (∃ w', HandleError w = Ok w' ∧ connector_inv w') ∧ (∃ w', StopInLoop w = Ok w' ∧ connector_inv w') ∧
  ∀ err self, ∃ w', HandleWrite err self w = Ok w' ∧ connector_inv w'.
Proof.
  intros Hi Hc. assert (state_ (connector w) = kConnecting) as Hcon by (apply (ci_state _ Hi); eauto).
  destruct (RemoveAndResetChannel_ok kConnected w fd Hi Hc) as (w1 & Hok & Hid & Ho & Hlt & Hni & Hid'); [done|].
  split; [|split].
  - unfold HandleError. rewrite bool_decide_true, Hok by done. cbn [mbind outcome_bind]. eexists. split; [done|]. by apply Retry_inv.
  - unfold StopInLoop. rewrite bool_decide_true by done. unfold RemoveAndResetChannel in *.
    cbn [SetState set_connector connector channel_] in *. rewrite Hc in *. cbn [mbind outcome_bind]. injection Hok as <-.
    eexists. split; [done|]. apply Retry_inv; [|done]. by destruct Hid; split.
  - intros err self. unfold HandleWrite. rewrite bool_decide_true, Hok by done. cbn [mbind outcome_bind].
    destruct (negb (err =? 0)); [eexists; split; [done|]; by apply Retry_inv|].
    destruct self; [eexists; split; [done|]; by apply Retry_inv|]. eexists. split; [done|].
    destruct (is_connect_ _); [by apply deliver_inv|by apply Close_inv].
Qed.

(** A functor leaves the queue. *)
Lemma resets_cons t q w :
  queue w = t :: q → resets w = ((if decide (t = ResetChannelTask) then 1 else 0) +
    resets (MkWorld (connector w) (open_ w) (next_fd w) (delivered w) q (timers w)))%nat.
Proof. intros E. unfold resets. rewrite E. by destruct t. Qed.

Lemma run_task_inv t q old_errno w :
  connector_inv w → queue w = t :: q →
  ∃ w', run_task t old_errno (MkWorld (connector w) (open_ w) (next_fd w) (delivered w) q (timers w)) = Ok w' ∧ connector_inv w'.
Proof.
  intros Hi Eq. pose proof (resets_cons t q w Eq) as Hrc. set (w1 := MkWorld _ _ _ _ q _) in *.
  destruct t; cbn [run_task].
  - destruct (ci_start _ Hi). rewrite Eq. set_solver.
  - assert (connector_inv w1) as Hi1.
    { rewrite decide_False in Hrc by done. destruct Hi as [? Hr Hst ? ? ? ? ?]. split; cbn; try done; [by rewrite Hrc in Hr|rewrite Eq in Hst; set_solver]. }
    unfold StopInLoop. destruct (bool_decide_reflect (state_ (connector w1) = kConnecting)) as [E|E]; [|by exists w1].
    pose proof E as [fd Hfd]%(ci_state _ Hi1). pose proof (end_attempt_inv w1 fd Hi1 Hfd) as (_ & Hstop & _).
    unfold StopInLoop in Hstop. by rewrite bool_decide_true in Hstop by done.
  - destruct Hi as [Hs Hr Hst Ht Hd Ho Hf Hdl]. rewrite Hr, decide_True in Hrc by done.
    destruct (channel_ (connector w)) as [[fd [|]]|] eqn:Ec; [lia| |lia].
    unfold ResetChannel. cbn [connector w1]. rewrite Ec. cbn [cassert mbind outcome_bind]. eexists. split; [done|].
    assert (state_ (connector w) ≠ kConnecting) as Hne by (intros [fd' ?]%Hs; congruence).
    assert (in_progress w = ∅) as Hip by (unfold in_progress; by destruct (state_ (connector w))).
    split; cbn; try done.
    + split; [done|]. by intros [? ?].
    + change (resets w1 = 0%nat). lia.
    + rewrite Eq in Hst. set_solver.
    + rewrite Ho, Hip. unfold in_progress. cbn. by destruct (state_ (connector w)).
Qed.

Lemma step_inv e w : connector_inv w → ∃ w', step e w = Ok w' ∧ connector_inv w'.
Proof.
  intros Hi. destruct e as [|err self| |old_errno|old_errno|old_errno]; cbn [step].
  - exists (Stop w). split; [done|].
    assert (resets (Stop w) = resets w) as E by (unfold Stop; rewrite resets_snoc, decide_False by done; apply Nat.add_0_r).
    destruct Hi as [? Hr Hst ? ? ? ? ?]. split; try done; [by rewrite E|cbn; set_solver].
  - destruct (channel_ (connector w)) as [[fd [|]]|] eqn:Ec; [|by exists w..]. by apply (end_attempt_inv w fd).
  - destruct (channel_ (connector w)) as [[fd [|]]|] eqn:Ec; [|by exists w..]. by apply (end_attempt_inv w fd).
  - destruct (queue w) as [|t q] eqn:Eq; [by exists w|]. by apply run_task_inv.
  - destruct (queue w) as [|t q] eqn:Eq; [|by exists w]. destruct (timers w) as [|d ts] eqn:Et; [by exists w|].
    destruct Hi as [Hs Hr Hst Ht Hd Ho Hf Hdl]. rewrite Et in Ht, Hd. destruct Ht as [Hlen Hdis].
    assert (ts = []) as -> by (destruct ts; [done|cbn in Hlen; lia]). specialize (Hdis ltac:(done)).
    assert (channel_ (connector w) = None) as Hc.
    { unfold resets in Hr. rewrite Eq in Hr. destruct (channel_ (connector w)) as [[fd [|]]|]; [|done|done].
      assert (state_ (connector w) = kConnecting) by (apply Hs; eauto). congruence. }
    apply StartInLoop_inv; [|done..]. split; cbn; try done.
    + rewrite Hc. done.
    + set_solver.
    + split; [lia|done].
    + apply Forall_cons in Hd as [? _]. apply Forall_cons. by split.
  - destruct (queue w) as [|t q] eqn:Eq; [|by exists w]. destruct (state_ (connector w)) eqn:Est; [by exists w..|].
    unfold Restart. destruct Hi as [Hs Hr Hst Ht Hd Ho Hf Hdl].
    assert (timers w = []) as Ht0 by (destruct (timers w); [done|]; destruct Ht as [_ Ht]; by rewrite Ht in Est).
    assert (channel_ (connector w) = None) as Hc.
    { unfold resets in Hr. rewrite Eq in Hr. destruct (channel_ (connector w)) as [[fd [|]]|]; [|done|done].
      assert (state_ (connector w) = kConnecting) by (apply Hs; eauto). congruence. }
    apply StartInLoop_inv; [|done..]. split; cbn; try done.
    + rewrite Hc. split; [done|]. by intros [? ?].
    + rewrite Ht0. split; [cbn; lia|done].
    + rewrite Ht0. apply Forall_cons. split; [unfold kInitRetryDelayMs, kMaxRetryDelayMs; lia|done].
    + rewrite Ho. unfold in_progress. cbn. by rewrite Est.
Qed.

Lemma run_inv es w : connector_inv w → ∃ w', run es w = Ok w' ∧ connector_inv w'.
Proof.
  revert w. induction es as [|e es IH]; intros w Hi; cbn [run]; [by exists w|].
  destruct (step_inv e w Hi) as (w1 & -> & Hi1). cbn [mbind outcome_bind]. by apply IH.
Qed.


(** The delays before the first [n] retries against a server that refuses. *)
Example refused_delays :
  (w ← Start true ECONNREFUSED (world_new 3); run (replicate 8 (EvTimer ECONNREFUSED)) w) =
  Ok (MkWorld (MkConnector true kDisconnected None 30000) ∅ 12 [] [] [30000]).
Proof. vm_compute. reflexivity. Qed.

(** Starting again while a retry is pending aborts.  [Stop] does not cancel
    the retry timer; a [Start] after it begins an attempt of its own, and when the
    old timer fires, [StartInLoop] fails its assertion. *)
Theorem second_start_aborts fd err1 err2 err3 :
  classify err1 = ClassRetry → classify err2 = ClassConnecting →
  (w ← Start true err1 (world_new fd);       (* refused: a retry timer is set *)
   w ← run [EvStop; EvTask 0] w;
   w ← Start true err2 w;                    (* in progress *)
   run [EvTimer err3] w) = Fail (AssertionFailed "state_ == kDisconnected").
Proof. intros H1 H2. unfold Start, StartInLoop, Connect. cbn. rewrite H1. cbn. rewrite H2. done. Qed.

Lemma second_start_aborts_witness :
  (w ← Start true ECONNREFUSED (world_new 3); w ← run [EvStop; EvTask 0] w;
   w ← Start true EINPROGRESS w; run [EvTimer 0] w) = Fail (AssertionFailed "state_ == kDisconnected").
Proof. apply (second_start_aborts 3 ECONNREFUSED EINPROGRESS 0); reflexivity. Defined.
