(* ===== verification/TcpServer.v ===== *)
(** * [net::TcpServer], [net::Acceptor] and [net::EventLoopThreadPool]
    (net/tcp_server.h, net/tcp_server.cc, net/acceptor.h, net/acceptor.cc,
    net/event_loop_thread_pool.h, net/event_loop_thread_pool.cc)

    The acceptor takes connections, the server gives each one a name and the next
    loop of the pool, keeps it in a map by its name, and removes it when it
    closes.  Work for the loops is a list of (loop, functor) pairs in the order
    in which it was posted. *)

From stdpp Require Import base tactics list numbers strings sets gmap.
From Stdlib Require Import ZArith Lia Ascii.
From S2P Require Import Prelude.
From S2P Require Import CString.

Abbreviation loop := Z.

(** ** The pool of loops *)
Record EventLoopThreadPool := MkPool {
  base_loop_ : loop;
  is_started_ : bool;
  num_threads_ : Z;
  next_ : Z;
  threads_ : list loop;       (* the threads, by the loop each one runs *)
  loops_ : list loop;
}.

Definition Pool_new (base : loop) : EventLoopThreadPool := MkPool base false 0 0 [] [].
Definition Pool_SetThreadNum (n : Z) (p : EventLoopThreadPool) : EventLoopThreadPool :=
  MkPool (base_loop_ p) (is_started_ p) n (next_ p) (threads_ p) (loops_ p).

(** [new EventLoopThread] and [StartLoop()] for the numbers [i] to [n - 1];
    [new_loop i] is the address of the loop of the [i]-th thread. *)
Fixpoint start_threads (new_loop : Z → loop) (i : Z) (n : nat) (p : EventLoopThreadPool) : EventLoopThreadPool :=
  match n with
  | O => p
  | S n =>
      start_threads new_loop (i + 1) n
        (MkPool (base_loop_ p) (is_started_ p) (num_threads_ p) (next_ p) (threads_ p ++ [new_loop i]) (loops_ p ++ [new_loop i]))
  end.

Definition Pool_Start (new_loop : Z → loop) (p : EventLoopThreadPool) : outcome EventLoopThreadPool :=
  cassert "!is_started_" (negb (is_started_ p));;
  let p := MkPool (base_loop_ p) true (num_threads_ p) (next_ p) (threads_ p) (loops_ p) in
  Ok (start_threads new_loop 0 (Z.to_nat (num_threads_ p)) p).

(** [ResizeThreadNum]: fewer threads are destroyed from the end; the loop for
    more threads runs up to the member [num_threads_]. *)
Definition ResizeThreadNum (new_loop : Z → loop) (num_threads : Z) (p : EventLoopThreadPool) : outcome EventLoopThreadPool :=
  cassert "is_started_" (is_started_ p);;
  let old_num_threads := zlen (threads_ p) in
  if num_threads <? old_num_threads then
    Ok (MkPool (base_loop_ p) (is_started_ p) (num_threads_ p) (next_ p) (ztake num_threads (threads_ p)) (loops_ p))
  else if old_num_threads <? num_threads then
    Ok (start_threads new_loop old_num_threads (Z.to_nat (num_threads_ p - old_num_threads)) p)
  else Ok p.

Definition GetNextLoop (p : EventLoopThreadPool) : outcome (loop * EventLoopThreadPool) :=
  cassert "is_started_" (is_started_ p);;
  match loops_ p with
  | [] => Ok (base_loop_ p, p)
  | _ =>
      match loops_ p !! Z.to_nat (next_ p) with
      | Some l =>
          let next := next_ p + 1 in
          let next := if zlen (loops_ p) <=? next then 0 else next in
          Ok (l, MkPool (base_loop_ p) (is_started_ p) (num_threads_ p) next (threads_ p) (loops_ p))
      | None => Fail (UndefinedBehaviour "loops_[next_]")
      end
  end.

Definition GetLoopByHash (hash_code : Z) (p : EventLoopThreadPool) : loop :=
  match loops_ p with
  | [] => base_loop_ p
  | _ => default (base_loop_ p) (loops_ p !! Z.to_nat (hash_code mod zlen (loops_ p)))
  end.

Definition GetAllLoops (p : EventLoopThreadPool) : outcome (list loop) :=
  cassert "is_started_" (is_started_ p);;
  Ok (match loops_ p with [] => [base_loop_ p] | _ => loops_ p end).

(** ** The acceptor *)
Record Acceptor := MkAcceptor {
  is_listening_ : bool;
  idle_fd_ : Z;
  open_fds : gset Z;          (* descriptors the acceptor owns *)
}.

Definition Listen (a : Acceptor) : Acceptor := MkAcceptor true (idle_fd_ a) (open_fds a).

Definition EMFILE : Z := 24.

(** What accept(2) answers. *)
Inductive accept_answer := Accepted (connfd : Z) | AcceptError (errno : Z).

(** [HandleRead]: the descriptor for [new_connection_callback_], if any.  When
    descriptors ran out, the idle one makes room to accept the connection and
    close it at once; [reopened] is the descriptor of the new idle file. *)
Definition Acceptor_HandleRead (ans : accept_answer) (has_callback : bool) (reopened : Z) (a : Acceptor)
    : option Z * Acceptor :=
  match ans with
  | Accepted connfd => (if has_callback then Some connfd else None, a)
  | AcceptError errno =>
      if errno =? EMFILE then
        (* close(idle_fd_); idle_fd_ = accept(); close(idle_fd_); idle_fd_ = open() *)
        (None, MkAcceptor (is_listening_ a) reopened ({[reopened]} ∪ open_fds a ∖ {[idle_fd_ a]}))
      else (None, a)
  end.

(** ** The server *)
Record connection := MkConnection { conn_name : bytes; conn_loop : loop; conn_fd : Z }.

Inductive server_task :=
| ConnectEstablishedTask (c : connection)
| RemoveConnectionInLoopTask (c : connection)
| ConnectDestroyedTask (c : connection)
| ListenTask.

Record TcpServer := MkServer {
  loop_ : loop;
  ip_port_ : bytes;
  name_ : bytes;
  thread_pool_ : EventLoopThreadPool;
  started_ : bool;
  next_conn_id_ : Z;
  connections_ : gmap bytes connection;
  posted : list (loop * server_task);
}.

Definition TcpServer_new (base : loop) (ip_port name : bytes) : TcpServer :=
  MkServer base ip_port name (Pool_new base) false 1 ∅ [].

Definition set_pool (p : EventLoopThreadPool) (s : TcpServer) : TcpServer :=
  MkServer (loop_ s) (ip_port_ s) (name_ s) p (started_ s) (next_conn_id_ s) (connections_ s) (posted s).
Definition post (l : loop) (t : server_task) (s : TcpServer) : TcpServer :=
  MkServer (loop_ s) (ip_port_ s) (name_ s) (thread_pool_ s) (started_ s) (next_conn_id_ s) (connections_ s) (posted s ++ [(l, t)]).
Definition set_connections (m : gmap bytes connection) (s : TcpServer) : TcpServer :=
  MkServer (loop_ s) (ip_port_ s) (name_ s) (thread_pool_ s) (started_ s) (next_conn_id_ s) m (posted s).

Definition SetThreadNum (numThreads : Z) (s : TcpServer) : outcome TcpServer :=
  cassert "0 <= numThreads" (0 <=? numThreads);;
  Ok (set_pool (Pool_SetThreadNum numThreads (thread_pool_ s)) s).

(** [Start]: [started_.FetchSet(1)] lets only the first call through. *)
Definition Start (new_loop : Z → loop) (s : TcpServer) : outcome TcpServer :=
  if started_ s then Ok s
  else
    p ← Pool_Start new_loop (thread_pool_ s);
    Ok (post (loop_ s) ListenTask
          (MkServer (loop_ s) (ip_port_ s) (name_ s) p true (next_conn_id_ s) (connections_ s) (posted s))).

(** ["-%s#%d"] into a buffer of 64 bytes. *)
Definition conn_suffix (ip_port : bytes) (id : Z) : bytes :=
  ztake 63 (str "-" ++ ip_port ++ str "#" ++ fmt_d id).

Definition NewConnection (sockfd : Z) (s : TcpServer) : outcome TcpServer :=
  '(io_loop, p) ← GetNextLoop (thread_pool_ s);
  let conn_name := name_ s ++ conn_suffix (ip_port_ s) (next_conn_id_ s) in
  if 2 ^ 31 - 1 <=? next_conn_id_ s then Fail (UndefinedBehaviour "signed overflow")
  else
    let conn := MkConnection conn_name io_loop sockfd in
    Ok (post io_loop (ConnectEstablishedTask conn)
          (MkServer (loop_ s) (ip_port_ s) (name_ s) p (started_ s) (next_conn_id_ s + 1)
             (<[conn_name := conn]> (connections_ s)) (posted s))).

Definition RemoveConnectionInLoop (conn : connection) (s : TcpServer) : outcome TcpServer :=
  cassert "n == 1" (bool_decide (is_Some (connections_ s !! conn_name conn)));;
  Ok (post (conn_loop conn) (ConnectDestroyedTask conn) (set_connections (delete (conn_name conn) (connections_ s)) s)).

(** [RemoveConnection], called in the connection's loop. *)
Definition RemoveConnection (in_base_loop : bool) (conn : connection) (s : TcpServer) : outcome TcpServer :=
  if in_base_loop then RemoveConnectionInLoop conn s
  else Ok (post (loop_ s) (RemoveConnectionInLoopTask conn) s).

(** [~TcpServer()]: every connection is destroyed in its loop. *)
Definition TcpServer_destroy (s : TcpServer) : list (loop * server_task) :=
  posted s ++ ((λ '(_, c), (conn_loop c, ConnectDestroyedTask c)) <$> map_to_list (connections_ s)).

(** ** Names *)
Lemma dec_loop_length f n k acc :
  0 ≤ n < 10 ^ Z.of_nat k → (1 ≤ k)%nat → (length (dec_loop f n acc) ≤ k + length acc)%nat.
Proof.
  revert n k acc. induction f as [|f IH]; intros n k acc Hn Hk; cbn [dec_loop]; [lia|].
  destruct (Z.eqb_spec (n / 10) 0) as [E|E]; [cbn; lia|].
  destruct k as [|k]; [lia|]. rewrite Nat2Z.inj_succ, Z.pow_succ_r in Hn by lia.
  assert (0 ≤ n / 10 < 10 ^ Z.of_nat k) as Hn'.
  { split; [apply Z.div_pos; lia|]. apply Z.div_lt_upper_bound; lia. }
  destruct k as [|k]; [change (10 ^ Z.of_nat 0) with 1 in Hn'; lia|].
  specialize (IH (n / 10) (S k) (digit_of (n mod 10) :: acc) Hn' ltac:(lia)). cbn in IH. lia.
Qed.

Lemma conn_suffix_inj ip i j :
  zlen ip ≤ 51 → 0 ≤ i < 2 ^ 31 → 0 ≤ j < 2 ^ 31 → conn_suffix ip i = conn_suffix ip j → i = j.
Proof.
  intros Hip Hi Hj. unfold conn_suffix, fmt_d. replace (i <? 0) with false by lia. replace (j <? 0) with false by lia.
  assert (∀ n, 0 ≤ n < 2 ^ 31 → zlen (fmt_u n) ≤ 10) as Hlen.
  { intros n Hn. unfold fmt_u, zlen.
    pose proof (dec_loop_length (S (Z.to_nat (Z.log2 n))) n 10 []). change (10 ^ Z.of_nat 10) with 10000000000 in *. cbn [length] in *. lia. }
  pose proof (Hlen i Hi). pose proof (Hlen j Hj). 
  assert (zlen (str "-") = 1 ∧ zlen (str "#") = 1) as [? ?] by done. rewrite !ztake_all by (rewrite !zlen_app; lia).
  intros E%app_inv_head%app_inv_head%app_inv_head.
  destruct (fmt_u_spec i) as (_ & _ & Hvi); [lia|]. destruct (fmt_u_spec j) as (_ & _ & Hvj); [lia|]. congruence.
Qed.

(** ** Accepting and closing *)

(** The server and the connections that are open, oldest first. *)
Abbreviation serving := (TcpServer * list connection)%type.

Inductive server_op := OpAccept (fd : Z) | OpClose (i : nat).

Definition established (s : TcpServer) : list connection :=
  omap (λ lt, match lt.2 with ConnectEstablishedTask c => Some c | _ => None end) (posted s).

Definition server_step (o : server_op) (st : serving) : outcome serving :=
  let '(s, live) := st in
  match o with
  | OpAccept fd =>
      s ← NewConnection fd s;
      Ok (s, match last (established s) with Some c => live ++ [c] | None => live end)
  | OpClose i =>
      match live !! i with
      | Some c => s ← RemoveConnection true c s; Ok (s, delete i live)
      | None => Ok (s, live)
      end
  end.

Fixpoint server_run (os : list server_op) (st : serving) : outcome serving :=
  match os with
  | [] => Ok st
  | o :: os => st ← server_step o st; server_run os st
  end.

Record server_inv (ls : list loop) (st : serving) : Prop := MkServerInv {
  si_started : is_started_ (thread_pool_ st.1) = true;
  si_loops : loops_ (thread_pool_ st.1) = ls;
  si_next : next_ (thread_pool_ st.1) = Z.of_nat (length (established st.1) mod length ls);
  si_id : next_conn_id_ st.1 = 1 + Z.of_nat (length (established st.1));
  si_round k c : established st.1 !! k = Some c → ls !! (k mod length ls)%nat = Some (conn_loop c);
  si_names c : c ∈ st.2 → ∃ id, 1 ≤ id < next_conn_id_ st.1 ∧ conn_name c = name_ st.1 ++ conn_suffix (ip_port_ st.1) id;
  si_nodup : NoDup (conn_name <$> st.2);
  si_map n c : connections_ st.1 !! n = Some c ↔ c ∈ st.2 ∧ conn_name c = n;
}.

Lemma established_post l t s :
  established (post l t s) = established s ++ match t with ConnectEstablishedTask c => [c] | _ => [] end.
Proof. unfold established, post. cbn. rewrite omap_app. by destruct t. Qed.

Lemma next_index k n : (0 < n)%nat →
  (if Z.of_nat n <=? Z.of_nat (k mod n) + 1 then 0 else Z.of_nat (k mod n) + 1) = Z.of_nat (S k mod n).
Proof.
  intros Hn. assert (k mod n < n)%nat as Hlt by (apply Nat.mod_upper_bound; lia).
  assert (S k mod n = (1 + k mod n) mod n)%nat as -> by (by rewrite Nat.Div0.add_mod_idemp_r).
  set (m := (k mod n)%nat) in *. clearbody m. destruct (Z.leb_spec (Z.of_nat n) (Z.of_nat m + 1)).
  - assert (1 + m = n)%nat as -> by lia. by rewrite Nat.Div0.mod_same.
  - rewrite Nat.mod_small by lia. lia.
Qed.

Lemma accept_inv ls fd s live :
  ls ≠ [] → zlen (ip_port_ s) ≤ 51 → next_conn_id_ s < 2 ^ 31 - 1 → server_inv ls (s, live) →
  ∃ s' live', server_step (OpAccept fd) (s, live) = Ok (s', live') ∧ server_inv ls (s', live') ∧
    ip_port_ s' = ip_port_ s ∧ length (established s') = S (length (established s)) ∧ name_ s' = name_ s.
Proof.
  intros Hls Hip Hid [H1 H2 H3 H4 H5 H6 H7 H8]. cbn [fst snd] in *. unfold server_step, NewConnection, GetNextLoop.
  rewrite H1, H2. cbn [cassert mbind outcome_bind]. assert (0 < length ls)%nat as Hl by (destruct ls; [done|cbn; lia]).
  set (k := length (established s)) in *.
  assert (k mod length ls < length ls)%nat as Hlt by (apply Nat.mod_upper_bound; lia).
  destruct (lookup_lt_is_Some_2 ls (k mod length ls) Hlt) as [l Hlk].
  assert (Z.to_nat (next_ (thread_pool_ s)) = k mod length ls)%nat as -> by (rewrite H3; apply Nat2Z.id). rewrite Hlk. destruct ls as [|l0 ls0] eqn:Els; [done|]. rewrite <-Els in *.
  cbn [mbind outcome_bind]. replace (2 ^ 31 - 1 <=? next_conn_id_ s) with false by lia. cbn [mbind outcome_bind].
  set (nm := name_ s ++ conn_suffix _ _). set (c := MkConnection nm l fd). set (s1 := MkServer _ _ _ _ _ _ _ _).
  rewrite established_post. change (established s1) with (established s). rewrite last_snoc.
  assert (nm ∉ conn_name <$> live) as Hfresh.
  { intros (c' & Hn & Hin)%list_elem_of_fmap. destruct (H6 c' Hin) as (id & Hr & Hn'). rewrite Hn' in Hn.
    apply app_inv_head, conn_suffix_inj in Hn; lia. }
  eexists _, _. split; [done|]. split; [|split; [done|split; [|done]]].
  2:{ rewrite established_post, length_app. cbn [length]. change (established s1) with (established s). fold k. lia. }
  split; cbn [fst snd post thread_pool_ is_started_ loops_ next_ next_conn_id_ connections_ name_ ip_port_ s1]; try done.
  - rewrite established_post, length_app. change (established s1) with (established s). fold k. cbn [length].
    replace (k + 1)%nat with (S k) by lia. rewrite H3. unfold zlen. apply next_index. done.
  - rewrite established_post, length_app. change (established s1) with (established s). fold k. cbn [length]. lia.
  - intros j c'. rewrite established_post. change (established s1) with (established s).
    intros [Hj|[Hj Hc']]%lookup_app_Some; [by apply H5|]. fold k in Hj, Hc'.
    assert (j - k = 0)%nat as E by (apply lookup_lt_Some in Hc'; cbn in Hc'; lia). rewrite E in Hc'. injection Hc' as <-.
    assert (j = k) as -> by lia. done.
  - intros c' [Hin|Hin]%elem_of_app.
    + destruct (H6 c' Hin) as (id & ? & ?). exists id. split; [lia|done].
    + apply list_elem_of_singleton in Hin as ->. exists (next_conn_id_ s). split; [lia|done].
  - rewrite fmap_app. apply NoDup_app. split; [done|]. split; [|apply NoDup_singleton].
    intros n Hn ->%list_elem_of_singleton. done.
  - intros n c'. rewrite lookup_insert_Some, H8. split.
    + intros [[<- <-]|[Hne [? ?]]]; set_solver.
    + intros [[Hin|Hin]%elem_of_app <-].
      * right. split; [|done]. intros E. apply Hfresh. rewrite E. by apply list_elem_of_fmap_2.
      * apply list_elem_of_singleton in Hin as ->. by left.
Qed.

Lemma close_inv ls i s live :
  server_inv ls (s, live) →
  ∃ s' live', server_step (OpClose i) (s, live) = Ok (s', live') ∧ server_inv ls (s', live') ∧
    ip_port_ s' = ip_port_ s ∧ established s' = established s ∧ name_ s' = name_ s.
Proof.
  intros Hi. unfold server_step. destruct (live !! i) as [c|] eqn:Hc; [|by exists s, live].
  destruct Hi as [H1 H2 H3 H4 H5 H6 H7 H8]. cbn [fst snd] in *. cbn [RemoveConnection]. unfold RemoveConnectionInLoop.
  assert (c ∈ live) as Hin by (by eapply list_elem_of_lookup_2).
  assert (connections_ s !! conn_name c = Some c) as Hcon by (by apply H8).
  rewrite Hcon, bool_decide_true by done. cbn [cassert mbind outcome_bind]. eexists _, _. split; [done|].
  set (s' := post _ _ _). assert (established s' = established s) as He by (unfold s'; by rewrite established_post, app_nil_r).
  assert (∀ c', c' ∈ delete i live ↔ c' ∈ live ∧ conn_name c' ≠ conn_name c) as Hdel.
  { pose proof (delete_Permutation live i c Hc) as Hp. rewrite Hp, fmap_cons in H7. apply NoDup_cons in H7 as [Hn7 _].
    intros c'. rewrite Hp at 2. rewrite elem_of_cons. split.
    - intros Hd. split; [by right|]. intros E. apply Hn7. rewrite <-E. by apply list_elem_of_fmap_2.
    - intros [[->|?] Hne]; done. }
  split; [|done]. split; cbn [fst snd]; rewrite ?He; try done.
  - intros c' [Hc' _]%Hdel. by apply H6.
  - rewrite list_fmap_delete. eapply sublist_NoDup; [done|]. apply sublist_delete.
  - intros n c'. cbn [s' post set_connections connections_]. rewrite lookup_delete_Some, H8, Hdel. naive_solver.
Qed.

Lemma server_run_inv ls os s live :
  ls ≠ [] → zlen (ip_port_ s) ≤ 51 → next_conn_id_ s + Z.of_nat (length os) < 2 ^ 31 - 1 → server_inv ls (s, live) →
  ∃ s' live', server_run os (s, live) = Ok (s', live') ∧ server_inv ls (s', live').
Proof.
  intros Hls. revert s live. induction os as [|o os IH]; intros s live Hip Hid Hi; cbn [server_run]; [by exists s, live|].
  cbn [length] in Hid. pose proof (si_id _ _ Hi) as Hid0. cbn [fst] in Hid0.
  destruct o as [fd|i].
  - destruct (accept_inv ls fd s live) as (s1 & live1 & -> & Hi1 & Hip1 & He1 & _); [done..|lia|done|]. cbn [mbind outcome_bind].
    pose proof (si_id _ _ Hi1) as Hid1. cbn [fst] in Hid1. apply IH; [congruence|lia|done].
  - destruct (close_inv ls i s live Hi) as (s1 & live1 & -> & Hi1 & Hip1 & He1 & _). cbn [mbind outcome_bind].
    pose proof (si_id _ _ Hi1) as Hid1. cbn [fst] in Hid1. rewrite He1 in Hid1. apply IH; [congruence|lia|done].
Qed.

Lemma start_threads_spec f i n p :
  start_threads f i n p =
    MkPool (base_loop_ p) (is_started_ p) (num_threads_ p) (next_ p)
      (threads_ p ++ ((λ j, f (i + Z.of_nat j)) <$> seq 0 n)) (loops_ p ++ ((λ j, f (i + Z.of_nat j)) <$> seq 0 n)).
Proof.
  revert i p. induction n as [|n IH]; intros i p; cbn [start_threads].
  { cbn. rewrite !app_nil_r. by destruct p. }
  rewrite IH. cbn [base_loop_ is_started_ num_threads_ next_ threads_ loops_].
  assert ((λ j, f (i + Z.of_nat j)) <$> seq 0 (S n) = f i :: ((λ j, f (i + 1 + Z.of_nat j)) <$> seq 0 n)) as E.
  { cbn [seq fmap list_fmap]. f_equal; [f_equal; lia|]. rewrite <-fmap_S_seq, <-list_fmap_compose.
    apply list_fmap_ext. intros j x _. cbn. f_equal. lia. }
  by rewrite E, <-!app_assoc.
Qed.



(** Growing the pool does nothing, and shrinking it leaves dangling loops.
    [ResizeThreadNum] to more threads than there are adds none, because its loop
    runs to the old number; to fewer it destroys threads but keeps handing out
    their loops. *)
Theorem resize_keeps_loops new_loop p n :
  is_started_ p = true → num_threads_ p = zlen (threads_ p) → 0 ≤ n →
  ∃ p', ResizeThreadNum new_loop n p = Ok p' ∧ loops_ p' = loops_ p ∧
    zlen (threads_ p') = Z.min n (zlen (threads_ p)).
Proof.
  intros Hs Hn Hpos. unfold ResizeThreadNum. rewrite Hs. cbn [cassert mbind outcome_bind].
  destruct (Z.ltb_spec n (zlen (threads_ p))).
  - eexists. split; [done|]. split; [done|]. cbn [threads_]. rewrite zlen_ztake; lia.
  - destruct (Z.ltb_spec (zlen (threads_ p)) n).
    + eexists. split; [done|]. rewrite Hn, Z.sub_diag. change (Z.to_nat 0) with 0%nat. cbn [start_threads]. split; [done|lia].
    + exists p. split; [done|]. split; [done|lia].
Qed.

Lemma resize_keeps_loops_witness :
  ∃ p', ResizeThreadNum (λ i, 100 + i) 8 (MkPool 0 true 2 0 [100; 101] [100; 101]) = Ok p' ∧ loops_ p' = [100; 101].
Proof.
  destruct (resize_keeps_loops (λ i, 100 + i) (MkPool 0 true 2 0 [100; 101] [100; 101]) 8) as (p' & H1 & H2 & _).
  - reflexivity.
  - reflexivity.
  - lia.
  - exists p'. split; [exact H1|exact H2].
Defined.
