(* ===== verification/TcpClient.v ===== *)
(** * [net::TcpClient] (net/tcp_client.h, net/tcp_client.cc) on [Connector] and
    [TcpConnection]

    The client starts a connector, makes a connection of each socket it hands
    over, and lets the connector start again when the connection is lost.  The
    connector lives in its world of Connector.v and each connection in its world
    of TcpConnection.v, on a poller with a channel of its own; the functors of
    all of them are in the one queue of the loop, in the order [order].  A turn
    of the loop is a poll, the events of the channels and timers that were there
    at the poll, with calls of the user among them, and the functors that were
    queued before the last of these events was handled. *)

From stdpp Require Import base tactics list numbers strings sets gmap.
From Stdlib Require Import ZArith Lia Ascii.
From S2P Require Import Prelude.
From S2P Require Import CString.
From S2P Require Import Channel.
From S2P Require Import Poller.
From S2P Require Import TcpConnection.
From S2P Require Import Connector.

(** What a connection's socket comes with: a poller that has its channel and the
    answers of the kernel to writes; [peer] is the text of the peer's address. *)
Record socket_env (P : Type) := MkEnv {
  env_poller : P;
  env_channels : heap;
  env_channel : chan;
  env_kernel : list write_answer;
  env_peer : bytes;
}.
Arguments MkEnv {P} _ _ _ _ _.
Arguments env_poller {P} _.
Arguments env_channels {P} _.
Arguments env_channel {P} _.
Arguments env_kernel {P} _.
Arguments env_peer {P} _.

(** A functor in the queue: the next one of the connector, a functor of a
    connection, or [ConnectDestroyed] of one. *)
Inductive entry :=
| FromConnector
| ConnTask (id : Z) (t : TcpConnection.task)
| DestroyTask (id : Z).

Record TcpClient (P : Type) := MkClient {
  connector_ : Connector.world;
  name_ : bytes;
  is_retry_ : bool;
  is_connect_ : bool;
  next_conn_id_ : Z;
  connection_ : option Z;
  connections : gmap Z (bytes * TcpConnection.world P);    (* by number, with their names *)
  order : list entry;
  alive : bool;                                            (* the client is not destroyed *)
}.
Arguments MkClient {P} _ _ _ _ _ _ _ _ _.
Arguments connector_ {P} _.
Arguments name_ {P} _.
Arguments is_retry_ {P} _.
Arguments is_connect_ {P} _.
Arguments next_conn_id_ {P} _.
Arguments connection_ {P} _.
Arguments connections {P} _.
Arguments order {P} _.
Arguments alive {P} _.

Section client.
Context {P : Type} `{Poller P}.
Implicit Types c : TcpClient P.

(** [fd] is the descriptor of the first socket. *)
Definition TcpClient_new (name : bytes) (fd : Z) : TcpClient P :=
  MkClient (world_new fd) name false true 1 None ∅ [] true.

Definition set_flags (retry connect : bool) c : TcpClient P :=
  MkClient (connector_ c) (name_ c) retry connect (next_conn_id_ c) (connection_ c) (connections c) (order c) (alive c).
Definition set_connection (x : option Z) c : TcpClient P :=
  MkClient (connector_ c) (name_ c) (is_retry_ c) (is_connect_ c) (next_conn_id_ c) x (connections c) (order c) (alive c).
Definition set_order (o : list entry) c : TcpClient P :=
  MkClient (connector_ c) (name_ c) (is_retry_ c) (is_connect_ c) (next_conn_id_ c) (connection_ c) (connections c) o (alive c).
Definition set_alive (b : bool) c : TcpClient P :=
  MkClient (connector_ c) (name_ c) (is_retry_ c) (is_connect_ c) (next_conn_id_ c) (connection_ c) (connections c) (order c) b.

(** [loop_->QueueInLoop]. *)
Definition Queue (e : entry) c : TcpClient P := set_order (order c ++ [e]) c.

(** The connector's new world; what it queued goes to the end of the queue. *)
Definition set_connector_world (w : Connector.world) c : TcpClient P :=
  MkClient w (name_ c) (is_retry_ c) (is_connect_ c) (next_conn_id_ c) (connection_ c) (connections c)
    (order c ++ replicate (length (queue w) - length (queue (connector_ c))) FromConnector) (alive c).
Definition on_connector (f : Connector.world → outcome Connector.world) c : outcome (TcpClient P) :=
  w ← f (connector_ c); Ok (set_connector_world w c).

(** The same for a connection. *)
Definition take_tasks (w : TcpConnection.world P) : TcpConnection.world P :=
  TcpConnection.MkWorld (conn w) (poller w) (channels w) (wire w) (write_shut w) (kernel w) [] (TcpConnection.timers w).
Definition set_conn_world (id : Z) (name : bytes) (w : TcpConnection.world P) c : TcpClient P :=
  MkClient (connector_ c) (name_ c) (is_retry_ c) (is_connect_ c) (next_conn_id_ c) (connection_ c)
    (<[id := (name, take_tasks w)]> (connections c)) (order c ++ (ConnTask id <$> tasks w)) (alive c).
Definition on_connection (f : TcpConnection.world P → outcome (TcpConnection.world P)) (id : Z) c : outcome (TcpClient P) :=
  match connections c !! id with
  | Some (name, w) => w ← f w; Ok (set_conn_world id name w c)
  | None => Ok c
  end.

(** ** The calls of the user *)
Definition Connect (in_loop_thread : bool) (old_errno : Z) c : outcome (TcpClient P) :=
  on_connector (Start in_loop_thread old_errno) (set_flags (is_retry_ c) true c).

Definition Disconnect (in_loop_thread : bool) c : outcome (TcpClient P) :=
  let c := set_flags (is_retry_ c) false c in
  match connection_ c with
  | Some id => on_connection (TcpConnection.Shutdown Ok Ok in_loop_thread) id c
  | None => Ok c
  end.

Definition Stop c : outcome (TcpClient P) :=
  on_connector (λ w, Ok (Connector.Stop w)) (set_flags (is_retry_ c) false c).

Definition EnableRetry c : TcpClient P := set_flags true (is_connect_ c) c.

(** [conn->ForceClose()] on the connection the client gave out. *)
Definition ForceClose (id : Z) c : outcome (TcpClient P) :=
  on_connection (λ w, Ok (TcpConnection.ForceClose w)) id c.

(** [~TcpClient()] in the loop's thread; [unique]: nobody else has the connection. *)
Definition TcpClient_destroy (unique : bool) c : outcome (TcpClient P) :=
  match connection_ c with
  | Some id =>
      (* the close callback is detail::RemoveConnection from now on *)
      let c := set_alive false c in
      if unique then ForceClose id c else Ok c
  | None => on_connector (λ w, Ok (Connector.Stop w)) (set_alive false c)
  end.

(** ** The callbacks *)

(** The name in a buffer of 32. *)
Definition connection_name (name peer : bytes) (id : Z) : bytes :=
  name ++ ztake 31 (str ":" ++ peer ++ str "#" ++ fmt_d id).

(** The connector calls it with a plain [this]. *)
Definition NewConnection (env : socket_env P) c : outcome (TcpClient P) :=
  let name := connection_name (name_ c) (env_peer env) (next_conn_id_ c) in
  let id := next_conn_id_ c in
  if negb (alive c) then Fail (UndefinedBehaviour "NewConnection of a destroyed TcpClient") else
  w ← establish Ok (env_channel env) false false (env_poller env) (env_channels env) (env_kernel env);
  Ok (MkClient (connector_ c) (name_ c) (is_retry_ c) (is_connect_ c) (next_conn_id_ c + 1) (Some id)
        (<[id := (name, w)]> (connections c)) (order c) (alive c)).

Definition RemoveConnection (old_errno : Z) (id : Z) c : outcome (TcpClient P) :=
  cassert "connection_ == conn" (bool_decide (connection_ c = Some id));;
  let c := Queue (DestroyTask id) (set_connection None c) in
  if is_retry_ c && is_connect_ c then on_connector (Restart old_errno) c else Ok c.

(** [close_callback_], the last thing that [HandleClose] does. *)
Definition close_callback (old_errno : Z) (id : Z) c : outcome (TcpClient P) :=
  if alive c then RemoveConnection old_errno id c else Ok (Queue (DestroyTask id) c).

Definition open_ (w : TcpConnection.world P) : bool :=
  bool_decide (TcpConnection.state_ (conn w) = TcpConnection.kConnected) ||
  bool_decide (TcpConnection.state_ (conn w) = TcpConnection.kDisconnecting).
Definition is_open (id : Z) c : bool :=
  match connections c !! id with Some (_, w) => open_ w | None => false end.

(** The functor held the last reference that the loop has. *)
Definition drop_connection (id : Z) c : TcpClient P :=
  MkClient (connector_ c) (name_ c) (is_retry_ c) (is_connect_ c) (next_conn_id_ c) (connection_ c)
    (delete id (connections c)) (order c) (alive c).

(** ** A turn of the loop *)
Inductive poll_event :=
| ConnectorWritable (err : Z) (self : bool)
| ConnectorError
| PeerClose (id : Z) (old_errno : Z)
| RetryTimer (old_errno : Z).
Inductive user_call :=
| CallDisconnect (in_loop_thread : bool)
| CallStop
| CallEnableRetry
| CallForceClose (id : Z)
| CallDestroy (unique : bool).
Definition client_event : Type := poll_event + user_call.

(** What the poll saw: the sockets and connections made since are not among the
    active channels, and a timer set since is at least half a second away. *)
Record snapshot := MkSnapshot { seen_fds : Z; seen_conns : Z; timer_due : bool }.
Definition poll c : snapshot :=
  MkSnapshot (next_fd (connector_ c)) (next_conn_id_ c) (bool_decide (timers (connector_ c) ≠ [])).

(** The environment gives the [k]-th connection its surroundings. *)
Context (env : Z → socket_env P).

Definition handle_event (e : poll_event) (s : snapshot) c : outcome (snapshot * TcpClient P) :=
  match e with
  | ConnectorWritable err self =>
      match channel_ (connector (connector_ c)) with
      | Some (fd, true) =>
          if fd <? seen_fds s then
            let before := length (delivered (connector_ c)) in
            c ← on_connector (HandleWrite err self) c;
            c ← (if bool_decide (before < length (delivered (connector_ c)))%nat
                 then NewConnection (env (next_conn_id_ c)) c else Ok c);
            Ok (s, c)
          else Ok (s, c)
      | _ => Ok (s, c)
      end
  | ConnectorError =>
      match channel_ (connector (connector_ c)) with
      | Some (fd, true) => if fd <? seen_fds s then c ← on_connector HandleError c; Ok (s, c) else Ok (s, c)
      | _ => Ok (s, c)
      end
  | PeerClose id old_errno =>
      match connections c !! id with
      | Some (_, w) =>
          reading ← channel_is IsReading w;
          if (id <? seen_conns s) && reading then
            c ← on_connection (HandleClose Ok Ok) id c;
            c ← close_callback old_errno id c;
            Ok (s, c)
          else Ok (s, c)
      | None => Ok (s, c)
      end
  | RetryTimer old_errno =>
      if timer_due s then
        c ← on_connector (λ w, StartInLoop old_errno
              (Connector.MkWorld (connector w) (Connector.open_ w) (next_fd w) (delivered w) (queue w) (tail (timers w)))) c;
        Ok (MkSnapshot (seen_fds s) (seen_conns s) false, c)
      else Ok (s, c)
  end.

Definition call (u : user_call) c : outcome (TcpClient P) :=
  match u with
  | CallForceClose id => ForceClose id c
  | CallDisconnect in_loop => if alive c then Disconnect in_loop c else Ok c
  | CallStop => if alive c then Stop c else Ok c
  | CallEnableRetry => if alive c then Ok (EnableRetry c) else Ok c
  | CallDestroy unique => if alive c then TcpClient_destroy unique c else Ok c
  end.

Fixpoint handle_events (es : list client_event) (s : snapshot) c : outcome (snapshot * TcpClient P) :=
  match es with
  | [] => Ok (s, c)
  | inl e :: es => '(s, c) ← handle_event e s c; handle_events es s c
  | inr u :: es => c ← call u c; handle_events es s c
  end.

(** One functor; [old_errno] is what connect(2) would answer. *)
Definition run_entry (old_errno : Z) c : outcome (TcpClient P) :=
  match order c with
  | [] => Ok c
  | FromConnector :: o =>
      w ← Connector.step (EvTask old_errno) (connector_ c);
      Ok (MkClient w (name_ c) (is_retry_ c) (is_connect_ c) (next_conn_id_ c) (connection_ c) (connections c)
            (o ++ replicate (length (queue w) - length (tail (queue (connector_ c)))) FromConnector) (alive c))
  | ConnTask id t :: o =>
      let closes := match t with ForceCloseInLoopTask => is_open id c | _ => false end in
      c ← on_connection (TcpConnection.run_task Ok Ok t) id (set_order o c);
      if closes then close_callback old_errno id c else Ok c
  | DestroyTask id :: o =>
      match connections c !! id with
      | Some (_, w) =>
          w ← ConnectDestroyed Ok w;
          TcpConnection_destroy w;;
          Ok (drop_connection id (set_order o c))
      | None => Ok (set_order o c)
      end
  end.

Fixpoint run_entries (n : nat) (old_errno : nat → Z) c : outcome (TcpClient P) :=
  match n with
  | O => Ok c
  | S n => c ← run_entry (old_errno n) c; run_entries n old_errno c
  end.

Definition turn (es : list client_event) (old_errno : nat → Z) c : outcome (TcpClient P) :=
  '(_, c) ← handle_events es (poll c) c;
  run_entries (length (order c)) old_errno c.

Fixpoint turns (l : list (list client_event * (nat → Z))) c : outcome (TcpClient P) :=
  match l with
  | [] => Ok c
  | (es, old_errno) :: l => c ← turn es old_errno c; turns l c
  end.

End client.

(** ** One step of the connector, seen from the client *)
Section connector_steps.
Implicit Types w : Connector.world.

Lemma attempt_end (f : Connector.world → outcome Connector.world) w fd :
  (f = HandleError ∨ ∃ err self, f = HandleWrite err self) →
  connector_inv w → channel_ (connector w) = Some (fd, true) →
  ∃ w', f w = Ok w' ∧ connector_inv w' ∧ queue w' = queue w ++ [ResetChannelTask] ∧
    channel_ (connector w') = Some (fd, false) ∧ Connector.is_connect_ (connector w') = Connector.is_connect_ (connector w) ∧
    next_fd w' = next_fd w ∧
    (delivered w' = delivered w ∨
     delivered w' = delivered w ++ [fd] ∧ state_ (connector w') = kConnected ∧ Connector.is_connect_ (connector w) = true).
Proof.
  intros Hf Hi Hc. pose proof (end_attempt_inv w fd Hi Hc) as (He & _ & Hw).
  assert (state_ (connector w) = kConnecting) as Hst by (apply (ci_state _ Hi); eauto).
  assert (∃ w', f w = Ok w' ∧ connector_inv w') as (w' & Hok & Hi') by (destruct Hf as [->|(err & self & ->)]; [done|apply Hw]).
  exists w'. split; [done|]. split; [done|]. destruct Hf as [->|(err & self & ->)].
  - unfold HandleError, RemoveAndResetChannel in Hok. rewrite bool_decide_true, Hc in Hok by done. cbn [mbind outcome_bind] in Hok.
    injection Hok as <-. unfold Retry. cbn. destruct (Connector.is_connect_ (connector w)) eqn:Eic; cbn; rewrite ?Eic; repeat (split; [done|]); first [by left|by right].
  - unfold HandleWrite, RemoveAndResetChannel in Hok. rewrite bool_decide_true, Hc in Hok by done. cbn [mbind outcome_bind] in Hok.
    destruct (negb (err =? 0)); [|destruct self].
    1, 2: injection Hok as <-; unfold Retry; cbn; destruct (Connector.is_connect_ (connector w)) eqn:Eic; cbn; rewrite ?Eic; repeat (split; [done|]); first [by left|by right].
    cbn in Hok. destruct (Connector.is_connect_ (connector w)) eqn:Eic; injection Hok as <-; cbn; rewrite ?Eic; repeat (split; [done|]); first [by left|by right].
Qed.

Lemma start_attempt errno w :
  connector_inv w → channel_ (connector w) = None → timers w = [] → state_ (connector w) = kDisconnected →
  ∃ w', StartInLoop errno w = Ok w' ∧ connector_inv w' ∧ queue w' = queue w ∧
    (∀ fd, channel_ (connector w') ≠ Some (fd, false)) ∧ Connector.is_connect_ (connector w') = Connector.is_connect_ (connector w) ∧
    next_fd w ≤ next_fd w' ∧ delivered w' = delivered w ∧ (Connector.is_connect_ (connector w) = false → w' = w).
Proof.
  intros Hi Hc Ht Hst. destruct (StartInLoop_inv errno w Hi Hc Ht Hst) as (w' & Hok & Hi'). exists w'. split; [done|]. split; [done|].
  unfold StartInLoop in Hok. rewrite bool_decide_true in Hok by done. cbn [cassert mbind outcome_bind] in Hok.
  destruct (Connector.is_connect_ (connector w)) eqn:Eic; [|injection Hok as <-; rewrite Hc; done].
  unfold Connector.Connect, CreateNonblocking in Hok. destruct (classify errno).
  - unfold Connecting in Hok. cbn in Hok. rewrite Hc, bool_decide_true in Hok by done. cbn in Hok. injection Hok as <-. cbn. rewrite Eic.
    split; [done|]. split; [done|]. split; [done|]. split; [lia|done].
  - injection Hok as <-. unfold Retry. cbn. rewrite Eic. cbn. rewrite Hc, Eic. split; [done|]. split; [done|]. split; [done|]. split; [lia|done].
  - injection Hok as <-. cbn. rewrite Hc, Eic. split; [done|]. split; [done|]. split; [done|]. split; [lia|done].
Qed.

Lemma restart_attempt errno w :
  connector_inv w → channel_ (connector w) = None → state_ (connector w) = kConnected →
  ∃ w', Restart errno w = Ok w' ∧ connector_inv w' ∧ queue w' = queue w ∧
    (∀ fd, channel_ (connector w') ≠ Some (fd, false)) ∧ Connector.is_connect_ (connector w') = true ∧
    next_fd w ≤ next_fd w' ∧ delivered w' = delivered w.
Proof.
  intros Hi Hc Hst. unfold Restart.
  assert (timers w = []) as Ht by (destruct (ci_timers _ Hi) as [_ Ht]; destruct (timers w); [done|]; rewrite Hst in Ht; by discriminate Ht).
  destruct (start_attempt errno (set_connect true (set_delay kInitRetryDelayMs (SetState kDisconnected w))))
    as (w' & Hok & Hi' & Hq & Hch & Hic & Hfd & Hd & _); [|done..|by eexists].
  destruct Hi as [Hs Hr Hst' Hti Hd Ho Hf Hdl]. split; cbn; rewrite ?Hc, ?Ht in *; try done.
  - split; [done|]. by intros [? ?].
  - split; [cbn; lia|done].
  - apply Forall_cons. split; [unfold kInitRetryDelayMs, kMaxRetryDelayMs; lia|done].
  - rewrite Ho. unfold in_progress. cbn. by rewrite Hst.
Qed.

(** A functor of the connector.  A pending stop finds [is_connect_] cleared. *)
Lemma connector_task errno w t q :
  connector_inv w → queue w = t :: q → (t = StopInLoopTask → Connector.is_connect_ (connector w) = false) →
  ∃ w', Connector.step (EvTask errno) w = Ok w' ∧ connector_inv w' ∧
    Connector.is_connect_ (connector w') = Connector.is_connect_ (connector w) ∧ next_fd w' = next_fd w ∧ delivered w' = delivered w ∧
    ((t = ResetChannelTask ∧ queue w' = q ∧ channel_ (connector w') = None ∧ state_ (connector w') = state_ (connector w)) ∨
     (t = StopInLoopTask ∧ queue w' = q ∧ connector w' = connector w ∧ timers w' = timers w) ∨
     (t = StopInLoopTask ∧ queue w' = q ++ [ResetChannelTask] ∧ state_ (connector w) = kConnecting ∧ timers w' = [] ∧
      state_ (connector w') = kDisconnected)).
Proof.
  intros Hi Hq Hstop. destruct (step_inv (EvTask errno) w Hi) as (w' & Hok & Hi'). exists w'. split; [done|]. split; [done|].
  cbn [step] in Hok. rewrite Hq in Hok. destruct t; cbn [run_task] in Hok.
  - destruct (ci_start _ Hi). rewrite Hq. set_solver.
  - specialize (Hstop eq_refl). unfold StopInLoop in Hok. cbn [connector] in Hok.
    destruct (bool_decide_reflect (state_ (connector w) = kConnecting)) as [E|E].
    + pose proof E as [fd Hfd]%(ci_state _ Hi). unfold RemoveAndResetChannel in Hok. cbn in Hok. rewrite Hfd in Hok. cbn in Hok.
      unfold Retry in Hok. cbn in Hok. rewrite Hstop in Hok. injection Hok as <-. cbn. rewrite Hstop.
      assert (timers w = []) as Ht by (destruct (ci_timers _ Hi) as [_ Ht]; destruct (timers w); [done|]; rewrite E in Ht; by discriminate Ht).
      split; [done|]. split; [done|]. split; [done|]. right. right. done.
    + injection Hok as <-. cbn. split; [done|]. split; [done|]. split; [done|]. right. by left.
  - unfold ResetChannel in Hok. apply bind_Ok in Hok as (u & _ & Hok). injection Hok as <-. cbn.
    split; [done|]. split; [done|]. split; [done|]. by left.
Qed.

End connector_steps.

(** ** One step of a connection, seen from the client *)
Section connection_steps.
Context {P : Type} `{PollerInv P inv}.
Implicit Types w : TcpConnection.world P.

(** Open, or closed and waiting for [ConnectDestroyed]. *)
Definition live w : Prop := open_ w = true ∧ ∃ r x, registered (inv := inv) w r x.
Definition closing w : Prop :=
  TcpConnection.state_ (conn w) = TcpConnection.kDisconnected ∧ ∃ r x, registered (inv := inv) w r x ∧ Channel.events_ x = 0.

Lemma closing_not_open w : closing w → open_ w = false.
Proof. intros [Hs _]. unfold open_. by rewrite Hs. Qed.

Lemma live_closing w : live w → closing w → False.
Proof. intros [Ho _] Hc%closing_not_open. congruence. Qed.

Lemma take_tasks_live w : live w → live (take_tasks w).
Proof. intros [Ho (r & x & [? ? ? ?])]. split; [done|]. by exists r, x. Qed.
Lemma take_tasks_closing w : closing w → closing (take_tasks w).
Proof. intros [Ho (r & x & [? ? ? ?] & ?)]. split; [done|]. by exists r, x. Qed.

Lemma establish_live k p h ch r x :
  fresh (inv := inv) p h r ch x → Forall (λ a, is_fault a = false) k →
  ∃ w, establish Ok ch false false p h k = Ok w ∧ live w ∧ tasks w = [].
Proof.
  intros Hf Hk. destruct (establish_ok Ok ch false false p h r x k) as (w & E & [(r' & x' & Hr & _) _ _ _ _ Hst _] & _); [done..|].
  exists w. split; [done|]. split.
  - split; [|by exists r', x']. unfold open_. destruct Hst as [-> | ->]; done.
  - unfold establish in E. apply bind_Ok in E as (t & _ & E). unfold ConnectEstablished in E. inv_ok.
    unfold on_channel in *. inv_ok. done.
Qed.

Lemma open_cases w : open_ w = true →
  TcpConnection.state_ (conn w) = TcpConnection.kConnected ∨ TcpConnection.state_ (conn w) = TcpConnection.kDisconnecting.
Proof. unfold open_. intros [?%bool_decide_eq_true|?%bool_decide_eq_true]%orb_true_iff; auto. Qed.

(** [Shutdown] leaves an open connection open. *)
Lemma Shutdown_live in_loop w :
  live w → tasks w = [] →
  ∃ w', TcpConnection.Shutdown Ok Ok in_loop w = Ok w' ∧ live w' ∧ (tasks w' = [] ∨ tasks w' = [ShutdownInLoopTask]).
Proof.
  intros [Ho (r & x & [Hi Hc Hr Hio])] Ht. unfold TcpConnection.Shutdown.
  destruct (bool_decide_reflect (TcpConnection.state_ (conn w) = TcpConnection.kConnected)) as [E|E].
  2: { exists w. split; [done|]. split; [|by left]. split; [done|]. by exists r, x. }
  unfold RunInLoop. destruct in_loop; cbn [TcpConnection.run_task].
  - unfold ShutdownInLoop, channel_is, deref. cbn [TcpConnection.SetState set_conn conn channels TcpConnection.channel_].
    rewrite Hc. cbn [mbind outcome_bind]. eexists. split; [done|].
    destruct (negb (IsWriting x)); (split; [split; [done|]; by exists r, x|by left]).
  - eexists. split; [done|]. split; [split; [done|]; by exists r, x|]. right. cbn. by rewrite Ht.
Qed.

Lemma ForceClose_live w :
  live w → tasks w = [] → live (TcpConnection.ForceClose w) ∧
    tasks (TcpConnection.ForceClose w) = [ForceCloseInLoopTask].
Proof.
  intros [Ho (r & x & [Hi Hc Hr Hio])] Ht. unfold TcpConnection.ForceClose. fold (open_ w). rewrite Ho. cbn. rewrite Ht.
  split; [|done]. split; [done|]. by exists r, x.
Qed.

Lemma ForceClose_closing w : closing w → TcpConnection.ForceClose w = w.
Proof. intros Hc%closing_not_open. unfold TcpConnection.ForceClose. fold (open_ w). by rewrite Hc. Qed.

Lemma HandleClose_live w :
  live w → ∃ w', HandleClose Ok Ok w = Ok w' ∧ closing w' ∧ tasks w' = tasks w.
Proof.
  intros [Ho (r & x & Hr)]. unfold HandleClose. fold (open_ w). rewrite Ho. cbn [cassert mbind outcome_bind].
  destruct (change_events_ok (λ _, kNoneEvent) (TcpConnection.SetState TcpConnection.kDisconnected w) r x) as (ph & r' & x' & Hok & Hr' & Hx').
  - destruct Hr. by split.
  - unfold io_events. set_solver.
  - unfold DisableAll. rewrite Hok. cbn [mbind outcome_bind]. eexists. split; [done|]. split; [|done]. split; [done|]. by exists r', x'.
Qed.

(** The two functors that a client queues. *)
Lemma shutdown_task w :
  live w ∨ closing w → ∃ w', TcpConnection.run_task Ok Ok ShutdownInLoopTask w = Ok w' ∧ tasks w' = tasks w ∧
    (live w → live w') ∧ (closing w → closing w').
Proof.
  intros Hw. assert (∃ x, channels w !! TcpConnection.channel_ (conn w) = Some x) as [x Hx]
    by (destruct Hw as [[_ (r & x & [])]|[_ (r & x & [] & _)]]; by exists x).
  cbn [TcpConnection.run_task]. unfold ShutdownInLoop, channel_is, deref. rewrite Hx. cbn [mbind outcome_bind]. eexists. split; [done|].
  destruct (negb (IsWriting x)); [|done]. split; [done|]. split.
  - intros [Ho (r & y & [? ? ? ?])]. split; [done|]. by exists r, y.
  - intros [Ho (r & y & [? ? ? ?] & ?)]. split; [done|]. by exists r, y.
Qed.

Lemma force_close_task w :
  (live w → ∃ w', TcpConnection.run_task Ok Ok ForceCloseInLoopTask w = Ok w' ∧ closing w' ∧ tasks w' = tasks w) ∧
  (closing w → TcpConnection.run_task Ok Ok ForceCloseInLoopTask w = Ok w).
Proof.
  cbn [TcpConnection.run_task]. unfold ForceCloseInLoop. fold (open_ w). split.
  - intros Hl. rewrite (proj1 Hl). by apply HandleClose_live.
  - intros Hc%closing_not_open. by rewrite Hc.
Qed.

Lemma destroy_closing w :
  closing w → ∃ w', ConnectDestroyed Ok w = Ok w' ∧ TcpConnection_destroy w' = Ok tt.
Proof.
  intros [Hs (r & x & Hr & Hx)]. unfold ConnectDestroyed. rewrite bool_decide_false by (by rewrite Hs). cbn [mbind outcome_bind].
  destruct (Remove_ok w r x Hr Hx) as (ph & r2 & -> & _). eexists. split; [done|].
  unfold TcpConnection_destroy. cbn [set_channels conn]. by rewrite bool_decide_true.
Qed.

Lemma closing_not_reading w : closing w → channel_is IsReading w = Ok false.
Proof. intros [_ (r & x & [] & Hx)]. unfold channel_is, deref. rewrite rg_chan. cbn. unfold IsReading. by rewrite Hx. Qed.

End connection_steps.

(** ** The invariant of the client *)
Fixpoint connector_entries (o : list entry) : nat :=
  match o with
  | [] => 0
  | FromConnector :: o => S (connector_entries o)
  | _ :: o => connector_entries o
  end.

Lemma connector_entries_app o o' : connector_entries (o ++ o') = (connector_entries o + connector_entries o')%nat.
Proof. induction o as [|[] o IH]; cbn; [done|..]; by rewrite IH. Qed.
Lemma connector_entries_replicate n : connector_entries (replicate n FromConnector) = n.
Proof. induction n; cbn; congruence. Qed.
Lemma connector_entries_tasks id ts : connector_entries (ConnTask id <$> ts) = 0%nat.
Proof. by induction ts. Qed.

(** The functor that resets the connector's channel is among the first [k] of the
    queue, and no functor of the connection [cur] is before it. *)
Fixpoint reset_soon (cur : option Z) (k : nat) (o : list entry) (q : list Connector.task) : Prop :=
  match k, o with
  | S k, FromConnector :: o => match q with t :: q => t = ResetChannelTask ∨ reset_soon cur k o q | [] => False end
  | S k, ConnTask id _ :: o => cur ≠ Some id ∧ reset_soon cur k o q
  | S k, DestroyTask _ :: o => reset_soon cur k o q
  | _, _ => False
  end.

Lemma reset_soon_app cur k j o o' q q' : reset_soon cur k o q → reset_soon cur (k + j) (o ++ o') (q ++ q').
Proof.
  revert o q. induction k as [|k IH]; intros [|[|id t|id] o] q; cbn; try done; [|naive_solver..].
  destruct q as [|t q]; [done|]. cbn. naive_solver.
Qed.

Lemma reset_soon_None cur k o q : reset_soon cur k o q → reset_soon None k o q.
Proof. revert o q. induction k as [|k IH]; intros [|[|id t|id] o] q; cbn; try done; [destruct q; naive_solver|naive_solver..]. Qed.

Lemma reset_soon_intro cur o q :
  ResetChannelTask ∈ q → (length q ≤ connector_entries o)%nat → (∀ id t, ConnTask id t ∈ o → cur ≠ Some id) →
  reset_soon cur (length o) o q.
Proof.
  revert q. induction o as [|[|id t|id] o IH]; intros q Hq Hl Hc; cbn in *.
  - destruct q; [by apply not_elem_of_nil in Hq|cbn in Hl; lia].
  - destruct q as [|t q]; [by apply not_elem_of_nil in Hq|]. apply elem_of_cons in Hq as [<-|Hq]; [by left|]. right.
    apply IH; [done|cbn in Hl; lia|set_solver].
  - split; [apply (Hc id t); set_solver|]. apply IH; [done..|set_solver].
  - apply IH; [done..|set_solver].
Qed.

Section invariant.
Context {P : Type} `{PollerInv P inv}.
Implicit Types c : TcpClient P.

(** The connection that the client would have to remove. *)
Definition cur c : option Z := if alive c then connection_ c else None.
Definition reset_pending (w : Connector.world) : Prop := ∃ fd, channel_ (connector w) = Some (fd, false).

Record client_inv c : Prop := MkClientInv {
  ki_connector : connector_inv (connector_ c);
  ki_count : connector_entries (order c) = length (queue (connector_ c));
  ki_conns : ∀ id n w, connections c !! id = Some (n, w) →
    tasks w = [] ∧ id < next_conn_id_ c ∧ (live (inv := inv) w ∧ (alive c = true → connection_ c = Some id) ∨ closing (inv := inv) w);
  ki_destroy : ∀ id, DestroyTask id ∈ order c → id < next_conn_id_ c ∧ ∀ n w, connections c !! id = Some (n, w) → closing (inv := inv) w;
  ki_tasks : ∀ id t, ConnTask id t ∈ order c → (t = ShutdownInLoopTask ∨ t = ForceCloseInLoopTask) ∧ id < next_conn_id_ c;
  ki_current : ∀ id, cur c = Some id →
    state_ (connector (connector_ c)) = kConnected ∧ ∃ n w, connections c !! id = Some (n, w) ∧ live (inv := inv) w;
  ki_stop : StopInLoopTask ∈ queue (connector_ c) →
    Connector.is_connect_ (connector (connector_ c)) = false ∧ (is_connect_ c = true → alive c = false);
  ki_dead : alive c = false → Connector.is_connect_ (connector (connector_ c)) = false ∨ state_ (connector (connector_ c)) = kConnected;
  ki_ids : next_conn_id_ c = 1 + zlen (delivered (connector_ c));
}.

Lemma pending_in_queue w : connector_inv w → reset_pending w → ResetChannelTask ∈ queue w.
Proof.
  intros Hi [fd Hc]. pose proof (ci_resets _ Hi) as Hr. rewrite Hc in Hr. unfold resets in Hr.
  destruct (filter (.= ResetChannelTask) (queue w)) as [|t l] eqn:E; [done|].
  assert (t ∈ filter (.= ResetChannelTask) (queue w)) as [-> ?]%list_elem_of_filter by (rewrite E; set_solver). done.
Qed.

(** The connector moves on; the connections stay.  Of the queue, [o] is left. *)
Lemma move_connector c w' o q q' :
  client_inv c → connector_inv w' → (∀ e, e ∈ o → e ∈ order c) → connector_entries o = length q → queue w' = q ++ q' →
  delivered w' = delivered (connector_ c) → (cur c ≠ None → state_ (connector w') = kConnected) →
  (StopInLoopTask ∈ queue w' → Connector.is_connect_ (connector w') = false ∧ (is_connect_ c = true → alive c = false)) →
  (alive c = false → Connector.is_connect_ (connector w') = false ∨ state_ (connector w') = kConnected) →
  client_inv (MkClient w' (name_ c) (is_retry_ c) (is_connect_ c) (next_conn_id_ c) (connection_ c) (connections c)
    (o ++ replicate (length q') FromConnector) (alive c)).
Proof.
  intros [Hk Hcnt Hco Hde Hta Hcu Hst Hdd Hid] Hw' Hsub Hlen Hq Hdl Hs Hstop Hdead. split; try done.
  - cbn. rewrite connector_entries_app, connector_entries_replicate, Hlen, Hq, length_app. done.
  - cbn. intros id Hin. apply elem_of_app in Hin as [Hin|Hin]; [by apply Hde, Hsub|]. by apply elem_of_replicate in Hin as [[=] _].
  - cbn. intros id t Hin. apply elem_of_app in Hin as [Hin|Hin]; [by apply Hta, Hsub|]. by apply elem_of_replicate in Hin as [[=] _].
  - intros id Hc. change (cur c = Some id) in Hc. destruct (Hcu id Hc) as [_ ?]. split; [|done]. apply Hs. by rewrite Hc.
  - cbn. by rewrite Hdl.
Qed.

Lemma connector_update c w' q' :
  client_inv c → connector_inv w' → queue w' = queue (connector_ c) ++ q' → delivered w' = delivered (connector_ c) →
  (cur c ≠ None → state_ (connector w') = kConnected) →
  (StopInLoopTask ∈ queue w' → Connector.is_connect_ (connector w') = false ∧ (is_connect_ c = true → alive c = false)) →
  (alive c = false → Connector.is_connect_ (connector w') = false ∨ state_ (connector w') = kConnected) →
  client_inv (set_connector_world w' c) ∧ order (set_connector_world w' c) = order c ++ replicate (length q') FromConnector.
Proof.
  intros Hi Hw' Hq Hdl Hs Hstop Hdead. unfold set_connector_world.
  assert (length (queue w') - length (queue (connector_ c)) = length q')%nat as -> by (rewrite Hq, length_app; lia).
  split; [|done]. by apply (move_connector c w' (order c) (queue (connector_ c)) q'); [..|apply Hi| | | | |].
Qed.

(** A connection moves on, open or closed as before. *)
Lemma conn_update c id n w w' :
  client_inv c → connections c !! id = Some (n, w) → (live (inv := inv) w → live (inv := inv) w') →
  (closing (inv := inv) w → closing (inv := inv) w') → Forall (λ t, t = ShutdownInLoopTask ∨ t = ForceCloseInLoopTask) (tasks w') →
  client_inv (set_conn_world id n w' c).
Proof.
  intros [Hk Hcnt Hco Hde Hta Hcu Hst Hdd Hid] Hw Hl Hc Ht. destruct (Hco id n w Hw) as (_ & Hlt & Hor). split; try done.
  - cbn. by rewrite connector_entries_app, connector_entries_tasks, Nat.add_0_r.
  - cbn. intros id' n' w''. rewrite lookup_insert_Some. intros [[<- [= <- <-]]|[_ Hw'']]; [|by eapply Hco].
    split; [done|]. split; [done|]. destruct Hor as [[? ?]|?]; [left; split; [by apply take_tasks_live, Hl|done]|right; by apply take_tasks_closing, Hc].
  - cbn. intros id' Hin. apply elem_of_app in Hin as [Hin|Hin]; [|by apply list_elem_of_fmap in Hin as (? & [=] & _)].
    destruct (Hde id' Hin) as [Hlt' Hcl]. split; [done|]. intros n' w''. rewrite lookup_insert_Some.
    intros [[<- [= <- <-]]|[_ Hw'']]; [|by eapply Hcl]. apply take_tasks_closing, Hc. by eapply Hcl.
  - cbn. intros id' t Hin. apply elem_of_app in Hin as [Hin|Hin]; [by eapply Hta|].
    apply list_elem_of_fmap in Hin as (t' & [= -> ->] & Hin). rewrite Forall_forall in Ht. split; [by apply Ht|done].
  - intros id' Hc'. change (cur (set_conn_world id n w' c)) with (cur c) in Hc'. destruct (Hcu id' Hc') as (? & n' & w'' & Hw'' & Hl'').
    split; [done|]. cbn. destruct (decide (id' = id)) as [->|Hne].
    + rewrite lookup_insert_eq. eexists _, _. split; [done|]. apply take_tasks_live, Hl. congruence.
    + rewrite lookup_insert_ne by done. eauto.
Qed.

(** [ConnectDestroyed] is queued for a connection that is closed and no longer
    the client's. *)
Lemma queue_destroy c id n w w' :
  client_inv c → connections c !! id = Some (n, w) → live (inv := inv) w → closing (inv := inv) w' → tasks w' = [] →
  client_inv (Queue (DestroyTask id)
    (if alive c then set_connection None (set_conn_world id n w' c) else set_conn_world id n w' c)).
Proof.
  intros [Hk Hcnt Hco Hde Hta Hcu Hst Hdd Hid] Hw Hl Hc Ht. destruct (Hco id n w Hw) as (_ & Hlt & Hor).
  assert (∀ id' n' w'', <[id := (n, take_tasks w')]> (connections c) !! id' = Some (n', w'') →
    tasks w'' = [] ∧ id' < next_conn_id_ c ∧ (live (inv := inv) w'' ∧ id' ≠ id ∧ (alive c = true → connection_ c = Some id') ∨ closing (inv := inv) w'')) as Hco'.
  { intros id' n' w''. rewrite lookup_insert_Some. intros [[<- [= <- <-]]|[Hne Hw'']].
    - split; [done|]. split; [done|]. right. by apply take_tasks_closing.
    - destruct (Hco _ _ _ Hw'') as (? & ? & [[? ?]|?]); (split; [done|]; split; [done|]); [left|by right]. done. }
  assert (alive c = true → connection_ c = Some id) as Hid'.
  { destruct Hor as [[_ ?]|Hcl]; [done|]. by destruct (live_closing _ Hl Hcl). }
  split; try (destruct (alive c) eqn:Ea; cbn; done).
  - destruct (alive c); cbn; rewrite !connector_entries_app, connector_entries_tasks; cbn; by rewrite !Nat.add_0_r.
  - intros id' n' w'' Hw''. assert (<[id := (n, take_tasks w')]> (connections c) !! id' = Some (n', w'')) as Hw1 by (by destruct (alive c)).
    destruct (Hco' _ _ _ Hw1) as (? & ? & [(? & Hne & Hal)|?]); (split; [done|]; split; [by destruct (alive c)|]); [left|by right].
    split; [done|]. destruct (alive c) eqn:Ea; cbn; [|congruence]. intros _. destruct Hne. specialize (Hal eq_refl). rewrite (Hid' eq_refl) in Hal. congruence.
  - intros id' Hin. assert (DestroyTask id' ∈ (order c ++ (ConnTask id <$> tasks w')) ++ [DestroyTask id]) as Hin1 by (by destruct (alive c)).
    rewrite Ht in Hin1. cbn in Hin1. rewrite app_nil_r in Hin1.
    assert (id' = id ∨ DestroyTask id' ∈ order c) as Hin2.
    { apply elem_of_app in Hin1 as [Hin1|Hin1]; [by right|left]. by apply list_elem_of_singleton in Hin1 as [= ->]. }
    split; [destruct Hin2 as [->|Hin2]; [|apply Hde in Hin2 as [? _]]; by destruct (alive c)|].
    intros n' w'' Hw''. assert (<[id := (n, take_tasks w')]> (connections c) !! id' = Some (n', w'')) as Hw1 by (by destruct (alive c)).
    rewrite lookup_insert_Some in Hw1. destruct Hw1 as [[<- [= <- <-]]|[Hne Hw1]]; [by apply take_tasks_closing|].
    destruct Hin2 as [->|[_ Hin2]%Hde]; [done|by eapply Hin2].
  - intros id' t Hin. assert (ConnTask id' t ∈ (order c ++ (ConnTask id <$> tasks w')) ++ [DestroyTask id]) as Hin1 by (by destruct (alive c)).
    rewrite Ht in Hin1. cbn in Hin1. rewrite app_nil_r in Hin1. apply elem_of_app in Hin1 as [Hin1|Hin1]; [|by apply list_elem_of_singleton in Hin1 as [=]].
    destruct (Hta _ _ Hin1). split; [done|by destruct (alive c)].
  - intros id' Hc'. unfold cur in Hc'. destruct (alive c) eqn:Ea; cbn in Hc'; by rewrite Ea in Hc'.
  - intros Hin. destruct (alive c) eqn:Ea; cbn in Hin |- *; rewrite Ea; by apply Hst.
  - destruct (alive c) eqn:Ea; cbn; rewrite Ea; [done|]. intros _. by apply Hdd.
Qed.

(** The close callback; when the client starts again, the channel of the last
    attempt must be gone. *)
Lemma client_close_inv errno c id n w w' :
  client_inv c → connections c !! id = Some (n, w) → live (inv := inv) w → closing (inv := inv) w' → tasks w' = [] →
  (cur c = Some id → ¬ reset_pending (connector_ c)) →
  ∃ c', close_callback errno id (set_conn_world id n w' c) = Ok c' ∧ client_inv c' ∧ order c' = order c ++ [DestroyTask id] ∧
    queue (connector_ c') = queue (connector_ c) ∧ next_conn_id_ c' = next_conn_id_ c ∧ cur c' = None ∧
    (cur c ≠ None ∧ ¬ reset_pending (connector_ c') ∨ connector_ c' = connector_ c).
Proof.
  intros Hi Hw Hl Hc Ht Hres. pose proof (queue_destroy c id n w w' Hi Hw Hl Hc Ht) as Hi1.
  destruct (ki_conns _ Hi id n w Hw) as (_ & _ & Hor).
  assert (order c ++ (ConnTask id <$> tasks w') = order c) as Ho by (rewrite Ht; apply app_nil_r).
  unfold close_callback. destruct (alive c) eqn:Ea; cbn [set_conn_world alive]; rewrite Ea.
  2: { eexists. split; [done|]. split; [done|]. cbn. rewrite Ho. split; [done|]. split; [done|]. split; [done|].
       split; [unfold cur; cbn; by rewrite Ea|by right]. }
  assert (connection_ c = Some id) as Hid. { destruct Hor as [[_ Hal]|Hcl]; [by apply Hal|by destruct (live_closing _ Hl Hcl)]. }
  assert (cur c = Some id) as Hcur by (unfold cur; by rewrite Ea).
  destruct (ki_current _ Hi id Hcur) as [Hst _].
  unfold RemoveConnection. cbn [connection_ set_conn_world]. rewrite Hid, bool_decide_true by done. cbn [cassert mbind outcome_bind].
  set (c1 := Queue (DestroyTask id) _) in *. destruct (is_retry_ c1 && is_connect_ c1) eqn:Er.
  2: { exists c1. split; [done|]. split; [done|]. cbn. rewrite Ho. split; [done|]. split; [done|]. split; [done|].
       split; [unfold cur; cbn; by rewrite Ea|by right]. }
  apply andb_true_iff in Er as [_ Hic].
  assert (channel_ (connector (connector_ c)) = None) as Hch.
  { destruct (channel_ (connector (connector_ c))) as [[fd [|]]|] eqn:E; [| |done].
    - assert (state_ (connector (connector_ c)) = kConnecting) by (apply (ci_state _ (ki_connector _ Hi)); eauto). congruence.
    - destruct (Hres Hcur). by exists fd. }
  destruct (restart_attempt errno (connector_ c) (ki_connector _ Hi) Hch Hst) as (w2 & Hok & Hi2 & Hq & Hnch & Hic2 & _ & Hdl).
  assert (cur c1 = None) as Hcur1 by (unfold cur; cbn; by rewrite Ea).
  assert (alive c1 = true) as Ha1 by (cbn; by rewrite Ea).
  destruct (connector_update c1 w2 [] Hi1 Hi2) as [Hinv Hord]; [by rewrite app_nil_r|done| | | |].
  { by rewrite Hcur1. }
  { rewrite Hq. intros Hin. destruct (ki_stop _ Hi Hin) as [_ Hcon]. cbn in Hic. specialize (Hcon Hic). congruence. }
  { congruence. }
  exists (set_connector_world w2 c1). split; [unfold on_connector; change (connector_ c1) with (connector_ c); by rewrite Hok|]. split; [done|].
  rewrite Hord. cbn [replicate length]. rewrite app_nil_r. split; [cbn; by rewrite Ho|]. split; [done|]. split; [done|]. split; [done|].
  left. split; [by rewrite Hcur|]. intros [fd Hfd]. by eapply Hnch.
Qed.

(** ** The phases of a turn *)

(** While events are handled: a timer that is due belongs to a connector at rest;
    a pending reset is before everything that could close the client's
    connection, which is then too new to be among the active channels. *)
Record event_inv (s : snapshot) c : Prop := MkEventInv {
  ei_inv : client_inv c;
  ei_timer : timer_due s = true → timers (connector_ c) ≠ [] ∧ channel_ (connector (connector_ c)) = None;
  ei_seen : seen_conns s ≤ next_conn_id_ c;
  ei_reset : reset_pending (connector_ c) →
    reset_soon (cur c) (length (order c)) (order c) (queue (connector_ c)) ∧ ∀ id, cur c = Some id → seen_conns s ≤ id;
}.

(** While the first [k] functors are left to run. *)
Record functor_inv (k : nat) c : Prop := MkFunctorInv {
  fi_inv : client_inv c;
  fi_reset : reset_pending (connector_ c) →
    reset_soon (cur c) k (order c) (queue (connector_ c)) ∨ (timers (connector_ c) = [] ∧ cur c = None);
}.

Lemma event_to_functor s c : event_inv s c → functor_inv (length (order c)) c.
Proof. intros [Hi _ _ Hr]. split; [done|]. intros Hp. left. by apply Hr. Qed.

Lemma no_current c : client_inv c → state_ (connector (connector_ c)) ≠ kConnected → cur c = None.
Proof. intros Hi Hs. destruct (cur c) as [id|] eqn:E; [|done]. by destruct (ki_current _ Hi id E). Qed.

Lemma timers_disconnected w : connector_inv w → timers w ≠ [] → state_ (connector w) = kDisconnected.
Proof. intros Hi. apply (ci_timers _ Hi). Qed.

Lemma functor_to_event c : functor_inv 0 c → event_inv (poll c) c.
Proof.
  intros [Hi Hr]. split; [done| |cbn; lia|].
  - cbn. intros Ht%bool_decide_eq_true. split; [done|].
    pose proof (timers_disconnected _ (ki_connector _ Hi) Ht) as Hst.
    destruct (channel_ (connector (connector_ c))) as [[fd [|]]|] eqn:E; [| |done].
    + assert (state_ (connector (connector_ c)) = kConnecting) by (apply (ci_state _ (ki_connector _ Hi)); eauto). congruence.
    + destruct Hr as [[]|[? _]]; [by exists fd|done].
  - intros Hp. destruct (Hr Hp) as [[]|[_ Hc]]. rewrite Hc. split; [|done]. apply reset_soon_intro; [|by rewrite (ki_count _ Hi)|done].
    by apply pending_in_queue; [apply Hi|].
Qed.

(** A socket is handed over and becomes the client's connection. *)
Lemma deliver_inv_client c w' fd name wc :
  client_inv c → connector_inv w' → queue w' = queue (connector_ c) ++ [ResetChannelTask] →
  delivered w' = delivered (connector_ c) ++ [fd] → state_ (connector w') = kConnected →
  Connector.is_connect_ (connector w') = Connector.is_connect_ (connector (connector_ c)) →
  alive c = true → cur c = None → live (inv := inv) wc → tasks wc = [] →
  client_inv (MkClient w' (name_ c) (is_retry_ c) (is_connect_ c) (next_conn_id_ c + 1) (Some (next_conn_id_ c))
    (<[next_conn_id_ c := (name, wc)]> (connections c)) (order c ++ [FromConnector]) (alive c)).
Proof.
  intros [Hk Hcnt Hco Hde Hta Hcu Hst Hdd Hid] Hw' Hq Hdl Hs Hic Ha Hcur Hl Ht. unfold cur in Hcur. rewrite Ha in Hcur.
  split; cbn; try done.
  - rewrite connector_entries_app, Hcnt, Hq, length_app. done.
  - intros id n w. rewrite lookup_insert_Some. intros [[<- [= <- <-]]|[Hne Hw]].
    + split; [done|]. split; [lia|]. by left.
    + destruct (Hco _ _ _ Hw) as (? & ? & [[? Hal]|?]); (split; [done|]; split; [lia|]); [|by right].
      specialize (Hal Ha). congruence.
  - intros id Hin. apply elem_of_app in Hin as [Hin|Hin]; [|by apply list_elem_of_singleton in Hin as [=]].
    destruct (Hde id Hin) as [Hlt Hcl]. split; [lia|]. intros n w. rewrite lookup_insert_ne by lia. apply Hcl.
  - intros id t Hin. apply elem_of_app in Hin as [Hin|Hin]; [|by apply list_elem_of_singleton in Hin as [=]].
    destruct (Hta _ _ Hin). split; [done|lia].
  - unfold cur. cbn. rewrite Ha. intros id [= <-]. split; [done|]. rewrite lookup_insert_eq. eauto.
  - rewrite Hq, Hic. intros Hin. apply elem_of_app in Hin as [Hin|Hin]; [by apply Hst|by apply list_elem_of_singleton in Hin as [=]].
  - congruence.
  - rewrite Hdl, zlen_app. change (zlen [fd]) with 1. lia.
Qed.

Context (env : Z → socket_env P).

(** Each socket comes with a poller that has its channel, not yet registered. *)
Definition env_ok : Prop := ∀ k, ∃ r x,
  fresh (inv := inv) (env_poller (env k)) (env_channels (env k)) r (env_channel (env k)) x ∧
  Forall (λ a, is_fault a = false) (env_kernel (env k)).

(** An attempt ends: the channel's reset is in the queue, the client has no
    connection or the new one. *)
Lemma attempt_end_event s c c' fd :
  event_inv s c → channel_ (connector (connector_ c)) = Some (fd, true) → client_inv c' →
  queue (connector_ c') = queue (connector_ c) ++ [ResetChannelTask] → order c' = order c ++ [FromConnector] →
  next_conn_id_ c ≤ next_conn_id_ c' → (cur c' = None ∨ cur c' = Some (next_conn_id_ c)) →
  event_inv s c'.
Proof.
  intros [Hi Ht Hse _] Hch Hi' Hq Ho Hn Hc. split; [done| |lia|].
  - intros Hd. destruct (Ht Hd). congruence.
  - intros _. split; [|intros id Hid; destruct Hc; [congruence|]; assert (id = next_conn_id_ c) by congruence; lia].
    apply reset_soon_intro; [rewrite Hq; set_solver|by rewrite (ki_count _ Hi')|].
    intros id t Hin. rewrite Ho in Hin. apply elem_of_app in Hin as [Hin|Hin]; [|by apply list_elem_of_singleton in Hin as [=]].
    destruct (ki_tasks _ Hi _ _ Hin) as [_ Hlt]. destruct Hc as [-> | ->]; [done|]. intros [= E]. lia.
Qed.

Lemma writable_ok err self s c fd :
  env_ok → event_inv s c → channel_ (connector (connector_ c)) = Some (fd, true) →
  ∃ c', (c1 ← on_connector (HandleWrite err self) c;
         if bool_decide (length (delivered (connector_ c)) < length (delivered (connector_ c1)))%nat
         then NewConnection (env (next_conn_id_ c1)) c1 else Ok c1) = Ok c' ∧ event_inv s c'.
Proof.
  intros Henv He Hch. pose proof (ei_inv _ _ He) as Hi. pose proof (ki_connector _ Hi) as Hk.
  assert (state_ (connector (connector_ c)) = kConnecting) as Hst by (apply (ci_state _ Hk); eauto).
  assert (cur c = None) as Hcur by (apply no_current; [done|by rewrite Hst]).
  destruct (attempt_end (HandleWrite err self) _ fd ltac:(eauto) Hk Hch) as (w' & Hok & Hi' & Hq & Hch' & Hic & _ & Hdl).
  unfold on_connector. rewrite Hok. cbn [mbind outcome_bind].
  destruct Hdl as [Hdl|(Hdl & Hst' & Hict)].
  - rewrite bool_decide_false by (cbn; rewrite Hdl; lia). eexists. split; [done|].
    destruct (connector_update c w' [ResetChannelTask] Hi Hi' Hq Hdl) as [Hinv Ho].
    + by rewrite Hcur.
    + rewrite Hq, Hic. intros Hin. apply elem_of_app in Hin as [Hin|Hin]; [by apply (ki_stop _ Hi)|by apply list_elem_of_singleton in Hin as [=]].
    + rewrite Hic. intros Ha. destruct (ki_dead _ Hi Ha); [by left|congruence].
    + by apply (attempt_end_event s c _ fd); [..|left].
  - rewrite bool_decide_true by (cbn; rewrite Hdl, length_app; cbn; lia). unfold NewConnection. cbn [alive set_connector_world next_conn_id_].
    assert (alive c = true) as Ha. { destruct (alive c) eqn:Ea; [done|]. destruct (ki_dead _ Hi Ea); congruence. }
    rewrite Ha. cbn [negb]. destruct (Henv (next_conn_id_ c)) as (r & x & Hf & Hkn).
    destruct (establish_live (env_kernel (env (next_conn_id_ c))) _ _ _ r x Hf Hkn) as (wc & -> & Hl & Ht). cbn [mbind outcome_bind].
    eexists. split; [done|]. unfold set_connector_world. cbn [connector_ name_ is_retry_ is_connect_ connection_ connections order alive].
    rewrite Hq, length_app. cbn [length]. replace (length (queue (connector_ c)) + 1 - length (queue (connector_ c)))%nat with 1%nat by lia.
    pose proof (deliver_inv_client c w' fd (connection_name (name_ c) (env_peer (env (next_conn_id_ c))) (next_conn_id_ c)) wc
      Hi Hi' Hq Hdl Hst' Hic Ha Hcur Hl Ht) as Hinv. rewrite Ha in Hinv.
    apply (attempt_end_event s c _ fd); try done; [cbn; lia|by right].
Qed.

Lemma error_ok s c fd :
  event_inv s c → channel_ (connector (connector_ c)) = Some (fd, true) → ∃ c', on_connector HandleError c = Ok c' ∧ event_inv s c'.
Proof.
  intros He Hch. pose proof (ei_inv _ _ He) as Hi. pose proof (ki_connector _ Hi) as Hk.
  assert (state_ (connector (connector_ c)) = kConnecting) as Hst by (apply (ci_state _ Hk); eauto).
  assert (cur c = None) as Hcur by (apply no_current; [done|by rewrite Hst]).
  destruct (attempt_end HandleError _ fd ltac:(eauto) Hk Hch) as (w' & Hok & Hi' & Hq & Hch' & Hic & _ & Hdl).
  unfold on_connector. rewrite Hok. cbn [mbind outcome_bind]. eexists. split; [done|].
  assert (delivered w' = delivered (connector_ c)) as Hdl'.
  { destruct Hdl as [?|(Hdl & _)]; [done|]. unfold HandleError, RemoveAndResetChannel in Hok.
    rewrite bool_decide_true, Hch in Hok by done. cbn [mbind outcome_bind] in Hok. injection Hok as <-. unfold Retry. by case_match. }
  destruct (connector_update c w' [ResetChannelTask] Hi Hi' Hq Hdl') as [Hinv Ho].
  - by rewrite Hcur.
  - rewrite Hq, Hic. intros Hin. apply elem_of_app in Hin as [Hin|Hin]; [by apply (ki_stop _ Hi)|by apply list_elem_of_singleton in Hin as [=]].
  - rewrite Hic. intros Ha. destruct (ki_dead _ Hi Ha); [by left|congruence].
  - by apply (attempt_end_event s c _ fd); [..|left].
Qed.

(** A retry timer that was there at the poll. *)
Lemma timer_ok errno s c :
  event_inv s c → timer_due s = true →
  ∃ c', on_connector (λ w, StartInLoop errno
      (Connector.MkWorld (connector w) (Connector.open_ w) (next_fd w) (delivered w) (queue w) (tail (timers w)))) c = Ok c' ∧
    event_inv (MkSnapshot (seen_fds s) (seen_conns s) false) c'.
Proof.
  intros [Hi Ht Hse _] Hd. destruct (Ht Hd) as [Htn Hch]. pose proof (ki_connector _ Hi) as Hk.
  pose proof (timers_disconnected _ Hk Htn) as Hst. unfold on_connector.
  assert (cur c = None) as Hcur by (apply no_current; [done|by rewrite Hst]).
  set (w0 := Connector.MkWorld _ _ _ _ _ _).
  assert (timers w0 = []) as Ht0.
  { cbn. destruct (ci_timers _ Hk) as [Hlen _]. destruct (timers (connector_ c)) as [|? []]; [done|done|cbn in Hlen; lia]. }
  assert (connector_inv w0) as Hi0.
  { destruct Hk as [Hs Hr Hsta Hti Hde Ho Hf Hdl]. split; try done.
    - rewrite Ht0. split; [cbn; lia|done].
    - rewrite Ht0. apply Forall_cons in Hde as [? _]. by apply Forall_cons. }
  destruct (start_attempt errno w0 Hi0 Hch Ht0 Hst) as (w' & -> & Hi' & Hq & Hnch & Hic & _ & Hdl & Hsame).
  cbn [mbind outcome_bind]. eexists. split; [done|].
  destruct (connector_update c w' [] Hi Hi') as [Hinv Ho]; [by rewrite app_nil_r|done| | | |].
  - by rewrite Hcur.
  - rewrite Hq, Hic. apply (ki_stop _ Hi).
  - rewrite Hic. intros Ha. destruct (ki_dead _ Hi Ha) as [?|?]; [by left|congruence].
  - split; [done|done|done|]. intros [fd Hfd]. by destruct (Hnch fd).
Qed.

Lemma close_event errno s c id n w :
  event_inv s c → connections c !! id = Some (n, w) → live (inv := inv) w → id < seen_conns s →
  ∃ c', (c1 ← on_connection (HandleClose Ok Ok) id c; close_callback errno id c1) = Ok c' ∧ event_inv s c'.
Proof.
  intros [Hi Ht Hse Hr] Hw Hl Hid. unfold on_connection. rewrite Hw.
  destruct (ki_conns _ Hi id n w Hw) as (Htk & _ & _).
  destruct (HandleClose_live w Hl) as (w' & -> & Hc & Htk'). cbn [mbind outcome_bind]. rewrite Htk in Htk'.
  assert (cur c = Some id → ¬ reset_pending (connector_ c)) as Hnr.
  { intros Hcur Hp. destruct (Hr Hp) as [_ Hs]. specialize (Hs id Hcur). lia. }
  destruct (client_close_inv errno c id n w w' Hi Hw Hl Hc Htk' Hnr) as (c' & -> & Hi' & Ho & Hq & Hn & Hcur' & Hor).
  exists c'. split; [done|]. split; [done| |lia|].
  - intros Hd. destruct (Ht Hd) as [Htn Hch]. destruct Hor as [[Hcur _]|Hsame]; [|by rewrite Hsame].
    destruct Hcur. apply no_current; [done|]. by rewrite (timers_disconnected _ (ki_connector _ Hi) Htn).
  - intros Hp. destruct Hor as [[_ Hnp]|Hsame]; [done|]. rewrite Hsame in Hp. destruct (Hr Hp) as [Hso _].
    rewrite Hcur', Ho, Hq, length_app. split; [|done]. rewrite <-(app_nil_r (queue (connector_ c))).
    apply reset_soon_app. by eapply reset_soon_None.
Qed.

Lemma handle_event_ok e s c :
  env_ok → event_inv s c → ∃ s' c', handle_event env e s c = Ok (s', c') ∧ event_inv s' c'.
Proof.
  intros Henv He. pose proof (ei_inv _ _ He) as Hi. destruct e as [err self| |id errno|errno]; cbn [handle_event].
  - destruct (channel_ (connector (connector_ c))) as [[fd [|]]|] eqn:Ec; [|by eauto..].
    destruct (fd <? seen_fds s); [|by eauto]. destruct (writable_ok err self s c fd Henv He Ec) as (c' & Hok & He').
    apply bind_Ok in Hok as (c1 & -> & Hok). cbn [mbind outcome_bind]. rewrite Hok. cbn [mbind outcome_bind]. eauto.
  - destruct (channel_ (connector (connector_ c))) as [[fd [|]]|] eqn:Ec; [|by eauto..].
    destruct (fd <? seen_fds s); [|by eauto]. destruct (error_ok s c fd He Ec) as (c' & -> & He'). cbn [mbind outcome_bind]. eauto.
  - destruct (connections c !! id) as [[n w]|] eqn:Hw; [|by eauto].
    destruct (ki_conns _ Hi id n w Hw) as (_ & _ & [[Hl _]|Hc]).
    + destruct Hl as [Ho (r & x & Hr)]. unfold channel_is, deref. rewrite (rg_chan _ _ _ Hr). cbn [mbind outcome_bind].
      destruct (Z.ltb_spec id (seen_conns s)) as [Hlt|]; [|by eauto]. destruct (IsReading x); [|by eauto]. cbn [andb].
      destruct (close_event errno s c id n w He Hw ltac:(split; eauto) Hlt) as (c' & Hok & He').
      apply bind_Ok in Hok as (c1 & -> & Hok). cbn [mbind outcome_bind]. rewrite Hok. cbn [mbind outcome_bind]. eauto.
    + rewrite (closing_not_reading _ Hc). cbn [mbind outcome_bind]. rewrite andb_false_r. eauto.
  - destruct (timer_due s) eqn:Hd; [|by eauto]. destruct (timer_ok errno s c He Hd) as (c' & -> & He'). cbn [mbind outcome_bind]. eauto.
Qed.

(** ** Calls of the user *)

(** What a call may change: the queue grows, and the connection is the same or
    no longer the client's. *)
Lemma call_event s c c' q' :
  event_inv s c → client_inv c' → timers (connector_ c') = timers (connector_ c) →
  channel_ (connector (connector_ c')) = channel_ (connector (connector_ c)) →
  queue (connector_ c') = queue (connector_ c) ++ q' → next_conn_id_ c' = next_conn_id_ c →
  (∃ o', order c' = order c ++ o') → (cur c' = cur c ∨ cur c' = None) → event_inv s c'.
Proof.
  intros [Hi Ht Hse Hr] Hi' Etm Ech Hq Hn [o' Ho] Hc. split; [done|by rewrite Etm, Ech|lia|].
  intros Hp. assert (reset_pending (connector_ c)) as Hp0 by (destruct Hp as [fd Hfd]; exists fd; congruence).
  destruct (Hr Hp0) as [Hso Hse']. rewrite Ho, Hq, length_app. split; [apply reset_soon_app|intros id Hid; apply Hse'].
  - destruct Hc as [-> | ->]; [done|by eapply reset_soon_None].
  - destruct Hc; congruence.
Qed.

Lemma set_flags_inv retry connect c :
  client_inv c → (connect = true → is_connect_ c = true ∨ alive c = false) → client_inv (set_flags retry connect c).
Proof.
  intros [Hk Hcnt Hco Hde Hta Hcu Hst Hdd Hid] Hf. split; try done. cbn. intros Hin. destruct (Hst Hin) as [? Hs].
  split; [done|]. intros [?|?]%Hf; auto.
Qed.

Lemma set_alive_inv c :
  client_inv c → (Connector.is_connect_ (connector (connector_ c)) = false ∨ state_ (connector (connector_ c)) = kConnected) →
  client_inv (set_alive false c).
Proof.
  intros [Hk Hcnt Hco Hde Hta Hcu Hst Hdd Hid] Hd. split; try done.
  - cbn. intros id n w Hw. destruct (Hco id n w Hw) as (? & ? & [[? ?]|?]); (split; [done|]; split; [done|]); [by left|by right].
  - cbn. intros Hin. by destruct (Hst Hin).
Qed.

(** [connector_->Stop()] by a client that no longer wants to connect. *)
Lemma stop_inv c :
  client_inv c → (is_connect_ c = true → alive c = false) →
  client_inv (set_connector_world (Connector.Stop (connector_ c)) c) ∧
  order (set_connector_world (Connector.Stop (connector_ c)) c) = order c ++ [FromConnector].
Proof.
  intros Hi Hf. destruct (step_inv EvStop (connector_ c) (ki_connector _ Hi)) as (w' & [= <-] & Hi').
  apply (connector_update c _ [StopInLoopTask] Hi Hi'); try done.
  - intros Hc. destruct (cur c) as [id|] eqn:E; [|done]. by destruct (ki_current _ Hi id E).
  - by left.
Qed.

(** A call on a connection that leaves it open or closed as it was. *)
Lemma on_connection_event f s c id :
  event_inv s c →
  (∀ w, tasks w = [] → live (inv := inv) w ∨ closing (inv := inv) w → ∃ w', f w = Ok w' ∧ (live (inv := inv) w → live (inv := inv) w') ∧
     (closing (inv := inv) w → closing (inv := inv) w') ∧ Forall (λ t, t = ShutdownInLoopTask ∨ t = ForceCloseInLoopTask) (tasks w')) →
  ∃ c', on_connection f id c = Ok c' ∧ event_inv s c'.
Proof.
  intros He Hf. pose proof (ei_inv _ _ He) as Hi. unfold on_connection. destruct (connections c !! id) as [[n w]|] eqn:Hw; [|by eauto].
  destruct (ki_conns _ Hi id n w Hw) as (Ht & _ & Hor).
  destruct (Hf w Ht) as (w' & -> & Hl & Hc & Hts); [destruct Hor as [[? _]|?]; [by left|by right]|]. cbn [mbind outcome_bind].
  eexists. split; [done|]. eapply (call_event s c _ []); [done|by eapply conn_update|done|done|by rewrite app_nil_r|done|by eexists|by left].
Qed.

Lemma shutdown_event in_loop s c id :
  event_inv s c → ∃ c', on_connection (TcpConnection.Shutdown Ok Ok in_loop) id c = Ok c' ∧ event_inv s c'.
Proof.
  intros He. apply on_connection_event; [done|]. intros w Ht [Hl|Hc].
  - destruct (Shutdown_live in_loop w Hl Ht) as (w' & -> & Hl' & Hts). exists w'. split; [done|]. split; [done|].
    split; [intros Hc; by destruct (live_closing _ Hl Hc)|]. destruct Hts as [-> | ->]; [done|]. apply Forall_singleton. by left.
  - exists w. split; [|by rewrite Ht]. unfold TcpConnection.Shutdown. by rewrite bool_decide_false by (by rewrite (proj1 Hc)).
Qed.

Lemma force_close_event s c id : event_inv s c → ∃ c', ForceClose id c = Ok c' ∧ event_inv s c'.
Proof.
  intros He. apply on_connection_event; [done|]. intros w Ht [Hl|Hc]; eexists; (split; [done|]).
  - destruct (ForceClose_live w Hl Ht) as [Hl' ->]. split; [done|]. split; [intros Hc; by destruct (live_closing _ Hl Hc)|]. apply Forall_singleton. by right.
  - rewrite ForceClose_closing by done. by rewrite Ht.
Qed.

Lemma call_ok u s c : event_inv s c → ∃ c', call u c = Ok c' ∧ event_inv s c'.
Proof.
  intros He. pose proof (ei_inv _ _ He) as Hi. destruct u as [in_loop| | |id|unique]; cbn [call]; try (destruct (alive c) eqn:Ha; [|by eauto]).
  - assert (event_inv s (set_flags (is_retry_ c) false c)) as He1.
    { eapply (call_event s c _ []); [done|by apply set_flags_inv|done|done|by rewrite app_nil_r|done|exists []; by rewrite app_nil_r|by left]. }
    unfold Disconnect. destruct (connection_ _) as [id|]; [by apply shutdown_event|by eauto].
  - unfold Stop, on_connector. cbn [mbind outcome_bind]. eexists. split; [done|].
    destruct (stop_inv (set_flags (is_retry_ c) false c)) as [Hi1 Ho]; [by apply set_flags_inv|done|].
    eapply (call_event s c _ [StopInLoopTask]); [done|exact Hi1|done|done|done|done|by eexists|by left].
  - eexists. split; [done|].
    eapply (call_event s c _ []); [done|apply set_flags_inv; [done|by left]|done|done|by rewrite app_nil_r|done|exists []; by rewrite app_nil_r|by left].
  - by apply force_close_event.
  - unfold TcpClient_destroy. destruct (connection_ c) as [id|] eqn:Eid.
    + assert (event_inv s (set_alive false c)) as He1.
      { eapply (call_event s c _ []); [done| |done|done|by rewrite app_nil_r|done|exists []; by rewrite app_nil_r|by right].
        apply set_alive_inv; [done|]. right. apply (ki_current _ Hi id). unfold cur. by rewrite Ha. }
      destruct unique; [by apply force_close_event|by eauto].
    + unfold on_connector. cbn [mbind outcome_bind]. eexists. split; [done|].
      assert (client_inv (set_connector_world (Connector.Stop (connector_ c)) (set_alive false c)) ∧
        order (set_connector_world (Connector.Stop (connector_ c)) (set_alive false c)) = order c ++ [FromConnector]) as [Hi1 Ho].
      { destruct (stop_inv (set_flags (is_retry_ c) false c)) as [Hi1 Ho1]; [by apply set_flags_inv|done|].
        split; [|done]. apply set_alive_inv in Hi1; [|by left]. by apply (set_flags_inv (is_retry_ c) (is_connect_ c)) in Hi1; [|by right]. }
      eapply (call_event s c _ [StopInLoopTask]); [done|exact Hi1|done|done|done|done|by eexists|by right].
Qed.

(** ** Functors *)

(** A functor leaves the queue. *)
Lemma pop_inv c e o : client_inv c → order c = e :: o → e ≠ FromConnector → client_inv (set_order o c).
Proof.
  intros [Hk Hcnt Hco Hde Hta Hcu Hst Hdd Hid] Ho He. rewrite Ho in *.
  split; try done; cbn.
  - by destruct e.
  - intros id Hin. apply Hde. by right.
  - intros id t Hin. apply (Hta id t). by right.
Qed.

Lemma pop_reset k c id t o :
  functor_inv (S k) c → order c = ConnTask id t :: o ∨ order c = DestroyTask id :: o →
  reset_pending (connector_ c) → reset_soon (cur c) k o (queue (connector_ c)) ∨ (timers (connector_ c) = [] ∧ cur c = None).
Proof. intros [_ Hr] Ho Hp. destruct (Hr Hp) as [Hs|?]; [|by right]. left. destruct Ho as [Ho|Ho]; rewrite Ho in Hs; [by destruct Hs|done]. Qed.

Lemma connector_entry_ok errno k c o :
  functor_inv (S k) c → order c = FromConnector :: o → ∃ c', run_entry errno c = Ok c' ∧ functor_inv k c' ∧ (length o ≤ length (order c'))%nat.
Proof.
  intros [Hi Hr] Ho. pose proof (ki_connector _ Hi) as Hk. pose proof (ki_count _ Hi) as Hcnt. rewrite Ho in Hcnt. cbn in Hcnt.
  destruct (queue (connector_ c)) as [|t q] eqn:Eq; [done|]. cbn in Hcnt. injection Hcnt as Hcnt.
  destruct (connector_task errno _ t q Hk Eq) as (w' & Hok & Hi' & Hic & Hfd & Hdl & Hcase).
  { intros ->. apply (ki_stop _ Hi). rewrite Eq. by left. }
  unfold run_entry. rewrite Ho, Hok. cbn [mbind outcome_bind]. rewrite Eq. cbn [tail]. eexists. split; [done|].
  assert (∃ q', queue w' = q ++ q' ∧ (q' = [] ∨ q' = [ResetChannelTask])) as (q' & Hq & Hq').
  { destruct Hcase as [(_ & -> & _)|[(_ & -> & _)|(_ & -> & _)]]; [exists []; rewrite app_nil_r; auto..|eauto]. }
  assert (length (queue w') - length q = length q')%nat as -> by (rewrite Hq, length_app; lia).
  assert (cur c ≠ None → state_ (connector w') = kConnected) as Hcur.
  { intros Hc. destruct (cur c) as [id|] eqn:E; [|done]. destruct (ki_current _ Hi id E) as [Hst _].
    destruct Hcase as [(_ & _ & _ & ->)|[(_ & _ & -> & _)|(_ & _ & Hk' & _)]]; [done|done|congruence]. }
  split; [|cbn; rewrite length_app; lia]. split.
  - apply (move_connector c w' o q q'); try done.
    + intros e He. rewrite Ho. by right.
    + rewrite Hq, Hic. intros Hin. apply elem_of_app in Hin as [Hin|Hin].
      * apply (ki_stop _ Hi). rewrite Eq. by right.
      * destruct Hq' as [-> | ->]; [by apply not_elem_of_nil in Hin|by apply list_elem_of_singleton in Hin as [=]].
    + rewrite Hic. intros Ha. destruct (ki_dead _ Hi Ha) as [?|Hs]; [by left|].
      destruct Hcase as [(_ & _ & _ & ->)|[(_ & _ & -> & _)|(_ & _ & Hk' & _)]]; [by right|by right|congruence].
  - cbn [connector_]. intros [fd Hp]. change (cur (MkClient _ _ _ _ _ _ _ _ _)) with (cur c). cbn [order].
    destruct Hcase as [(_ & _ & Hn & _)|[(Et & Hqq & Hcc & Htt)|(_ & _ & Hk' & Htt & _)]]; [congruence| |].
    + rewrite Hcc in Hp. destruct Hr as [Hs|[Ht Hc]]; [by exists fd| |right; split; [congruence|done]].
      left. rewrite Ho in Hs. cbn in Hs. destruct Hs as [->|Hs]; [done|]. rewrite Hqq. rewrite Hqq in Hq.
      assert (q' = []) as -> by (apply (f_equal length) in Hq; rewrite length_app in Hq; destruct q'; [done|cbn in Hq; lia]).
      cbn. by rewrite app_nil_r.
    + right. split; [done|]. apply no_current; [done|by rewrite Hk'].
Qed.

Lemma conn_entry_ok errno k c id t o :
  functor_inv (S k) c → order c = ConnTask id t :: o → ∃ c', run_entry errno c = Ok c' ∧ functor_inv k c' ∧ (length o ≤ length (order c'))%nat.
Proof.
  intros Hfi Ho. pose proof (fi_inv _ _ Hfi) as Hi. assert (client_inv (set_order o c)) as Hi0 by (by eapply pop_inv).
  assert (reset_pending (connector_ c) → reset_soon (cur c) k o (queue (connector_ c)) ∨ (timers (connector_ c) = [] ∧ cur c = None)) as Hr
    by (eapply pop_reset; [done|by left]).
  unfold run_entry, on_connection, is_open. rewrite Ho. cbn [connections set_order].
  destruct (connections c !! id) as [[n w]|] eqn:Hw.
  2: { exists (set_order o c). split; [cbn [mbind outcome_bind]; by destruct t|]. split; [by split|done]. }
  destruct (ki_conns _ Hi id n w Hw) as (Ht & _ & Hor).
  assert (∀ w', (live (inv := inv) w → live (inv := inv) w') → (closing (inv := inv) w → closing (inv := inv) w') → tasks w' = [] →
    functor_inv k (set_conn_world id n w' (set_order o c)) ∧ (length o ≤ length (order (set_conn_world id n w' (set_order o c))))%nat) as Hkeep.
  { intros w' Hl Hc Ht'. split; [|cbn; rewrite length_app; lia]. split; [eapply conn_update; [exact Hi0|done..|by rewrite Ht']|].
    cbn. rewrite Ht'. cbn. rewrite app_nil_r. exact Hr. }
  destruct (ki_tasks _ Hi id t) as [[-> | ->] _]; [rewrite Ho; by left|..].
  - destruct (shutdown_task (inv := inv) w) as (w' & -> & Htk & Hl & Hc); [destruct Hor as [[? _]|?]; [by left|by right]|].
    cbn [mbind outcome_bind]. eexists. split; [done|]. apply Hkeep; [done|done|congruence].
  - destruct Hor as [[Hl _]|Hc].
    + destruct (proj1 (force_close_task (inv := inv) w) Hl) as (w' & -> & Hc & Htk). rewrite Ht in Htk. cbn [mbind outcome_bind].
      rewrite (proj1 Hl). destruct (client_close_inv errno (set_order o c) id n w w' Hi0 Hw Hl Hc Htk) as (c' & -> & Hi' & Ho' & Hq & _ & Hcur & Hcase).
      { intros Hcur Hp. change (cur c = Some id) in Hcur. destruct (fi_reset _ _ Hfi Hp) as [Hs|[_ Hn]]; [|by rewrite Hn in Hcur]. rewrite Ho in Hs. by destruct Hs. }
      exists c'. split; [done|]. split; [|rewrite Ho', length_app; cbn; lia]. split; [done|].
      intros Hp. destruct Hcase as [[_ Hnp]|Hsame]; [done|]. rewrite Hsame in Hp |- *. rewrite Hcur, Ho'.
      destruct (Hr Hp) as [Hs|[Htt _]]; [left|by right].
      rewrite <-(app_nil_r (queue _)), <-(Nat.add_0_r k). apply reset_soon_app. by eapply reset_soon_None.
    + rewrite (proj2 (force_close_task (inv := inv) w) Hc). cbn [mbind outcome_bind]. rewrite (closing_not_open _ Hc). eexists. split; [done|]. by apply Hkeep.
Qed.

Lemma destroy_entry_ok errno k c id o :
  functor_inv (S k) c → order c = DestroyTask id :: o → ∃ c', run_entry errno c = Ok c' ∧ functor_inv k c' ∧ (length o ≤ length (order c'))%nat.
Proof.
  intros Hfi Ho. pose proof (fi_inv _ _ Hfi) as Hi. assert (client_inv (set_order o c)) as Hi0 by (by eapply pop_inv).
  assert (reset_pending (connector_ c) → reset_soon (cur c) k o (queue (connector_ c)) ∨ (timers (connector_ c) = [] ∧ cur c = None)) as Hr
    by (eapply (pop_reset k c id ShutdownInLoopTask); [done|by right]).
  unfold run_entry. rewrite Ho. destruct (connections c !! id) as [[n w]|] eqn:Hw; [|exists (set_order o c); split; [done|]; by split].
  destruct (ki_destroy _ Hi id) as [_ Hcl]; [rewrite Ho; by left|]. specialize (Hcl n w Hw).
  destruct (destroy_closing w Hcl) as (w' & -> & Hd). cbn [mbind outcome_bind]. rewrite Hd. cbn [mbind outcome_bind].
  exists (drop_connection id (set_order o c)). split; [done|]. split; [|done]. split; [|exact Hr].
  destruct Hi0 as [Hk Hcnt Hco Hde Hta Hcu Hst Hdd Hid]. split; try done; cbn [drop_connection set_order connections order next_conn_id_].
  - intros id' n' w'' [_ Hw'']%lookup_delete_Some. by eapply Hco.
  - intros id' Hin. destruct (Hde id' Hin) as [? Hc']. split; [done|]. intros n' w'' [_ Hw'']%lookup_delete_Some. by eapply Hc'.
  - intros id' Hc'. destruct (Hcu id' Hc') as (? & n' & w'' & Hw'' & Hl). split; [done|]. exists n', w''. split; [|done].
    cbn. apply lookup_delete_Some. split; [|done]. intros ->. cbn in Hw''. rewrite Hw in Hw''. injection Hw'' as <- <-. by destruct (live_closing _ Hl Hcl).
Qed.

Lemma run_entries_ok errs k c :
  functor_inv k c → (k ≤ length (order c))%nat → ∃ c', run_entries k errs c = Ok c' ∧ functor_inv 0 c'.
Proof.
  revert c. induction k as [|k IH]; intros c Hf Hk; cbn [run_entries]; [by exists c|].
  assert (∃ c', run_entry (errs k) c = Ok c' ∧ functor_inv k c' ∧ (k ≤ length (order c'))%nat) as (c' & -> & Hf' & Hk').
  { destruct (order c) as [|[|id t|id] o] eqn:Ho; [cbn in Hk; lia|..]; cbn in Hk.
    - destruct (connector_entry_ok (errs k) k c o Hf Ho) as (c' & ? & ? & ?). exists c'. split; [done|]. split; [done|lia].
    - destruct (conn_entry_ok (errs k) k c id t o Hf Ho) as (c' & ? & ? & ?). exists c'. split; [done|]. split; [done|lia].
    - destruct (destroy_entry_ok (errs k) k c id o Hf Ho) as (c' & ? & ? & ?). exists c'. split; [done|]. split; [done|lia]. }
  cbn [mbind outcome_bind]. by apply IH.
Qed.

Lemma handle_events_ok es s c :
  env_ok → event_inv s c → ∃ s' c', handle_events env es s c = Ok (s', c') ∧ event_inv s' c'.
Proof.
  intros Henv. revert s c. induction es as [|[e|u] es IH]; intros s c He; cbn [handle_events]; [by eauto|..].
  - destruct (handle_event_ok e s c Henv He) as (s1 & c1 & -> & He1). cbn [mbind outcome_bind]. by apply IH.
  - destruct (call_ok u s c He) as (c1 & -> & He1). cbn [mbind outcome_bind]. by apply IH.
Qed.

Lemma turns_ok l c : env_ok → functor_inv 0 c → ∃ c', turns env l c = Ok c' ∧ functor_inv 0 c'.
Proof.
  intros Henv. revert c. induction l as [|[es errs] l IH]; intros c Hf; cbn [turns]; [by eauto|]. unfold turn.
  destruct (handle_events_ok es (poll c) c Henv (functor_to_event _ Hf)) as (s & c1 & -> & He). cbn [mbind outcome_bind].
  destruct (run_entries_ok errs _ c1 (event_to_functor _ _ He)) as (c2 & -> & Hf2); [done|]. cbn [mbind outcome_bind]. by apply IH.
Qed.

Lemma connect_ok errno name fd : ∃ c, Connect true errno (TcpClient_new name fd) = Ok c ∧ functor_inv 0 c.
Proof.
  unfold Connect, on_connector, Start. cbn [connector_ set_flags TcpClient_new].
  assert (connector_inv (set_connect true (world_new fd))) as Hi by (destruct (Connector.new_inv fd); by split).
  destruct (start_attempt errno _ Hi) as (w & -> & Hi' & Hq & Hch & Hic & _ & Hdl & _); [done..|]. cbn [mbind outcome_bind].
  eexists. split; [done|]. split; [|intros [fd' Hfd]; by destruct (Hch fd')].
  split; cbn; rewrite ?Hq, ?Hdl; try done; set_solver.
Qed.

End invariant.

(** ** A client on an epoll poller *)
Definition sample_env (k : Z) : socket_env _ := MkEnv sample_poller {[1 := Channel_new 5]} 1 [] (str "10.0.0.1:80").

Lemma sample_env_ok : env_ok (inv := epoll_inv) sample_env.
Proof. intros k. exists (MkRegistry ∅ ∅), (Channel_new 5). split; [exact sample_fresh|constructor]. Qed.

(** The server is reached at the second attempt, the connection is forced to
    close, and the client connects again. *)
Definition sample_turns : list (list client_event * (nat → Z)) :=
  [([inl ConnectorError; inr CallEnableRetry], λ _, 0); ([inl (RetryTimer EINPROGRESS)], λ _, 0);
   ([inl (ConnectorWritable 0 false); inr (CallForceClose 1)], λ _, EINPROGRESS); ([inl (ConnectorWritable 0 false)], λ _, 0)].


(** Connecting again by hand aborts.  The connector stays in state kConnected when
    its connection is lost, unless retrying is enabled, and [Connect] then fails
    its assertion; so it does while the connection is still there. *)
Theorem connect_again_aborts {P} (c : TcpClient P) errno :
  state_ (connector (connector_ c)) = kConnected →
  Connect true errno c = Fail (AssertionFailed "state_ == kDisconnected").
Proof. intros Hs. unfold Connect, on_connector, Start, StartInLoop. cbn. by rewrite bool_decide_false by (by rewrite Hs). Qed.

Lemma connect_again_aborts_witness :
  (c ← Connect true EINPROGRESS (TcpClient_new (str "client") 3);
   c ← turns sample_env [([inl (ConnectorWritable 0 false)], λ _, 0); ([inl (PeerClose 1 0)], λ _, 0)] c;
   Connect true EINPROGRESS c) = Fail (AssertionFailed "state_ == kDisconnected").
Proof.
  destruct (Connect true EINPROGRESS (TcpClient_new (str "client") 3)) as [c0|] eqn:E0; [|discriminate E0]. cbn [mbind outcome_bind].
  destruct (turns sample_env [([inl (ConnectorWritable 0 false)], λ _, 0); ([inl (PeerClose 1 0)], λ _, 0)] c0) as [c|] eqn:E.
  2: { vm_compute in E0. injection E0 as <-. vm_compute in E. discriminate E. }
  cbn [mbind outcome_bind]. apply connect_again_aborts.
  vm_compute in E0. injection E0 as <-. vm_compute in E. injection E as <-. reflexivity.
Defined.

(** Names of connections: different while they fit the 32 bytes, the same when the
    peer's address alone fills them, as those of IPv6 peers can. *)
Theorem connection_names name peer i j :
  0 ≤ i → 0 ≤ j →
  (zlen peer + zlen (fmt_d i) ≤ 29 → zlen peer + zlen (fmt_d j) ≤ 29 →
   connection_name name peer i = connection_name name peer j → i = j) ∧
  (30 ≤ zlen peer → connection_name name peer i = connection_name name peer j).
Proof.
  intros Hi Hj. unfold connection_name. split.
  - intros Li Lj E. apply app_inv_head in E. rewrite !ztake_all in E by (rewrite !zlen_app; change (zlen (str ":")) with 1; change (zlen (str "#")) with 1; lia).
    do 3 apply app_inv_head in E. unfold fmt_d in E. replace (i <? 0) with false in E by lia. replace (j <? 0) with false in E by lia.
    by apply fmt_u_inj in E.
  - intros Hp. f_equal. unfold ztake. unfold zlen in Hp.
    assert (∀ s, take (Z.to_nat 31) (str ":" ++ peer ++ s) = take (Z.to_nat 31) (str ":" ++ peer)) as Ht.
    { intros s. rewrite app_assoc. apply take_app_le. rewrite length_app. cbn. lia. }
    by rewrite !Ht.
Qed.

Lemma connection_names_witness :
  connection_name (str "c") (str "[fe80::1234:5678:9abc:def0]:8080") 1 = connection_name (str "c") (str "[fe80::1234:5678:9abc:def0]:8080") 2.
Proof. apply connection_names; by vm_compute. Defined.
