(* ===== verification/SharedLoop.v ===== *)
(** * Connections that share a loop

    A connection reaches the poller only through its own channel
    (net/tcp_connnection.cc), so that what holds of one connection alone holds of
    it among others.  [frame_inv] puts the registrations of the others next to a
    poller's invariant and is an invariant again: every theorem on a connection
    over any poller is then a theorem on a connection in a shared loop.
    [PollerHeap] says what pollers leave alone when channels come and go, and
    [quiet] what the handlers of a connection leave alone outside of it. *)

From stdpp Require Import base tactics list numbers strings sets gmap.
From Stdlib Require Import ZArith Lia Ascii.
From S2P Require Import Prelude.
From S2P Require Import CString.
From S2P Require Import Buffer.
From S2P Require Import HttpRequest.
From S2P Require Import HttpContext.
From S2P Require Import HttpResponse.
From S2P Require Import Timing.
From S2P Require Import HttpServer.
From S2P Require Import Channel.
From S2P Require Import Poller.
From S2P Require Import TcpConnection.
From S2P Require Import HttpConnection.

(** ** Channels come and go *)

(** An invariant that survives a new channel, the end of one that is not
    registered, and changes to a channel that are not the poller's affair. *)
Class PollerHeap (P : Type) `{Poller P} (inv : P → heap → registry → Prop) := {
  inv_alloc p h r c x : inv p h r → h !! c = None → c ∉ used r → status_ x = kNew → inv p (<[c := x]> h) r;
  inv_free p h r c : inv p h r → (∀ fd ev, reg r !! fd ≠ Some (c, ev)) → inv p (delete c h) r;
  inv_touch p h r c x x' : inv p h r → h !! c = Some x → fd_ x' = fd_ x → status_ x' = status_ x →
    Channel.events_ x' = Channel.events_ x → inv p (<[c := x']> h) r;
  inv_has p h r c x : inv p h r → h !! c = Some x → (∀ fd ev, reg r !! fd ≠ Some (c, ev)) →
    Channel.HasChannel c p h = Ok false;
}.

Lemma common_alloc chs h r c x :
  common_inv chs h r → h !! c = None → status_ x = kNew → common_inv chs (<[c := x]> h) r.
Proof.
  intros [H1 H2 H3] Hc Hs. split; [done| |].
  - intros fd c' ev Hr. destruct (H2 _ _ _ Hr) as (? & ? & ? & y & Hy & ?). repeat (split; [done|]). exists y.
    split; [|done]. rewrite lookup_insert_ne; [done|congruence].
  - intros c' y. destruct (decide (c = c')) as [<-|]; [rewrite lookup_insert_eq; by intros [= <-]|].
    rewrite lookup_insert_ne by done. apply H3.
Qed.

Lemma common_free chs h r c :
  common_inv chs h r → (∀ fd ev, reg r !! fd ≠ Some (c, ev)) → common_inv chs (delete c h) r.
Proof.
  intros [H1 H2 H3] Hc. split; [done| |].
  - intros fd c' ev Hr. destruct (H2 _ _ _ Hr) as (? & ? & ? & y & Hy & ?). repeat (split; [done|]). exists y.
    split; [|done]. rewrite lookup_delete_ne; [done|]. intros ->. by apply (Hc fd ev).
  - intros c' y [_ Hy]%lookup_delete_Some. by apply H3.
Qed.

Lemma common_touch chs h r c x x' :
  common_inv chs h r → h !! c = Some x → fd_ x' = fd_ x → status_ x' = status_ x →
  Channel.events_ x' = Channel.events_ x → common_inv chs (<[c := x']> h) r.
Proof.
  intros [H1 H2 H3] Hc Hf Hs He. split; [done| |].
  - intros fd c' ev Hr. destruct (H2 _ _ _ Hr) as (? & ? & ? & y & Hy & ? & ?). repeat (split; [done|]).
    destruct (decide (c = c')) as [<-|]; [exists x'; rewrite lookup_insert_eq; simplify_eq; split_and!; congruence|].
    exists y. by rewrite lookup_insert_ne.
  - intros c' y. destruct (decide (c = c')) as [<-|]; [rewrite lookup_insert_eq; intros [= <-]; rewrite Hs; by apply H3|].
    rewrite lookup_insert_ne by done. apply H3.
Qed.

Lemma common_has chs h r c x :
  common_inv chs h r → h !! c = Some x → (∀ fd ev, reg r !! fd ≠ Some (c, ev)) → has_channel chs c h = Ok false.
Proof.
  intros [H1 _ _] Hc Hn. unfold has_channel, deref. rewrite Hc. cbn. rewrite bool_decide_false; [done|].
  intros [ev Hev]%H1. by apply (Hn (fd_ x) ev).
Qed.

(** What an entry of the heap is after such a change, for a registered channel. *)
Lemma registered_lookup chs h r c x fd c' ev y :
  common_inv chs h r → h !! c = None → reg r !! fd = Some (c', ev) → <[c := x]> h !! c' = Some y → h !! c' = Some y.
Proof.
  intros Hi Hc Hr. destruct (ci_reg _ _ _ Hi _ _ _ Hr) as (_ & _ & _ & z & Hz & _).
  rewrite lookup_insert_ne; [done|congruence].
Qed.

#[global] Instance epoll_poller_heap {K} `{EPoll.EpollLaws K} : PollerHeap (EPoll.EPollPoller K) epoll_inv.
Proof.
  split.
  - intros p h r c x [Hi Hl Hn] Hc _ Hs. split; [by apply common_alloc| |done]. intros fd c' ev y Hr Hy.
    apply (Hl fd c'); [done|]. by eapply registered_lookup.
  - intros p h r c [Hi Hl Hn] Hc. split; [by apply common_free| |done]. intros fd c' ev y Hr [_ Hy]%lookup_delete_Some.
    by eapply Hl.
  - intros p h r c x x' [Hi Hl Hn] Hc Hf Hs He. split; [by eapply common_touch| |done]. intros fd c' ev y Hr.
    destruct (decide (c = c')) as [<-|]; [rewrite lookup_insert_eq; intros [= <-]; rewrite Hs; by apply Hl|].
    rewrite lookup_insert_ne by done. by apply Hl.
  - intros p h r c x [Hi _ _] Hc Hn. by eapply common_has.
Qed.

#[global] Instance poll_poller_heap : PollerHeap PPoll.PollPoller poll_inv.
Proof.
  split.
  - intros p h r c x [Hi Hsl Ho] Hc _ Hs. split; [by apply common_alloc| |].
    + intros fd c' ev y Hr Hy. apply (Hsl fd c' ev); [done|]. by eapply registered_lookup.
    + intros i pfd Hp. destruct (Ho i pfd Hp) as (fd & c' & ev & y & Hr & Hy & Hst). exists fd, c', ev, y.
      rewrite lookup_insert_ne by congruence. done.
  - intros p h r c [Hi Hsl Ho] Hc. split; [by apply common_free| |].
    + intros fd c' ev y Hr [_ Hy]%lookup_delete_Some. by eapply Hsl.
    + intros i pfd Hp. destruct (Ho i pfd Hp) as (fd & c' & ev & y & Hr & Hy & Hst). exists fd, c', ev, y.
      rewrite lookup_delete_ne; [done|]. intros ->. by apply (Hc fd ev).
  - intros p h r c x x' [Hi Hsl Ho] Hc Hf Hs He. split; [by eapply common_touch| |].
    + intros fd c' ev y Hr. destruct (decide (c = c')) as [<-|]; [|rewrite lookup_insert_ne by done; by apply Hsl].
      rewrite lookup_insert_eq. intros [= <-]. rewrite Hs. by apply (Hsl fd c ev).
    + intros i pfd Hp. destruct (Ho i pfd Hp) as (fd & c' & ev & y & Hr & Hy & Hst). exists fd, c', ev.
      destruct (decide (c = c')) as [<-|]; [exists x'; rewrite lookup_insert_eq|exists y; rewrite lookup_insert_ne by done; done].
      split; [done|]. split; [done|]. rewrite Hs. congruence.
  - intros p h r c x [Hi _ _] Hc Hn. by eapply common_has.
Qed.

(** ** The registrations of the others *)
Section frame.
Context {P : Type} `{PollerInv P inv}.

(** Next to the channel [c] of the descriptor [fd], the registrations [others]
    stay as they are; [old] are the other channels that were ever registered. *)
Record frame_inv (c : chan) (fd : Z) (others : gmap Z (chan * Z)) (old : gset chan)
    (p : P) (h : heap) (r : registry) : Prop := MkFrame {
  fr_inv : inv p h (MkRegistry (reg r ∪ others) (used r));
  fr_others : fd ∉ dom others;
  fr_own : dom (reg r) ⊆ {[fd]};
  fr_used c' x : h !! c' = Some x → c' ∉ used r → c' = c ∧ fd_ x = fd;
  fr_old : used r ⊆ {[c]} ∪ old;
  fr_kept : old ⊆ used r;
}.

Lemma frame_common c fd others old p h r : frame_inv c fd others old p h r → ∃ chs, common_inv chs h r.
Proof.
  intros [Hi Ho Hown Hu _ _]. destruct (inv_common _ _ _ Hi) as [chs Hci]. exists (fst <$> reg r). split.
  - intros fd' c'. rewrite lookup_fmap, fmap_Some. split.
    + intros ([c0 ev] & Hr & ->). by exists ev.
    + intros [ev Hr]. by exists (c', ev).
  - intros fd' c' ev Hr. apply (ci_reg _ _ _ Hci). cbn [reg]. by apply lookup_union_Some_l.
  - intros c' x Hx Hc'. by apply (ci_new _ _ _ Hci c').
Qed.

Lemma own_fd c fd others old p h r fd' e : frame_inv c fd others old p h r → reg r !! fd' = Some e → fd' = fd.
Proof. intros Hf Hr. apply elem_of_dom_2 in Hr. apply (fr_own _ _ _ _ _ _ _ Hf) in Hr. set_solver. Qed.

Lemma fd_in_back (h h' : heap) c x : fd_in h' c = fd_in h c → h' !! c = Some x → ∃ y, h !! c = Some y ∧ fd_ y = fd_ x.
Proof.
  unfold fd_in. intros E Hx. rewrite Hx in E. cbn in E. destruct (h !! c) as [y|]; [|done].
  exists y. by injection E.
Qed.

#[global] Instance frame_poller_inv c fd others old : PollerInv P (frame_inv c fd others old).
Proof.
  split; [by intros ? ? ? ?%frame_common| |].
  - intros p h r c' x x0 ev Hf Hx0 Hfd Hst Hev Hm Hpos Hcase. pose proof Hf as [Hi Ho Hown Hu Hold Hkept].
    assert (fd_ x = fd ∧ used r ∪ {[c']} ⊆ {[c]} ∪ old) as [Hfx Hold'].
    { destruct Hcase as [(_ & Hn & _)|[ev0 Hr]]; [destruct (Hu _ _ Hx0 Hn); split; [congruence|set_solver]|].
      split; [by eapply own_fd|]. destruct (frame_common _ _ _ _ _ _ _ Hf) as [chs Hci].
      destruct (ci_reg _ _ _ Hci _ _ _ Hr) as (? & _). set_solver. }
    destruct (inv_update p h (MkRegistry (reg r ∪ others) (used r)) c' x x0 ev) as (p' & h' & E & Hfi & Hi'); try done.
    { cbn [reg used]. destruct Hcase as [(Hr & ? & ?)|[ev0 Hr]]; [left|right; exists ev0; by apply lookup_union_Some_l].
      split; [|done]. rewrite lookup_union_None. split; [done|]. rewrite Hfx. by apply not_elem_of_dom. }
    exists p', h'. split; [done|]. split; [done|]. split; cbn [reg used] in *; try done.
    + by rewrite <-insert_union_l.
    + rewrite dom_insert. set_solver.
    + intros c1 x1 Hx1 Hn. destruct (fd_in_back h h' c1 x1) as (y & Hy & Hyx); [done..|].
      destruct (Hu c1 y Hy) as [-> ?]; [set_solver|]. split; [done|congruence].
    + set_solver.
    + set_solver.
  - intros p h r c' x x0 Hf Hx0 Hfd Hst Hev Hr. pose proof Hf as [Hi Ho Hown Hu Hold Hkept].
    assert (fd_ x = fd) as Hfx by (by eapply own_fd).
    destruct (inv_remove p h (MkRegistry (reg r ∪ others) (used r)) c' x x0) as (p' & h' & E & Hfi & Hi'); try done.
    { by apply lookup_union_Some_l. }
    exists p', h'. split; [done|]. split; [done|]. split; cbn [reg used] in *; try done.
    + rewrite delete_union in Hi'. rewrite (delete_id others) in Hi'; [done|]. rewrite Hfx. by apply not_elem_of_dom.
    + rewrite dom_delete. set_solver.
    + intros c1 x1 Hx1 Hn. destruct (fd_in_back h h' c1 x1) as (y & Hy & Hyx); [done..|].
      destruct (Hu c1 y Hy) as [-> ?]; [done|]. split; [done|congruence].
Qed.

(** One registration taken out of the loop's, and put back. *)
Lemma frame_take p h rg c fd e :
  inv p h rg → reg rg !! fd = Some e → (∀ c' x, h !! c' = Some x → c' ∈ used rg) →
  frame_inv c fd (delete fd (reg rg)) (used rg) p h (MkRegistry {[fd := e]} (used rg)).
Proof.
  intros Hi Hr Hu. split; cbn [reg used].
  - replace ({[fd := e]} ∪ delete fd (reg rg)) with (reg rg); [by destruct rg|].
    by rewrite <-insert_union_singleton_l, insert_delete_id.
  - set_solver.
  - by rewrite dom_singleton.
  - intros c' x Hx Hn. by apply Hu in Hx.
  - set_solver.
  - done.
Qed.

Lemma frame_fresh p h rg c x :
  inv p h rg → h !! c = Some x → reg rg !! fd_ x = None → (∀ c' x, h !! c' = Some x → c' = c ∨ c' ∈ used rg) →
  frame_inv c (fd_ x) (reg rg) (used rg) p h (MkRegistry ∅ (used rg)).
Proof.
  intros Hi Hc Hr Hu. split; cbn [reg used].
  - rewrite (left_id_L ∅ (∪)). by destruct rg.
  - by apply not_elem_of_dom.
  - rewrite dom_empty_L. set_solver.
  - intros c' y Hy Hn. destruct (Hu _ _ Hy) as [->|?]; [|done]. split; [done|]. congruence.
  - set_solver.
  - done.
Qed.

Lemma frame_put c fd others old p h r e :
  frame_inv c fd others old p h r → reg r !! fd = Some e →
  ∃ rg, inv p h rg ∧ reg rg = <[fd := e]> others ∧ used rg ⊆ {[c]} ∪ old ∧ old ⊆ used rg.
Proof.
  intros [Hi Ho Hown Hu Hold Hkept] Hr. eexists. split; [exact Hi|]. split; [|done]. cbn [reg].
  assert (reg r = {[fd := e]}) as ->; [|by rewrite insert_union_singleton_l].
  apply map_eq. intros fd'. destruct (decide (fd' = fd)) as [->|Hne]; [by rewrite lookup_singleton_eq|].
  rewrite lookup_singleton_ne by done. apply not_elem_of_dom. set_solver.
Qed.
End frame.

(** ** What a connection leaves alone *)

(** Heaps that differ in the status of channels only. *)
Definition status_only (h h' : heap) : Prop := ∀ c, SetStatus 0 <$> h' !! c = SetStatus 0 <$> h !! c.

Class PollerStatus (P : Type) `{Poller P} := {
  update_status c (p : P) h p' h' : Channel.UpdateChannel c p h = Ok (p', h') → status_only h h';
  remove_status c (p : P) h p' h' : Channel.RemoveChannel c p h = Ok (p', h') → status_only h h';
}.

Lemma status_insert h c x s : h !! c = Some x → status_only h (<[c := SetStatus s x]> h).
Proof.
  intros Hx c'. destruct (decide (c = c')) as [<-|]; [by rewrite lookup_insert_eq, Hx|by rewrite lookup_insert_ne].
Qed.

Lemma status_trans h1 h2 h3 : status_only h1 h2 → status_only h2 h3 → status_only h1 h3.
Proof. intros H1 H2 c. by rewrite H2, H1. Qed.

Lemma status_handling h h' : status_only h h' → is_event_handling_ <$> h' = is_event_handling_ <$> h.
Proof.
  intros Hs. apply map_eq. intros c. specialize (Hs c). rewrite !lookup_fmap.
  destruct (h' !! c) as [x'|], (h !! c) as [x|]; cbn in *; try done. by injection Hs as _ _ _ _ ->.
Qed.

Lemma deref_Ok h c x : deref h c = Ok x → h !! c = Some x.
Proof. unfold deref. destruct (h !! c); [by intros [= <-]|done]. Qed.

#[global] Instance lifted_poller_status {P U} `{PollerStatus P} : PollerStatus (P * U).
Proof.
  split; intros c p h p' h' E; cbn in E; apply bind_Ok in E as ([p1 h1] & E & [= _ <-]);
    [by eapply update_status|by eapply remove_status].
Qed.

#[global] Instance epoll_poller_status {K} `{EPoll.Epoll K} : PollerStatus (EPoll.EPollPoller K).
Proof.
  split; intros c p h p' h' E; cbn in E; [unfold EPoll.UpdateChannel in E|unfold EPoll.RemoveChannel in E];
    apply bind_Ok in E as (x & Hx%deref_Ok & E); repeat (case_match || inv_ok); try done; by apply status_insert.
Qed.

#[global] Instance poll_poller_status : PollerStatus PPoll.PollPoller.
Proof.
  split; intros c p h p' h' E; cbn in E; [unfold PPoll.UpdateChannel in E|unfold PPoll.RemoveChannel in E];
    apply bind_Ok in E as (x & Hx%deref_Ok & E); repeat (case_match || inv_ok); try done;
    try match goal with H : deref _ _ = Ok _ |- _ => apply deref_Ok in H end; by apply status_insert.
Qed.

Section quiet.
Context {P : Type} `{PollerStatus P}.
Implicit Types w : world P.

Abbreviation handling h := (is_event_handling_ <$> (h : heap)).

(** A connection without the two callbacks that go through the loop's queue. *)
Definition plain w : Prop :=
  has_write_complete_callback (conn w) = false ∧ has_high_water_mark_callback (conn w) = false.

Record quiet w w' : Prop := MkQuiet {
  qt_handling : handling (channels w') = handling (channels w);
  qt_tasks : plain w → tasks w' = tasks w;
  qt_timers : timers w' = timers w;
  qt_plain : plain w → plain w';
  qt_channel : channel_ (conn w') = channel_ (conn w);
}.

#[global] Instance quiet_preorder : PreOrder quiet.
Proof.
  split; [done|]. intros w1 w2 w3 [] []. split; try congruence; try auto. intros. rewrite <-qt_tasks0 by done. auto.
Qed.

Lemma quiet_SetState s w : quiet w (SetState s w). Proof. done. Qed.
Lemma quiet_set_input b w : quiet w (set_input b w). Proof. done. Qed.
Lemma quiet_set_output b w : quiet w (set_output b w). Proof. done. Qed.
Lemma quiet_ShutdownWrite w : quiet w (ShutdownWrite w). Proof. done. Qed.
#[local] Hint Resolve quiet_SetState quiet_set_input quiet_set_output quiet_ShutdownWrite : core.
#[local] Hint Extern 1 (quiet ?w ?w) => reflexivity : core.

Lemma handling_insert h c x x' :
  h !! c = Some x → is_event_handling_ x' = is_event_handling_ x → handling (<[c := x']> h) = handling h.
Proof. intros Hx E. rewrite fmap_insert, insert_id; [done|]. by rewrite lookup_fmap, Hx, E. Qed.

Lemma change_events_handling f c (p : P) h p' h' : change_events f c p h = Ok (p', h') → handling h' = handling h.
Proof.
  unfold change_events, Update. intros E. apply bind_Ok in E as (x & Hx%deref_Ok & E).
  apply bind_Ok in E as (x' & Hx'%deref_Ok & E). rewrite (status_handling _ _ (update_status _ _ _ _ _ E)).
  rewrite lookup_insert_eq in Hx'. injection Hx' as <-. rewrite insert_insert_eq. by eapply handling_insert.
Qed.

Lemma on_channel_quiet f w w' : on_channel (change_events f) w = Ok w' → quiet w w'.
Proof.
  unfold on_channel. intros E. apply bind_Ok in E as ([p h] & E & [= <-]). split; try done.
  by eapply change_events_handling.
Qed.

Lemma socket_Write_quiet data w : quiet w (socket_Write data w).2.
Proof. unfold socket_Write. by destruct (kernel w) as [|[]]. Qed.

Lemma ShutdownInLoop_quiet w w' : ShutdownInLoop w = Ok w' → quiet w w'.
Proof. unfold ShutdownInLoop. intros E. apply bind_Ok in E as (b & _ & [= <-]). by destruct (negb b). Qed.

(** A functor that only the callbacks would have queued. *)
Lemma QueueInLoop_quiet (b : bool) t w : (plain w → b = false) → quiet w (if b then QueueInLoop t w else w).
Proof. destruct b; [|done]. intros Hb. split; try done. intros Hw%Hb. done. Qed.

Lemma send_rest_quiet n rest len (fault : bool) data w w' :
  (cassert "remaining <= len" (rest <=? len);;
   if negb fault && (0 <? rest) then
     let old_len := readable_bytes (output_buffer_ (conn w)) in
     let w := if (high_water_mark_ (conn w) <=? old_len + rest) && (old_len <? high_water_mark_ (conn w))
                 && has_high_water_mark_callback (conn w)
              then QueueInLoop (HighWaterMarkTask (old_len + rest)) w else w in
     b ← Append (zdrop n data) (output_buffer_ (conn w));
     let w := set_output b w in
     writing ← channel_is IsWriting w;
     if negb writing then on_channel EnableWriting w else Ok w
   else Ok w) = Ok w' → quiet w w'.
Proof.
  intros E. apply bind_Ok in E as (_ & _ & E). destruct (negb fault && _); [|by injection E as <-].
  cbv zeta in E. apply bind_Ok in E as (b & _ & E). apply bind_Ok in E as (wr & _ & E).
  set (w1 := if _ && _ then _ else w) in E.
  assert (quiet w w1) as H1.
  { apply QueueInLoop_quiet. intros [_ ->]. by rewrite andb_false_r. }
  transitivity (set_output b w1); [by transitivity w1|].
  destruct (negb wr); [by eapply on_channel_quiet|by injection E as <-].
Qed.

Lemma SendInLoop_quiet data w w' : SendInLoop data w = Ok w' → quiet w w'.
Proof.
  unfold SendInLoop. case_bool_decide; [by intros [= <-]|]. intros E. apply bind_Ok in E as (wr & _ & E).
  destruct (negb wr && _); [|by apply send_rest_quiet in E].
  pose proof (socket_Write_quiet data w) as Hw. destruct (socket_Write data w) as [[n e] w0]. cbn [snd] in Hw.
  destruct (0 <=? n); apply send_rest_quiet in E; [|by transitivity w0].
  etransitivity; [exact Hw|]. etransitivity; [|exact E]. apply QueueInLoop_quiet. intros [-> _]. by rewrite andb_false_r.
Qed.

Lemma HandleWrite_quiet w w' : HandleWrite w = Ok w' → quiet w w'.
Proof.
  unfold HandleWrite. intros E. apply bind_Ok in E as (wr & _ & E). destruct wr; [|by injection E as <-].
  pose proof (socket_Write_quiet (contents (output_buffer_ (conn w))) w) as Hw.
  destruct (socket_Write _ w) as [[n e] w0]. cbn [snd] in Hw. transitivity w0; [done|].
  destruct (0 <? n); [|by injection E as <-]. apply bind_Ok in E as (b & _ & E). transitivity (set_output b w0); [done|].
  destruct (readable_bytes b =? 0); [|by injection E as <-]. apply bind_Ok in E as (w1 & E1 & E).
  apply on_channel_quiet in E1. etransitivity; [exact E1|]. set (w2 := if has_write_complete_callback _ then _ else _) in E.
  assert (quiet w1 w2) as H2 by (apply QueueInLoop_quiet; by intros [? _]). transitivity w2; [done|].
  case_bool_decide; [by apply ShutdownInLoop_quiet|by injection E as <-].
Qed.

Lemma Shutdown_quiet on_conn on_close w w' : Shutdown on_conn on_close true w = Ok w' → quiet w w'.
Proof.
  unfold Shutdown. case_bool_decide; [|by intros [= <-]]. cbn [RunInLoop run_task].
  intros E%ShutdownInLoop_quiet. by transitivity (SetState kDisconnecting w).
Qed.

Lemma Send_quiet on_conn on_close data w w' : Send on_conn on_close true data w = Ok w' → quiet w w'.
Proof. unfold Send. case_bool_decide; [by apply SendInLoop_quiet|by intros [= <-]]. Qed.

Lemma HandleClose_quiet on_conn on_close w w' :
  (∀ w w', on_conn w = Ok w' → quiet w w') → (∀ w w', on_close w = Ok w' → quiet w w') →
  HandleClose on_conn on_close w = Ok w' → quiet w w'.
Proof.
  intros Hc Hd E. unfold HandleClose in E. apply bind_Ok in E as (_ & _ & E). apply bind_Ok in E as (w1 & E1%on_channel_quiet & E).
  apply bind_Ok in E as (w2 & E2%Hc & E%Hd). transitivity w2; [|done]. transitivity w1; [|done].
  by transitivity (SetState kDisconnected w).
Qed.

Lemma HandleRead_quiet on_message on_conn on_close answer t w w' :
  (∀ w w', on_message t w = Ok w' → quiet w w') →
  (∀ w w', on_conn w = Ok w' → quiet w w') → (∀ w w', on_close w = Ok w' → quiet w w') →
  HandleRead on_message on_conn on_close answer t w = Ok w' → quiet w w'.
Proof.
  intros Hm Hc Hd E. unfold HandleRead in E. apply bind_Ok in E as ([[n e] b] & _ & E). transitivity (set_input b w); [done|].
  destruct (0 <? n); [by apply Hm|]. destruct (n =? 0); [exact (HandleClose_quiet _ _ _ _ Hc Hd E)|by injection E as <-].
Qed.

Lemma ConnectEstablished_quiet on_conn w w' :
  (∀ w w', on_conn w = Ok w' → quiet w w') → ConnectEstablished on_conn w = Ok w' → quiet w w'.
Proof.
  intros Hc E. unfold ConnectEstablished in E. apply bind_Ok in E as (_ & _ & E).
  apply bind_Ok in E as (x & Hx%deref_Ok & E). apply bind_Ok in E as (w1 & E1%on_channel_quiet & E%Hc).
  transitivity w1; [|done]. etransitivity; [|exact E1]. split; try done. by eapply handling_insert.
Qed.

End quiet.

(** The handlers of the HTTP server. *)
Section http_quiet.
Context {P F T : Type} `{PollerStatus P, FileSystem F, Timing T}.
Implicit Types w : world (P * session F T).

Lemma set_session_quiet s w : quiet w (set_session s w).
Proof. done. Qed.

Lemma http_connection_quiet now w w' : http_connection now w = Ok w' → quiet w w'.
Proof. unfold http_connection. intros E. apply bind_Ok in E as ([timing context] & _ & [= <-]). apply set_session_quiet. Qed.

Lemma perform_quiet now calls w w' : perform now calls w = Ok w' → quiet w w'.
Proof.
  revert w. induction calls as [|call calls IH]; intros w; [by intros [= <-]|].
  destruct call as [d|]; cbn [perform]; intros E; apply bind_Ok in E as (w1 & E1 & E%IH); transitivity w1; try done;
    [by eapply Send_quiet|by eapply Shutdown_quiet].
Qed.

Lemma http_message_quiet now config t w w' : http_message now config t w = Ok w' → quiet w w'.
Proof.
  unfold http_message. destruct (s_context _); [|done]. destruct (OnMessage _ _ _ _ _ _ _ _ _) as [m|]; [|done].
  intros E. apply bind_Ok in E as ([[[[timing context] b] fs] calls] & _ & E%perform_quiet).
  etransitivity; [|exact E]. done.
Qed.
End http_quiet.
