(* ===== verification/ConnectionUp.v ===== *)
(** * A connection that stays usable (net/tcp_connnection.cc)

    What every handler of a connection keeps, whatever the socket answers, faults
    included, and whatever its user does in the callbacks: the channel stays
    registered and the buffers in order while it is [up]; when it is closed the
    channel is registered for nothing and the user's calls have no effect.
    [effect] says what a handler leaves alone: the channels of others, the flags
    of its own, and the functors already queued. *)

From stdpp Require Import base tactics list numbers strings sets gmap.
From Stdlib Require Import ZArith Lia Ascii.
From S2P Require Import Prelude.
From S2P Require Import CString.
From S2P Require Import Buffer.
From S2P Require Import Channel.
From S2P Require Import Poller.
From S2P Require Import TcpConnection.
From S2P Require Import HttpConnection.
From S2P Require Import SharedLoop.

(** ** The user's side *)

(** What a callback does with the connection it is given. *)
Inductive user_op :=
| UserSend (data : bytes)
| UserShutdown
| UserShutdownAndForceCloseAfter (seconds : Z)
| UserForceClose
| UserForceCloseWithDelay (seconds : Z)
| UserRetrieve (len : Z)                  (* of the input, as far as there is *)
| UserRetrieveAll.

(** Functors a connection queues for itself; those of [StartRead] and [StopRead]
    would bring a closed channel back. *)
Definition harmless (t : task) : Prop :=
  match t with StartReadInLoopTask | StopReadInLoopTask => False | _ => True end.

Section user.
Context {P : Type} `{Poller P}.
Implicit Types w : world P.
Context (close_callback_ : world P → outcome (world P)).

Definition user_step (o : user_op) w : outcome (world P) :=
  match o with
  | UserSend data => Send Ok close_callback_ true data w
  | UserShutdown => Shutdown Ok close_callback_ true w
  | UserShutdownAndForceCloseAfter seconds => ShutdownAndForceCloseAfter Ok close_callback_ true seconds w
  | UserForceClose => Ok (ForceClose w)
  | UserForceCloseWithDelay seconds => Ok (ForceCloseWithDelay seconds w)
  | UserRetrieve len =>
      let b := input_buffer_ (conn w) in
      b ← Retrieve (Z.max 0 (Z.min len (readable_bytes b))) b; Ok (set_input b w)
  | UserRetrieveAll => Ok (set_input (RetrieveAll (input_buffer_ (conn w))) w)
  end.

Fixpoint user_run (os : list user_op) w : outcome (world P) :=
  match os with
  | [] => Ok w
  | o :: os => w ← user_step o w; user_run os w
  end.
End user.

(** The bytes that the calls send. *)
Definition op_size (o : user_op) : Z := match o with UserSend data => zlen data | _ => 0 end.
Fixpoint ops_size (os : list user_op) : Z := match os with [] => 0 | o :: os => op_size o + ops_size os end.

Lemma op_size_nonneg o : 0 ≤ op_size o.
Proof. destruct o; cbn; try lia. apply zlen_nonneg. Qed.
Lemma ops_size_nonneg os : 0 ≤ ops_size os.
Proof. induction os as [|o os IH]; cbn; [lia|]. pose proof (op_size_nonneg o). lia. Qed.

(** ** What a handler leaves alone *)
Section effects.
Context {P : Type} `{PollerStatus P}.
Implicit Types w : world P.

Record effect w w' : Prop := MkEffect {
  ef_channel : channel_ (conn w') = channel_ (conn w);
  ef_others c : c ≠ channel_ (conn w) → SetStatus 0 <$> channels w' !! c = SetStatus 0 <$> channels w !! c;
  ef_own : is_event_handling_ <$> channels w' !! channel_ (conn w) = is_event_handling_ <$> channels w !! channel_ (conn w);
  ef_tasks : ∃ ts, tasks w' = tasks w ++ ts ∧ Forall harmless ts;
}.

#[global] Instance effect_preorder : PreOrder effect.
Proof.
  split.
  - intros w. split; try done. exists []. by rewrite app_nil_r.
  - intros w1 w2 w3 [C1 O1 H1 (t1 & E1 & F1)] [C2 O2 H2 (t2 & E2 & F2)]. split.
    + congruence.
    + intros c Hc. rewrite O2 by congruence. by apply O1.
    + rewrite <-H1. rewrite C1 in H2. exact H2.
    + exists (t1 ++ t2). rewrite E2, E1, app_assoc. split; [done|]. by apply Forall_app.
Qed.

(** Nothing but the connection's own members, its socket and the queue changes. *)
Lemma effect_local w w' ts :
  channel_ (conn w') = channel_ (conn w) → channels w' = channels w → tasks w' = tasks w ++ ts → Forall harmless ts → effect w w'.
Proof. intros Hc Hh Ht Hf. split; [done| | |by exists ts]; by rewrite Hh. Qed.

Lemma effect_same w w' : channel_ (conn w') = channel_ (conn w) → channels w' = channels w → tasks w' = tasks w → effect w w'.
Proof. intros. apply (effect_local _ _ []); [done..|by rewrite app_nil_r|done]. Qed.

Lemma effect_queue t w : harmless t → effect w (QueueInLoop t w).
Proof. intros. apply (effect_local _ _ [t]); try done. by apply Forall_singleton. Qed.

Lemma effect_queue_if (b : bool) t w : harmless t → effect w (if b then QueueInLoop t w else w).
Proof. intros. destruct b; [by apply effect_queue|reflexivity]. Qed.

(** [status_only] with one channel changed before. *)
Lemma status_effect c x y h h' :
  h !! c = Some x → is_event_handling_ y = is_event_handling_ x → status_only (<[c := y]> h) h' →
  (∀ c', c' ≠ c → SetStatus 0 <$> h' !! c' = SetStatus 0 <$> h !! c') ∧
  is_event_handling_ <$> h' !! c = is_event_handling_ <$> h !! c.
Proof.
  intros Hx Hy Hs. split.
  - intros c' Hne. rewrite (Hs c'). by rewrite lookup_insert_ne.
  - specialize (Hs c). rewrite lookup_insert_eq in Hs. rewrite Hx. destruct (h' !! c) as [x'|]; [|done]. cbn in *. injection Hs as _ _ _ _ E _.
    by rewrite E, Hy.
Qed.

Lemma effect_on_channel w p' h' :
  (∀ c', c' ≠ channel_ (conn w) → SetStatus 0 <$> h' !! c' = SetStatus 0 <$> channels w !! c') →
  is_event_handling_ <$> h' !! channel_ (conn w) = is_event_handling_ <$> channels w !! channel_ (conn w) →
  effect w (set_channels (p', h') w).
Proof. intros Ho Hh. split; try done. exists []. by rewrite app_nil_r. Qed.

Lemma change_events_effect f w w' : on_channel (change_events f) w = Ok w' → effect w w'.
Proof.
  unfold on_channel, change_events, Update. intros E. apply bind_Ok in E as ([p h] & E & [= <-]).
  apply bind_Ok in E as (x & Hx%deref_Ok & E). apply bind_Ok in E as (x' & Hx'%deref_Ok & E).
  rewrite lookup_insert_eq in Hx'. injection Hx' as <-. rewrite insert_insert_eq in E. apply update_status in E.
  eapply status_effect in E as [? ?]; [by apply effect_on_channel|exact Hx|done].
Qed.

Lemma Remove_effect w w' : on_channel Remove w = Ok w' → effect w w'.
Proof.
  unfold on_channel, Remove. intros E. apply bind_Ok in E as ([p h] & E & [= <-]).
  apply bind_Ok in E as (x & Hx%deref_Ok & E). apply bind_Ok in E as (_ & _ & E). apply remove_status in E.
  eapply status_effect in E as [? ?]; [by apply effect_on_channel|exact Hx|done].
Qed.

Lemma socket_Write_effect data w : effect w (socket_Write data w).2.
Proof. unfold socket_Write. destruct (kernel w) as [|[]]; by apply effect_same. Qed.

Lemma ShutdownInLoop_effect w w' : ShutdownInLoop w = Ok w' → effect w w'.
Proof. unfold ShutdownInLoop. intros E. apply bind_Ok in E as (b & _ & [= <-]). destruct (negb b); by apply effect_same. Qed.

Lemma finish_send_effect n rest len (fault : bool) data w w' :
  (cassert "remaining <= len" (rest <=? len);;
   if negb fault && (0 <? rest) then
     let old_len := readable_bytes (output_buffer_ (conn w)) in
     let w := if (high_water_mark_ (conn w) <=? old_len + rest) && (old_len <? high_water_mark_ (conn w))
                 && has_high_water_mark_callback (conn w)
              then QueueInLoop (HighWaterMarkTask (old_len + rest)) w else w in
     b ← Append (zdrop n data) (output_buffer_ (conn w));
     let w := set_output b w in
     writing ← channel_is IsWriting w;
     if negb writing then on_channel EnableWriting w else Ok w
   else Ok w) = Ok w' → effect w w'.
Proof.
  intros E. apply bind_Ok in E as (_ & _ & E). destruct (negb fault && _); [|injection E as <-; reflexivity].
  cbv zeta in E. apply bind_Ok in E as (b & _ & E). apply bind_Ok in E as (wr & _ & E).
  set (w1 := if _ && _ then _ else w) in E.
  transitivity w1; [by apply effect_queue_if|]. transitivity (set_output b w1); [by apply effect_same|].
  destruct (negb wr); [by eapply change_events_effect|injection E as <-; reflexivity].
Qed.

Lemma SendInLoop_effect data w w' : SendInLoop data w = Ok w' → effect w w'.
Proof.
  unfold SendInLoop. case_bool_decide; [intros [= <-]; reflexivity|]. intros E. apply bind_Ok in E as (wr & _ & E).
  destruct (negb wr && _); [|by apply finish_send_effect in E].
  pose proof (socket_Write_effect data w) as Hw. destruct (socket_Write data w) as [[n e] w0]. cbn [snd] in Hw.
  destruct (0 <=? n); apply finish_send_effect in E; [|by transitivity w0].
  etransitivity; [exact Hw|]. etransitivity; [|exact E]. by apply effect_queue_if.
Qed.

Lemma HandleWrite_effect w w' : HandleWrite w = Ok w' → effect w w'.
Proof.
  unfold HandleWrite. intros E. apply bind_Ok in E as (wr & _ & E). destruct wr; [|injection E as <-; reflexivity].
  pose proof (socket_Write_effect (contents (output_buffer_ (conn w))) w) as Hw.
  destruct (socket_Write _ w) as [[n e] w0]. cbn [snd] in Hw. transitivity w0; [done|].
  destruct (0 <? n); [|injection E as <-; reflexivity]. apply bind_Ok in E as (b & _ & E).
  transitivity (set_output b w0); [by apply effect_same|].
  destruct (readable_bytes b =? 0); [|injection E as <-; reflexivity]. apply bind_Ok in E as (w1 & E1%change_events_effect & E).
  etransitivity; [exact E1|]. set (w2 := if has_write_complete_callback _ then _ else _) in E.
  transitivity w2; [by apply effect_queue_if|].
  case_bool_decide; [by apply ShutdownInLoop_effect|injection E as <-; reflexivity].
Qed.

Lemma ForceClose_effect w : effect w (ForceClose w).
Proof.
  unfold ForceClose. destruct (_ || _); [|reflexivity]. transitivity (SetState kDisconnecting w); [by apply effect_same|by apply effect_queue].
Qed.
Lemma ForceCloseWithDelay_effect s w : effect w (ForceCloseWithDelay s w).
Proof. unfold ForceCloseWithDelay. destruct (_ || _); by apply effect_same. Qed.

Lemma user_step_effect on_close o w w' : user_step on_close o w = Ok w' → effect w w'.
Proof.
  destruct o as [d| |s| |s|n|]; cbn [user_step].
  - unfold Send. case_bool_decide; [by apply SendInLoop_effect|intros [= <-]; reflexivity].
  - unfold Shutdown. case_bool_decide; [|intros [= <-]; reflexivity]. intros E%ShutdownInLoop_effect.
    transitivity (SetState kDisconnecting w); [by apply effect_same|done].
  - unfold ShutdownAndForceCloseAfter. case_bool_decide; [|intros [= <-]; reflexivity]. cbn [RunInLoop run_task].
    unfold ShutdownAndForceCloseInLoop. intros E. apply bind_Ok in E as (w1 & E%ShutdownInLoop_effect & [= <-]).
    transitivity w1; [|by apply effect_same]. transitivity (SetState kDisconnecting w); [by apply effect_same|done].
  - intros [= <-]. apply ForceClose_effect.
  - intros [= <-]. apply ForceCloseWithDelay_effect.
  - intros E. apply bind_Ok in E as (b & _ & [= <-]). by apply effect_same.
  - intros [= <-]. by apply effect_same.
Qed.

Lemma user_run_effect on_close os w w' : user_run on_close os w = Ok w' → effect w w'.
Proof.
  revert w. induction os as [|o os IH]; intros w E; cbn [user_run] in E; [injection E as <-; reflexivity|].
  apply bind_Ok in E as (w1 & E1%user_step_effect & E%IH). by transitivity w1.
Qed.

Context (on_connection on_close : world P → outcome (world P)).
Hypothesis connection_effect : ∀ w w', on_connection w = Ok w' → effect w w'.
Hypothesis close_effect : ∀ w w', on_close w = Ok w' → effect w w'.

Lemma HandleClose_effect w w' : HandleClose on_connection on_close w = Ok w' → effect w w'.
Proof.
  unfold HandleClose. intros E. apply bind_Ok in E as (_ & _ & E). apply bind_Ok in E as (w1 & E1%change_events_effect & E).
  apply bind_Ok in E as (w2 & E2%connection_effect & E%close_effect). transitivity w2; [|done]. transitivity w1; [|done].
  transitivity (SetState kDisconnected w); [by apply effect_same|done].
Qed.

Lemma ForceCloseInLoop_effect w w' : ForceCloseInLoop on_connection on_close w = Ok w' → effect w w'.
Proof. unfold ForceCloseInLoop. destruct (_ || _); [apply HandleClose_effect|intros [= <-]; reflexivity]. Qed.

Lemma run_task_effect t w w' : harmless t → run_task on_connection on_close t w = Ok w' → effect w w'.
Proof.
  destruct t; cbn [run_task harmless]; intros Ht E; try done; try (injection E as <-; reflexivity).
  - by apply SendInLoop_effect in E.
  - by apply ShutdownInLoop_effect in E.
  - unfold ShutdownAndForceCloseInLoop in E. apply bind_Ok in E as (w1 & E%ShutdownInLoop_effect & [= <-]).
    transitivity w1; [done|by apply effect_same].
  - by apply ForceCloseInLoop_effect in E.
Qed.

Lemma HandleRead_effect on_message answer t w w' :
  (∀ w w', on_message t w = Ok w' → effect w w') →
  HandleRead on_message on_connection on_close answer t w = Ok w' → effect w w'.
Proof.
  intros Hm E. unfold HandleRead in E. apply bind_Ok in E as ([[n e] b] & _ & E).
  transitivity (set_input b w); [by apply effect_same|]. destruct (0 <? n); [by apply Hm|].
  destruct (n =? 0); [by apply HandleClose_effect|injection E as <-; reflexivity].
Qed.

Lemma ConnectEstablished_effect w w' : ConnectEstablished on_connection w = Ok w' → effect w w'.
Proof.
  unfold ConnectEstablished. intros E. apply bind_Ok in E as (_ & _ & E).
  apply bind_Ok in E as (x & Hx%deref_Ok & E). apply bind_Ok in E as (w1 & E1%change_events_effect & E%connection_effect).
  transitivity w1; [|done]. etransitivity; [|exact E1]. cbn [SetState set_conn conn channel_ channels poller] in *. split; try done.
  - intros c Hc. cbn in *. by rewrite lookup_insert_ne.
  - cbn in *. by rewrite lookup_insert_eq, Hx.
  - exists []. by rewrite app_nil_r.
Qed.

Lemma ConnectDestroyed_effect w w' : ConnectDestroyed on_connection w = Ok w' → effect w w'.
Proof.
  unfold ConnectDestroyed. intros E. apply bind_Ok in E as (w1 & E1 & E%Remove_effect). transitivity w1; [|done].
  case_bool_decide; [|injection E1 as <-; reflexivity]. apply bind_Ok in E1 as (w2 & E2%change_events_effect & E1%connection_effect).
  transitivity w2; [|done]. transitivity (SetState kDisconnected w); [by apply effect_same|done].
Qed.
End effects.

(** ** Up and closed *)
Section shapes.
Context {P : Type} `{PollerInv P inv}.
Implicit Types w : world P.

(** The connection is registered and its buffers are in order; [n] bounds what
    they have taken in. *)
Record up (n : Z) w : Prop := MkUp {
  up_registered : ∃ r x, registered (inv := inv) w r x;
  up_state : state_ (conn w) = kConnected ∨ state_ (conn w) = kDisconnecting;
  up_output : good (output_buffer_ (conn w));
  up_output_size : writer_index_ (output_buffer_ (conn w)) ≤ kCheapPrepend + n;
  up_input : good (input_buffer_ (conn w));
  up_input_size : writer_index_ (input_buffer_ (conn w)) ≤ kCheapPrepend + n;
}.

(** Registered for nothing. *)
Record closed w : Prop := MkClosed {
  cl_registered : ∃ r x, registered (inv := inv) w r x ∧ Channel.events_ x = 0;
  cl_state : state_ (conn w) = kDisconnected;
  cl_input : good (input_buffer_ (conn w));
}.

Lemma up_mono n n' w : n ≤ n' → up n w → up n' w.
Proof. intros Hn []. split; (done || lia). Qed.

(** The wire, the queue and the timers do not matter, nor does which of the two
    states it is. *)
Lemma up_same n w w' :
  up n w → poller w' = poller w → channels w' = channels w → channel_ (conn w') = channel_ (conn w) →
  input_buffer_ (conn w') = input_buffer_ (conn w) → output_buffer_ (conn w') = output_buffer_ (conn w) →
  state_ (conn w') = state_ (conn w) ∨ state_ (conn w') = kDisconnecting → up n w'.
Proof.
  intros [(r & x & Hr) Hs Ho Hos Hi His] Hp Hc Hch Ein Eout Est. split; rewrite ?Ein, ?Eout; try done.
  - exists r, x. destruct Hr as [? ? ? ?]. by split; rewrite ?Hp, ?Hc, ?Hch.
  - destruct Est as [->| ->]; [done|by right].
Qed.

Lemma up_channel_is n w test : up n w → ∃ b, channel_is test w = Ok b.
Proof. intros [(r & x & Hr) _ _ _ _ _]. unfold channel_is, deref. rewrite (rg_chan _ _ _ Hr). by eexists. Qed.

Lemma up_change_events n f w :
  up n w → (∀ ev, io_events ev → io_events (f ev)) → returns (on_channel (change_events f) w) (λ w', up n w' ∧ conn w' = conn w).
Proof.
  intros [(r & x & Hr) ? ? ? ? ?] Hf. destruct (change_events_ok f w r x Hr) as (ph & r' & x' & -> & Hr' & _); [apply Hf, Hr|].
  split; [|done]. split; try done. by exists r', x'.
Qed.

Lemma up_EnableWriting n w : up n w → returns (on_channel EnableWriting w) (λ w', up n w' ∧ conn w' = conn w).
Proof. intros Hu. apply up_change_events; [done|]. intros ev Hev. by apply io_enable_writing. Qed.
Lemma up_DisableWriting n w : up n w → returns (on_channel DisableWriting w) (λ w', up n w' ∧ conn w' = conn w).
Proof. intros Hu. apply up_change_events; [done|]. intros ev Hev. by apply io_disable_writing. Qed.

Lemma up_queue_if n (b : bool) t w : up n w → up n (if b then QueueInLoop t w else w).
Proof. intros Hu. destruct b; [|done]. apply (up_same n w); auto. Qed.

Lemma up_ShutdownInLoop n w : up n w → returns (ShutdownInLoop w) (up n).
Proof.
  intros Hu. unfold ShutdownInLoop. destruct (up_channel_is n w IsWriting Hu) as [b ->]. cbn. destruct (negb b); [|done].
  apply (up_same n w); auto.
Qed.

(** ** Sending *)
Lemma up_append n d w :
  up n w → 2 * kCheapPrepend + n + zlen d ≤ vector_max_size →
  returns (b ← Append d (output_buffer_ (conn w));
           let w := set_output b w in
           writing ← channel_is IsWriting w;
           if negb writing then on_channel EnableWriting w else Ok w) (up (n + zlen d)).
Proof.
  intros Hu Hm. pose proof (zlen_nonneg d). pose proof (up_output_size _ _ Hu).
  destruct (Append_good d (output_buffer_ (conn w))) as (b & -> & Hg & _ & Hw); [apply Hu|unfold room; lia|]. cbn [mbind outcome_bind].
  assert (up (n + zlen d) (set_output b w)) as Hu'.
  { destruct Hu as [(r & x & Hr) ? ? ? ? ?]. split; cbn; try done; try lia. exists r, x. by apply (registered_same w). }
  cbv zeta. destruct (up_channel_is _ _ IsWriting Hu') as [wr ->]. cbn [mbind outcome_bind]. destruct (negb wr); [|done].
  eapply returns_impl; [by apply up_EnableWriting|]. by intros w' [? _].
Qed.

Lemma up_finish_send n m rest len (fault : bool) d w :
  up n w → 0 ≤ m ≤ zlen d → rest ≤ len → 2 * kCheapPrepend + n + zlen d ≤ vector_max_size →
  returns (cassert "remaining <= len" (rest <=? len);;
    if negb fault && (0 <? rest) then
      let old_len := readable_bytes (output_buffer_ (conn w)) in
      let w := if (high_water_mark_ (conn w) <=? old_len + rest) && (old_len <? high_water_mark_ (conn w))
                  && has_high_water_mark_callback (conn w)
               then QueueInLoop (HighWaterMarkTask (old_len + rest)) w else w in
      b ← Append (zdrop m d) (output_buffer_ (conn w));
      let w := set_output b w in
      writing ← channel_is IsWriting w;
      if negb writing then on_channel EnableWriting w else Ok w
    else Ok w) (up (n + zlen d)).
Proof.
  intros Hu Hm Hr Hb. pose proof (zlen_nonneg d). replace (rest <=? len) with true by lia. cbn [cassert mbind outcome_bind].
  destruct (negb fault && _); [|by apply (up_mono n); [lia|]]. cbv zeta. set (w1 := if _ && _ then _ else w).
  assert (zlen (zdrop m d) ≤ zlen d) by (rewrite zlen_zdrop by lia; lia).
  eapply returns_impl; [apply (up_append n); [by apply up_queue_if|lia]|]. intros w'. apply up_mono. lia.
Qed.

Lemma socket_Write_count data w : -1 ≤ (socket_Write data w).1.1 ≤ zlen data.
Proof. pose proof (zlen_nonneg data). unfold socket_Write. destruct (kernel w) as [|[m|e] k]; cbn [fst]; lia. Qed.

Lemma up_socket_Write n data w : up n w → up n (socket_Write data w).2.
Proof. intros Hu. unfold socket_Write. destruct (kernel w) as [|[m|e] k]; apply (up_same n w); auto. Qed.

Lemma up_SendInLoop n d w :
  up n w → 2 * kCheapPrepend + n + zlen d ≤ vector_max_size → returns (SendInLoop d w) (up (n + zlen d)).
Proof.
  intros Hu Hm. pose proof (zlen_nonneg d). unfold SendInLoop. case_bool_decide; [by apply (up_mono n); [lia|]|].
  destruct (up_channel_is n w IsWriting Hu) as [wr ->]. cbn [mbind outcome_bind].
  destruct (negb wr && _); [|by apply up_finish_send; [|lia..]].
  pose proof (socket_Write_count d w) as Hc. pose proof (up_socket_Write n d w Hu) as Hu'.
  destruct (socket_Write d w) as [[m e] w0]. cbn [fst snd] in *.
  destruct (Z.leb_spec 0 m); [|by apply up_finish_send; [|lia..]]. apply up_finish_send; [by apply up_queue_if|lia..].
Qed.

Lemma up_HandleWrite n w : up n w → returns (HandleWrite w) (up n).
Proof.
  intros Hu. unfold HandleWrite. destruct (up_channel_is n w IsWriting Hu) as [wr ->]. cbn [mbind outcome_bind]. destruct wr; [|done].
  pose proof (socket_Write_count (contents (output_buffer_ (conn w))) w) as Hc. pose proof (up_socket_Write n (contents (output_buffer_ (conn w))) w Hu) as Hu'.
  assert (conn (socket_Write (contents (output_buffer_ (conn w))) w).2 = conn w) as Ec by (unfold socket_Write; by destruct (kernel w) as [|[]]).
  destruct (socket_Write _ w) as [[m e] w0]. cbn [fst snd] in *. destruct (Z.ltb_spec 0 m); [|done]. rewrite Ec.
  destruct (Retrieve_good m (output_buffer_ (conn w))) as (b & -> & Hg & _ & Hw); [apply Hu|lia|]. cbn [mbind outcome_bind].
  assert (up n (set_output b w0)) as Hu2.
  { pose proof (up_output_size _ _ Hu). destruct Hu' as [(r & x & Hr) ? ? ? ? ?]. split; cbn; try done; try lia. exists r, x. by apply (registered_same w0). }
  destruct (readable_bytes b =? 0); [|done]. eapply returns_bind; [by apply up_DisableWriting|]. intros w2 [Hw2 _].
  cbv zeta. set (w3 := if has_write_complete_callback _ then _ else _). assert (up n w3) by (by apply up_queue_if).
  case_bool_decide; [by apply up_ShutdownInLoop|done].
Qed.

(** ** The user's calls *)
Lemma RetrieveAll_good b : good b → good (RetrieveAll b) ∧ writer_index_ (RetrieveAll b) ≤ kCheapPrepend.
Proof.
  intros [[] ? ?]. unfold RetrieveAll. split; [|cbn; lia]. split; [split|unfold cheap|]; cbn in *; unfold kCheapPrepend, capacity in *; cbn in *; lia.
Qed.

Lemma user_retrieve_good n b :
  good b → ∃ b', Retrieve (Z.max 0 (Z.min n (readable_bytes b))) b = Ok b' ∧ good b' ∧ writer_index_ b' ≤ writer_index_ b.
Proof.
  intros Hg. destruct (Retrieve_good (Z.max 0 (Z.min n (readable_bytes b))) b) as (b' & ? & ? & _ & ?); [done| |by exists b'].
  pose proof (zlen_contents b ltac:(apply Hg)) as Hl. pose proof (zlen_nonneg (contents b)). lia.
Qed.

Lemma up_user_step on_close n o w :
  up n w → 2 * kCheapPrepend + n + op_size o ≤ vector_max_size → 0 ≤ n → returns (user_step on_close o w) (up (n + op_size o)).
Proof.
  intros Hu Hm Hn. destruct o as [d| |s| |s|k|]; cbn [user_step op_size] in *; rewrite ?Z.add_0_r.
  - unfold Send. case_bool_decide; [by apply up_SendInLoop|]. pose proof (zlen_nonneg d). by apply (up_mono n); [lia|].
  - unfold Shutdown. case_bool_decide; [|done]. apply up_ShutdownInLoop. apply (up_same n w); auto.
  - unfold ShutdownAndForceCloseAfter. case_bool_decide; [|done]. cbn [RunInLoop run_task]. unfold ShutdownAndForceCloseInLoop.
    eapply returns_bind; [apply up_ShutdownInLoop; apply (up_same n w); auto|]. intros w' Hw'. apply (up_same n w'); auto.
  - cbn. unfold ForceClose. destruct (_ || _); [|done]. apply (up_same n w); auto.
  - cbn. unfold ForceCloseWithDelay. destruct (_ || _); [|done]. apply (up_same n w); auto.
  - destruct (user_retrieve_good k _ (up_input _ _ Hu)) as (b & -> & ? & ?). pose proof (up_input_size _ _ Hu).
    destruct Hu as [(r & x & Hr) ? ? ? ? ?]. split; cbn; try done; try lia. exists r, x. by apply (registered_same w).
  - cbn. pose proof (RetrieveAll_good _ (up_input _ _ Hu)) as [? ?]. destruct Hu as [(r & x & Hr) ? ? ? ? ?]. split; cbn; try done; try lia.
    exists r, x. by apply (registered_same w).
Qed.

Lemma up_user_run on_close n os w :
  up n w → 2 * kCheapPrepend + n + ops_size os ≤ vector_max_size → 0 ≤ n → returns (user_run on_close os w) (up (n + ops_size os)).
Proof.
  revert n w. induction os as [|o os IH]; intros n w Hu Hm Hn; cbn [user_run ops_size] in *; [by rewrite Z.add_0_r|].
  pose proof (op_size_nonneg o). pose proof (ops_size_nonneg os).
  eapply returns_bind; [apply (up_user_step on_close n); [done|lia..]|]. intros w' Hw'. rewrite Z.add_assoc. apply IH; [done|lia..].
Qed.

(** A closed connection ignores its user. *)
Lemma closed_input b w : closed w → good b → closed (set_input b w).
Proof. intros [(r & x & [] & Hx) Hs _] Hg. split; [|done|done]. exists r, x. by split. Qed.

Lemma down_user_step on_close o w :
  state_ (conn w) = kDisconnected → good (input_buffer_ (conn w)) → ∃ b, user_step on_close o w = Ok (set_input b w) ∧ good b.
Proof.
  intros Hs Hg. assert (w = set_input (input_buffer_ (conn w)) w) as E by (by destruct w as [[]]).
  destruct o as [d| |s| |s|k|]; cbn [user_step]; unfold Send, Shutdown, ShutdownAndForceCloseAfter, ForceClose, ForceCloseWithDelay;
    rewrite ?Hs; cbn [bool_decide orb]; try (eexists; split; [by rewrite <-E|done]).
  - destruct (user_retrieve_good k _ Hg) as (b & -> & ? & _). by exists b.
  - eexists. split; [done|]. by apply RetrieveAll_good.
Qed.

Lemma down_user_run on_close os w :
  state_ (conn w) = kDisconnected → good (input_buffer_ (conn w)) → ∃ b, user_run on_close os w = Ok (set_input b w) ∧ good b.
Proof.
  revert w. induction os as [|o os IH]; intros w Hs Hg; cbn [user_run]; [exists (input_buffer_ (conn w)); by destruct w as [[]]|].
  destruct (down_user_step on_close o w Hs Hg) as (b & -> & Hb). cbn [mbind outcome_bind]. destruct (IH (set_input b w) Hs Hb) as (b' & -> & ?). by exists b'.
Qed.

(** Nor do functors that were queued for it before do anything but shut the
    socket down. *)
Lemma down_run_task on_connection on_close t w ch :
  state_ (conn w) = kDisconnected → channels w !! channel_ (conn w) = Some ch → Channel.events_ ch = 0 → harmless t →
  ∃ w', run_task on_connection on_close t w = Ok w' ∧ conn w' = conn w ∧ poller w' = poller w ∧ channels w' = channels w ∧ tasks w' = tasks w.
Proof.
  intros Hs Hc He Ht. assert (∃ w', ShutdownInLoop w = Ok w' ∧ conn w' = conn w ∧ poller w' = poller w ∧ channels w' = channels w ∧ tasks w' = tasks w)
    as (w1 & Hw1 & Hsame).
  { unfold ShutdownInLoop, channel_is, deref. rewrite Hc. cbn. unfold IsWriting. rewrite He. by eexists. }
  destruct t; cbn [run_task harmless] in *; try done; try by exists w.
  - unfold SendInLoop. rewrite bool_decide_true by done. by exists w.
  - by exists w1.
  - unfold ShutdownAndForceCloseInLoop. rewrite Hw1. by eexists.
  - unfold ForceCloseInLoop. rewrite Hs. by exists w.
Qed.

(** ** The handlers *)

(** A handler leaves the connection up, or ends with the close callback on a
    closed one. *)
Definition handled (n : Z) (on_close : world P → outcome (world P)) (m : outcome (world P)) : Prop :=
  returns m (up n) ∨ ∃ w, closed w ∧ m = on_close w.

Lemma up_HandleClose n ops on_close w :
  up n w → ∃ w', closed w' ∧ HandleClose (user_run on_close ops) on_close w = on_close w'.
Proof.
  intros [(r & x & Hr) Hst _ _ Hin _]. unfold HandleClose. step_assert ltac:(destruct Hst as [-> | ->]; done).
  destruct (change_events_ok (λ _, kNoneEvent) (SetState kDisconnected w) r x) as (ph & r' & x' & Hok & Hr' & Hx').
  { by apply (registered_same w). }
  { unfold io_events. set_solver. }
  unfold DisableAll. rewrite Hok. cbn [mbind outcome_bind].
  set (w1 := set_channels ph (SetState kDisconnected w)) in *. destruct (down_user_run on_close ops w1 eq_refl Hin) as (b & -> & Hb). cbn [mbind outcome_bind].
  exists (set_input b w1). split; [|done]. apply closed_input; [|done]. split; [|done|done]. by exists r', x'.
Qed.

Lemma up_ForceCloseInLoop n ops on_close w :
  up n w → ∃ w', closed w' ∧ ForceCloseInLoop (user_run on_close ops) on_close w = on_close w'.
Proof.
  intros Hu. unfold ForceCloseInLoop. replace (_ || _) with true by (destruct (up_state _ _ Hu) as [-> | ->]; done). by eapply up_HandleClose.
Qed.

Lemma up_run_task n ops on_close t w :
  up n w → harmless t → (∀ d, t = SendInLoopTask d → 2 * kCheapPrepend + n + zlen d ≤ vector_max_size) →
  handled (n + match t with SendInLoopTask d => zlen d | _ => 0 end) on_close (run_task (user_run on_close ops) on_close t w).
Proof.
  intros Hu Ht Hb. destruct t as [d| |s| | | | |l]; cbn [run_task harmless] in *; rewrite ?Z.add_0_r; try done; try (left; exact Hu).
  - left. apply up_SendInLoop; auto.
  - left. by apply up_ShutdownInLoop.
  - left. unfold ShutdownAndForceCloseInLoop. eapply returns_bind; [by apply up_ShutdownInLoop|]. intros w' Hw'. apply (up_same n w'); auto.
  - right. destruct (up_ForceCloseInLoop n ops on_close w Hu) as (w' & ? & ?). by exists w'.
Qed.

Definition answer_size (a : readv_result) : Z := match a with ReadvOk d => zlen d | ReadvError _ => 0 end.

Lemma up_HandleRead n ops cb_ops on_close answer t w :
  up n w → 0 ≤ n → 2 * kCheapPrepend + n + answer_size answer + ops_size ops ≤ vector_max_size →
  handled (n + answer_size answer + ops_size ops) on_close
    (HandleRead (λ _, user_run on_close ops) (user_run on_close cb_ops) on_close answer t w).
Proof.
  intros Hu Hn Hm. pose proof (ops_size_nonneg ops). unfold HandleRead. destruct answer as [e|d]; cbn [answer_size] in *.
  - cbn. left. assert (set_input (input_buffer_ (conn w)) w = w) as -> by (by destruct w as [[]]). apply (up_mono n); [lia|done].
  - pose proof (zlen_nonneg d). pose proof (up_input_size _ _ Hu).
    destruct (ReadFromFd_good d (input_buffer_ (conn w))) as (b & -> & Hg & _ & Hw); [apply Hu|unfold room; lia|]. cbn [mbind outcome_bind].
    assert (up (n + zlen d) (set_input b w)) as Hu'.
    { destruct Hu as [(r & x & Hr) ? ? ? ? ?]. split; cbn; try done; try lia. exists r, x. by apply (registered_same w). }
    destruct (0 <? zlen d); [left; apply up_user_run; [done|lia..]|]. destruct (zlen d =? 0).
    + right. destruct (up_HandleClose _ cb_ops on_close _ Hu') as (w' & ? & ?). by exists w'.
    + left. unfold HandleError. cbn. by apply (up_mono (n + zlen d)); [lia|].
Qed.

Lemma up_ConnectEstablished n r c x cb w :
  fresh (inv := inv) (poller w) (channels w) r c x → channel_ (conn w) = c → state_ (conn w) = kConnecting →
  good (output_buffer_ (conn w)) → writer_index_ (output_buffer_ (conn w)) ≤ kCheapPrepend + n →
  good (input_buffer_ (conn w)) → writer_index_ (input_buffer_ (conn w)) ≤ kCheapPrepend + n →
  ∃ w', up n w' ∧ ConnectEstablished cb w = cb w'.
Proof.
  intros [Hi Hc Hfd Hev Hu Hreg] Hch Hst Ho Hos Hin His. unfold ConnectEstablished. rewrite bool_decide_true by done. cbn [cassert mbind outcome_bind].
  unfold deref at 1, on_channel, EnableReading, change_events, Update. cbn [SetState set_conn set_channels conn channels channel_ poller fst snd].
  rewrite Hch, Hc. cbn [mbind outcome_bind channels set_channels snd fst conn set_conn SetState channel_ poller]. unfold deref.
  do 2 (rewrite lookup_insert_eq; cbn [mbind outcome_bind]). rewrite !insert_insert_eq. set (y := set_added true _).
  destruct (inv_update (inv := inv) (poller w) (channels w) r c y x (Z.lor 0 kReadEvent)) as (p' & h' & Hup & _ & Hi'); try done.
  { cbn. by rewrite Hev. }
  { by left. }
  rewrite Hup. cbn [mbind outcome_bind]. eexists. split; [|done].
  destruct (inv_common _ _ _ Hi') as [chs' Hci'].
  destruct (ci_reg _ _ _ Hci' (fd_ y) c (Z.lor 0 kReadEvent)) as (_ & _ & _ & x' & Hx' & Hfd' & Hev'); [apply lookup_insert_eq|].
  split; cbn; try done; [|by left].
  eexists (MkRegistry (<[fd_ y := (c, _)]> (reg r)) ({[c]} ∪ used r)), x'.
  split; cbn; rewrite ?Hch; [exact Hi'|done|by rewrite Hfd', lookup_insert_eq, Hev'|rewrite Hev'; unfold io_events; set_solver].
Qed.

Lemma closed_ConnectDestroyed `{!PollerStatus P} cb r x w :
  registered (inv := inv) w r x → Channel.events_ x = 0 → state_ (conn w) = kDisconnected →
  ∃ p' h' y, ConnectDestroyed cb w = Ok (set_channels (p', h') w) ∧ inv p' h' (MkRegistry (delete (fd_ x) (reg r)) (used r)) ∧
    h' !! channel_ (conn w) = Some y ∧ is_added_to_loop_ y = false ∧ Channel.events_ y = 0.
Proof.
  intros [Hi Hc Hr _] He Hst. rewrite He in Hr. unfold ConnectDestroyed. rewrite bool_decide_false by (by rewrite Hst). cbn [mbind outcome_bind].
  unfold on_channel, Remove, deref. rewrite Hc. cbn [mbind outcome_bind]. unfold IsNoneEvent. rewrite He.
  replace (0 =? kNoneEvent) with true by done. cbn [cassert mbind outcome_bind].
  destruct (inv_remove (inv := inv) (poller w) (channels w) r (channel_ (conn w)) (set_added false x) x) as (p' & h' & E & _ & Hi'); try done.
  rewrite E. pose proof (remove_status _ _ _ _ _ E (channel_ (conn w))) as Hs. rewrite lookup_insert_eq in Hs.
  destruct (h' !! channel_ (conn w)) as [y|] eqn:Hy; [|done]. cbn in Hs. injection Hs as _ Hey _ _ _ Ha.
  exists p', h', y. split; [done|]. split; [exact Hi'|]. split; [exact Hy|]. split; [exact Ha|]. by rewrite Hey.
Qed.

(** [StartRead] on a closed connection, as its connection callback may call it,
    brings the channel back: [ConnectDestroyed] then fails its assertion. *)
Theorem start_read_after_close cb w :
  closed w → ∃ w', StartReadInLoop w = Ok w' ∧ ConnectDestroyed cb w' = Fail (AssertionFailed "IsNoneEvent()").
Proof.
  intros [(r & x & Hr & He) Hs _]. unfold StartReadInLoop, channel_is, deref. rewrite (rg_chan _ _ _ Hr). cbn [mbind outcome_bind].
  assert (IsReading x = false) as -> by (unfold IsReading; by rewrite He). rewrite orb_true_r.
  destruct (change_events_ok (λ e, Z.lor e kReadEvent) w r x Hr) as (ph & r' & x' & Hok & Hr' & Hx'); [rewrite He; unfold io_events; set_solver|].
  unfold EnableReading. rewrite Hok. cbn [mbind outcome_bind]. eexists. split; [done|].
  unfold ConnectDestroyed. rewrite bool_decide_false by (cbn; by rewrite Hs). cbn [mbind outcome_bind].
  unfold on_channel, Remove, deref. cbn [set_reading set_conn conn channel_ channels set_channels poller]. pose proof (rg_chan _ _ _ Hr') as Hc. cbn in Hc. rewrite Hc.
  cbn [mbind outcome_bind]. unfold IsNoneEvent. by rewrite Hx', He.
Qed.
End shapes.
