(* ===== verification/HttpService.v ===== *)
(** * The HTTP server in one loop: [HttpServer] (http/http_server.cc) on
    [TcpServer] (net/tcp_server.cc), [TcpConnection] and [EventLoop::Loop]

    The whole server as it runs without pool threads: the acceptor, the map of
    connections, every connection with its channel in the one poller, the queue
    of functors, the files and the timing object.  A turn of the loop handles
    what happened (connections to accept, sockets that are readable or writable,
    the tick of the timing object, expired timers) and then calls the pending
    functors. *)

From stdpp Require Import base tactics list numbers strings sets gmap.
From Stdlib Require Import ZArith Lia Ascii.
From S2P Require Import Prelude.
From S2P Require Import CString.
From S2P Require Import Buffer.
From S2P Require Import HttpRequest.
From S2P Require Import HttpContext.
From S2P Require Import HttpResponse.
From S2P Require Import Timing.
From S2P Require Import HttpServer.
From S2P Require Import Channel.
From S2P Require Import Poller.
From S2P Require Import TcpServer.
From S2P Require Import TcpConnection.
From S2P Require Import HttpConnection.
From S2P Require Import SharedLoop.

(** ** The state *)

(** Functors in the queue of the loop; each holds its connection. *)
Inductive functor :=
| ConnFunctor (c : chan) (t : task)
| DestroyFunctor (c : chan).            (* [TcpConnection::ConnectDestroyed] *)
#[global] Instance functor_eq_dec : EqDecision functor.
Proof. unfold EqDecision, Decision. repeat decide equality. Defined.

Definition functor_chan (f : functor) : chan := match f with ConnFunctor c _ | DestroyFunctor c => c end.

(** What the server keeps besides its connections; [k_next] is the address of
    the next channel. *)
Record control (F T : Type) := MkControl {
  k_acceptor : Acceptor;
  k_server : TcpServer;
  k_pending : list functor;
  k_files : F;
  k_timing : T;
  k_next : chan;
}.
Arguments MkControl {F T} _ _ _ _ _ _.
Arguments k_acceptor {F T} _.
Arguments k_server {F T} _.
Arguments k_pending {F T} _.
Arguments k_files {F T} _.
Arguments k_timing {F T} _.
Arguments k_next {F T} _.

(** A connection and its socket. *)
Record peer := MkPeer {
  p_connection : connection;            (* its name, loop and descriptor *)
  p_conn : TcpConnection;
  p_context : option HttpContext;
  p_wire : bytes;
  p_shut : bool;
  p_kernel : list write_answer;
  p_timers : list timer;
}.

Record service (P F T : Type) := MkService {
  v_poller : P;
  v_heap : heap;
  v_control : control F T;
  v_peers : gmap chan peer;
}.
Arguments MkService {P F T} _ _ _ _.
Arguments v_poller {P F T} _.
Arguments v_heap {P F T} _.
Arguments v_control {P F T} _.
Arguments v_peers {P F T} _.

(** What a poller reports of a socket, with the answer of readv(2) when there is
    something to read. *)
Record report := MkReport {
  rp_in : option readv_result;
  rp_out : bool;
  rp_err : bool;
  rp_hup : bool;
}.

Definition revents_of (r : report) : Z :=
  Z.lor (Z.lor (match rp_in r with Some _ => POLLIN | None => 0 end) (if rp_out r then POLLOUT else 0))
        (Z.lor (if rp_err r then POLLERR else 0) (if rp_hup r then POLLHUP else 0)).

Inductive event :=
| EvAccept (ans : accept_answer) (reopened : Z) (kern : list write_answer)
| EvSocket (c : chan) (receive_time : Z) (r : report)
| EvTick
| EvForceClose (c : chan).              (* a timer of [ForceCloseWithDelay] *)

(** [conn->ForceCloseWithDelay(3.5)], in microseconds. *)
Definition kForceCloseDelay : Z := 3500000.

(** A weak pointer to a connection: which ones live, and which are connected. *)
Definition view_from (m : gmap chan bool) (c : conn_id) : conn_view :=
  match m !! c with
  | Some b => MkConnView true b
  | None => MkConnView false false
  end.

Definition clear_posted (s : TcpServer) : TcpServer :=
  TcpServer.MkServer (loop_ s) (ip_port_ s) (name_ s) (thread_pool_ s) (started_ s) (next_conn_id_ s) (connections_ s) [].

(** ** The loop *)
Section service.
Context {P F T : Type} `{Poller P, FileSystem F, Timing T}.
Context (config : HttpServerConfig).
Implicit Types v : service P F T.
Abbreviation conn_world := (world (P * TcpServer * session F T)).

Definition set_heap (h : heap) v : service P F T := MkService (v_poller v) h (v_control v) (v_peers v).

(** A connection with what its handlers work on. *)
Definition load (x : peer) v : conn_world :=
  let k := v_control v in
  MkWorld (p_conn x) ((v_poller v, k_server k), MkSession (p_context x) (k_files k) (k_timing k)) (v_heap v)
    (p_wire x) (p_shut x) (p_kernel x) [] (p_timers x).

Definition peer_of (conn : connection) (w : conn_world) : peer :=
  MkPeer conn (TcpConnection.conn w) (s_context (session_of w)) (wire w) (write_shut w) (kernel w) (timers w).

(** The functors a handler of the connection [c] put into the queue: those of
    the connection, and [ConnectDestroyed] from [RemoveConnectionInLoop]. *)
Definition queued (c : chan) (w : conn_world) : list functor :=
  (ConnFunctor c <$> tasks w) ++
  omap (λ lt, match lt.2 with ConnectDestroyedTask _ => Some (DestroyFunctor c) | _ => None end) (posted (poller w).1.2).

Definition store (c : chan) (conn : connection) (w : conn_world) v : service P F T :=
  let k := v_control v in
  MkService (poller w).1.1 (channels w)
    (MkControl (k_acceptor k) (clear_posted (poller w).1.2) (k_pending k ++ queued c w)
       (s_files (session_of w)) (s_timing (session_of w)) (k_next k))
    (<[c := peer_of conn w]> (v_peers v)).

(** A call on the connection [c]. *)
Definition with_peer (c : chan) (f : connection → conn_world → outcome conn_world) v : outcome (service P F T) :=
  match v_peers v !! c with
  | Some x => w ← f (p_connection x) (load x v); Ok (store c (p_connection x) w v)
  | None => Fail (UndefinedBehaviour "dangling TcpConnection*")
  end.

(** The close callback: [TcpServer::RemoveConnection], in the base loop. *)
Definition server_close (conn : connection) (w : conn_world) : outcome conn_world :=
  s ← RemoveConnection true conn (poller w).1.2;
  Ok (set_channels (((poller w).1.1, s, (poller w).2), channels w) w).

(** [TcpServer::NewConnection] and, at once in this loop, [ConnectEstablished]. *)
Definition new_connection (now fd : Z) (kern : list write_answer) v : outcome (service P F T) :=
  let k := v_control v in
  let c := k_next k in
  s ← NewConnection fd (k_server k);
  match posted s with
  | [(_, ConnectEstablishedTask conn)] =>
      w ← http_establish now c (v_poller v, clear_posted s) (<[c := Channel_new fd]> (v_heap v)) kern (k_files k) (k_timing k);
      Ok (store c conn w
            (MkService (v_poller v) (v_heap v)
               (MkControl (k_acceptor k) (k_server k) (k_pending k) (k_files k) (k_timing k) (c + 1)) (v_peers v)))
  | _ => Fail (UndefinedBehaviour "one connection at a time")
  end.

Definition accept (now : Z) (ans : accept_answer) (reopened : Z) (kern : list write_answer) v : outcome (service P F T) :=
  let k := v_control v in
  let '(o, a) := Acceptor_HandleRead ans true reopened (k_acceptor k) in
  let v := MkService (v_poller v) (v_heap v)
             (MkControl a (k_server k) (k_pending k) (k_files k) (k_timing k) (k_next k)) (v_peers v) in
  match o with
  | Some fd => new_connection now fd kern v
  | None => Ok v
  end.

(** The callbacks of a connection's channel. *)
Definition channel_callbacks (now : Z) (conn : connection) (r : report) : callbacks conn_world :=
  MkCallbacks _
    (Some (HandleRead (http_message now config) (http_connection now) (server_close conn)
             (default (ReadvError EWOULDBLOCK) (rp_in r))))
    (Some HandleWrite)
    (Some (HandleClose (http_connection now) (server_close conn)))
    (Some HandleError).

(** One active channel. *)
Definition dispatch (now : Z) (c : chan) (receive_time : Z) (r : report) v : outcome (service P F T) :=
  x ← deref (v_heap v) c;
  let v := set_heap (<[c := set_handling true (SetRevents (revents_of r) x)]> (v_heap v)) v in
  v ← with_peer c (λ conn, HandleEvent (channel_callbacks now conn r) (is_tied_ x) true (revents_of r) receive_time) v;
  x ← deref (v_heap v) c;
  Ok (set_heap (<[c := set_handling false x]> (v_heap v)) v).

(** [timing_->OnTimer()] sees which connections exist and are connected. *)
Definition peer_view v : conn_id → conn_view :=
  view_from ((λ x, bool_decide (state_ (p_conn x) = kConnected)) <$> v_peers v).

Definition timing_call (now : Z) (call : conn_call) v : outcome (service P F T) :=
  match call with
  | CallShutdown c => with_peer c (λ conn, Shutdown (http_connection now) (server_close conn) true) v
  | CallForceCloseWithDelay c => with_peer c (λ _ w, Ok (ForceCloseWithDelay kForceCloseDelay w)) v
  end.

Fixpoint timing_calls (now : Z) (calls : list conn_call) v : outcome (service P F T) :=
  match calls with
  | [] => Ok v
  | call :: calls => v ← timing_call now call v; timing_calls now calls v
  end.

Definition on_tick (now : Z) v : outcome (service P F T) :=
  let k := v_control v in
  '(timing, calls) ← Timing.OnTimer (peer_view v) now (k_timing k);
  timing_calls now calls
    (MkService (v_poller v) (v_heap v)
       (MkControl (k_acceptor k) (k_server k) (k_pending k) (k_files k) timing (k_next k)) (v_peers v)).

(** A timer of a connection expires: a weak callback on [ForceClose]. *)
Definition force_close (c : chan) v : outcome (service P F T) :=
  match v_peers v !! c with
  | Some x =>
      match p_timers x with
      | [] => Ok v
      | _ :: rest =>
          let x := MkPeer (p_connection x) (p_conn x) (p_context x) (p_wire x) (p_shut x) (p_kernel x) rest in
          Ok (store c (p_connection x) (ForceClose (load x v)) v)
      end
  | None => Ok v
  end.

Definition handle_event (now : Z) (e : event) v : outcome (service P F T) :=
  match e with
  | EvAccept ans reopened kern => accept now ans reopened kern v
  | EvSocket c t r => dispatch now c t r v
  | EvTick => on_tick now v
  | EvForceClose c => force_close c v
  end.

(** [ConnectDestroyed], after which the last reference is gone: the connection's
    destructor and that of its channel. *)
Definition connect_destroyed (now : Z) (c : chan) v : outcome (service P F T) :=
  v ← with_peer c (λ _, ConnectDestroyed (http_connection now)) v;
  match v_peers v !! c with
  | Some x =>
      TcpConnection_destroy (load x v);;
      h ← Channel_destroy c (v_poller v) (v_heap v);
      Ok (MkService (v_poller v) h (v_control v) (delete c (v_peers v)))
  | None => Fail (UndefinedBehaviour "dangling TcpConnection*")
  end.

Definition run_functor (now : Z) (f : functor) v : outcome (service P F T) :=
  match f with
  | ConnFunctor c t => with_peer c (λ conn, run_task (http_connection now) (server_close conn) t) v
  | DestroyFunctor c => connect_destroyed now c v
  end.

Fixpoint run_functors (now : Z) (fs : list functor) v : outcome (service P F T) :=
  match fs with
  | [] => Ok v
  | f :: fs => v ← run_functor now f v; run_functors now fs v
  end.

Definition set_pending (fs : list functor) (k : control F T) : control F T :=
  MkControl (k_acceptor k) (k_server k) fs (k_files k) (k_timing k) (k_next k).

(** [DoPendingFunctors]: the queue is swapped out, then called in order. *)
Definition do_pending (now : Z) v : outcome (service P F T) :=
  run_functors now (k_pending (v_control v))
    (MkService (v_poller v) (v_heap v) (set_pending [] (v_control v)) (v_peers v)).

Fixpoint handle_events (es : list (Z * event)) v : outcome (service P F T) :=
  match es with
  | [] => Ok v
  | (now, e) :: es => v ← handle_event now e v; handle_events es v
  end.

(** One round of [EventLoop::Loop]: the events with their times, then the
    functors at the time [now]. *)
Definition turn (es : list (Z * event)) (now : Z) v : outcome (service P F T) :=
  v ← handle_events es v; do_pending now v.

Fixpoint serve_turns (ts : list (list (Z * event) * Z)) v : outcome (service P F T) :=
  match ts with
  | [] => Ok v
  | (es, now) :: ts => v ← turn es now v; serve_turns ts v
  end.

(** [HttpServer::Start] on a new server without pool threads: the acceptor
    listens, and the channels of the acceptor, the timers and the wake-up
    descriptor are those [h] has. *)
Definition service_start (base : loop) (ip_port name : bytes) (acc : Acceptor) (p : P) (h : heap) (files : F) (timing : T)
    (next : chan) : outcome (service P F T) :=
  s ← TcpServer.Start (λ _, base) (TcpServer_new base ip_port name);
  let acc := match posted s with [(_, ListenTask)] => Listen acc | _ => acc end in
  Ok (MkService p h (MkControl acc (clear_posted s) [] files timing next) ∅).

End service.

(** ** The contract: connections without buffers, channels and sockets *)
Record apeer := MkApeer {
  ap_connection : connection;
  ap_context : HttpContext;
  ap_unread : bytes;
  ap_sent : bytes;
  ap_open : bool;        (* whether replies are still sent *)
  ap_closed : bool;      (* closed, waiting to be destroyed *)
  ap_timers : nat;       (* timers that will close it *)
}.

Record aservice (F T : Type) := MkAservice {
  as_control : control F T;
  as_peers : gmap chan apeer;
}.
Arguments MkAservice {F T} _ _.
Arguments as_control {F T} _.
Arguments as_peers {F T} _.

Section abstract.
Context {F T : Type} `{FileSystem F, Timing T}.
Context (config : HttpServerConfig).
Implicit Types a : aservice F T.

(** The connection as the buffer-free server of one connection. *)
Definition aload (y : apeer) a : aserver F T :=
  MkServer (ap_context y) (ap_unread y) (k_files (as_control a)) (k_timing (as_control a)) (ap_sent y) (ap_open y).

Definition set_timing (timing : T) (k : control F T) : control F T :=
  MkControl (k_acceptor k) (k_server k) (k_pending k) (k_files k) timing (k_next k).

Definition astore (c : chan) (y : apeer) (s : aserver F T) a : aservice F T :=
  let k := as_control a in
  MkAservice (MkControl (k_acceptor k) (k_server k) (k_pending k) (a_files s) (a_timing s) (k_next k))
    (<[c := MkApeer (ap_connection y) (a_context s) (a_unread s) (a_sent s) (a_open s) (ap_closed y) (ap_timers y)]>
       (as_peers a)).

Definition awith (c : chan) (f : apeer → outcome (aservice F T)) a : outcome (aservice F T) :=
  match as_peers a !! c with
  | Some y => f y
  | None => Fail (UndefinedBehaviour "dangling TcpConnection*")
  end.

(** The connection is closed: the timing object and the server are told, and its
    destruction is queued. *)
Definition aclose (now : Z) (c : chan) (y : apeer) a : outcome (aservice F T) :=
  let k := as_control a in
  timing ← Timing.OnConnection c (MkConnView true false) now (k_timing k);
  s ← RemoveConnection true (ap_connection y) (k_server k);
  Ok (MkAservice
        (MkControl (k_acceptor k) (clear_posted s) (k_pending k ++ [DestroyFunctor c]) (k_files k) timing (k_next k))
        (<[c := MkApeer (ap_connection y) (ap_context y) (ap_unread y) (ap_sent y) false true (ap_timers y)]> (as_peers a))).

Definition anew (now fd : Z) a : outcome (aservice F T) :=
  let k := as_control a in
  let c := k_next k in
  s ← NewConnection fd (k_server k);
  match posted s with
  | [(_, ConnectEstablishedTask conn)] =>
      timing ← Timing.OnConnection c (MkConnView true true) now (k_timing k);
      Ok (MkAservice (MkControl (k_acceptor k) (clear_posted s) (k_pending k) (k_files k) timing (c + 1))
            (<[c := MkApeer conn HttpContext_new [] [] true false 0]> (as_peers a)))
  | _ => Fail (UndefinedBehaviour "one connection at a time")
  end.

(** What was read from a connection. *)
Definition aread (now : Z) (c : chan) (t : Z) (r : report) (y : apeer) a : outcome (aservice F T) :=
  match rp_in r with
  | None => if rp_hup r then aclose now c y a else Ok a
  | Some (ReadvError _) => Ok a
  | Some (ReadvOk []) => aclose now c y a
  | Some (ReadvOk data) => s ← areact config c t data (aload y a); Ok (astore c y s a)
  end.

Definition set_apeer (c : chan) (y : apeer) a : aservice F T := MkAservice (as_control a) (<[c := y]> (as_peers a)).

Definition shut_apeer (y : apeer) : apeer :=
  MkApeer (ap_connection y) (ap_context y) (ap_unread y) (ap_sent y) false (ap_closed y) (ap_timers y).
Definition set_atimers (n : nat) (y : apeer) : apeer :=
  MkApeer (ap_connection y) (ap_context y) (ap_unread y) (ap_sent y) (ap_open y) (ap_closed y) n.

Definition acall_timing (call : conn_call) a : outcome (aservice F T) :=
  match call with
  | CallShutdown c => awith c (λ y, Ok (set_apeer c (shut_apeer y) a)) a
  | CallForceCloseWithDelay c =>
      awith c (λ y, Ok (if ap_closed y then a else set_apeer c (set_atimers (S (ap_timers y)) (shut_apeer y)) a)) a
  end.

Fixpoint acalls_timing (calls : list conn_call) a : outcome (aservice F T) :=
  match calls with
  | [] => Ok a
  | call :: calls => a ← acall_timing call a; acalls_timing calls a
  end.

Definition aview a : conn_id → conn_view := view_from (ap_open <$> as_peers a).

Definition atick (now : Z) a : outcome (aservice F T) :=
  '(timing, calls) ← Timing.OnTimer (aview a) now (k_timing (as_control a));
  acalls_timing calls (MkAservice (set_timing timing (as_control a)) (as_peers a)).

Definition aforce_close (c : chan) a : outcome (aservice F T) :=
  match as_peers a !! c with
  | Some y =>
      match ap_timers y with
      | O => Ok a
      | S n =>
          let k := as_control a in
          Ok (MkAservice
                (set_pending (k_pending k ++ (if ap_closed y then [] else [ConnFunctor c ForceCloseInLoopTask])) k)
                (<[c := set_atimers n (shut_apeer y)]> (as_peers a)))
      end
  | None => Ok a
  end.

Definition aevent (now : Z) (e : event) a : outcome (aservice F T) :=
  match e with
  | EvAccept ans reopened kern =>
      let k := as_control a in
      let '(o, acc) := Acceptor_HandleRead ans true reopened (k_acceptor k) in
      let a := MkAservice (MkControl acc (k_server k) (k_pending k) (k_files k) (k_timing k) (k_next k)) (as_peers a) in
      match o with Some fd => anew now fd a | None => Ok a end
  | EvSocket c t r => awith c (λ y, aread now c t r y a) a
  | EvTick => atick now a
  | EvForceClose c => aforce_close c a
  end.

Definition arun_functor (now : Z) (f : functor) a : outcome (aservice F T) :=
  match f with
  | ConnFunctor c _ => awith c (λ y, if ap_closed y then Ok a else aclose now c y a) a
  | DestroyFunctor c => awith c (λ _, Ok (MkAservice (as_control a) (delete c (as_peers a)))) a
  end.

Fixpoint arun_functors (now : Z) (fs : list functor) a : outcome (aservice F T) :=
  match fs with
  | [] => Ok a
  | f :: fs => a ← arun_functor now f a; arun_functors now fs a
  end.

Definition ado_pending (now : Z) a : outcome (aservice F T) :=
  arun_functors now (k_pending (as_control a)) (MkAservice (set_pending [] (as_control a)) (as_peers a)).

Fixpoint aevents (es : list (Z * event)) a : outcome (aservice F T) :=
  match es with
  | [] => Ok a
  | (now, e) :: es => a ← aevent now e a; aevents es a
  end.

Definition aturn (es : list (Z * event)) (now : Z) a : outcome (aservice F T) :=
  a ← aevents es a; ado_pending now a.

Fixpoint aturns (ts : list (list (Z * event) * Z)) a : outcome (aservice F T) :=
  match ts with
  | [] => Ok a
  | (es, now) :: ts => a ← aturn es now a; aturns ts a
  end.

Definition astart (base : loop) (ip_port name : bytes) (acc : Acceptor) (files : F) (timing : T) (next : chan) : aservice F T :=
  MkAservice (MkControl (Listen acc) (TcpServer.MkServer base ip_port name (MkPool base true 0 0 [] []) true 1 ∅ [])
                [] files timing next) ∅.

(** What the sockets and the clock may do, and what the buffers can hold: a
    descriptor is handed out once at a time, only sockets of open connections
    report, writes are not refused for good, replies stay within the size of a
    buffer. *)
Definition permitted (reserved : gset Z) (now : Z) (e : event) a : Prop :=
  match e with
  | EvAccept (Accepted fd) _ kern =>
      0 ≤ fd ∧ (fd ∉ reserved) ∧ Forall (λ x, is_fault x = false) kern ∧
      map_Forall (λ _ y, conn_fd (ap_connection y) ≠ fd) (as_peers a)
  | EvAccept _ _ _ => True
  | EvSocket c t r =>
      match as_peers a !! c with
      | Some y =>
          ap_closed y = false ∧
          match rp_in r with
          | Some (ReadvOk ((_ :: _) as data)) =>
              match areact config c t data (aload y a) with
              | Ok s => 2 * kCheapPrepend + zlen (a_sent s) ≤ vector_max_size ∧
                        (HttpContext.state_ (a_context s) = kExpectRequestLine → line_start (aload y a) data s)
              | Fail _ => True
              end
          | _ => True
          end
      | None => False
      end
  | EvTick | EvForceClose _ => True
  end.

Fixpoint permitted_events (reserved : gset Z) (es : list (Z * event)) a : Prop :=
  match es with
  | [] => True
  | (now, e) :: es =>
      permitted reserved now e a ∧
      match aevent now e a with Ok a => permitted_events reserved es a | Fail _ => True end
  end.

Fixpoint permitted_turns (reserved : gset Z) (ts : list (list (Z * event) * Z)) a : Prop :=
  match ts with
  | [] => True
  | (es, now) :: ts =>
      permitted_events reserved es a ∧
      match aturn es now a with Ok a => permitted_turns reserved ts a | Fail _ => True end
  end.

End abstract.

(** The bytes that all connections receive. *)
Definition event_input (e : event) : bytes :=
  match e with EvSocket _ _ (MkReport (Some (ReadvOk data)) _ _ _) => data | _ => [] end.
Definition turns_input (ts : list (list (Z * event) * Z)) : bytes :=
  concat ((λ t, concat ((λ e, event_input e.2) <$> t.1)) <$> ts).

(** ** What a socket reports *)
Lemma revents_hup r : has (revents_of r) POLLHUP && negb (has (revents_of r) POLLIN) = match rp_in r with Some _ => false | None => rp_hup r end.
Proof. by destruct r as [[] [] [] []]. Qed.
Lemma revents_err r : has (revents_of r) (Z.lor POLLERR POLLNVAL) = rp_err r.
Proof. by destruct r as [[] [] [] []]. Qed.
Lemma revents_in r : has (revents_of r) (Z.lor (Z.lor POLLIN POLLPRI) POLLRDHUP) = match rp_in r with Some _ => true | None => false end.
Proof. by destruct r as [[] [] [] []]. Qed.
Lemma revents_out r : has (revents_of r) POLLOUT = rp_out r.
Proof. by destruct r as [[] [] [] []]. Qed.
