(* ===== verification/PooledServer.v ===== *)
(** * The server with pool threads (net/tcp_server.cc, net/tcp_connnection.cc,
    net/event_loop_thread_pool.cc)

    The base loop accepts connections and keeps the map of them; each connection
    lives in the loop of one pool thread, with its own poller, channels and queue
    of functors.  A step is one event or one functor in one thread, and the
    threads interleave in any order; the queues of functors are where they meet.
    (A real loop calls all the functors it swapped out before it polls again; the
    steps here allow those interleavings and more.)  The user's callbacks make any
    calls on their connection, other threads call [Send], and an object goes when
    the last reference to it does. *)

From stdpp Require Import base tactics list numbers strings sets gmap.
From Stdlib Require Import ZArith Lia Ascii.
From S2P Require Import Prelude.
From S2P Require Import CString.
From S2P Require Import Buffer.
From S2P Require Import Channel.
From S2P Require Import Poller.
From S2P Require Import TcpServer.
From S2P Require Import TcpConnection.
From S2P Require Import HttpConnection.
From S2P Require Import SharedLoop.
From S2P Require Import HttpService.
From S2P Require Import ConnectionUp.

(** ** The state *)

(** Functors in the queue of a pool thread's loop. *)
Inductive loop_functor :=
| EstablishFunctor (c : chan)
| TaskFunctor (c : chan) (t : task)
| DestroyedFunctor (c : chan).
#[global] Instance loop_functor_eq_dec : EqDecision loop_functor.
Proof. unfold EqDecision, Decision. repeat decide equality. Defined.

Definition target (f : loop_functor) : chan :=
  match f with EstablishFunctor c | TaskFunctor c _ | DestroyedFunctor c => c end.

Record io_loop (P : Type) := MkIo {
  io_poller : P;
  io_heap : heap;                         (* channels its poller has seen *)
  io_pending : list loop_functor;
}.
Arguments MkIo {P} _ _ _.
Arguments io_poller {P} _.
Arguments io_heap {P} _.
Arguments io_pending {P} _.

(** A connection and its socket; [channel_] of its [pp_conn] is its key. *)
Record pool_peer := MkPoolPeer {
  pp_connection : connection;
  pp_conn : TcpConnection;
  pp_wire : bytes;
  pp_shut : bool;
  pp_kernel : list write_answer;
  pp_timers : list timer;
}.

(** [pl_base]: the functors [RemoveConnectionInLoop] in the queue of the base
    loop; [pl_next]: the address of the next channel. *)
Record pooled (P : Type) := MkPooled {
  pl_server : TcpServer;
  pl_base : list (chan * connection);
  pl_io : gmap loop (io_loop P);
  pl_peers : gmap chan pool_peer;
  pl_next : chan;
}.
Arguments MkPooled {P} _ _ _ _ _.
Arguments pl_server {P} _.
Arguments pl_base {P} _.
Arguments pl_io {P} _.
Arguments pl_peers {P} _.
Arguments pl_next {P} _.

(** ** The steps *)
Section pool.
Context {P : Type} `{Poller P}.
Implicit Types st : pooled P.
Abbreviation pool_world := (world (P * TcpServer)).

Definition pool_load (x : pool_peer) (io : io_loop P) st : pool_world :=
  MkWorld (pp_conn x) (io_poller io, pl_server st) (io_heap io) (pp_wire x) (pp_shut x) (pp_kernel x) [] (pp_timers x).

Definition pool_peer_of (conn : connection) (w : pool_world) : pool_peer :=
  MkPoolPeer conn (TcpConnection.conn w) (wire w) (write_shut w) (kernel w) (timers w).

(** What the handler put into the queue of the base loop. *)
Definition to_base (c : chan) (w : pool_world) : list (chan * connection) :=
  omap (λ lt, match lt.2 with RemoveConnectionInLoopTask conn => Some (c, conn) | _ => None end) (posted (poller w).2).

Definition pool_store (c : chan) (conn : connection) (w : pool_world) (io : io_loop P) st : pooled P :=
  MkPooled (pl_server st) (pl_base st ++ to_base c w)
    (<[conn_loop conn := MkIo (poller w).1 (channels w) (io_pending io ++ (TaskFunctor c <$> tasks w))]> (pl_io st))
    (<[c := pool_peer_of conn w]> (pl_peers st)) (pl_next st).

Definition find_peer (c : chan) st : outcome (pool_peer * io_loop P) :=
  match pl_peers st !! c with
  | Some x =>
      match pl_io st !! conn_loop (pp_connection x) with
      | Some io => Ok (x, io)
      | None => Fail (UndefinedBehaviour "no such loop")
      end
  | None => Fail (UndefinedBehaviour "dangling TcpConnection*")
  end.

(** A call on the connection [c] in the thread of its loop. *)
Definition on_peer (c : chan) (f : connection → pool_world → outcome pool_world) st : outcome (pooled P) :=
  '(x, io) ← find_peer c st;
  w ← f (pp_connection x) (pool_load x io st);
  Ok (pool_store c (pp_connection x) w io st).

(** The close callback, in the thread of a pool loop. *)
Definition pool_close (conn : connection) (w : pool_world) : outcome pool_world :=
  s ← RemoveConnection false conn (poller w).2;
  Ok (set_channels (((poller w).1, s), channels w) w).

Definition set_io (l : loop) (io : io_loop P) st : pooled P :=
  MkPooled (pl_server st) (pl_base st) (<[l := io]> (pl_io st)) (pl_peers st) (pl_next st).
Definition set_io_heap (h : heap) (io : io_loop P) : io_loop P := MkIo (io_poller io) h (io_pending io).
Definition push (f : loop_functor) (io : io_loop P) : io_loop P := MkIo (io_poller io) (io_heap io) (io_pending io ++ [f]).

(** [TcpServer::NewConnection] in the base loop: the connection is made, and
    [ConnectEstablished] goes to the queue of its loop. *)
Definition pool_accept (fd : Z) (wc hw : bool) (kern : list write_answer) st : outcome (pooled P) :=
  s ← NewConnection fd (pl_server st);
  match posted s with
  | [(l, ConnectEstablishedTask conn)] =>
      t ← TcpConnection_new (pl_next st) wc hw;
      match pl_io st !! l with
      | Some io =>
          Ok (MkPooled (clear_posted s) (pl_base st) (<[l := push (EstablishFunctor (pl_next st)) io]> (pl_io st))
                (<[pl_next st := MkPoolPeer conn t [] false kern []]> (pl_peers st)) (pl_next st + 1))
      | None => Fail (UndefinedBehaviour "no such loop")
      end
  | _ => Fail (UndefinedBehaviour "one connection at a time")
  end.

(** The next functor of the base loop: [RemoveConnectionInLoop], which sends
    [ConnectDestroyed] to the connection's loop. *)
Definition base_functor st : outcome (pooled P) :=
  match pl_base st with
  | [] => Ok st
  | (c, conn) :: rest =>
      s ← RemoveConnectionInLoop conn (pl_server st);
      match posted s with
      | [(l, ConnectDestroyedTask _)] =>
          match pl_io st !! l with
          | Some io =>
              Ok (MkPooled (clear_posted s) rest (<[l := push (DestroyedFunctor c) io]> (pl_io st)) (pl_peers st) (pl_next st))
          | None => Fail (UndefinedBehaviour "no such loop")
          end
      | _ => Fail (UndefinedBehaviour "one connection at a time")
      end
  end.

(** [ConnectEstablished] in the connection's loop, which now sees the channel. *)
Definition establish_peer (ops : list user_op) (c : chan) st : outcome (pooled P) :=
  '(x, io) ← find_peer c st;
  let st := set_io (conn_loop (pp_connection x)) (set_io_heap (<[c := Channel_new (conn_fd (pp_connection x))]> (io_heap io)) io) st in
  on_peer c (λ conn, ConnectEstablished (user_run (pool_close conn) ops)) st.

Definition run_loop_functor (ops : list user_op) (f : loop_functor) st : outcome (pooled P) :=
  match f with
  | EstablishFunctor c => establish_peer ops c st
  | TaskFunctor c t => on_peer c (λ conn, run_task (user_run (pool_close conn) ops) (pool_close conn) t) st
  | DestroyedFunctor c => on_peer c (λ conn, ConnectDestroyed (user_run (pool_close conn) ops)) st
  end.

(** The next functor of the loop [l]; [ops] are what the connection callback
    does, if it is called. *)
Definition loop_next (l : loop) (ops : list user_op) st : outcome (pooled P) :=
  match pl_io st !! l with
  | Some io =>
      match io_pending io with
      | [] => Ok st
      | f :: rest => run_loop_functor ops f (set_io l (MkIo (io_poller io) (io_heap io) rest) st)
      end
  | None => Ok st
  end.

(** The callbacks of a connection's channel; [ops] is what the message callback
    does, [cb_ops] what the connection callback does. *)
Definition pool_callbacks (conn : connection) (r : report) (ops cb_ops : list user_op) : callbacks pool_world :=
  MkCallbacks _
    (Some (HandleRead (λ _, user_run (pool_close conn) ops) (user_run (pool_close conn) cb_ops) (pool_close conn)
             (default (ReadvError EWOULDBLOCK) (rp_in r))))
    (Some HandleWrite)
    (Some (HandleClose (user_run (pool_close conn) cb_ops) (pool_close conn)))
    (Some HandleError).

(** One active channel of a loop. *)
Definition loop_event (c : chan) (receive_time : Z) (r : report) (ops cb_ops : list user_op) st : outcome (pooled P) :=
  '(x, io) ← find_peer c st;
  ch ← deref (io_heap io) c;
  let l := conn_loop (pp_connection x) in
  let st := set_io l (set_io_heap (<[c := set_handling true (SetRevents (revents_of r) ch)]> (io_heap io)) io) st in
  st ← on_peer c (λ conn, HandleEvent (pool_callbacks conn r ops cb_ops) (is_tied_ ch) true (revents_of r) receive_time) st;
  '(x, io) ← find_peer c st;
  ch ← deref (io_heap io) c;
  Ok (set_io l (set_io_heap (<[c := set_handling false ch]> (io_heap io)) io) st).

(** A timer of the connection expires in its loop. *)
Definition loop_timer (c : chan) (ops : list user_op) st : outcome (pooled P) :=
  match pl_peers st !! c with
  | None => Ok st
  | Some x =>
      match pp_timers x with
      | [] => Ok st
      | tm :: rest =>
          let x := MkPoolPeer (pp_connection x) (pp_conn x) (pp_wire x) (pp_shut x) (pp_kernel x) rest in
          on_peer c (λ conn w,
              match tm with
              | ForceCloseTimer _ => Ok (ForceClose w)
              | ForceCloseInLoopTimer _ => ForceCloseInLoop (user_run (pool_close conn) ops) (pool_close conn) w
              end)
            (MkPooled (pl_server st) (pl_base st) (pl_io st) (<[c := x]> (pl_peers st)) (pl_next st))
      end
  end.

(** [Send] in another thread, after it has seen [kConnected]. *)
Definition other_send (c : chan) (data : bytes) st : outcome (pooled P) :=
  '(x, io) ← find_peer c st;
  Ok (set_io (conn_loop (pp_connection x)) (push (TaskFunctor c (SendInLoopTask data)) io) st).

(** The last reference goes: the destructors of the connection and its channel. *)
Definition release (c : chan) st : outcome (pooled P) :=
  '(x, io) ← find_peer c st;
  TcpConnection_destroy (pool_load x io st);;
  h ← Channel_destroy c (io_poller io) (io_heap io);
  Ok (MkPooled (pl_server st) (pl_base st) (<[conn_loop (pp_connection x) := set_io_heap h io]> (pl_io st))
        (delete c (pl_peers st)) (pl_next st)).

(** [SetThreadNum] and [Start]; [ios] are the loops that the pool threads made. *)
Definition pool_boot (base : loop) (ip_port name : bytes) (threads : Z) (new_loop : Z → loop) (ios : gmap loop (io_loop P)) (next : chan)
    : outcome (pooled P) :=
  s ← SetThreadNum threads (TcpServer_new base ip_port name);
  s ← Start new_loop s;
  Ok (MkPooled (clear_posted s) [] ios ∅ next).

Inductive pool_op :=
| BaseAccept (fd : Z) (wc hw : bool) (kern : list write_answer)
| BaseFunctor
| LoopFunctor (l : loop) (ops : list user_op)
| LoopEvent (c : chan) (receive_time : Z) (r : report) (ops cb_ops : list user_op)
| LoopTimer (c : chan) (ops : list user_op)
| OtherSend (c : chan) (data : bytes)
| Release (c : chan).

Definition pool_step (o : pool_op) st : outcome (pooled P) :=
  match o with
  | BaseAccept fd wc hw kern => pool_accept fd wc hw kern st
  | BaseFunctor => base_functor st
  | LoopFunctor l ops => loop_next l ops st
  | LoopEvent c t r ops cb_ops => loop_event c t r ops cb_ops st
  | LoopTimer c ops => loop_timer c ops st
  | OtherSend c data => other_send c data st
  | Release c => release c st
  end.

(** The bytes that a step takes in. *)
Definition pool_size (o : pool_op) st : Z :=
  match o with
  | LoopFunctor l ops =>
      ops_size ops +
      match (pl_io st !! l) ≫= (λ io, head (io_pending io)) with Some (TaskFunctor _ (SendInLoopTask d)) => zlen d | _ => 0 end
  | LoopEvent _ _ r ops cb_ops => match rp_in r with Some a => answer_size a | None => 0 end + ops_size ops
  | _ => 0
  end.

(** Nothing refers to the connection: neither the map nor a functor. *)
Definition unreferenced (c : chan) st : Prop :=
  ∃ x io, pl_peers st !! c = Some x ∧ pl_io st !! conn_loop (pp_connection x) = Some io ∧
    connections_ (pl_server st) !! conn_name (pp_connection x) ≠ Some (pp_connection x) ∧
    (c ∉ (pl_base st).*1) ∧ (∀ f, f ∈ io_pending io → target f ≠ c).

(** What the system and the language see to: descriptors are not given out
    twice ([reserved] are those of the loops themselves), a poller reports
    channels that wait for something, other threads have a connection from its
    callbacks, and an object goes with its last reference. *)
Definition pool_legal (reserved : gset Z) (o : pool_op) st : Prop :=
  match o with
  | BaseAccept fd _ _ _ =>
      0 ≤ fd ∧ (fd ∉ reserved) ∧ (∀ c x, pl_peers st !! c = Some x → conn_fd (pp_connection x) ≠ fd) ∧
      next_conn_id_ (pl_server st) < 2 ^ 31 - 1
  | LoopEvent c _ _ _ _ =>
      ∃ x io ch, pl_peers st !! c = Some x ∧ pl_io st !! conn_loop (pp_connection x) = Some io ∧ io_heap io !! c = Some ch ∧
        Channel.events_ ch ≠ 0
  | OtherSend c _ => ∃ x, pl_peers st !! c = Some x ∧ state_ (pp_conn x) ≠ kConnecting
  | Release c => unreferenced c st
  | BaseFunctor | LoopFunctor _ _ | LoopTimer _ _ => True
  end.

Inductive pool_reach (reserved : gset Z) (st0 : pooled P) : Z → pooled P → Prop :=
| pool_reach_start : pool_reach reserved st0 0 st0
| pool_reach_step n o st st' :
    pool_reach reserved st0 n st → pool_legal reserved o st → 2 * kCheapPrepend + n + pool_size o st ≤ vector_max_size →
    pool_step o st = Ok st' → pool_reach reserved st0 (n + pool_size o st) st'.
End pool.
