(* ===== verification/ServiceLifecycle.v ===== *)
(** * The life of the connections of a server in one loop

    The invariant of the contract of HttpService.v: a connection is in the
    server's map from its establishment until it closes, a closed connection
    waits for exactly one [ConnectDestroyed], which is the last functor that
    refers to it, and only force-close functors are queued besides. *)

From stdpp Require Import base tactics list numbers strings sets gmap.
From Stdlib Require Import ZArith Lia Ascii.
From S2P Require Import Prelude.
From S2P Require Import CString.
From S2P Require Import Buffer.
From S2P Require Import HttpRequest.
From S2P Require Import HttpContext.
From S2P Require Import HttpResponse.
From S2P Require Import Timing.
From S2P Require Import HttpServer.
From S2P Require Import Channel.
From S2P Require Import Poller.
From S2P Require Import TcpServer.
From S2P Require Import TcpConnection.
From S2P Require Import HttpConnection.
From S2P Require Import SharedLoop.
From S2P Require Import HttpService.

(** A timing object that shuts a connection down before it asks for a delayed
    close, as both of them do. *)
Class TimingOrderly (T : Type) `{Timing T} := {
  shutdown_first view now (t t' : T) calls l1 c l2 :
    Timing.OnTimer view now t = Ok (t', calls) → calls = l1 ++ CallForceCloseWithDelay c :: l2 → CallShutdown c ∈ l1;
}.

#[global] Instance wheel_orderly index : TimingOrderly (H := Wheel.wheel_timing index) Wheel.TimingWheel.
Proof.
  split. intros view now t t' calls l1 c l2 E ->. cbn in E. unfold Wheel.OnTimer in E.
  destruct (Wheel.connection_buckets_ t) as [|front rest]; [injection E as _ E; by destruct l1|].
  injection E as _ E. assert (CallForceCloseWithDelay c ∈ Wheel.destroy_entries view (front ∖ ⋃ rest) t) as Hin.
  { rewrite E. set_solver. }
  unfold Wheel.destroy_entries in Hin. apply list_elem_of_omap in Hin as (e & _ & He).
  destruct (Wheel.entries t !! e); cbn in He; [|done]. by destruct (alive _).
Qed.

Lemma scan_orderly view idle now l nodes l' nodes' calls l1 c l2 :
  TList.scan view idle now l nodes = Ok (l', nodes', calls) → calls = l1 ++ CallForceCloseWithDelay c :: l2 →
  CallShutdown c ∈ l1.
Proof.
  revert nodes l' nodes' calls l1. induction l as [|c0 l IH]; intros nodes l' nodes' calls l1; cbn [TList.scan].
  { intros [= _ _ <-]. by destruct l1. }
  destruct (alive _); [|by apply IH]. destruct (nodes !! c0) as [t0|]; [|done].
  destruct (_ <? _).
  - intros E. apply bind_Ok in E as ([[r n] cs] & E & [= _ _ <-]).
    destruct (connected _); [|intros E'; by eapply IH].
    destruct l1 as [|x1 [|x2 l1]]; cbn; intros E'; [done|simplify_eq; set_solver|].
    injection E' as Ex1 Ex2 E'. specialize (IH _ _ _ _ l1 E E'). set_solver.
  - destruct (_ <? 0); [|intros [= _ _ <-]; by destruct l1]. intros E.
    apply bind_Ok in E as ([[r n] cs] & E & [= _ _ <-]). by eapply IH.
Qed.

#[global] Instance list_orderly : TimingOrderly TList.TimingList.
Proof.
  split. intros view now t t' calls l1 c l2 E. cbn in E. unfold TList.OnTimer in E.
  apply bind_Ok in E as ([[cs nodes] calls'] & E & [= _ <-]). by eapply scan_orderly.
Qed.

(** ** The invariant *)
Section lifecycle.
Context {F T : Type} `{FileSystem F, TimingOrderly T}.
Context (config : HttpServerConfig).
Implicit Types a : aservice F T.

(** [fs] are functors swapped out of the queue and not called yet. *)
Record awf (fs : list functor) a : Prop := MkAwf {
  aw_next c y : as_peers a !! c = Some y → c < k_next (as_control a);
  aw_known f : f ∈ fs ++ k_pending (as_control a) → is_Some (as_peers a !! functor_chan f);
  aw_task c t : ConnFunctor c t ∈ fs ++ k_pending (as_control a) → t = ForceCloseInLoopTask;
  aw_destroy c y : as_peers a !! c = Some y →
    DestroyFunctor c ∈ fs ++ k_pending (as_control a) ↔ ap_closed y = true;
  aw_last l1 c l2 : fs ++ k_pending (as_control a) = l1 ++ DestroyFunctor c :: l2 → c ∉ functor_chan <$> l2;
  aw_closed c y : as_peers a !! c = Some y → ap_closed y = true → ap_open y = false;
  aw_timers c y : as_peers a !! c = Some y → ap_timers y ≠ O → ap_open y = false;
  aw_started : is_started_ (thread_pool_ (k_server (as_control a))) = true;
  aw_loops : loops_ (thread_pool_ (k_server (as_control a))) = [];
  aw_id : 1 ≤ next_conn_id_ (k_server (as_control a));
  aw_address : zlen (ip_port_ (k_server (as_control a))) ≤ 51;
  aw_posted : posted (k_server (as_control a)) = [];
  aw_map n conn : connections_ (k_server (as_control a)) !! n = Some conn ↔
    ∃ c y, as_peers a !! c = Some y ∧ ap_closed y = false ∧ ap_connection y = conn ∧ conn_name conn = n;
  aw_names c y : as_peers a !! c = Some y → ∃ id, 1 ≤ id < next_conn_id_ (k_server (as_control a)) ∧
    conn_name (ap_connection y) = name_ (k_server (as_control a)) ++ conn_suffix (ip_port_ (k_server (as_control a))) id;
  aw_distinct c c' y y' : as_peers a !! c = Some y → as_peers a !! c' = Some y' →
    conn_name (ap_connection y) = conn_name (ap_connection y') → c = c';
}.

(** A connection changed in place. *)
Lemma awf_update fs a c y y' k :
  awf fs a → as_peers a !! c = Some y → ap_connection y' = ap_connection y → ap_closed y' = ap_closed y →
  (ap_closed y = true ∨ ap_timers y' ≠ O → ap_open y' = false) →
  k_server k = k_server (as_control a) → k_pending k = k_pending (as_control a) → k_next k = k_next (as_control a) →
  awf fs (MkAservice k (<[c := y']> (as_peers a))).
Proof.
  intros [] Hy Hcn Hcl Hop Hs Hp Hn.
  assert (∀ c' z, <[c := y']> (as_peers a) !! c' = Some z →
            ∃ z0, as_peers a !! c' = Some z0 ∧ ap_connection z = ap_connection z0 ∧ ap_closed z = ap_closed z0 ∧
              (ap_closed z0 = true ∨ ap_timers z ≠ O → ap_open z = false)) as Hback.
  { intros c' z. destruct (decide (c = c')) as [<-|Hne]; [rewrite lookup_insert_eq; intros [= <-]; by exists y|].
    rewrite lookup_insert_ne by done. intros Hz. exists z. split; [done|]. split; [done|]. split; [done|]. naive_solver. }
  split; cbn [as_control as_peers]; rewrite ?Hs, ?Hp, ?Hn; try done.
  - intros c' z (z0 & Hz & _)%Hback. by eapply aw_next0.
  - intros f Hf. apply aw_known0 in Hf. destruct (decide (c = functor_chan f)) as [<-|Hne];
      [by rewrite lookup_insert_eq|by rewrite lookup_insert_ne].
  - intros c' z (z0 & Hz & _ & -> & _)%Hback. by apply aw_destroy0.
  - intros c' z (z0 & Hz & _ & -> & Ho)%Hback Hc. auto.
  - intros c' z (z0 & Hz & _ & _ & Ho)%Hback Hc. auto.
  - intros n conn. rewrite aw_map0. split; intros (c' & z & Hz & Hzc & Hzn & Hn').
    + destruct (decide (c = c')) as [<-|Hne].
      * exists c, y'. rewrite lookup_insert_eq. simplify_eq. split_and!; congruence.
      * exists c', z. by rewrite lookup_insert_ne.
    + destruct (Hback _ _ Hz) as (z0 & Hz0 & E1 & E2 & _). exists c', z0. split_and!; congruence.
  - intros c' z (z0 & Hz & -> & _)%Hback. by eapply aw_names0.
  - intros c1 c2 z1 z2 (? & ? & -> & _)%Hback (? & ? & -> & _)%Hback. by eapply aw_distinct0.
Qed.

Lemma acalls_shut calls (s : aserver F T) : a_open s = false → a_open (acalls calls s) = false.
Proof.
  revert s. induction calls as [|call calls IH]; intros s Hs; [done|].
  change (acalls (call :: calls) s) with (acalls calls (acall s call)). apply IH. by destruct call.
Qed.

Lemma areact_shut c t data (s s' : aserver F T) : areact config c t data s = Ok s' → a_open s = false → a_open s' = false.
Proof.
  unfold areact. intros E Hs. apply bind_Ok in E as (timing & _ & E). apply bind_Ok in E as ([[ok ctx] rest] & _ & E).
  destruct (IsGotAll ctx); [apply bind_Ok in E as ([fs calls] & _ & E)|]; injection E as <-; by apply acalls_shut.
Qed.

Lemma astore_wf fs a c y s :
  awf fs a → as_peers a !! c = Some y → ap_closed y = false → (ap_open y = false → a_open s = false) → awf fs (astore c y s a).
Proof.
  intros Ha Hy Hcl Ho. apply (awf_update fs a c y); try done. cbn. intros [?|Ht]; [congruence|].
  by apply Ho, (aw_timers _ _ Ha c).
Qed.

(** One more functor at the end of the queue, of a connection that is not closed. *)
Lemma last_snoc_inv (l l1 l2 : list functor) c f :
  (∀ l1 c l2, l = l1 ++ DestroyFunctor c :: l2 → c ∉ functor_chan <$> l2) →
  DestroyFunctor (functor_chan f) ∉ l → l ++ [f] = l1 ++ DestroyFunctor c :: l2 → c ∉ functor_chan <$> l2.
Proof.
  intros Hl Hf E. destruct l2 as [|x l2' _] using rev_ind; [set_solver|].
  rewrite app_comm_cons, app_assoc in E. apply app_inj_tail in E as [E <-]. rewrite fmap_app.
  apply not_elem_of_app. split; [by eapply Hl|]. cbn. intros Hc%list_elem_of_singleton. subst c.
  apply Hf. rewrite E. set_solver.
Qed.

Lemma aclose_ok now c y a timing :
  (∃ fs, awf fs a) → as_peers a !! c = Some y → ap_closed y = false →
  Timing.OnConnection c (MkConnView true false) now (k_timing (as_control a)) = Ok timing → ∃ a', aclose now c y a = Ok a'.
Proof.
  intros [fs Ha] Hy Hcl Ht. unfold aclose, RemoveConnection, RemoveConnectionInLoop. rewrite Ht. cbn [mbind outcome_bind].
  rewrite bool_decide_true; [by eexists|]. exists (ap_connection y). apply (aw_map _ _ Ha). by exists c, y.
Qed.

Lemma aclose_wf now fs c y a a' :
  awf fs a → as_peers a !! c = Some y → ap_closed y = false → aclose now c y a = Ok a' → awf fs a'.
Proof.
  intros [] Hy Hcl E. unfold aclose, RemoveConnection, RemoveConnectionInLoop in E. inv_ok.
  assert (DestroyFunctor c ∉ fs ++ k_pending (as_control a)) as Hno.
  { intros Hin. apply (aw_destroy0 _ _ Hy) in Hin. congruence. }
  split; cbn [as_control as_peers k_pending k_next k_server clear_posted post set_connections thread_pool_ posted
    connections_ next_conn_id_ name_ ip_port_]; try done.
  - intros c' z. destruct (decide (c = c')) as [<-|]; [intros _; by eapply aw_next0|rewrite lookup_insert_ne by done; apply aw_next0].
  - intros f. rewrite app_assoc, elem_of_app, list_elem_of_singleton. destruct (decide (c = functor_chan f)) as [<-|Hne];
      [by rewrite lookup_insert_eq|]. rewrite lookup_insert_ne by done. intros [Hf| ->]; [by apply aw_known0|done].
  - intros c' t. rewrite app_assoc, elem_of_app, list_elem_of_singleton. intros [Hf|?]; [by eapply aw_task0|done].
  - intros c' z. rewrite app_assoc, elem_of_app, list_elem_of_singleton. destruct (decide (c = c')) as [<-|Hne].
    + rewrite lookup_insert_eq. intros [= <-]. cbn. naive_solver.
    + rewrite lookup_insert_ne by done. intros Hz. rewrite (aw_destroy0 _ _ Hz). naive_solver.
  - intros l1 c' l2. rewrite app_assoc. by apply last_snoc_inv.
  - intros c' z. destruct (decide (c = c')) as [<-|]; [rewrite lookup_insert_eq; by intros [= <-]|].
    rewrite lookup_insert_ne by done. apply aw_closed0.
  - intros c' z. destruct (decide (c = c')) as [<-|]; [rewrite lookup_insert_eq; by intros [= <-]|].
    rewrite lookup_insert_ne by done. apply aw_timers0.
  - intros n conn. rewrite lookup_delete_Some, aw_map0. split.
    + intros [Hne (c' & z & Hz & Hzc & <- & <-)]. exists c', z. rewrite lookup_insert_ne; [done|]. congruence.
    + intros (c' & z & Hz & Hzc & <- & <-). destruct (decide (c = c')) as [<-|Hne].
      { rewrite lookup_insert_eq in Hz. injection Hz as <-. done. }
      rewrite lookup_insert_ne in Hz by done. split; [|by exists c', z]. intros E. by apply Hne, (aw_distinct0 _ _ y z).
  - intros c' z. destruct (decide (c = c')) as [<-|]; [rewrite lookup_insert_eq; intros [= <-]; by apply aw_names0 in Hy|].
    rewrite lookup_insert_ne by done. apply aw_names0.
  - assert (∀ c' z, <[c:=MkApeer (ap_connection y) (ap_context y) (ap_unread y) (ap_sent y) false true (ap_timers y)]> (as_peers a) !! c' = Some z →
              ∃ z0, as_peers a !! c' = Some z0 ∧ ap_connection z0 = ap_connection z) as Hb.
    { intros c' z. destruct (decide (c = c')) as [<-|]; [rewrite lookup_insert_eq; intros [= <-]; by exists y|].
      rewrite lookup_insert_ne by done. by exists z. }
    intros c1 c2 z1 z2 (? & ? & <-)%Hb (? & ? & <-)%Hb. by eapply aw_distinct0.
Qed.

Lemma anew_wf now fd fs a a' :
  awf fs a → anew now fd a = Ok a' → awf fs a'.
Proof.
  intros [] E. unfold anew, NewConnection, GetNextLoop in E. rewrite aw_started0, aw_loops0 in E.
  cbn [cassert mbind outcome_bind] in E. destruct (Z.leb_spec (2 ^ 31 - 1) (next_conn_id_ (k_server (as_control a)))) as [|Hid]; [done|].
  cbn [mbind outcome_bind post posted] in E. rewrite aw_posted0 in E. cbn [app] in E.
  apply bind_Ok in E as (timing & _ & [= <-]). set (conn := MkConnection _ _ _).
  set (c := k_next (as_control a)).
  assert (∀ c' z, as_peers a !! c' = Some z → c ≠ c') as Hfresh. { intros c' z ?%aw_next0. lia. }
  assert (∀ c' z, as_peers a !! c' = Some z → conn_name (ap_connection z) ≠ conn_name conn) as Hname.
  { intros c' z (id & Hi & ->)%aw_names0. cbn. intros E%app_inv_head%conn_suffix_inj; lia. }
  split; cbn [as_control as_peers k_pending k_next k_server clear_posted post thread_pool_ posted
    connections_ next_conn_id_ name_ ip_port_]; try done; [..|lia| | |].
  - intros c' z. destruct (decide (c = c')) as [<-|]; [lia|]. rewrite lookup_insert_ne by done. intros ?%aw_next0. unfold c. lia.
  - intros f Hf. apply aw_known0 in Hf as [z Hz]. rewrite lookup_insert_ne; [by exists z|by eapply Hfresh].
  - intros c' z. destruct (decide (c = c')) as [<-|]; [|rewrite lookup_insert_ne by done; apply aw_destroy0].
    rewrite lookup_insert_eq. intros [= <-]. split; [|done]. intros [z Hz]%aw_known0. by apply Hfresh in Hz.
  - intros c' z. destruct (decide (c = c')) as [<-|]; [|rewrite lookup_insert_ne by done; apply aw_closed0].
    rewrite lookup_insert_eq. by intros [= <-].
  - intros c' z. destruct (decide (c = c')) as [<-|]; [|rewrite lookup_insert_ne by done; apply aw_timers0].
    rewrite lookup_insert_eq. by intros [= <-].
  - intros n con. rewrite lookup_insert_Some, aw_map0. split.
    + intros [[<- <-]|[Hne (c' & z & Hz & Hr)]]; [exists c; eexists; rewrite lookup_insert_eq; by split_and!|].
      exists c', z. rewrite lookup_insert_ne; [done|by eapply Hfresh].
    + intros (c' & z & Hz & Hzc & <- & <-). destruct (decide (c = c')) as [<-|Hne].
      { rewrite lookup_insert_eq in Hz. injection Hz as <-. by left. }
      rewrite lookup_insert_ne in Hz by done. right. split; [|by exists c', z]. intros E. by eapply Hname.
  - intros c' z. destruct (decide (c = c')) as [<-|]; [rewrite lookup_insert_eq; intros [= <-]|].
    + exists (next_conn_id_ (k_server (as_control a))). split; [lia|done].
    + rewrite lookup_insert_ne by done. intros (id & ? & ?)%aw_names0. exists id. split; [lia|done].
  - intros c1 c2 z1 z2. destruct (decide (c = c1)) as [<-|], (decide (c = c2)) as [<-|];
      rewrite ?lookup_insert_eq, ?lookup_insert_ne by done; intros E1 E2 En; try done.
    + injection E1 as <-. by apply Hname in E2.
    + injection E2 as <-. by apply Hname in E1.
    + by eapply aw_distinct0.
Qed.

(** The queue swapped out. *)
Lemma swap_wf a :
  awf [] a → awf (k_pending (as_control a)) (MkAservice (set_pending [] (as_control a)) (as_peers a)).
Proof. intros []. split; cbn [as_control as_peers set_pending k_pending k_next k_server]; rewrite ?app_nil_r; done. Qed.

(** A force-close functor called, or queued. *)
Lemma drop_wf fs c t a : awf (ConnFunctor c t :: fs) a → awf fs a.
Proof.
  intros []. split; try done.
  - intros f Hf. apply aw_known0. set_solver.
  - intros c' t' Hf. apply (aw_task0 c'). set_solver.
  - intros c' y Hy. rewrite <-(aw_destroy0 _ _ Hy). set_solver.
  - intros l1 c' l2 E. apply (aw_last0 (ConnFunctor c t :: l1)). cbn. by rewrite E.
Qed.

Lemma push_wf fs c y a :
  awf fs a → as_peers a !! c = Some y → ap_closed y = false →
  awf fs (MkAservice (set_pending (k_pending (as_control a) ++ [ConnFunctor c ForceCloseInLoopTask]) (as_control a)) (as_peers a)).
Proof.
  intros [] Hy Hcl. split; cbn [as_control as_peers set_pending k_pending k_next k_server]; try done.
  - intros f. rewrite app_assoc, elem_of_app, list_elem_of_singleton. intros [Hf| ->]; [by apply aw_known0|by exists y].
  - intros c' t. rewrite app_assoc, elem_of_app, list_elem_of_singleton. intros [Hf|[= _ ->]]; [by eapply aw_task0|done].
  - intros c' z Hz. rewrite app_assoc, elem_of_app, list_elem_of_singleton, (aw_destroy0 _ _ Hz). naive_solver.
  - intros l1 c' l2. rewrite app_assoc. apply last_snoc_inv; [done|]. cbn. rewrite (aw_destroy0 _ _ Hy). congruence.
Qed.

Lemma destroy_wf fs c a :
  awf (DestroyFunctor c :: fs) a → awf fs (MkAservice (as_control a) (delete c (as_peers a))).
Proof.
  intros []. assert (c ∉ functor_chan <$> fs ++ k_pending (as_control a)) as Hc by (by apply (aw_last0 [])).
  destruct (aw_known0 (DestroyFunctor c)) as [y Hy]; [set_solver|]. cbn in Hy.
  assert (ap_closed y = true) as Hcl by (apply (aw_destroy0 _ _ Hy); set_solver).
  split; cbn [as_control as_peers]; try done.
  - intros c' z [_ Hz]%lookup_delete_Some. by eapply aw_next0.
  - intros f Hf. rewrite lookup_delete_ne; [apply aw_known0; set_solver|]. intros ->. apply Hc. by apply list_elem_of_fmap_2.
  - intros c' t' Hf. apply (aw_task0 c'). set_solver.
  - intros c' z [Hne Hz]%lookup_delete_Some. rewrite <-(aw_destroy0 _ _ Hz). set_solver.
  - intros l1 c' l2 E. apply (aw_last0 (DestroyFunctor c :: l1)). cbn. by rewrite E.
  - intros c' z [_ Hz]%lookup_delete_Some. by eapply aw_closed0.
  - intros c' z [_ Hz]%lookup_delete_Some. by eapply aw_timers0.
  - intros n conn. rewrite aw_map0. split; intros (c' & z & Hz & Hr).
    + exists c', z. split; [|done]. rewrite lookup_delete_ne; [done|]. intros <-. simplify_eq. destruct Hr. congruence.
    + apply lookup_delete_Some in Hz as [_ Hz]. by exists c', z.
  - intros c' z [_ Hz]%lookup_delete_Some. by eapply aw_names0.
  - intros c1 c2 z1 z2 [_ Hz1]%lookup_delete_Some [_ Hz2]%lookup_delete_Some. by eapply aw_distinct0.
Qed.

(** ** Every step keeps it *)
Lemma acall_timing_wf fs call a a' : awf fs a → acall_timing call a = Ok a' → awf fs a'.
Proof.
  intros Ha. destruct call as [c|c]; cbn; unfold awith; destruct (as_peers a !! c) as [y|] eqn:Hy; try done; intros [= <-].
  - by apply (awf_update fs a c y).
  - destruct (ap_closed y) eqn:Hcl; [done|]. by apply (awf_update fs a c y).
Qed.

Lemma acalls_timing_wf fs calls a a' : awf fs a → acalls_timing calls a = Ok a' → awf fs a'.
Proof.
  revert a. induction calls as [|call calls IH]; intros a Ha; [by intros [= <-]|]. cbn. intros E.
  apply bind_Ok in E as (a1 & E1 & E). eapply IH; [|done]. by eapply acall_timing_wf.
Qed.

(** Another acceptor or timing object next to the same connections. *)
Lemma awf_control fs a k :
  awf fs a → k_server k = k_server (as_control a) → k_pending k = k_pending (as_control a) →
  k_next k = k_next (as_control a) → awf fs (MkAservice k (as_peers a)).
Proof. intros [] Hs Hp Hn. split; cbn [as_control as_peers]; rewrite ?Hs, ?Hp, ?Hn; done. Qed.

Lemma aread_wf fs now c t r y a a' :
  awf fs a → as_peers a !! c = Some y → ap_closed y = false → aread config now c t r y a = Ok a' → awf fs a'.
Proof.
  intros Ha Hy Hcl. unfold aread. destruct (rp_in r) as [[e|[|b data]]|].
  - by intros [= <-].
  - by eapply aclose_wf.
  - intros E. apply bind_Ok in E as (s & Hs & [= <-]). apply astore_wf; try done. intros Ho. by eapply areact_shut.
  - destruct (rp_hup r); [by eapply aclose_wf|by intros [= <-]].
Qed.

Lemma aforce_close_wf fs c a a' : awf fs a → aforce_close c a = Ok a' → awf fs a'.
Proof.
  intros Ha. unfold aforce_close. destruct (as_peers a !! c) as [y|] eqn:Hy; [|by intros [= <-]].
  destruct (ap_timers y) as [|n] eqn:Hn; [by intros [= <-]|]. intros [= <-].
  destruct (ap_closed y) eqn:Hcl.
  - apply (awf_update fs a c y); try done. cbn. by rewrite app_nil_r.
  - pose proof (push_wf fs c y a Ha Hy Hcl) as Hp. by apply (awf_update fs _ c y _ _ Hp).
Qed.

Lemma aevent_wf reserved fs now e a a' :
  awf fs a → permitted config reserved now e a → aevent config now e a = Ok a' → awf fs a'.
Proof.
  intros Ha Hp. destruct e as [ans reopened kern|c t r| |c]; cbn [aevent permitted] in *.
  - destruct (Acceptor_HandleRead _ _ _ _) as [o acc].
    assert (awf fs (MkAservice (MkControl acc (k_server (as_control a)) (k_pending (as_control a)) (k_files (as_control a))
      (k_timing (as_control a)) (k_next (as_control a))) (as_peers a))) as Ha' by (by apply awf_control).
    destruct o; [by eapply anew_wf|by intros [= <-]].
  - unfold awith. destruct (as_peers a !! c) as [y|] eqn:Hy; [|done]. destruct Hp as [Hcl _]. by eapply aread_wf.
  - unfold atick. intros E. apply bind_Ok in E as ([timing calls] & _ & E). eapply acalls_timing_wf; [|done].
    by apply awf_control.
  - by apply aforce_close_wf.
Qed.

Lemma arun_functor_wf fs now f a a' : awf (f :: fs) a → arun_functor now f a = Ok a' → awf fs a'.
Proof.
  intros Ha. destruct f as [c t|c]; cbn; unfold awith; destruct (as_peers a !! c) as [y|] eqn:Hy; try done.
  - apply drop_wf in Ha. destruct (ap_closed y) eqn:Hcl; [by intros [= <-]|]. by eapply aclose_wf.
  - intros [= <-]. by apply destroy_wf.
Qed.

Lemma arun_functors_wf now fs a a' : awf fs a → arun_functors now fs a = Ok a' → awf [] a'.
Proof.
  revert a. induction fs as [|f fs IH]; intros a Ha; [by intros [= <-]|]. cbn. intros E.
  apply bind_Ok in E as (a1 & E1 & E). eapply IH; [|done]. by eapply arun_functor_wf.
Qed.

Lemma aevents_wf reserved es a a' :
  awf [] a → permitted_events config reserved es a → aevents config es a = Ok a' → awf [] a'.
Proof.
  revert a. induction es as [|[now e] es IH]; intros a Ha; [by intros _ [= <-]|]. cbn. intros [Hp Hps] E.
  destruct (aevent config now e a) as [a1|] eqn:E1; [|done]. cbn in E. eapply IH; [|done..]. by eapply aevent_wf.
Qed.

Lemma aturn_wf reserved es now a a' :
  awf [] a → permitted_events config reserved es a → aturn config es now a = Ok a' → awf [] a'.
Proof.
  unfold aturn, ado_pending. intros Ha Hp E. apply bind_Ok in E as (a1 & E1 & E).
  eapply arun_functors_wf; [|done]. apply swap_wf. by eapply aevents_wf.
Qed.

(** ** A closed connection goes with the next turn *)

(** Events only append to the queue. *)
Lemma acalls_pending calls a a' : acalls_timing calls a = Ok a' → k_pending (as_control a') = k_pending (as_control a).
Proof.
  revert a. induction calls as [|call calls IH]; intros a; [by intros [= <-]|]. cbn. intros E. apply bind_Ok in E as (a1 & E1 & E%IH).
  rewrite E. destruct call as [c|c]; cbn in E1; unfold awith in E1; destruct (as_peers a !! c) as [y|]; try done;
    injection E1 as <-; by destruct (ap_closed y).
Qed.

Lemma aevent_pending now e a a' f : aevent config now e a = Ok a' → f ∈ k_pending (as_control a) → f ∈ k_pending (as_control a').
Proof.
  assert (∀ c y, aclose now c y a = Ok a' → f ∈ k_pending (as_control a) → f ∈ k_pending (as_control a')) as Hclose.
  { intros c y E. unfold aclose in E. inv_ok. cbn. set_solver. }
  destruct e as [ans reopened kern|c t r| |c]; cbn [aevent].
  - destruct (Acceptor_HandleRead _ _ _ _) as [[fd|] acc]; [|by intros [= <-]]. unfold anew. intros E. inv_ok.
    destruct (posted _) as [|[l []] []]; try done. by inv_ok.
  - unfold awith. destruct (as_peers a !! c) as [y|]; [|done]. unfold aread. destruct (rp_in r) as [[e|[|b data]]|].
    + by intros [= <-].
    + apply Hclose.
    + intros E. by inv_ok.
    + destruct (rp_hup r); [apply Hclose|by intros [= <-]].
  - unfold atick. intros E. apply bind_Ok in E as ([timing calls] & _ & E%acalls_pending). by rewrite E.
  - unfold aforce_close. destruct (as_peers a !! c) as [y|]; [|by intros [= <-]].
    destruct (ap_timers y); intros [= <-]; [done|]. cbn. set_solver.
Qed.

Lemma aevents_pending es a a' f : aevents config es a = Ok a' → f ∈ k_pending (as_control a) → f ∈ k_pending (as_control a').
Proof.
  revert a. induction es as [|[now e] es IH]; intros a; [by intros [= <-]|]. cbn. intros E. apply bind_Ok in E as (a1 & E1 & E).
  intros Hf. eapply IH; [done|]. by eapply aevent_pending.
Qed.

Lemma arun_functor_gone now f a a' c : arun_functor now f a = Ok a' → as_peers a !! c = None → as_peers a' !! c = None.
Proof.
  destruct f as [c' t|c']; cbn; unfold awith; destruct (as_peers a !! c') as [y|] eqn:Hy; try done.
  - destruct (ap_closed y); [by intros [= <-]|]. unfold aclose. intros E Hc. inv_ok. cbn. rewrite lookup_insert_ne; [done|congruence].
  - intros [= <-] Hc. cbn. rewrite lookup_delete_None. by right.
Qed.

Lemma arun_functors_gone now fs a a' c :
  arun_functors now fs a = Ok a' → DestroyFunctor c ∈ fs ∨ as_peers a !! c = None → as_peers a' !! c = None.
Proof.
  revert a. induction fs as [|f fs IH]; intros a; cbn.
  { intros [= <-] [?%elem_of_nil|?]; done. }
  intros E Hor. apply bind_Ok in E as (a1 & E1 & E). apply (IH _ E). destruct Hor as [[<-|Hin]%elem_of_cons|Hn]; [right|by left|right].
  - cbn in E1. unfold awith in E1. destruct (as_peers a !! c); [|done]. injection E1 as <-. apply lookup_delete_eq.
  - by eapply arun_functor_gone.
Qed.

Lemma aturn_destroys es now a a' c y :
  awf [] a → as_peers a !! c = Some y → ap_closed y = true → aturn config es now a = Ok a' → as_peers a' !! c = None.
Proof.
  intros Ha Hy Hcl E. unfold aturn in E. apply bind_Ok in E as (a1 & E1 & E). eapply arun_functors_gone; [done|]. left.
  eapply aevents_pending; [done|]. by apply (aw_destroy _ _ Ha c y).
Qed.

End lifecycle.
