(* ===== verification/Defaults.v ===== *)
(** * [Poller::NewDefaultPoller] and [Timing::NewDefaultTiming]
    (net/default_poller.cc, net/default_timing.cc)

    The environment chooses between the two pollers and between the two timing
    objects.  A choice is a sum type; it keeps every interface that both
    alternatives keep, so that theorems over an interface hold of the program
    whatever its environment. *)

From stdpp Require Import base tactics list numbers strings sets gmap.
From Stdlib Require Import ZArith Lia Ascii.
From S2P Require Import Prelude.
From S2P Require Import CString.
From S2P Require Import Timing.
From S2P Require Import Channel.
From S2P Require Import Poller.
From S2P Require Import SharedLoop.
From S2P Require Import ServiceLifecycle.

(** ** A choice of pollers *)
Section pollers.
Context {P Q : Type} `{Poller P, Poller Q}.

#[global] Instance either_poller : Poller (P + Q) | 100 := {|
  Channel.UpdateChannel c p h :=
    match p with
    | inl p => '(p, h) ← Channel.UpdateChannel c p h; Ok (inl p, h)
    | inr p => '(p, h) ← Channel.UpdateChannel c p h; Ok (inr p, h)
    end;
  Channel.RemoveChannel c p h :=
    match p with
    | inl p => '(p, h) ← Channel.RemoveChannel c p h; Ok (inl p, h)
    | inr p => '(p, h) ← Channel.RemoveChannel c p h; Ok (inr p, h)
    end;
  Channel.HasChannel c p h :=
    match p with inl p => Channel.HasChannel c p h | inr p => Channel.HasChannel c p h end;
|}.

Definition either_inv (inv1 : P → heap → registry → Prop) (inv2 : Q → heap → registry → Prop)
    (p : P + Q) (h : heap) (r : registry) : Prop :=
  match p with inl p => inv1 p h r | inr p => inv2 p h r end.

#[global] Instance either_poller_inv inv1 inv2 `{!PollerInv P inv1, !PollerInv Q inv2} :
  PollerInv (P + Q) (either_inv inv1 inv2) | 100.
Proof.
  split.
  - intros [p|p] h r Hi; [exact (inv_common (inv := inv1) _ _ _ Hi)|exact (inv_common (inv := inv2) _ _ _ Hi)].
  - intros [p|p] h r c x x0 ev Hi ? ? ? ? ? ? ?;
      destruct (inv_update p h r c x x0 ev Hi) as (p' & h' & E & Hfd & Hi'); try done;
      eexists _, h'; cbn; rewrite E; by repeat split.
  - intros [p|p] h r c x x0 Hi ? ? ? ? ?;
      destruct (inv_remove p h r c x x0 Hi) as (p' & h' & E & Hfd & Hi'); try done;
      eexists _, h'; cbn; rewrite E; by repeat split.
Qed.

#[global] Instance either_poller_heap inv1 inv2 `{!PollerHeap P inv1, !PollerHeap Q inv2} :
  PollerHeap (P + Q) (either_inv inv1 inv2) | 100.
Proof.
  split.
  - intros [p|p] h r c x; [apply (inv_alloc (inv := inv1))|apply (inv_alloc (inv := inv2))].
  - intros [p|p] h r c; [apply (inv_free (inv := inv1))|apply (inv_free (inv := inv2))].
  - intros [p|p] h r c x x'; [apply (inv_touch (inv := inv1))|apply (inv_touch (inv := inv2))].
  - intros [p|p] h r c x; [apply (inv_has (inv := inv1))|apply (inv_has (inv := inv2))].
Qed.

#[global] Instance either_poller_status `{!PollerStatus P, !PollerStatus Q} : PollerStatus (P + Q) | 100.
Proof.
  split; intros c [p|p] h p' h' E; cbn in E; apply bind_Ok in E as ([p1 h1] & E & [= _ <-]);
    first [exact (update_status (P := P) _ _ _ _ _ E)|exact (update_status (P := Q) _ _ _ _ _ E)|
           exact (remove_status (P := P) _ _ _ _ _ E)|exact (remove_status (P := Q) _ _ _ _ _ E)].
Qed.
End pollers.

(** [getenv("MYTINYHTTPD_USE_POLL")] decides. *)
Definition DefaultPoller (K : Type) : Type := (PPoll.PollPoller + EPoll.EPollPoller K)%type.

Definition NewDefaultPoller {K} (getenv : bytes → option bytes) (epollfd : K) : DefaultPoller K :=
  match getenv (str "MYTINYHTTPD_USE_POLL") with
  | Some _ => inl PPoll.PollPoller_new
  | None => inr (EPoll.EPollPoller_new epollfd)
  end.

Abbreviation default_inv := (either_inv poll_inv epoll_inv).

(** Whatever the environment, the new poller watches nothing. *)
Lemma default_poller_empty {K} `{EPoll.EpollLaws K} getenv (k : K) :
  EPoll.interest k = ∅ → default_inv (NewDefaultPoller getenv k) ∅ (MkRegistry ∅ ∅).
Proof.
  intros Hk. unfold NewDefaultPoller. destruct (getenv _); cbn; split; cbn.
  - apply common_empty. intros c x. by rewrite lookup_empty.
  - intros fd c ev x. by rewrite lookup_empty.
  - intros i pfd. by rewrite lookup_nil.
  - apply common_empty. intros c x. by rewrite lookup_empty.
  - intros fd c ev x. by rewrite lookup_empty.
  - intros fd _. by rewrite Hk, lookup_empty.
Qed.

(** ** A choice of timing objects *)
Section timings.
Context {S T : Type} `{Timing S, Timing T}.

#[global] Instance either_timing : Timing (S + T) | 100 := {|
  Timing.OnTimer view now t :=
    match t with
    | inl t => '(t, calls) ← Timing.OnTimer view now t; Ok (inl t, calls)
    | inr t => '(t, calls) ← Timing.OnTimer view now t; Ok (inr t, calls)
    end;
  Timing.OnConnection c view now t :=
    match t with
    | inl t => t ← Timing.OnConnection c view now t; Ok (inl t)
    | inr t => t ← Timing.OnConnection c view now t; Ok (inr t)
    end;
  Timing.OnMessage c receive_time t :=
    match t with
    | inl t => t ← Timing.OnMessage c receive_time t; Ok (inl t)
    | inr t => t ← Timing.OnMessage c receive_time t; Ok (inr t)
    end;
|}.

#[global] Instance either_orderly `{!TimingOrderly S, !TimingOrderly T} : TimingOrderly (S + T) | 100.
Proof.
  split. intros view now [t|t] t' calls l1 c l2 E Hc; cbn in E; apply bind_Ok in E as ([t1 calls1] & E & [= _ <-]);
    [exact (shutdown_first (T := S) _ _ _ _ _ _ _ _ E Hc)|exact (shutdown_first (T := T) _ _ _ _ _ _ _ _ E Hc)].
Qed.
End timings.

(** [getenv("MYTINYHTTPD_USE_TIMING_LIST")] decides. *)
Definition DefaultTiming : Type := (TList.TimingList + Wheel.TimingWheel)%type.

Definition NewDefaultTiming (getenv : bytes → option bytes) (idle_seconds : Z) : DefaultTiming :=
  match getenv (str "MYTINYHTTPD_USE_TIMING_LIST") with
  | Some _ => inl (TList.TimingList_new idle_seconds)
  | None => inr (Wheel.TimingWheel_new idle_seconds)
  end.
