(* ===== verification/ServiceRefinement.v ===== *)
(** * The HTTP server in one loop implements its contract

    The whole server of HttpService.v (poller, channels, buffers, partial
    writes) goes through the states of the reference service, which keeps for
    each connection the context, the unread bytes and the bytes of its replies. *)

From stdpp Require Import base tactics list numbers strings sets gmap.
From Stdlib Require Import ZArith Lia Ascii.
From S2P Require Import Prelude.
From S2P Require Import CString.
From S2P Require Import Buffer.
From S2P Require Import HttpRequest.
From S2P Require Import HttpContext.
From S2P Require Import HttpResponse.
From S2P Require Import Timing.
From S2P Require Import HttpServer.
From S2P Require Import Channel.
From S2P Require Import Poller.
From S2P Require Import TcpServer.
From S2P Require Import TcpConnection.
From S2P Require Import HttpConnection.
From S2P Require Import SharedLoop.
From S2P Require Import HttpService.
From S2P Require Import ServiceLifecycle.

Section refinement.
Context {P F T : Type} `{PollerInv P inv, !PollerHeap P inv, !PollerStatus P, FileSystem F, TimingOrderly T}.
Context (config : HttpServerConfig) (reserved : gset Z).
Implicit Types (v : service P F T) (a : aservice F T) (x : peer) (y : apeer).

(** ** A connection that is not closed, without the poller *)

(** [n] bounds the input so far; [ev] are the events its channel is registered for. *)
Record peer_inv (n : Z) y x (ev : Z) : Prop := MkPeerInv {
  pv_io : io_events ev;
  pv_writing : has ev kWriteEvent = true ↔ contents (output_buffer_ (p_conn x)) ≠ [];
  pv_output : good (output_buffer_ (p_conn x));
  pv_bytes : p_wire x ++ contents (output_buffer_ (p_conn x)) = ap_sent y;
  pv_owriter : writer_index_ (output_buffer_ (p_conn x)) ≤ kCheapPrepend + zlen (ap_sent y);
  pv_shut : p_shut x = true ↔ state_ (p_conn x) = kDisconnecting ∧ contents (output_buffer_ (p_conn x)) = [];
  pv_live : state_ (p_conn x) = kConnected ∨ state_ (p_conn x) = kDisconnecting;
  pv_kernel : Forall (λ w, is_fault w = false) (p_kernel x);
  pv_open : ap_open y = bool_decide (state_ (p_conn x) = kConnected);
  pv_input : good (input_buffer_ (p_conn x));
  pv_tidy : tidy (input_buffer_ (p_conn x));
  pv_unread : contents (input_buffer_ (p_conn x)) = ap_unread y;
  pv_writer : writer_index_ (input_buffer_ (p_conn x)) ≤ kCheapPrepend + n;
  pv_slack : slack (ap_context y) (input_buffer_ (p_conn x));
  pv_state : HttpContext.state_ (ap_context y) ≠ kGotAll;
  pv_context : p_context x = Some (ap_context y);
}.

(** The connection [c] in the poller's registry [rg]. *)
Record peer_rel (n : Z) (rg : registry) (c : chan) x y : Prop := MkPeerRel {
  pr_connection : p_connection x = ap_connection y;
  pr_channel : channel_ (p_conn x) = c;
  pr_write_complete : has_write_complete_callback (p_conn x) = false;
  pr_high_water : has_high_water_mark_callback (p_conn x) = false;
  pr_timers : length (p_timers x) = ap_timers y;
  pr_reg : ∃ ev, reg rg !! conn_fd (ap_connection y) = Some (c, ev) ∧
    if ap_closed y then ev = 0 ∧ state_ (p_conn x) = kDisconnected else peer_inv n y x ev;
}.

(** [busy] is the channel whose event is being handled. *)
Record represents_in (rg : registry) (n : Z) (busy : option chan) a v : Prop := MkRepresents {
  rs_control : v_control v = as_control a;
  rs_inv : inv (v_poller v) (v_heap v) rg;
  rs_heap c ch : v_heap v !! c = Some ch → c ∈ used rg ∧ is_event_handling_ ch = bool_decide (busy = Some c);
  rs_next c : k_next (as_control a) ≤ c → v_heap v !! c = None ∧ c ∉ used rg;
  rs_reserved fd : is_Some (reg rg !! fd) → fd ∈ reserved ∨ ∃ c y, as_peers a !! c = Some y ∧ conn_fd (ap_connection y) = fd;
  rs_peers c : option_Forall2 (peer_rel n rg c) (v_peers v !! c) (as_peers a !! c);
}.
Definition represents (n : Z) (busy : option chan) a v : Prop := ∃ rg, represents_in rg n busy a v.

(** ** Between a connection alone and among the others *)
Abbreviation alone c conn rg server :=
  (lifted_inv (frame_inv (inv := inv) c (conn_fd conn) (delete (conn_fd conn) (reg rg)) (used rg)) server).

Lemma peer_of_load conn x v : p_connection x = conn → peer_of conn (load x v) = x.
Proof. intros <-. by destruct x. Qed.

Lemma load_registered rg n busy a v c x y ev :
  represents_in rg n busy a v → channel_ (p_conn x) = c → reg rg !! conn_fd (ap_connection y) = Some (c, ev) → io_events ev →
  ∃ ch, registered (inv := lifted_inv (alone c (ap_connection y) rg (k_server (as_control a))) (session_of (load x v)))
          (load x v) (MkRegistry {[conn_fd (ap_connection y) := (c, ev)]} (used rg)) ch ∧ Channel.events_ ch = ev.
Proof.
  intros Hr Hc Hreg Hio. destruct (inv_common _ _ _ (rs_inv _ _ _ _ _ Hr)) as [chs Hci].
  destruct (ci_reg _ _ _ Hci _ _ _ Hreg) as (_ & _ & _ & ch & Hch & Hfd & Hev). exists ch. split; [|done].
  split; cbn [load poller channels conn].
  - split; [|done]. split; [|by rewrite (rs_control _ _ _ _ _ Hr)]. apply frame_take; [apply Hr|done|].
    intros c' z Hz. by eapply rs_heap.
  - by rewrite Hc.
  - cbn [reg]. rewrite Hfd, Hc, Hev. apply lookup_singleton_eq.
  - by rewrite Hev.
Qed.

Lemma load_simulates rg n busy a v c x y :
  represents_in rg n busy a v → peer_rel n rg c x y → ap_closed y = false →
  simulates (inv := alone c (ap_connection y) rg (k_server (as_control a))) c n (aload y a) (load x v).
Proof.
  intros Hr [Hcn Hch _ _ _ (ev & Hreg & Hpv)] Hcl. rewrite Hcl in Hpv. destruct Hpv.
  destruct (load_registered rg n busy a v c x y ev) as (ch & Hrg & Hev); [done..|].
  assert (session_of (load x v) = session_in (aload y a)) as Hs.
  { unfold session_of, session_in. cbn. by rewrite pv_context0, (rs_control _ _ _ _ _ Hr). }
  rewrite Hs in Hrg. split; try done. split; try done. eexists _, ch. split; [exact Hrg|].
  unfold IsWriting. by rewrite Hev.
Qed.

(** The server state of a connection as the connection keeps it. *)
Definition apeer_of y (s : aserver F T) : apeer :=
  MkApeer (ap_connection y) (a_context s) (a_unread s) (a_sent s) (a_open s) (ap_closed y) (ap_timers y).

Lemma unload rg server n c y (s : aserver F T) w :
  simulates (inv := alone c (ap_connection y) rg server) c n s w →
  ∃ rg' ev, inv (poller w).1.1 (channels w) rg' ∧ reg rg' = <[conn_fd (ap_connection y) := (c, ev)]> (reg rg) ∧
    used rg ⊆ used rg' ∧ used rg' ⊆ {[c]} ∪ used rg ∧ (poller w).1.2 = server ∧ session_of w = session_in s ∧
    peer_inv n (apeer_of y s) (peer_of (ap_connection y) w) ev.
Proof.
  intros Hs. pose proof (session_of_simulates _ _ _ _ Hs) as Hse. destruct Hs. destruct sm_conn as [(r & ch & Hr & Hw) ? ? ? ? ? ?].
  destruct Hr as [[[Hf Hsv] _] Hch Hrr Hio]. rewrite sm_channel in *. pose proof (own_fd _ _ _ _ _ _ _ _ _ Hf Hrr) as Hfd.
  rewrite Hfd in Hrr. destruct (frame_put _ _ _ _ _ _ _ _ Hf Hrr) as (rg' & Hi & Hrg & Hu1 & Hu2).
  exists rg', (Channel.events_ ch). rewrite insert_delete_eq in Hrg. split; [done|]. split; [done|]. split; [done|].
  split; [done|]. split; [done|]. split; [done|]. split; try done. cbn. by rewrite Hse.
Qed.

Lemma peer_inv_mono n n' y x ev : n ≤ n' → peer_inv n y x ev → peer_inv n' y x ev.
Proof. intros ? []. split; (done || lia). Qed.

Lemma peer_rel_mono n n' rg rg' c x y :
  n ≤ n' → reg rg' !! conn_fd (ap_connection y) = reg rg !! conn_fd (ap_connection y) →
  peer_rel n rg c x y → peer_rel n' rg' c x y.
Proof.
  intros Hn Hr [? ? ? ? ? (ev & Hev & Hp)]. split; try done. exists ev. rewrite Hr. split; [done|].
  destruct (ap_closed y); [done|]. by eapply peer_inv_mono.
Qed.

Lemma represents_peer rg n busy a v c y :
  represents_in rg n busy a v → as_peers a !! c = Some y → ∃ x, v_peers v !! c = Some x ∧ peer_rel n rg c x y.
Proof.
  intros Hr Hy. pose proof (rs_peers _ _ _ _ _ Hr c) as Hc. rewrite Hy in Hc. inversion Hc; subst. by eexists.
Qed.

Lemma represents_nopeer rg n busy a v c :
  represents_in rg n busy a v → as_peers a !! c = None → v_peers v !! c = None.
Proof. intros Hr Hy. pose proof (rs_peers _ _ _ _ _ Hr c) as Hc. rewrite Hy in Hc. by inversion Hc. Qed.

(** Channels with the same flags as before. *)
Lemma same_handling (h h' : heap) c ch' :
  is_event_handling_ <$> h' = is_event_handling_ <$> h → h' !! c = Some ch' →
  ∃ ch, h !! c = Some ch ∧ is_event_handling_ ch' = is_event_handling_ ch.
Proof.
  intros E Hch. apply (f_equal (.!! c)) in E. rewrite !lookup_fmap, Hch in E. cbn in E.
  destruct (h !! c) as [ch|]; [|done]. exists ch. split; [done|]. by injection E.
Qed.

(** The connection [c] after a step of its own, among the others. *)
Lemma represents_put rg rg' n n' busy a v c x y x' y' ev p' h' k' :
  represents_in rg n busy a v → n ≤ n' → as_peers a !! c = Some y → inv p' h' rg' →
  reg rg' = <[conn_fd (ap_connection y) := (c, ev)]> (reg rg) → used rg ⊆ used rg' → used rg' ⊆ {[c]} ∪ used rg →
  is_event_handling_ <$> h' = is_event_handling_ <$> v_heap v →
  c < k_next (as_control a) → v_peers v !! c = Some x →
  ap_connection y' = ap_connection y → peer_rel n' rg' c x' y' → k_next k' = k_next (as_control a) →
  represents_in rg' n' busy (MkAservice k' (<[c := y']> (as_peers a))) (MkService p' h' k' (<[c := x']> (v_peers v))).
Proof.
  intros Hr Hn Hy Hi Hrg Hu1 Hu2 Hh Hlt Hx Hcn Hrel Hk. split; cbn [v_control as_control v_poller v_heap v_peers as_peers]; try done.
  - intros c' ch Hch. destruct (same_handling _ _ _ _ Hh Hch) as (ch0 & Hch0 & ->).
    destruct (rs_heap _ _ _ _ _ Hr _ _ Hch0). split; [set_solver|done].
  - intros c' Hc'. rewrite Hk in Hc'. destruct (rs_next _ _ _ _ _ Hr c' Hc') as [Hno Hnu]. split.
    + destruct (h' !! c') as [ch|] eqn:E; [|done]. destruct (same_handling _ _ _ _ Hh E) as (ch0 & ? & _). congruence.
    + intros Hin. apply Hu2 in Hin. apply elem_of_union in Hin as [->%elem_of_singleton|?]; [lia|done].
  - intros fd Hfd. rewrite Hrg in Hfd. destruct (decide (fd = conn_fd (ap_connection y))) as [->|Hne].
    + right. exists c, y'. by rewrite lookup_insert_eq, Hcn.
    + rewrite lookup_insert_ne in Hfd by done. destruct (rs_reserved _ _ _ _ _ Hr fd Hfd) as [?|(c' & z & Hz & Hzf)]; [by left|].
      right. exists c', z. rewrite lookup_insert_ne; [done|]. intros <-. simplify_eq.
  - intros c'. destruct (decide (c = c')) as [<-|Hne]; [rewrite !lookup_insert_eq; by constructor|].
    rewrite !lookup_insert_ne by done. pose proof (rs_peers _ _ _ _ _ Hr c') as Hc'.
    destruct (as_peers a !! c') as [z|] eqn:Hz; inversion Hc' as [x0 y0 Hrel0 Hx0 Hy0|]; subst; [|constructor].
    constructor. eapply peer_rel_mono; [done| |done]. rewrite Hrg, lookup_insert_ne; [done|]. intros Efd.
    destruct (represents_peer _ _ _ _ _ _ _ Hr Hy) as (x1 & _ & [_ _ _ _ _ (ev1 & Hev1 & _)]).
    destruct Hrel0 as [_ _ _ _ _ (ev0 & Hev0 & _)]. rewrite <-Efd in Hev0. congruence.
Qed.

Lemma clear_posted_id s : posted s = [] → clear_posted s = s.
Proof. destruct s. cbn. by intros ->. Qed.

(** A handler of an open connection that leaves it open. *)
Lemma store_open fs rg n n' busy a v c x y s w :
  represents_in rg n busy a v → awf fs a → v_peers v !! c = Some x → as_peers a !! c = Some y → ap_closed y = false → n ≤ n' →
  simulates (inv := alone c (ap_connection y) rg (k_server (as_control a))) c n' s w →
  is_event_handling_ <$> channels w = is_event_handling_ <$> v_heap v → plain w →
  represents n' busy
    (MkAservice (MkControl (k_acceptor (as_control a)) (k_server (as_control a))
                   (k_pending (as_control a) ++ (ConnFunctor c <$> tasks w)) (a_files s) (a_timing s) (k_next (as_control a)))
       (<[c := set_atimers (length (timers w)) (apeer_of y s)]> (as_peers a)))
    (store c (ap_connection y) w v).
Proof.
  intros Hr Ha Hx Hy Hcl Hn Hs Hh Hpl. destruct (unload _ _ _ _ _ _ _ Hs) as (rg' & ev & Hi & Hrg & Hu1 & Hu2 & Hsv & Hse & Hpv).
  exists rg'. unfold store, queued. rewrite Hsv, Hse, (rs_control _ _ _ _ _ Hr), (aw_posted _ _ Ha).
  rewrite clear_posted_id by apply Ha. cbn [omap list_omap]. rewrite app_nil_r. cbn [session_in s_files s_timing].
  apply (represents_put rg rg' n n' busy a v c x y _ _ ev); try done.
  - by eapply aw_next.
  - split; try done; [apply Hs|by destruct Hpl..|]. exists ev. cbn. rewrite Hrg, lookup_insert_eq. split; [done|].
    rewrite Hcl. destruct Hpv; by split.
Qed.

(** The close callback changes the server only. *)
Lemma server_close_quiet conn (w w' : world (P * TcpServer * session F T)) : server_close conn w = Ok w' → quiet w w'.
Proof. unfold server_close. intros E. apply bind_Ok in E as (s & _ & [= <-]). done. Qed.

Lemma close_alone rg server c conn sent (u : session F T) (w : world (P * TcpServer * session F T)) now :
  conn_inv (inv := lifted_inv (alone c conn rg server) u) sent w → channel_ (TcpConnection.conn w) = c →
  match (timing ← Timing.OnConnection c (MkConnView true false) now (s_timing u);
         s ← RemoveConnection true conn server; Ok (timing, s)) with
  | Ok (timing, s) =>
      ∃ w' rg', HandleClose (http_connection now) (server_close conn) w = Ok w' ∧ inv (poller w').1.1 (channels w') rg' ∧
        reg rg' = <[conn_fd conn := (c, 0)]> (reg rg) ∧ used rg ⊆ used rg' ∧ used rg' ⊆ {[c]} ∪ used rg ∧
        (poller w').1.2 = s ∧ session_of w' = MkSession (s_context u) (s_files u) timing ∧
        state_ (TcpConnection.conn w') = kDisconnected
  | Fail f => HandleClose (http_connection now) (server_close conn) w = Fail f
  end.
Proof.
  intros [(r & ch & Hrg & _) _ _ _ _ Hst _] Hc. unfold HandleClose. step_assert ltac:(destruct Hst as [-> | ->]; done).
  destruct (change_events_ok (inv := lifted_inv (alone c conn rg server) u) (λ _, kNoneEvent) (SetState kDisconnected w) r ch)
    as (ph & r' & ch' & Hok & Hr' & Hx').
  { by apply (registered_same w). }
  { unfold io_events. set_solver. }
  unfold DisableAll. rewrite Hok. cbn [mbind outcome_bind]. destruct Hr' as [[[Hf Hsv] Hse] Hch Hrr _].
  change (channel_ (TcpConnection.conn (set_channels ph (SetState kDisconnected w)))) with (channel_ (TcpConnection.conn w)) in *.
  rewrite Hc in *. set (w1 := set_channels ph (SetState kDisconnected w)) in *. unfold http_connection.
  change (session_of w1) with ((poller w1).2). rewrite Hse. change (channel_ (TcpConnection.conn w1)) with (channel_ (TcpConnection.conn w)).
  rewrite Hc. change (view_of w1) with (MkConnView true false). unfold HttpServer.OnConnection.
  destruct (Timing.OnConnection c _ now (s_timing u)) as [timing|f]; [|done]. cbn [mbind outcome_bind connected].
  unfold server_close. cbn [set_session set_channels poller fst snd]. rewrite Hsv.
  destruct (RemoveConnection true conn server) as [s|f]; [|done]. cbn [mbind outcome_bind].
  pose proof (own_fd _ _ _ _ _ _ _ _ _ Hf Hrr) as Hfd. rewrite Hfd, Hx' in Hrr.
  destruct (frame_put _ _ _ _ _ _ _ _ Hf Hrr) as (rg' & Hi & Hrg' & Hu1 & Hu2). rewrite insert_delete_eq in Hrg'.
  eexists _, rg'. split; [done|]. by split_and!.
Qed.

Lemma HandleClose_http_quiet now conn (w w' : world (P * TcpServer * session F T)) :
  HandleClose (http_connection now) (server_close conn) w = Ok w' → quiet w w'.
Proof. apply HandleClose_quiet; [apply http_connection_quiet|apply server_close_quiet]. Qed.

Lemma close_peer fs rg n busy a v c x y sent (u : session F T) w now :
  represents_in rg n busy a v → awf fs a → v_peers v !! c = Some x → as_peers a !! c = Some y → ap_closed y = false →
  peer_rel n rg c x y →
  conn_inv (inv := lifted_inv (alone c (ap_connection y) rg (k_server (as_control a))) u) sent w →
  s_files u = k_files (as_control a) → s_timing u = k_timing (as_control a) → quiet (load x v) w →
  match aclose now c y a with
  | Ok a' =>
      ∃ w', HandleClose (http_connection now) (server_close (ap_connection y)) w = Ok w' ∧
        channel_is IsWriting w' = Ok false ∧ represents n busy a' (store c (ap_connection y) w' v)
  | Fail f => HandleClose (http_connection now) (server_close (ap_connection y)) w = Fail f
  end.
Proof.
  intros Hr Ha Hx Hy Hcl Hp Hc Hf Ht Hq. pose proof (qt_channel _ _ Hq) as Hch. cbn in Hch. rewrite (pr_channel _ _ _ _ _ Hp) in Hch.
  pose proof (close_alone rg (k_server (as_control a)) c (ap_connection y) sent u w now Hc Hch) as Hcls.
  unfold aclose. rewrite Ht in Hcls. destruct (Timing.OnConnection c _ now _) as [timing|f]; [|done]. cbn [mbind outcome_bind] in *.
  destruct (RemoveConnection true _ _) as [s|f] eqn:Hs; [|done]. cbn [mbind outcome_bind] in *.
  destruct Hcls as (w' & rg' & Hw' & Hi & Hrg & Hu1 & Hu2 & Hsv & Hse & Hst). pose proof (HandleClose_http_quiet _ _ _ _ Hw') as Hq'.
  exists w'. split; [done|].
  assert (channel_ (TcpConnection.conn w') = c) as Hch' by (by rewrite (qt_channel _ _ Hq')).
  assert (plain (load x v)) as Hpl by (by split; apply Hp).
  split.
  { destruct (inv_common _ _ _ Hi) as [chs Hci].
    destruct (ci_reg _ _ _ Hci (conn_fd (ap_connection y)) c 0) as (_ & _ & _ & ch & Hcw & _ & Hev); [by rewrite Hrg, lookup_insert_eq|].
    unfold channel_is, deref. rewrite Hch', Hcw. cbn. unfold IsWriting. by rewrite Hev. }
  assert (queued c w' = [DestroyFunctor c]) as Hqd.
  { unfold queued. rewrite (qt_tasks _ _ Hq'), (qt_tasks _ _ Hq) by (done || by apply (qt_plain _ _ Hq)). cbn [load tasks fmap list_fmap app].
    rewrite Hsv. unfold RemoveConnection, RemoveConnectionInLoop in Hs. inv_ok. cbn. by rewrite (aw_posted _ _ Ha). }
  exists rg'. unfold store. rewrite Hqd, Hsv, Hse, (rs_control _ _ _ _ _ Hr). cbn [s_files s_timing]. rewrite Hf.
  apply (represents_put rg rg' n n busy a v c x y _ _ 0); try done.
  - by rewrite (qt_handling _ _ Hq'), (qt_handling _ _ Hq).
  - by eapply aw_next.
  - apply (qt_plain _ _ Hq), (qt_plain _ _ Hq') in Hpl as [? ?]. split; try done; cbn.
    + rewrite (qt_timers _ _ Hq'), (qt_timers _ _ Hq). apply Hp.
    + exists 0. by rewrite Hrg, lookup_insert_eq.
Qed.

(** The callbacks in their order, by what was reported. *)
Lemma HandleEvent_report now conn r tied t (w : world (P * TcpServer * session F T)) :
  HandleEvent (channel_callbacks config now conn r) tied true (revents_of r) t w =
  (w ← match rp_in r with
       | Some ans => HandleRead (http_message now config) (http_connection now) (server_close conn) ans t w
       | None => if rp_hup r then HandleClose (http_connection now) (server_close conn) w else Ok w
       end;
   if rp_out r then HandleWrite w else Ok w).
Proof.
  transitivity (HandleEventWithGuard (channel_callbacks config now conn r) (revents_of r) t w); [by destruct tied|].
  unfold HandleEventWithGuard. rewrite revents_hup, revents_err, revents_in, revents_out. cbn [call channel_callbacks
    close_callback_ error_callback_ read_callback_ write_callback_ fmap option_fmap option_map].
  destruct (rp_in r) as [ans|]; cbn [default]; [|destruct (rp_hup r); [destruct (HandleClose _ _ w); [|done]|]];
    cbn [mbind outcome_bind]; by destruct (rp_err r).
Qed.

Lemma HandleWrite_idle (w : world (P * TcpServer * session F T)) : channel_is IsWriting w = Ok false → HandleWrite w = Ok w.
Proof. unfold HandleWrite. by intros ->. Qed.

(** Input: the close callback does not matter. *)
Lemma HandleRead_data now conn t data (w : world (P * TcpServer * session F T)) :
  data ≠ [] →
  HandleRead (http_message now config) (http_connection now) (server_close conn) (ReadvOk data) t w =
  socket_step now config (Readable t data) w.
Proof.
  intros Hd. cbn [socket_step]. unfold HandleRead. unfold ReadFromFd. assert (0 < zlen data) as Hpos.
  { destruct data as [|? d]; [done|]. rewrite zlen_cons. pose proof (zlen_nonneg d). lia. }
  destruct (zlen data <=? _); cbn [mbind outcome_bind]; [|destruct (Append _ _); cbn [mbind outcome_bind]; [|done]];
    by replace (0 <? zlen data) with true by lia.
Qed.

Lemma HandleRead_error now conn t e (w : world (P * TcpServer * session F T)) :
  HandleRead (http_message now config) (http_connection now) (server_close conn) (ReadvError e) t w = Ok w.
Proof. unfold HandleRead, set_input, set_conn, HandleError. cbn. by destruct w as [[]]. Qed.

Lemma socket_step_quiet now e (w w' : world (P * TcpServer * session F T)) :
  socket_step now config e w = Ok w' → quiet w w'.
Proof.
  destruct e as [t data|]; [|apply HandleWrite_quiet]. cbn [socket_step]. apply HandleRead_quiet; [|apply http_connection_quiet|].
  - intros ? ?. apply http_message_quiet.
  - intros ? ? [= <-]. by split.
Qed.

(** What is left of the event once the connection stays open. *)
Lemma write_open fs rg n n' busy a v c x y s w (now : Z) (out : bool) :
  represents_in rg n busy a v → awf fs a → v_peers v !! c = Some x → as_peers a !! c = Some y → ap_closed y = false → n ≤ n' →
  peer_rel n rg c x y →
  simulates (inv := alone c (ap_connection y) rg (k_server (as_control a))) c n' s w → quiet (load x v) w →
  ∃ w', (if out then HandleWrite w else Ok w) = Ok w' ∧
    represents n' busy (astore c y s a) (store c (ap_connection y) w' v).
Proof.
  intros Hr Ha Hx Hy Hcl Hn Hp Hs Hq.
  assert (∃ w', (if out then HandleWrite w else Ok w) = Ok w' ∧ quiet (load x v) w' ∧
    simulates (inv := alone c (ap_connection y) rg (k_server (as_control a))) c n' s w') as (w' & Hw & Hq' & Hs').
  { destruct out; [|by exists w]. destruct (write_simulates now config c n' s w Hs) as (w' & Hw & Hs'). exists w'.
    split; [done|]. split; [|done]. etransitivity; [done|]. by apply (socket_step_quiet now Writable). }
  exists w'. split; [done|]. assert (plain (load x v)) as Hpl by (by split; apply Hp).
  pose proof (store_open fs rg n n' busy a v c x y s w' Hr Ha Hx Hy Hcl Hn Hs' (qt_handling _ _ Hq') (qt_plain _ _ Hq' Hpl)) as Hst.
  rewrite (qt_tasks _ _ Hq' Hpl), (qt_timers _ _ Hq') in Hst. cbn [load tasks timers fmap list_fmap] in Hst.
  rewrite app_nil_r, (pr_timers _ _ _ _ _ Hp) in Hst. done.
Qed.

Lemma astore_same c y a : as_peers a !! c = Some y → astore c y (aload y a) a = a.
Proof.
  intros Hy. unfold astore, aload. cbn. destruct a as [[] peers]. f_equal. rewrite insert_id; [done|]. by destruct y.
Qed.

Lemma conn_inv_input u sent rg c conn server b (w : world (P * TcpServer * session F T)) :
  conn_inv (inv := lifted_inv (alone c conn rg server) u) sent w →
  conn_inv (inv := lifted_inv (alone c conn rg server) u) sent (set_input b w).
Proof. intros [(r & ch & Hr & Hw) ? ? ? ? ? ?]. split; try done. exists r, ch. split; [|done]. by apply (registered_same w). Qed.

Lemma socket_event_ok fs rg n busy a v c x y now t r tied :
  represents_in rg n busy a v → awf fs a → v_peers v !! c = Some x → as_peers a !! c = Some y →
  permitted config reserved now (EvSocket c t r) a →
  2 * kCheapPrepend + n + zlen (event_input (EvSocket c t r)) ≤ vector_max_size →
  match aread config now c t r y a with
  | Ok a' =>
      ∃ w, HandleEvent (channel_callbacks config now (ap_connection y) r) tied true (revents_of r) t (load x v) = Ok w ∧
        represents (n + zlen (event_input (EvSocket c t r))) busy a' (store c (ap_connection y) w v)
  | Fail f => HandleEvent (channel_callbacks config now (ap_connection y) r) tied true (revents_of r) t (load x v) = Fail f
  end.
Proof.
  intros Hr Ha Hx Hy Hperm Hb. cbn [permitted] in Hperm. rewrite Hy in Hperm. destruct Hperm as [Hcl Hperm].
  destruct (represents_peer _ _ _ _ _ _ _ Hr Hy) as (x0 & Hx0 & Hp). assert (x0 = x) as -> by congruence. clear Hx0.
  pose proof (load_simulates _ _ _ _ _ _ _ _ Hr Hp Hcl) as Hs. pose proof (sm_conn _ _ _ _ Hs) as Hci.
  rewrite HandleEvent_report. unfold aread. destruct r as [[[e|[|b data]]|] out err hup];
    cbn [rp_in rp_hup rp_out event_input] in *; rewrite ?zlen_nil, ?Z.add_0_r.
  - rewrite HandleRead_error. cbn [mbind outcome_bind].
    destruct (write_open fs rg n n busy a v c x y (aload y a) (load x v) now out) as (w & Hw & Hrep); [done..|].
    exists w. split; [done|]. by rewrite astore_same in Hrep.
  - unfold HandleRead. destruct (ReadFromFd_good [] (input_buffer_ (p_conn x))) as (b & Hrd & _); [apply Hs|unfold room; rewrite zlen_nil in *; pose proof (sm_writer _ _ _ _ Hs) as Hwr; cbn in Hwr; lia|].
    change (TcpConnection.conn (load x v)) with (p_conn x). rewrite Hrd. cbn [mbind outcome_bind].
    pose proof (close_peer fs rg n busy a v c x y (ap_sent y) (session_in (aload y a)) (set_input b (load x v)) now) as Hcp.
    specialize (Hcp Hr Ha Hx Hy Hcl Hp (conn_inv_input _ _ _ _ _ _ _ _ Hci) eq_refl eq_refl (quiet_set_input _ _)).
    change (0 <? zlen []) with false. change (zlen [] =? 0) with true. cbv iota.
    destruct (aclose now c y a) as [a'|f]; [|by rewrite Hcp]. destruct Hcp as (w' & -> & Hwr & Hrep). cbn [mbind outcome_bind].
    exists w'. split; [|done]. destruct out; [by apply HandleWrite_idle|done].
  - rewrite HandleRead_data by done. pose proof (react_simulates now config c n _ _ t (b :: data) Hs ltac:(done) Hb) as Hre.
    destruct (areact config c t (b :: data) (aload y a)) as [s|f]; [|by rewrite Hre]. cbn [mbind outcome_bind].
    destruct Hperm as [Hm Hl]. destruct (Hre Hm Hl) as (w1 & Hw1 & Hs1). rewrite Hw1. cbn [mbind outcome_bind].
    pose proof (zlen_nonneg (b :: data)).
    apply (write_open fs rg n _ busy a v c x y s w1 now out); try done; [lia|by apply socket_step_quiet in Hw1].
  - destruct hup.
    + pose proof (close_peer fs rg n busy a v c x y (ap_sent y) (session_in (aload y a)) (load x v) now) as Hcp.
      specialize (Hcp Hr Ha Hx Hy Hcl Hp Hci eq_refl eq_refl ltac:(by split)).
      destruct (aclose now c y a) as [a'|f]; [|by rewrite Hcp]. destruct Hcp as (w' & -> & Hwr & Hrep). cbn [mbind outcome_bind].
      exists w'. split; [|done]. destruct out; [by apply HandleWrite_idle|done].
    + cbn [mbind outcome_bind].
      destruct (write_open fs rg n n busy a v c x y (aload y a) (load x v) now out) as (w & Hw & Hrep); [done..|].
      exists w. split; [done|]. by rewrite astore_same in Hrep.
Qed.

(** Changes to a channel that are the loop's affair. *)
Lemma represents_touch rg n busy busy' a v c ch ch' :
  represents_in rg n busy a v → v_heap v !! c = Some ch → fd_ ch' = fd_ ch → status_ ch' = status_ ch →
  Channel.events_ ch' = Channel.events_ ch → is_event_handling_ ch' = bool_decide (busy' = Some c) →
  (∀ c', c' ≠ c → bool_decide (busy' = Some c') = bool_decide (busy = Some c')) →
  represents_in rg n busy' a (set_heap (<[c := ch']> (v_heap v)) v).
Proof.
  intros [] Hch Hfd Hst Hev Hh Hb. split; cbn [set_heap v_control v_poller v_heap v_peers]; try done.
  - by eapply inv_touch.
  - intros c' ch0. destruct (decide (c' = c)) as [->|Hne].
    + rewrite lookup_insert_eq. intros [= <-]. split; [by eapply rs_heap0|done].
    + rewrite lookup_insert_ne by done. intros H'. destruct (rs_heap0 _ _ H') as [? ->]. by rewrite Hb.
  - intros c' Hc'. destruct (rs_next0 c' Hc') as [? ?]. rewrite lookup_insert_ne; [done|]. intros ->. congruence.
Qed.

Lemma dispatch_ok fs n a v c now t r :
  represents n None a v → awf fs a → permitted config reserved now (EvSocket c t r) a →
  2 * kCheapPrepend + n + zlen (event_input (EvSocket c t r)) ≤ vector_max_size →
  match aevent config now (EvSocket c t r) a with
  | Ok a' => ∃ v', dispatch config now c t r v = Ok v' ∧ represents (n + zlen (event_input (EvSocket c t r))) None a' v'
  | Fail f => dispatch config now c t r v = Fail f
  end.
Proof.
  intros [rg Hr] Ha Hp Hb. cbn [aevent]. unfold awith. pose proof Hp as Hp'. cbn [permitted] in Hp'.
  destruct (as_peers a !! c) as [y|] eqn:Hy; [|done]. clear Hp'.
  destruct (represents_peer _ _ _ _ _ _ _ Hr Hy) as (x & Hx & Hrel). pose proof (pr_reg _ _ _ _ _ Hrel) as (ev & Hreg & _).
  destruct (inv_common _ _ _ (rs_inv _ _ _ _ _ Hr)) as [chs Hci].
  destruct (ci_reg _ _ _ Hci _ _ _ Hreg) as (_ & _ & _ & ch & Hch & _ & _).
  unfold dispatch, deref. rewrite Hch. cbn [mbind outcome_bind]. set (v1 := set_heap _ v).
  assert (represents_in rg n (Some c) a v1) as Hr1.
  { apply (represents_touch rg n None (Some c) a v c ch); try done.
    - cbn. by rewrite bool_decide_true.
    - intros c' Hc'. rewrite !bool_decide_false; congruence. }
  pose proof (socket_event_ok fs rg n (Some c) a v1 c x y now t r (is_tied_ ch) Hr1 Ha Hx Hy Hp Hb) as Hse.
  unfold with_peer. change (v_peers v1 !! c) with (v_peers v !! c). rewrite Hx, (pr_connection _ _ _ _ _ Hrel).
  destruct (aread config now c t r y a) as [a'|f] eqn:Har; [|by rewrite Hse]. destruct Hse as (w & -> & [rg' Hr']).
  cbn [mbind outcome_bind]. set (v2 := store _ _ _ _) in *.
  destruct (represents_peer rg' _ _ a' v2 c (default y (as_peers a' !! c)) Hr') as (x' & _ & Hrel').
  { assert (is_Some (as_peers a' !! c)) as [y' ->]; [|done]. unfold aread, aclose in Har.
    destruct (rp_in r) as [[e|[|b d]]|]; [injection Har as <-; by exists y|inv_ok..|destruct (rp_hup r); [inv_ok|injection Har as <-; by exists y]];
      cbn; by rewrite lookup_insert_eq. }
  pose proof (pr_reg _ _ _ _ _ Hrel') as (ev' & Hreg' & _). destruct (inv_common _ _ _ (rs_inv _ _ _ _ _ Hr')) as [chs' Hci'].
  destruct (ci_reg _ _ _ Hci' _ _ _ Hreg') as (_ & _ & _ & ch' & Hch' & _ & _). rewrite Hch'. cbn [mbind outcome_bind].
  eexists. split; [done|]. exists rg'. eapply represents_touch; try done. intros c' Hc'. rewrite !bool_decide_false; congruence.
Qed.

(** ** A new connection *)
Lemma http_establish_last now c (p : P * TcpServer) h kern (files : F) (timing : T) :
  http_establish now c p h kern files timing =
  (w ← establish Ok c false false (p, MkSession None files timing) h kern; http_connection now w).
Proof. unfold http_establish, establish. destruct (TcpConnection_new _ _ _); [|done]. cbn. apply ConnectEstablished_last. Qed.

Lemma http_establish_fails now c p h r ch kern (files : F) (timing : T) f (inv' : P * TcpServer → heap → registry → Prop)
    `{!PollerInv (P * TcpServer) inv'} :
  fresh (inv := inv') p h r c ch → Forall (λ w, is_fault w = false) kern →
  Timing.OnConnection c (MkConnView true true) now timing = Fail f → http_establish now c p h kern files timing = Fail f.
Proof.
  intros Hf Hk Ht. set (u := MkSession None files timing). rewrite http_establish_last. fold u.
  assert (fresh (inv := lifted_inv inv' u) (p, u) h r c ch) as Hf' by (destruct Hf; by split).
  destruct (establish_ok (inv := lifted_inv inv' u) Ok c false false (p, u) h r ch kern) as (w & -> & Hc & Hst & Hch & _);
    [done..|]. cbn [mbind outcome_bind]. assert (session_of w = u) as Hu.
  { destruct (cv_channel _ _ Hc) as (r' & x' & Hr & _). apply (rg_inv _ _ _ Hr). }
  unfold http_connection. rewrite Hu, Hch. unfold view_of, IsConnected. rewrite bool_decide_true by done.
  unfold HttpServer.OnConnection. cbn [u s_timing]. by rewrite Ht.
Qed.

Lemma http_establish_quiet now c (p : P * TcpServer) h kern (files : F) (timing : T) w :
  http_establish now c p h kern files timing = Ok w →
  is_event_handling_ <$> channels w = is_event_handling_ <$> h ∧ tasks w = [] ∧ timers w = [] ∧ plain w.
Proof.
  unfold http_establish, establish, TcpConnection_new. intros E. apply bind_Ok in E as (t & Ht & E). inv_ok.
  apply ConnectEstablished_quiet in E; [|apply http_connection_quiet].
  split; [apply E|]. split; [by apply E|]. split; [apply E|by apply E].
Qed.

Lemma represents_new rg rg' n a v c x y ev p' h' k' :
  represents_in rg n None a v → c = k_next (as_control a) → as_peers a !! c = None → inv p' h' rg' →
  reg rg' = <[conn_fd (ap_connection y) := (c, ev)]> (reg rg) → reg rg !! conn_fd (ap_connection y) = None →
  used rg ⊆ used rg' → used rg' ⊆ {[c]} ∪ used rg → c ∈ used rg' →
  is_event_handling_ <$> h' = <[c := false]> (is_event_handling_ <$> v_heap v) →
  peer_rel n rg' c x y → k_next k' = c + 1 →
  represents_in rg' n None (MkAservice k' (<[c := y]> (as_peers a))) (MkService p' h' k' (<[c := x]> (v_peers v))).
Proof.
  intros Hr Hc Hno Hi Hrg Hfd Hu1 Hu2 Hcu Hh Hrel Hk. split; cbn [v_control as_control v_poller v_heap v_peers as_peers]; try done.
  - intros c' ch Hch. apply (f_equal (.!! c')) in Hh. rewrite lookup_fmap, Hch in Hh. cbn in Hh.
    destruct (decide (c' = c)) as [->|Hne]; [rewrite lookup_insert_eq in Hh; by injection Hh|].
    rewrite lookup_insert_ne, lookup_fmap in Hh by done. destruct (v_heap v !! c') as [ch0|] eqn:E; [|done]. cbn in Hh.
    injection Hh as ->. destruct (rs_heap _ _ _ _ _ Hr _ _ E). split; [set_solver|done].
  - intros c' Hc'. rewrite Hk in Hc'. destruct (rs_next _ _ _ _ _ Hr c') as [Hn Hnu]; [lia|]. split.
    + apply (f_equal (.!! c')) in Hh. rewrite lookup_insert_ne, !lookup_fmap, Hn in Hh by lia. by destruct (h' !! c').
    + intros Hin. apply Hu2 in Hin. apply elem_of_union in Hin as [->%elem_of_singleton|?]; [lia|done].
  - intros fd Hfd'. rewrite Hrg in Hfd'. destruct (decide (fd = conn_fd (ap_connection y))) as [->|Hne].
    + right. exists c, y. by rewrite lookup_insert_eq.
    + rewrite lookup_insert_ne in Hfd' by done. destruct (rs_reserved _ _ _ _ _ Hr fd Hfd') as [?|(c' & z & Hz & Hzf)]; [by left|].
      right. exists c', z. rewrite lookup_insert_ne; [done|]. intros <-. congruence.
  - intros c'. destruct (decide (c = c')) as [<-|Hne]; [rewrite !lookup_insert_eq; by constructor|].
    rewrite !lookup_insert_ne by done. pose proof (rs_peers _ _ _ _ _ Hr c') as Hc'.
    destruct (as_peers a !! c') as [z|] eqn:Hz; inversion Hc' as [x0 y0 Hrel0 Hx0 Hy0|]; [|constructor]. simplify_eq.
    constructor. eapply peer_rel_mono; [done| |done]. rewrite Hrg, lookup_insert_ne; [done|]. intros Efd.
    destruct Hrel0 as [_ _ _ _ _ (ev0 & Hev0 & _)]. rewrite <-Efd in Hev0. congruence.
Qed.

Lemma new_connection_ok fs n a v now fd kern :
  represents n None a v → awf fs a → 0 ≤ n → 0 ≤ fd → fd ∉ reserved → Forall (λ w, is_fault w = false) kern →
  map_Forall (λ _ y, conn_fd (ap_connection y) ≠ fd) (as_peers a) →
  match anew now fd a with
  | Ok a' => ∃ v', new_connection now fd kern v = Ok v' ∧ represents n None a' v'
  | Fail f => new_connection now fd kern v = Fail f
  end.
Proof.
  intros [rg Hr] Ha Hn Hpos Hres Hk Hpeers. unfold anew, new_connection. rewrite (rs_control _ _ _ _ _ Hr).
  set (k := as_control a). set (c := k_next k). destruct (NewConnection fd (k_server k)) as [s|f] eqn:Hs; [|done].
  cbn [mbind outcome_bind].
  assert (∃ l conn, posted s = [(l, ConnectEstablishedTask conn)] ∧ conn_fd conn = fd) as (l & conn & Hps & Hcf).
  { unfold NewConnection in Hs. apply bind_Ok in Hs as ([l p] & _ & Hs). destruct (_ <=? _); [done|]. injection Hs as <-.
    pose proof (aw_posted _ _ Ha) as Hpo. fold k in Hpo. cbn. rewrite Hpo. by eexists _, _. }
  rewrite Hps. destruct (rs_next _ _ _ _ _ Hr c) as [Hnc Hnu]; [done|].
  set (y := MkApeer conn HttpContext_new [] [] true false 0).
  assert (reg rg !! fd = None) as Hreg.
  { destruct (reg rg !! fd) as [e|] eqn:E; [|done].
    destruct (rs_reserved _ _ _ _ _ Hr fd) as [?|(c' & z & Hz & Hzf)]; [by exists e|done|]. by apply Hpeers in Hz. }
  set (h1 := <[c := Channel_new fd]> (v_heap v)).
  assert (fresh (inv := alone c (ap_connection y) rg (clear_posted s)) (v_poller v, clear_posted s) h1 (MkRegistry ∅ (used rg)) c (Channel_new fd)) as Hfr.
  { split; cbn [used reg fd_ Channel_new Channel.events_]; try done; [|apply lookup_insert_eq]. split; [|done]. cbn [ap_connection y]. rewrite Hcf, delete_id by done.
    apply (frame_fresh (v_poller v) h1 rg c (Channel_new fd)); [|apply lookup_insert_eq|done|].
    - apply inv_alloc; [apply Hr|done..].
    - intros c' ch. unfold h1. destruct (decide (c = c')) as [<-|]; [by left|]. rewrite lookup_insert_ne by done.
      intros Hch. right. by eapply rs_heap. }
  destruct (Timing.OnConnection c _ now (k_timing k)) as [timing|f] eqn:Ht; cbn [mbind outcome_bind].
  2:{ by rewrite (http_establish_fails now c _ _ _ _ kern _ _ f _ Hfr Hk Ht). }
  destruct (http_establish_simulates now c _ _ _ _ kern (k_files k) _ _ Hfr Hk Ht) as (w & Hw & Hsim).
  rewrite Hw. cbn [mbind outcome_bind]. eexists. split; [done|].
  destruct (unload rg (clear_posted s) 0 c y _ w Hsim) as (rg' & ev & Hi & Hrg & Hu1 & Hu2 & Hsv & Hse & Hpv).
  destruct (http_establish_quiet _ _ _ _ _ _ _ _ Hw) as (Hh & Htk & Htm & Hpl).
  exists rg'. unfold store, queued. rewrite Hsv, Hse, Htk. cbn [fmap list_fmap app session_in s_files s_timing accepted_server a_files a_timing].
  cbn [clear_posted posted omap list_omap]. rewrite app_nil_r. cbn [k_acceptor k_pending k_next v_control v_peers].
  apply (represents_new rg rg' n a v c _ y ev); try done.
  - destruct (as_peers a !! c) as [z|] eqn:Hz; [|done]. apply (aw_next _ _ Ha) in Hz. unfold c, k in Hz. lia.
  - cbn. by rewrite Hcf.
  - destruct (inv_common _ _ _ Hi) as [chs Hci]. apply (ci_reg _ _ _ Hci (conn_fd conn) c ev). by rewrite Hrg, lookup_insert_eq.
  - rewrite Hh. unfold h1. by rewrite fmap_insert.
  - split; try done; [apply Hsim|by destruct Hpl..|cbn; by rewrite Htm|]. exists ev. rewrite Hrg, lookup_insert_eq. split; [done|].
    cbn. eapply (peer_inv_mono 0); [|destruct Hpv; by split]. done.
Qed.

(** ** Calls that leave the socket alone *)
Lemma store_load c x v : posted (k_server (v_control v)) = [] → v_peers v !! c = Some x → store c (p_connection x) (load x v) v = v.
Proof.
  intros Hp Hx. unfold store, queued. cbn [load poller channels tasks fst snd session_of fmap list_fmap app s_files s_timing].
  rewrite Hp. cbn [omap list_omap]. rewrite app_nil_r, clear_posted_id, peer_of_load, insert_id by done. by destruct v as [? ? [] ?].
Qed.

Lemma with_peer_same n busy fs a v c x f :
  represents n busy a v → awf fs a → v_peers v !! c = Some x → f (p_connection x) (load x v) = Ok (load x v) →
  with_peer c f v = Ok v.
Proof.
  intros [rg Hr] Ha Hx Hf. unfold with_peer. rewrite Hx, Hf. cbn. f_equal. apply store_load; [|done].
  rewrite (rs_control _ _ _ _ _ Hr). apply Ha.
Qed.

Lemma view_same n busy fs a v : represents n busy a v → awf fs a → peer_view v = aview a.
Proof.
  intros [rg Hr] Ha. unfold peer_view, aview. f_equal. apply map_eq. intros c. rewrite !lookup_fmap.
  destruct (as_peers a !! c) as [y|] eqn:Hy; [|by rewrite (represents_nopeer _ _ _ _ _ _ Hr Hy)].
  destruct (represents_peer _ _ _ _ _ _ _ Hr Hy) as (x & -> & [_ _ _ _ _ (ev & _ & Hp)]). cbn. f_equal.
  destruct (ap_closed y) eqn:Hcl; [|symmetry; apply Hp]. destruct Hp as [_ ->]. symmetry. by eapply aw_closed.
Qed.

(** The queue and the timers of a connection are nothing to its simulation. *)
Lemma simulates_queue {P'} `{PollerInv P' inv'} c n s (w : world (P' * session F T)) tk tm :
  simulates (inv := inv') c n s w →
  simulates (inv := inv') c n s (MkWorld (conn w) (poller w) (channels w) (wire w) (write_shut w) (kernel w) tk tm).
Proof.
  intros []. split; try done. destruct sm_conn as [(r & ch & Hr & Hw) ? ? ? ? ? ?]. split; try done. exists r, ch.
  split; [|done]. by apply (registered_same w).
Qed.

Lemma SetState_same st (w : world (P * TcpServer * session F T)) : state_ (conn w) = st → SetState st w = w.
Proof. intros <-. unfold SetState, set_conn. by destruct w as [[]]. Qed.

(** The state of a connection that is not closed, as the contract has it. *)
Lemma peer_state rg n c x y :
  peer_rel n rg c x y → ap_closed y = false → ap_open y = false → state_ (p_conn x) = kDisconnecting.
Proof.
  intros [_ _ _ _ _ (ev & _ & Hp)] Hcl Ho. rewrite Hcl in Hp. pose proof (pv_open _ _ _ _ Hp) as E. rewrite Ho in E.
  symmetry in E. apply bool_decide_eq_false in E. by destruct (pv_live _ _ _ _ Hp).
Qed.

Lemma closed_state rg n c x y : peer_rel n rg c x y → ap_closed y = true → state_ (p_conn x) = kDisconnected.
Proof. intros [_ _ _ _ _ (ev & _ & Hp)] Hcl. rewrite Hcl in Hp. apply Hp. Qed.

Lemma timing_call_ok n fs a v now call :
  represents n None a v → awf fs a →
  (∀ c y, call = CallForceCloseWithDelay c → as_peers a !! c = Some y → ap_open y = false) →
  match acall_timing call a with
  | Ok a' => ∃ v', timing_call now call v = Ok v' ∧ represents n None a' v'
  | Fail f => timing_call now call v = Fail f
  end.
Proof.
  intros Hrep Ha Hcall. pose proof Hrep as [rg Hr]. destruct call as [c|c]; cbn [acall_timing timing_call]; unfold awith;
    (destruct (as_peers a !! c) as [y|] eqn:Hy;
     [|unfold with_peer; by rewrite (represents_nopeer _ _ _ _ _ _ Hr Hy)]);
    destruct (represents_peer _ _ _ _ _ _ _ Hr Hy) as (x & Hx & Hrel); destruct (ap_closed y) eqn:Hcl.
  - pose proof (closed_state _ _ _ _ _ Hrel Hcl) as Hst. rewrite (with_peer_same n None fs a v c x); try done.
    + exists v. split; [done|]. unfold set_apeer. replace (shut_apeer y) with y; [by rewrite insert_id; destruct a|].
      unfold shut_apeer. pose proof (aw_closed _ _ Ha c y Hy Hcl) as Ho. destruct y. cbn in *. by rewrite Ho.
    + unfold Shutdown. by rewrite bool_decide_false by (cbn; by rewrite Hst).
  - pose proof (load_simulates _ _ _ _ _ _ _ _ Hr Hrel Hcl) as Hs.
    destruct (Shutdown_ok (inv := lifted_inv (alone c (ap_connection y) rg (k_server (as_control a))) (session_in (aload y a)))
      (http_connection now) (server_close (ap_connection y)) _ _ (sm_conn _ _ _ _ Hs)) as (w & Hw & Hc & Hst & _).
    destruct (Shutdown_input _ _ _ _ Hw) as [Ei Ec]. pose proof (Shutdown_quiet _ _ _ _ Hw) as Hq.
    assert (plain (load x v)) as Hpl by (by split; apply Hrel).
    unfold with_peer. rewrite Hx, (pr_connection _ _ _ _ _ Hrel), Hw. cbn [mbind outcome_bind]. eexists. split; [done|].
    assert (simulates (inv := alone c (ap_connection y) rg (k_server (as_control a))) c n (acall (aload y a) CallShutdownWrite) w) as Hs'.
    { destruct Hs. split; cbn; rewrite ?Ei, ?Ec, ?Hst; done. }
    pose proof (store_open fs rg n n None a v c x y _ w Hr Ha Hx Hy Hcl ltac:(done) Hs' (qt_handling _ _ Hq) (qt_plain _ _ Hq Hpl)) as Hso.
    rewrite (qt_tasks _ _ Hq Hpl), (qt_timers _ _ Hq) in Hso. cbn [load tasks timers fmap list_fmap] in Hso.
    rewrite app_nil_r, (pr_timers _ _ _ _ _ Hrel) in Hso. unfold set_apeer. destruct a as [[]]. done.
  - pose proof (closed_state _ _ _ _ _ Hrel Hcl) as Hst. rewrite (with_peer_same n None fs a v c x); try done; [by exists v|].
    unfold ForceCloseWithDelay. cbn. by rewrite Hst.
  - pose proof (Hcall c y eq_refl Hy) as Ho. pose proof (peer_state _ _ _ _ _ Hrel Hcl Ho) as Hst.
    unfold with_peer. rewrite Hx, (pr_connection _ _ _ _ _ Hrel). cbn [mbind outcome_bind]. eexists. split; [done|].
    unfold ForceCloseWithDelay. replace (_ || _) with true by (cbn; by rewrite Hst). rewrite SetState_same by done.
    pose proof (load_simulates _ _ _ _ _ _ _ _ Hr Hrel Hcl) as Hs.
    assert (plain (load x v)) as Hpl by (by split; apply Hrel).
    pose proof (store_open fs rg n n None a v c x y _ (RunAfter (ForceCloseTimer kForceCloseDelay) (load x v)) Hr Ha Hx Hy Hcl ltac:(done)
      (simulates_queue _ _ _ _ _ _ Hs) ltac:(done) Hpl) as Hso.
    cbn [load RunAfter tasks timers fmap list_fmap] in Hso. rewrite app_nil_r, length_app, (pr_timers _ _ _ _ _ Hrel) in Hso.
    replace (ap_timers y + length [ForceCloseTimer kForceCloseDelay])%nat with (S (ap_timers y)) in Hso by (cbn; lia).
    unfold set_apeer, shut_apeer. rewrite <-Ho. destruct a as [[]]. done.
Qed.

(** Connections the timing object shut down before. *)
Lemma acall_timing_shut call a a' c y :
  acall_timing call a = Ok a' → as_peers a' !! c = Some y →
  (call = CallShutdown c ∨ ∃ y0, as_peers a !! c = Some y0 ∧ ap_open y0 = false) → ap_open y = false.
Proof.
  intros E Hy Hor. destruct call as [c'|c']; cbn in E; unfold awith in E; destruct (as_peers a !! c') as [y'|] eqn:Hy'; try done;
    injection E as <-; [|destruct (ap_closed y'); [naive_solver|]];
    cbn in Hy; (destruct (decide (c' = c)) as [->|Hne]; [rewrite lookup_insert_eq in Hy; by injection Hy as <-|]);
    rewrite lookup_insert_ne in Hy by done; naive_solver.
Qed.

Lemma timing_calls_ok n fs now calls before a v :
  represents n None a v → awf fs a →
  (∀ l1 c l2, before ++ calls = l1 ++ CallForceCloseWithDelay c :: l2 → CallShutdown c ∈ l1) →
  (∀ c y, CallShutdown c ∈ before → as_peers a !! c = Some y → ap_open y = false) →
  match acalls_timing calls a with
  | Ok a' => ∃ v', timing_calls now calls v = Ok v' ∧ represents n None a' v'
  | Fail f => timing_calls now calls v = Fail f
  end.
Proof.
  revert before a v. induction calls as [|call calls IH]; intros before a v Hr Ha Hord Hbef; [by exists v|].
  cbn [acalls_timing timing_calls]. pose proof (timing_call_ok n fs a v now call Hr Ha) as Hc.
  destruct (acall_timing call a) as [a1|f] eqn:E1.
  2:{ rewrite Hc; [done|]. intros c y -> Hy. apply (Hbef c); [|done]. by eapply Hord. }
  destruct Hc as (v1 & -> & Hr1). { intros c y -> Hy. apply (Hbef c); [|done]. by eapply Hord. }
  cbn [mbind outcome_bind]. apply (IH (before ++ [call])); try done.
  - by eapply acall_timing_wf.
  - intros l1 c l2. rewrite <-app_assoc. apply Hord.
  - intros c y Hin Hy. eapply acall_timing_shut; [done..|]. apply elem_of_app in Hin as [Hin|Hin].
    + right. assert (is_Some (as_peers a !! c)) as [y0 Hy0].
      { destruct call as [c'|c']; cbn in E1; unfold awith in E1; destruct (as_peers a !! c') as [y'|] eqn:Hy'; try done;
          injection E1 as <-; [|destruct (ap_closed y'); [by exists y|]]; cbn in Hy;
          (destruct (decide (c' = c)) as [->|]; [by exists y'|]); rewrite lookup_insert_ne in Hy by done; by exists y. }
      exists y0. split; [done|]. by apply (Hbef c).
    + left. apply list_elem_of_singleton in Hin. by subst.
Qed.

(** Another acceptor or timing object. *)
Lemma represents_control n busy a v k :
  represents n busy a v → k_next k = k_next (as_control a) →
  represents n busy (MkAservice k (as_peers a)) (MkService (v_poller v) (v_heap v) k (v_peers v)).
Proof. intros [rg []] Hk. exists rg. split; try done. cbn. by rewrite Hk. Qed.

Lemma on_tick_ok n fs now a v :
  represents n None a v → awf fs a →
  match atick now a with
  | Ok a' => ∃ v', on_tick now v = Ok v' ∧ represents n None a' v'
  | Fail f => on_tick now v = Fail f
  end.
Proof.
  intros Hr Ha. unfold atick, on_tick. rewrite (view_same _ _ _ _ _ Hr Ha). pose proof Hr as [rg Hr'].
  rewrite (rs_control _ _ _ _ _ Hr'). clear rg Hr'.
  destruct (Timing.OnTimer (aview a) now (k_timing (as_control a))) as [[timing calls]|f] eqn:Ht; [|done]. cbn [mbind outcome_bind].
  apply (timing_calls_ok n fs now calls []).
  - by apply represents_control.
  - by apply awf_control.
  - intros l1 c l2. by eapply shutdown_first.
  - intros c y Hin. by apply elem_of_nil in Hin.
Qed.

(** A timer of the connection taken away. *)
Definition drop_timer x : peer :=
  MkPeer (p_connection x) (p_conn x) (p_context x) (p_wire x) (p_shut x) (p_kernel x) (tail (p_timers x)).

Lemma force_close_ok n fs c a v :
  represents n None a v → awf fs a →
  match aforce_close c a with
  | Ok a' => ∃ v', force_close c v = Ok v' ∧ represents n None a' v'
  | Fail f => force_close c v = Fail f
  end.
Proof.
  intros Hrep Ha. pose proof Hrep as [rg Hr]. unfold aforce_close, force_close. destruct (as_peers a !! c) as [y|] eqn:Hy.
  2:{ rewrite (represents_nopeer _ _ _ _ _ _ Hr Hy). by exists v. }
  destruct (represents_peer _ _ _ _ _ _ _ Hr Hy) as (x & Hx & Hrel). rewrite Hx.
  pose proof (pr_timers _ _ _ _ _ Hrel) as Htm. destruct (ap_timers y) as [|m] eqn:Hm, (p_timers x) as [|tm rest] eqn:Ep; try done.
  { by exists v. }
  injection Htm as Htm. change (MkPeer _ _ _ _ _ _ rest) with (MkPeer (p_connection x) (p_conn x) (p_context x) (p_wire x) (p_shut x) (p_kernel x) (tail (tm :: rest))).
  rewrite <-Ep. fold (drop_timer x). change (p_connection (drop_timer x)) with (p_connection x).
  rewrite (pr_connection _ _ _ _ _ Hrel). eexists. split; [done|].
  pose proof (aw_timers _ _ Ha c y Hy ltac:(by rewrite Hm)) as Ho. unfold ForceClose.
  change (state_ (conn (load (drop_timer x) v))) with (state_ (p_conn x)).
  destruct (ap_closed y) eqn:Hcl.
  - rewrite (closed_state _ _ _ _ _ Hrel Hcl). replace (_ || _) with false by done.
    exists rg. unfold store, queued. cbn [load poller channels tasks fst snd session_of fmap list_fmap app s_files s_timing].
    rewrite (rs_control _ _ _ _ _ Hr), (aw_posted _ _ Ha). cbn [omap list_omap]. rewrite app_nil_r, clear_posted_id by apply Ha.
    destruct Hrel as [Hcn Hch ? ? ? (ev & Hev & Hcl')]. rewrite Hcl in Hcl'. destruct Hcl' as [-> Hst].
    apply (represents_put rg rg n n None a v c x y _ _ 0); try done; [apply Hr|by rewrite insert_id|by apply union_subseteq_r|by eapply aw_next|].
    split; try done; cbn; [by rewrite Ep|]. exists 0. by rewrite Hcl.
  - rewrite (peer_state _ _ _ _ _ Hrel Hcl Ho). replace (_ || _) with true by done.
    rewrite SetState_same by (by apply (peer_state _ _ _ _ _ Hrel Hcl Ho)).
    pose proof (load_simulates _ _ _ _ _ _ _ _ Hr Hrel Hcl) as Hs.
    pose proof (store_open fs rg n n None a v c x y _ (QueueInLoop ForceCloseInLoopTask (load (drop_timer x) v)) Hr Ha Hx Hy Hcl ltac:(done)
      (simulates_queue _ _ _ _ _ _ Hs) ltac:(done) ltac:(by split; apply Hrel)) as Hso.
    cbn [load QueueInLoop drop_timer p_timers tasks timers fmap list_fmap app] in Hso. rewrite Ep in Hso. cbn [tail] in Hso. rewrite Htm in Hso.
    unfold shut_apeer. rewrite <-Ho. destruct a as [[]]. done.
Qed.

(** ** The functors *)

(** A channel without events, removed from the poller. *)
Lemma remove_alone rg p h c ch :
  inv p h rg → h !! c = Some ch → reg rg !! fd_ ch = Some (c, 0) → is_event_handling_ ch = false →
  ∃ p' h', Remove c p h = Ok (p', h') ∧ Channel_destroy c p' h' = Ok (delete c h') ∧
    inv p' (delete c h') (MkRegistry (delete (fd_ ch) (reg rg)) (used rg)) ∧
    is_event_handling_ <$> h' = is_event_handling_ <$> h.
Proof.
  intros Hi Hch Hreg Hnh. destruct (inv_common _ _ _ Hi) as [chs Hci].
  destruct (ci_reg _ _ _ Hci _ _ _ Hreg) as (_ & _ & _ & ch0 & Hch0 & _ & Hev). assert (ch0 = ch) as -> by congruence.
  destruct (inv_remove p h rg c (set_added false ch) ch) as (p' & h' & Hrm & Hfi & Hi'); try done.
  pose proof (remove_status _ _ _ _ _ Hrm) as Hso. pose proof (Hso c) as Hc. rewrite lookup_insert_eq in Hc.
  destruct (h' !! c) as [ch'|] eqn:Hch'; [|done]. injection Hc as Hfd _ _ _ Hh Had.
  assert (∀ fd ev, reg (MkRegistry (delete (fd_ ch) (reg rg)) (used rg)) !! fd ≠ Some (c, ev)) as Hno.
  { intros fd ev. cbn [reg]. intros [Hne Hr]%lookup_delete_Some. apply Hne. by eapply common_inj. }
  exists p', h'. unfold Remove, deref. rewrite Hch. cbn [mbind outcome_bind]. unfold IsNoneEvent. rewrite Hev.
  change (0 =? kNoneEvent) with true. cbn [cassert mbind outcome_bind]. split; [done|].
  split; [|split; [by apply inv_free|by rewrite (status_handling _ _ Hso); eapply handling_insert]].
  unfold Channel_destroy, deref. rewrite Hch'. cbn [mbind outcome_bind]. rewrite Hh, Had. cbn [set_added is_event_handling_ is_added_to_loop_].
  rewrite Hnh. cbn [negb cassert mbind outcome_bind]. by rewrite (inv_has p' h' _ c ch' Hi' Hch' Hno).
Qed.

Lemma on_channel_remove c x v p' h' :
  channel_ (p_conn x) = c → Remove c (v_poller v) (v_heap v) = Ok (p', h') →
  on_channel Remove (load x v) =
    Ok (set_channels (p', k_server (v_control v), MkSession (p_context x) (k_files (v_control v)) (k_timing (v_control v)), h') (load x v)).
Proof.
  intros <- E. unfold on_channel, Remove in *. cbn [load conn channels poller]. destruct (deref _ _) as [ch|]; [|done].
  cbn [mbind outcome_bind] in *. destruct (cassert _ _); [|done]. cbn [mbind outcome_bind] in *. cbn. by rewrite E.
Qed.

Lemma connect_destroyed_ok n fs now c a v :
  represents n None a v → awf (DestroyFunctor c :: fs) a →
  ∃ v', connect_destroyed now c v = Ok v' ∧ represents n None (MkAservice (as_control a) (delete c (as_peers a))) v'.
Proof.
  intros [rg Hr] Ha. destruct (aw_known _ _ Ha (DestroyFunctor c)) as [y Hy]; [set_solver|]. cbn in Hy.
  assert (ap_closed y = true) as Hcl by (apply (aw_destroy _ _ Ha c y Hy); set_solver).
  destruct (represents_peer _ _ _ _ _ _ _ Hr Hy) as (x & Hx & Hrel). pose proof (closed_state _ _ _ _ _ Hrel Hcl) as Hst.
  pose proof (pr_reg _ _ _ _ _ Hrel) as (ev & Hreg & Hev). rewrite Hcl in Hev. destruct Hev as [-> _].
  destruct (inv_common _ _ _ (rs_inv _ _ _ _ _ Hr)) as [chs Hci].
  destruct (ci_reg _ _ _ Hci _ _ _ Hreg) as (_ & _ & _ & ch & Hch & Hfd & _). rewrite <-Hfd in Hreg.
  destruct (remove_alone rg (v_poller v) (v_heap v) c ch) as (p' & h' & Hrm & Hde & Hi & Hh); [apply Hr|done|done|by apply (rs_heap _ _ _ _ _ Hr _ _ Hch)|].
  unfold connect_destroyed, with_peer, ConnectDestroyed. rewrite Hx.
  rewrite bool_decide_false by (cbn; by rewrite Hst). cbn [mbind outcome_bind].
  rewrite (on_channel_remove c x v p' h') by (done || apply Hrel). cbn [mbind outcome_bind store v_peers]. rewrite lookup_insert_eq.
  unfold TcpConnection_destroy. cbn [load conn peer_of p_conn set_channels]. rewrite bool_decide_true by done.
  cbn [cassert mbind outcome_bind store v_poller v_heap poller channels set_channels fst snd]. rewrite Hde. cbn [mbind outcome_bind].
  eexists. split; [done|]. exists (MkRegistry (delete (fd_ ch) (reg rg)) (used rg)).
  split; cbn [v_control v_poller v_heap v_peers as_control as_peers reg used queued tasks poller fst snd fmap list_fmap app].
  - unfold queued. cbn. rewrite (rs_control _ _ _ _ _ Hr), (aw_posted _ _ Ha). cbn. rewrite app_nil_r, clear_posted_id by apply Ha.
    by destruct (as_control a).
  - done.
  - intros c' ch' [_ Hch']%lookup_delete_Some. destruct (same_handling _ _ _ _ Hh Hch') as (ch0 & Hch0 & ->). by apply (rs_heap _ _ _ _ _ Hr).
  - intros c' Hc'. destruct (rs_next _ _ _ _ _ Hr c' Hc') as [Hno Hnu]. split; [|done]. apply lookup_delete_None. right.
    destruct (h' !! c') as [ch'|] eqn:E; [|done]. destruct (same_handling _ _ _ _ Hh E) as (? & ? & _). congruence.
  - intros fd [e [Hne He]%lookup_delete_Some]. destruct (rs_reserved _ _ _ _ _ Hr fd) as [?|(c' & z & Hz & Hzf)]; [by exists e|by left|].
    right. exists c', z. rewrite lookup_delete_ne; [done|]. intros <-. congruence.
  - intros c'. rewrite delete_insert_eq. destruct (decide (c = c')) as [<-|Hne]; [rewrite !lookup_delete_eq; constructor|].
    rewrite !lookup_delete_ne by done. pose proof (rs_peers _ _ _ _ _ Hr c') as Hc'.
    destruct (as_peers a !! c') as [z|] eqn:Hz; inversion Hc' as [x0 y0 Hrel0 Hx0 Hy0|]; [|constructor]. simplify_eq.
    constructor. eapply peer_rel_mono; [done| |done]. cbn [reg]. rewrite lookup_delete_ne; [done|]. intros Efd.
    destruct Hrel0 as [_ _ _ _ _ (ev0 & Hev0 & _)]. rewrite <-Efd in Hev0. congruence.
Qed.

Lemma run_functor_ok n fs now f a v :
  represents n None a v → awf (f :: fs) a →
  match arun_functor now f a with
  | Ok a' => ∃ v', run_functor now f v = Ok v' ∧ represents n None a' v'
  | Fail e => run_functor now f v = Fail e
  end.
Proof.
  intros Hrep Ha. destruct f as [c t|c]; cbn [arun_functor run_functor]; unfold awith.
  - pose proof (aw_task _ _ Ha c t ltac:(set_solver)) as ->. destruct (aw_known _ _ Ha (ConnFunctor c ForceCloseInLoopTask)) as [y Hy]; [set_solver|].
    cbn in Hy. rewrite Hy. apply drop_wf in Ha. pose proof Hrep as [rg Hr].
    destruct (represents_peer _ _ _ _ _ _ _ Hr Hy) as (x & Hx & Hrel). destruct (ap_closed y) eqn:Hcl.
    + rewrite (with_peer_same n None fs a v c x); try done; [by exists v|]. cbn [run_task]. unfold ForceCloseInLoop.
      cbn. by rewrite (closed_state _ _ _ _ _ Hrel Hcl).
    + unfold with_peer. rewrite Hx, (pr_connection _ _ _ _ _ Hrel). cbn [run_task]. unfold ForceCloseInLoop.
      pose proof (load_simulates _ _ _ _ _ _ _ _ Hr Hrel Hcl) as Hs. pose proof (sm_conn _ _ _ _ Hs) as Hc.
      replace (_ || _) with true by (destruct (cv_state _ _ Hc) as [-> | ->]; done).
      pose proof (close_peer fs rg n None a v c x y (ap_sent y) (session_in (aload y a)) (load x v) now Hr Ha Hx Hy Hcl Hrel Hc eq_refl eq_refl ltac:(done)) as Hcp.
      destruct (aclose now c y a) as [a'|e]; [|by rewrite Hcp]. destruct Hcp as (w & -> & _ & Hrep'). cbn [mbind outcome_bind]. by eexists.
  - destruct (aw_known _ _ Ha (DestroyFunctor c)) as [y Hy]; [set_solver|]. cbn in Hy. rewrite Hy. by eapply connect_destroyed_ok.
Qed.

Lemma run_functors_ok n now fs a v :
  represents n None a v → awf fs a →
  match arun_functors now fs a with
  | Ok a' => ∃ v', run_functors now fs v = Ok v' ∧ represents n None a' v'
  | Fail e => run_functors now fs v = Fail e
  end.
Proof.
  revert a v. induction fs as [|f fs IH]; intros a v Hr Ha; [by exists v|]. cbn [arun_functors run_functors].
  pose proof (run_functor_ok n fs now f a v Hr Ha) as Hf. destruct (arun_functor now f a) as [a1|e] eqn:E; [|by rewrite Hf].
  destruct Hf as (v1 & -> & Hr1). cbn [mbind outcome_bind]. apply IH; [done|]. by eapply arun_functor_wf.
Qed.

(** ** Events, turns, runs *)
Lemma service_event_ok n fs now e a v :
  represents n None a v → awf fs a → 0 ≤ n → permitted config reserved now e a →
  2 * kCheapPrepend + n + zlen (event_input e) ≤ vector_max_size →
  match aevent config now e a with
  | Ok a' => ∃ v', handle_event config now e v = Ok v' ∧ represents (n + zlen (event_input e)) None a' v'
  | Fail f => handle_event config now e v = Fail f
  end.
Proof.
  intros Hr Ha Hn Hp Hb. destruct e as [ans reopened kern|c t r| |c]; cbn [handle_event event_input] in *;
    rewrite ?zlen_nil, ?Z.add_0_r.
  - cbn [aevent]. unfold accept. pose proof Hr as [rg Hr']. rewrite (rs_control _ _ _ _ _ Hr'). clear rg Hr'.
    destruct (Acceptor_HandleRead ans true reopened (k_acceptor (as_control a))) as [o acc] eqn:Eo.
    destruct o as [fd|]; [|eexists; split; [done|by apply represents_control]].
    assert (ans = Accepted fd) as ->.
    { destruct ans as [fd'|e]; cbn in Eo; [congruence|]. by destruct (e =? EMFILE). }
    cbn [permitted] in Hp. destruct Hp as (H1' & H2' & H3' & H4').
    eapply new_connection_ok; [by apply represents_control|by apply awf_control|done..].
  - by apply (dispatch_ok fs).
  - by apply (on_tick_ok n fs).
  - by apply (force_close_ok n fs).
Qed.

Lemma service_events_ok n es a v :
  represents n None a v → awf [] a → 0 ≤ n → permitted_events config reserved es a →
  2 * kCheapPrepend + n + zlen (concat ((λ e, event_input e.2) <$> es)) ≤ vector_max_size →
  match aevents config es a with
  | Ok a' => ∃ v', handle_events config es v = Ok v' ∧ represents (n + zlen (concat ((λ e, event_input e.2) <$> es))) None a' v'
  | Fail f => handle_events config es v = Fail f
  end.
Proof.
  revert n a v. induction es as [|[now e] es IH]; intros n a v Hr Ha Hn Hp Hb; cbn [aevents handle_events fmap list_fmap concat] in *.
  { exists v. rewrite zlen_nil, Z.add_0_r. done. }
  cbn [snd] in *. rewrite zlen_app in *. destruct Hp as [Hp Hps]. pose proof (zlen_nonneg (event_input e)).
  pose proof (zlen_nonneg (concat ((λ e, event_input e.2) <$> es))).
  pose proof (service_event_ok n [] now e a v Hr Ha Hn Hp ltac:(lia)) as He.
  destruct (aevent config now e a) as [a1|f] eqn:E; [|by rewrite He]. destruct He as (v1 & -> & Hr1). cbn [mbind outcome_bind].
  rewrite Z.add_assoc. apply IH; [done|by eapply aevent_wf|lia|done|lia].
Qed.

Lemma turn_ok n es now a v :
  represents n None a v → awf [] a → 0 ≤ n → permitted_events config reserved es a →
  2 * kCheapPrepend + n + zlen (concat ((λ e, event_input e.2) <$> es)) ≤ vector_max_size →
  match aturn config es now a with
  | Ok a' => ∃ v', turn config es now v = Ok v' ∧ represents (n + zlen (concat ((λ e, event_input e.2) <$> es))) None a' v'
  | Fail f => turn config es now v = Fail f
  end.
Proof.
  intros Hr Ha Hn Hp Hb. unfold aturn, turn. pose proof (service_events_ok n es a v Hr Ha Hn Hp Hb) as He.
  destruct (aevents config es a) as [a1|f] eqn:E; [|by rewrite He]. destruct He as (v1 & -> & Hr1). cbn [mbind outcome_bind].
  unfold ado_pending, do_pending. pose proof Hr1 as [rg Hr']. rewrite (rs_control _ _ _ _ _ Hr'). clear rg Hr'.
  apply run_functors_ok; [by apply represents_control|]. apply swap_wf. by eapply aevents_wf.
Qed.

Lemma serve_turns_ok n ts a v :
  represents n None a v → awf [] a → 0 ≤ n → permitted_turns config reserved ts a →
  2 * kCheapPrepend + n + zlen (turns_input ts) ≤ vector_max_size →
  match aturns config ts a with
  | Ok a' => awf [] a' ∧ ∃ v', serve_turns config ts v = Ok v' ∧ represents (n + zlen (turns_input ts)) None a' v'
  | Fail f => serve_turns config ts v = Fail f
  end.
Proof.
  revert n a v. induction ts as [|[es now] ts IH]; intros n a v Hr Ha Hn Hp Hb; cbn [aturns serve_turns] in *.
  { split; [done|]. exists v. change (turns_input []) with (@nil ascii). by rewrite zlen_nil, Z.add_0_r. }
  change (turns_input ((es, now) :: ts)) with (concat ((λ e, event_input e.2) <$> es) ++ turns_input ts) in *.
  rewrite zlen_app in *. destruct Hp as [Hp Hps]. pose proof (zlen_nonneg (turns_input ts)).
  pose proof (zlen_nonneg (concat ((λ e, event_input e.2) <$> es))).
  pose proof (turn_ok n es now a v Hr Ha Hn Hp ltac:(lia)) as He.
  destruct (aturn config es now a) as [a1|f] eqn:E; [|by rewrite He]. destruct He as (v1 & -> & Hr1). cbn [mbind outcome_bind].
  rewrite Z.add_assoc. apply IH; [done|by eapply aturn_wf|lia|done|lia].
Qed.

(** ** The server from its start *)

(** The loop before the server: its own channels, registered for descriptors in
    [reserved], and no channel at [next] or above. *)
Record loop_ready (p : P) (h : heap) (next : chan) : Prop := MkReady {
  ld_inv : ∃ rg, inv p h rg ∧ dom (reg rg) ⊆ reserved ∧ (∀ c ch, h !! c = Some ch → c ∈ used rg ∧ is_event_handling_ ch = false) ∧
    (∀ c, next ≤ c → h !! c = None ∧ c ∉ used rg);
}.

(** What an observer sees of the server. *)
Record observed a v : Prop := MkObserved {
  ob_control : v_control v = as_control a;
  ob_peers : dom (v_peers v) = dom (as_peers a);
  ob_server n con : connections_ (k_server (v_control v)) !! n = Some con ↔
    ∃ c x, v_peers v !! c = Some x ∧ p_connection x = con ∧ conn_name con = n ∧ state_ (p_conn x) ≠ kDisconnected;
  ob_peer c x y : v_peers v !! c = Some x → as_peers a !! c = Some y → ap_closed y = false →
    p_wire x ++ contents (output_buffer_ (p_conn x)) = ap_sent y ∧ contents (input_buffer_ (p_conn x)) = ap_unread y ∧
    p_context x = Some (ap_context y) ∧ (p_shut x = true ↔ ap_open y = false ∧ p_wire x = ap_sent y);
}.

Lemma represents_observed n a v : represents n None a v → awf [] a → observed a v.
Proof.
  intros [rg Hr] Ha. split.
  - apply Hr.
  - apply set_eq. intros c. rewrite !elem_of_dom. pose proof (rs_peers _ _ _ _ _ Hr c) as Hc. inversion Hc; [|done].
    by rewrite !is_Some_alt.
  - intros nm con. rewrite (rs_control _ _ _ _ _ Hr), (aw_map _ _ Ha). split.
    + intros (c & y & Hy & Hcl & Hcn & Hn). destruct (represents_peer _ _ _ _ _ _ _ Hr Hy) as (x & Hx & [Hxc _ _ _ _ (ev & _ & Hp)]).
      exists c, x. rewrite Hcl in Hp. split_and!; try congruence. by destruct (pv_live _ _ _ _ Hp) as [-> | ->].
    + intros (c & x & Hx & Hcn & Hn & Hst). pose proof (rs_peers _ _ _ _ _ Hr c) as Hc. rewrite Hx in Hc.
      inversion Hc as [x0 y Hrel E1 E2|]. subst x0. exists c, y. split; [done|].
      split; [|by rewrite <-(pr_connection _ _ _ _ _ Hrel)]. apply not_true_is_false. intros Hcl. by apply Hst, (closed_state _ _ _ _ _ Hrel).
  - intros c x y Hx Hy Hcl. destruct (represents_peer _ _ _ _ _ _ _ Hr Hy) as (x' & Hx' & [_ _ _ _ _ (ev & _ & Hp)]).
    assert (x' = x) as -> by congruence. rewrite Hcl in Hp. pose proof (pv_bytes _ _ _ _ Hp) as Hb.
    split; [done|]. split; [apply Hp|]. split; [apply Hp|]. rewrite (pv_shut _ _ _ _ Hp), (pv_open _ _ _ _ Hp), bool_decide_eq_false.
    destruct (pv_live _ _ _ _ Hp) as [->| ->]; split; intros [H1' H2']; try done; (split; [done|]).
    + by rewrite <-Hb, H2', app_nil_r.
    + rewrite H2' in Hb. apply (app_inv_head (ap_sent y)). by rewrite app_nil_r.
Qed.

Lemma astart_wf base ip_port name acc (files : F) (timing : T) next :
  zlen ip_port ≤ 51 → awf [] (astart base ip_port name acc files timing next).
Proof.
  intros Hip. split; cbn; try done; try set_solver; intros.
  by destruct l1.
Qed.

Lemma service_start_ok base ip_port name acc p h (files : F) (timing : T) next :
  loop_ready p h next →
  ∃ v, service_start base ip_port name acc p h files timing next = Ok v ∧
    represents 0 None (astart base ip_port name acc files timing next) v.
Proof.
  intros [(rg & Hi & Hres & Hh & Hn)]. eexists. split; [done|]. exists rg. split; cbn; try done.
  - intros fd Hfd. left. apply Hres. by apply elem_of_dom.
  - intros c. rewrite !lookup_empty. constructor.
Qed.

Lemma service_run_observed base ip_port name acc p h (files : F) (timing : T) next ts :
  loop_ready p h next → zlen ip_port ≤ 51 →
  permitted_turns config reserved ts (astart base ip_port name acc files timing next) →
  2 * kCheapPrepend + zlen (turns_input ts) ≤ vector_max_size →
  match aturns config ts (astart base ip_port name acc files timing next) with
  | Ok a =>
      ∃ v, (v ← service_start base ip_port name acc p h files timing next; serve_turns config ts v) = Ok v ∧ observed a v
  | Fail f => (v ← service_start base ip_port name acc p h files timing next; serve_turns config ts v) = Fail f
  end.
Proof.
  intros Hl Hip Hp Hb. destruct (service_start_ok base ip_port name acc p h files timing next Hl) as (v0 & -> & Hr0).
  cbn [mbind outcome_bind]. pose proof (serve_turns_ok 0 ts _ v0 Hr0 (astart_wf _ _ _ _ _ _ _ Hip) ltac:(done) Hp ltac:(lia)) as Hs.
  destruct (aturns config ts _) as [a|f]; [|done]. destruct Hs as (Ha & v & Hv & Hr). exists v. split; [done|].
  by eapply represents_observed.
Qed.


Lemma serve_turns_app ts1 ts2 v : serve_turns config (ts1 ++ ts2) v = (v ← serve_turns config ts1 v; serve_turns config ts2 v).
Proof. revert v. induction ts1 as [|[es now] ts1 IH]; intros v; [done|]. cbn. destruct (turn config es now v); [apply IH|done]. Qed.

Lemma permitted_turns_app ts1 ts2 a :
  permitted_turns config reserved (ts1 ++ ts2) a →
  permitted_turns config reserved ts1 a ∧
  (∀ a', aturns config ts1 a = Ok a' → permitted_turns config reserved ts2 a').
Proof.
  revert a. induction ts1 as [|[es now] ts1 IH]; intros a Hp; [split; [done|]; by intros a' [= <-]|].
  cbn in *. destruct Hp as [Hp Hps]. destruct (aturn config es now a) as [a1|]; cbn; [|done].
  destruct (IH a1 Hps) as [H1' H2']. by repeat split.
Qed.


End refinement.

(** ** A loop with an epoll poller of its own *)
Lemma sample_ready : loop_ready (inv := epoll_inv) ∅ sample_poller ∅ 1.
Proof.
  split. exists (MkRegistry ∅ ∅). split; [|split; [done|split; [by intros|done]]]. split; cbn.
  - apply common_empty. intros c x. by rewrite lookup_empty.
  - intros fd c ev x. by rewrite lookup_empty.
  - intros fd _. by rewrite lookup_empty.
Qed.

Definition sample_acceptor : Acceptor := MkAcceptor false 4 {[3; 4]}.

(** An idle connection: the tick after ten seconds shuts it down and asks for a
    delayed close, the timer closes it, and the turn after that destroys it. *)
Definition sample_idle : list (list (Z * event) * Z) :=
  [([(0, EvAccept (Accepted 5) 0 [Wrote 1000])], 0); ([(10000000, EvTick)], 10000000);
   ([(13500000, EvForceClose 1)], 13500000)].


