(* ===== verification/PooledLifecycle.v ===== *)
(** * Connections in pool threads: from accept to release

    The states of PooledServer.v that can be reached, for any interleaving of the
    threads.  A connection is waiting for [ConnectEstablished], up, closed, removed
    from the map, or destroyed; its phase determines which functors are queued for
    it, whether the map holds it, and how its loop's poller sees its channel. *)

From stdpp Require Import functions base tactics list numbers strings sets gmap.
From Stdlib Require Import ZArith Lia Ascii.
From S2P Require Import Prelude.
From S2P Require Import CString.
From S2P Require Import Buffer.
From S2P Require Import Channel.
From S2P Require Import Poller.
From S2P Require Import TcpServer.
From S2P Require Import TcpConnection.
From S2P Require Import HttpConnection.
From S2P Require Import SharedLoop.
From S2P Require Import HttpService.
From S2P Require Import ServiceRefinement.
From S2P Require Import ConnectionUp.
From S2P Require Import PooledServer.

(** ** Phases *)
Inductive phase := Waiting | Up | Closed | Removed | Destroyed.
#[global] Instance phase_eq_dec : EqDecision phase.
Proof. solve_decision. Defined.

Definition kept (ph : phase) : bool := match ph with Waiting | Up | Closed => true | Removed | Destroyed => false end.

(** The functors that move the connection [c] on, and those due in a phase. *)
Definition lifecycle (c : chan) (q : list loop_functor) : list loop_functor :=
  filter (λ f, f = EstablishFunctor c ∨ f = DestroyedFunctor c) q.
Definition due (ph : phase) (c : chan) : list loop_functor :=
  match ph with Waiting => [EstablishFunctor c] | Removed => [DestroyedFunctor c] | _ => [] end.

Lemma lifecycle_app c q q' : lifecycle c (q ++ q') = lifecycle c q ++ lifecycle c q'.
Proof. apply filter_app. Qed.

Lemma lifecycle_cons_ne c f q : target f ≠ c → lifecycle c (f :: q) = lifecycle c q.
Proof. intros Hf. unfold lifecycle. rewrite filter_cons, decide_False; [done|]. by intros [-> | ->]. Qed.

Lemma lifecycle_cons_task c c' t q : lifecycle c (TaskFunctor c' t :: q) = lifecycle c q.
Proof. unfold lifecycle. rewrite filter_cons, decide_False; [done|]. by intros [|]. Qed.

Lemma lifecycle_tasks c c' ts : lifecycle c (TaskFunctor c' <$> ts) = [].
Proof. induction ts as [|t ts IH]; [done|]. by rewrite fmap_cons, lifecycle_cons_task. Qed.

Lemma lifecycle_in c f q : f ∈ lifecycle c q ↔ (f = EstablishFunctor c ∨ f = DestroyedFunctor c) ∧ f ∈ q.
Proof. unfold lifecycle. by rewrite list_elem_of_filter. Qed.

(** The removals queued for [c]. *)
Definition removals (c : chan) (b : list (chan * connection)) : list (chan * connection) := filter (λ e, e.1 = c) b.

Lemma removals_app c b b' : removals c (b ++ b') = removals c b ++ removals c b'.
Proof. apply filter_app. Qed.
Lemma removals_cons_eq c conn b : removals c ((c, conn) :: b) = (c, conn) :: removals c b.
Proof. unfold removals. by rewrite filter_cons, decide_True. Qed.
Lemma removals_cons_ne c e b : e.1 ≠ c → removals c (e :: b) = removals c b.
Proof. intros. unfold removals. by rewrite filter_cons, decide_False. Qed.

Section lifecycle.
Context {P : Type} `{PollerInv P inv, !PollerHeap P inv, !PollerStatus P}.
Context (reserved : gset Z) (ls : list loop).
Implicit Types (st : pooled P) (x : pool_peer) (rgs : loop → registry).

(** ** The invariant *)
Record usable (n : Z) (t : TcpConnection) : Prop := MkUsable {
  us_output : good (output_buffer_ t);
  us_output_size : writer_index_ (output_buffer_ t) ≤ kCheapPrepend + n;
  us_input : good (input_buffer_ t);
  us_input_size : writer_index_ (input_buffer_ t) ≤ kCheapPrepend + n;
}.

(** How the loop and its poller see the connection. *)
Definition in_phase (n : Z) (rg : registry) (h : heap) (c : chan) x (ph : phase) : Prop :=
  let s := state_ (pp_conn x) in
  let e := reg rg !! conn_fd (pp_connection x) in
  match ph with
  | Waiting => s = kConnecting ∧ usable n (pp_conn x) ∧ pp_timers x = [] ∧ h !! c = None ∧ (c ∉ used rg) ∧ e = None
  | Up => (s = kConnected ∨ s = kDisconnecting) ∧ usable n (pp_conn x) ∧ (∃ ev, e = Some (c, ev) ∧ io_events ev)
  | Closed | Removed => s = kDisconnected ∧ e = Some (c, 0)
  | Destroyed =>
      s = kDisconnected ∧ e = None ∧ (∃ ch, h !! c = Some ch ∧ is_added_to_loop_ ch = false ∧ Channel.events_ ch = 0)
  end.

(** The functors queued for it. *)
Record queue_ok (c : chan) (ph : phase) (q : list loop_functor) : Prop := MkQueueOk {
  qo_due : lifecycle c q = due ph c;
  qo_tasks t : TaskFunctor c t ∈ q → harmless t ∧ ph ≠ Waiting;
}.

Record peer_ok (n : Z) rgs st (c : chan) x (ph : phase) : Prop := MkPeerOk {
  pk_channel : channel_ (pp_conn x) = c;
  pk_next : c < pl_next st;
  pk_fd : 0 ≤ conn_fd (pp_connection x) ∧ conn_fd (pp_connection x) ∉ reserved;
  pk_name : ∃ id, 1 ≤ id < next_conn_id_ (pl_server st) ∧
    conn_name (pp_connection x) = name_ (pl_server st) ++ conn_suffix (ip_port_ (pl_server st)) id;
  pk_loop : ∃ io, pl_io st !! conn_loop (pp_connection x) = Some io ∧ queue_ok c ph (io_pending io) ∧
    in_phase n (rgs (conn_loop (pp_connection x))) (io_heap io) c x ph;
  pk_base : removals c (pl_base st) = if bool_decide (ph = Closed) then [(c, pp_connection x)] else [];
  pk_map : kept ph = true ↔ connections_ (pl_server st) !! conn_name (pp_connection x) = Some (pp_connection x);
}.

Record loop_ok (rg : registry) st (l : loop) (io : io_loop P) : Prop := MkLoopOk {
  lo_inv : inv (io_poller io) (io_heap io) rg;
  lo_heap c ch : io_heap io !! c = Some ch → c ∈ used rg ∧ is_event_handling_ ch = false;
  lo_used c : c ∈ used rg → c < pl_next st;
  lo_reg fd c ev : reg rg !! fd = Some (c, ev) →
    (∃ x, pl_peers st !! c = Some x ∧ conn_fd (pp_connection x) = fd ∧ conn_loop (pp_connection x) = l) ∨
    (fd ∈ reserved ∧ pl_peers st !! c = None);
  lo_target f : f ∈ io_pending io → ∃ x, pl_peers st !! target f = Some x ∧ conn_loop (pp_connection x) = l;
}.

Record server_ok (s : TcpServer) : Prop := MkServerOk {
  so_started : is_started_ (thread_pool_ s) = true;
  so_loops : loops_ (thread_pool_ s) = ls;
  so_nonempty : ls ≠ [];
  so_next : 0 ≤ next_ (thread_pool_ s) < zlen ls;
  so_posted : posted s = [];
  so_id : 1 ≤ next_conn_id_ s;
  so_ip : zlen (ip_port_ s) ≤ 51;
}.

Record pool_inv rgs (n : Z) st : Prop := MkPoolInv {
  pi_server : server_ok (pl_server st);
  pi_loops l : l ∈ ls → is_Some (pl_io st !! l);
  pi_io l io : pl_io st !! l = Some io → loop_ok (rgs l) st l io;
  pi_peers c x : pl_peers st !! c = Some x → ∃ ph, peer_ok n rgs st c x ph;
  pi_fds c c' x x' : pl_peers st !! c = Some x → pl_peers st !! c' = Some x' →
    conn_fd (pp_connection x) = conn_fd (pp_connection x') → c = c';
  pi_names c c' x x' : pl_peers st !! c = Some x → pl_peers st !! c' = Some x' →
    conn_name (pp_connection x) = conn_name (pp_connection x') → c = c';
  pi_base e : e ∈ pl_base st → is_Some (pl_peers st !! e.1);
  pi_map nm conn : connections_ (pl_server st) !! nm = Some conn →
    conn_name conn = nm ∧ ∃ c x, pl_peers st !! c = Some x ∧ pp_connection x = conn;
}.

Lemma usable_mono n n' t : n ≤ n' → usable n t → usable n' t.
Proof. intros ? []. split; (done || lia). Qed.

(** Another connection's step leaves this one in its phase. *)
Lemma in_phase_frame n n' rg rg' h h' c x ph :
  in_phase n rg h c x ph → n ≤ n' → SetStatus 0 <$> h' !! c = SetStatus 0 <$> h !! c →
  reg rg' !! conn_fd (pp_connection x) = reg rg !! conn_fd (pp_connection x) → (c ∈ used rg' → c ∈ used rg) → in_phase n' rg' h' c x ph.
Proof.
  intros Hp Hn Hh Hr Hu. unfold in_phase in *. rewrite Hr. destruct ph; try done.
  - destruct Hp as (? & ? & ? & Hc & ? & ?). split_and!; try done; [by eapply usable_mono| |by auto].
    rewrite Hc in Hh. by destruct (h' !! c).
  - destruct Hp as (? & ? & ?). split_and!; try done. by eapply usable_mono.
  - destruct Hp as (? & ? & ch & Hc & Ha & He). split_and!; try done. rewrite Hc in Hh. destruct (h' !! c) as [ch'|]; [|done].
    cbn in Hh. injection Hh as _ E1 _ _ _ E2. exists ch'. split_and!; [done|congruence..].
Qed.

Lemma pool_inv_mono rgs n n' st : pool_inv rgs n st → n ≤ n' → pool_inv rgs n' st.
Proof.
  intros [] Hn. split; try done. intros c x Hx. destruct (pi_peers0 _ _ Hx) as [ph []]. exists ph. split; try done.
  destruct pk_loop0 as (io & ? & ? & ?). exists io. split_and!; try done. by eapply in_phase_frame.
Qed.

(** ** One connection moves on *)

(** What a step of [c] may change in its loop's poller, in a queue of functors, in
    the base loop's queue and in the server. *)
Record poll_moves (c : chan) (fd : Z) (rg : registry) (h : heap) (rg' : registry) (p' : P) (h' : heap) : Prop := MkPollMoves {
  mv_inv : inv p' h' rg';
  mv_others c' : c' ≠ c → SetStatus 0 <$> h' !! c' = SetStatus 0 <$> h !! c';
  mv_own ch : h' !! c = Some ch → c ∈ used rg' ∧ is_event_handling_ ch = false;
  mv_kept : used rg ⊆ used rg';
  mv_used : used rg' ⊆ {[c]} ∪ used rg;
  mv_reg fd' : fd' ≠ fd → reg rg' !! fd' = reg rg !! fd';
  mv_reg_own c' ev : reg rg' !! fd = Some (c', ev) → c' = c;
}.

Record queue_moves (c : chan) (q q' : list loop_functor) : Prop := MkQueueMoves {
  qm_others c' : c' ≠ c → lifecycle c' q' = lifecycle c' q;
  qm_from f : f ∈ q' → f ∈ q ∨ target f = c;
}.

Record base_moves (c : chan) (b b' : list (chan * connection)) : Prop := MkBaseMoves {
  bm_others c' : c' ≠ c → removals c' b' = removals c' b;
  bm_from e : e ∈ b' → e ∈ b ∨ e.1 = c;
}.

Record server_moves (conn : connection) (s s' : TcpServer) : Prop := MkServerMoves {
  sm_ok : server_ok s';
  sm_name : name_ s' = name_ s;
  sm_ip : ip_port_ s' = ip_port_ s;
  sm_id : next_conn_id_ s' = next_conn_id_ s;
  sm_others nm : nm ≠ conn_name conn → connections_ s' !! nm = connections_ s !! nm;
  sm_own conn' : connections_ s' !! conn_name conn = Some conn' → conn' = conn;
}.

Lemma same_status_some (h h' : heap) c ch' :
  SetStatus 0 <$> h' !! c = SetStatus 0 <$> h !! c → h' !! c = Some ch' →
  ∃ ch, h !! c = Some ch ∧ is_event_handling_ ch' = is_event_handling_ ch.
Proof.
  intros E Hch. rewrite Hch in E. destruct (h !! c) as [ch|]; [|done]. exists ch. split; [done|]. cbn in E. by injection E.
Qed.

Lemma peer_frame rgs n n' st c x io x' rg' p' h' q' b' s' c0 x0 ph0 :
  let l := conn_loop (pp_connection x) in
  pool_inv rgs n st → n ≤ n' → pl_peers st !! c = Some x → pl_io st !! l = Some io →
  poll_moves c (conn_fd (pp_connection x)) (rgs l) (io_heap io) rg' p' h' →
  queue_moves c (io_pending io) q' → base_moves c (pl_base st) b' → server_moves (pp_connection x) (pl_server st) s' →
  c0 ≠ c → pl_peers st !! c0 = Some x0 → peer_ok n rgs st c0 x0 ph0 →
  peer_ok n' (<[l := rg']> rgs) (MkPooled s' b' (<[l := MkIo p' h' q']> (pl_io st)) (<[c := x']> (pl_peers st)) (pl_next st)) c0 x0 ph0.
Proof.
  cbv zeta. set (l := conn_loop (pp_connection x)). intros Hi Hn Hx Hio Hp Hq Hb Hs Hne Hx0 [Hc Hnx Hfd Hnm (io0 & Hio0 & Hq0 & Hph) Hba Hm].
  split; cbn [pl_next pl_server pl_io pl_base]; try done.
  - destruct Hnm as (id & ? & ?). exists id. by rewrite (sm_name _ _ _ Hs), (sm_ip _ _ _ Hs), (sm_id _ _ _ Hs).
  - destruct (decide (conn_loop (pp_connection x0) = l)) as [E|E].
    + rewrite E in *. assert (io0 = io) as -> by congruence. exists (MkIo p' h' q'). rewrite lookup_insert_eq, fn_lookup_insert.
      cbn [io_pending io_heap]. split; [done|]. split.
      * destruct Hq0 as [Hdue Htk]. split; [by rewrite (qm_others _ _ _ Hq)|]. intros t [?|?]%(qm_from _ _ _ Hq); [by apply Htk|done].
      * eapply in_phase_frame; [done..|by apply Hp| |].
        -- apply Hp. intros Ef. apply Hne. by eapply (pi_fds _ _ _ Hi).
        -- intros ?%(mv_used _ _ _ _ _ _ _ Hp). set_solver.
    + exists io0. rewrite lookup_insert_ne, fn_lookup_insert_ne by done. split_and!; try done. by eapply in_phase_frame.
  - by rewrite (bm_others _ _ _ Hb).
  - rewrite (sm_others _ _ _ Hs); [done|]. intros En. apply Hne. by eapply (pi_names _ _ _ Hi).
Qed.

Lemma loop_frame rgs n st c x io x' rg' p' h' q' b' s' l0 io0 :
  let l := conn_loop (pp_connection x) in
  pool_inv rgs n st → pl_peers st !! c = Some x → c < pl_next st → pl_io st !! l = Some io →
  pp_connection x' = pp_connection x →
  poll_moves c (conn_fd (pp_connection x)) (rgs l) (io_heap io) rg' p' h' → queue_moves c (io_pending io) q' →
  <[l := MkIo p' h' q']> (pl_io st) !! l0 = Some io0 →
  loop_ok ((<[l := rg']> rgs : loop → registry) l0)
    (MkPooled s' b' (<[l := MkIo p' h' q']> (pl_io st)) (<[c := x']> (pl_peers st)) (pl_next st)) l0 io0.
Proof.
  cbv zeta. set (l := conn_loop (pp_connection x)). intros Hi Hx Hlt Hio Hx' Hp Hq Hl0.
  assert (∀ c0 fd' l', (∃ y, pl_peers st !! c0 = Some y ∧ conn_fd (pp_connection y) = fd' ∧ conn_loop (pp_connection y) = l') →
    ∃ y, <[c := x']> (pl_peers st) !! c0 = Some y ∧ conn_fd (pp_connection y) = fd' ∧ conn_loop (pp_connection y) = l') as Hkeep.
  { intros c0 fd' l' (y & Hy & ? & ?). destruct (decide (c0 = c)) as [->|?]; [|exists y; by rewrite lookup_insert_ne].
    exists x'. rewrite lookup_insert_eq, Hx'. by simplify_eq. }
  assert (∀ c0, c0 ≠ c → pl_peers st !! c0 = None → <[c := x']> (pl_peers st) !! c0 = None) as Hnone.
  { intros. by rewrite lookup_insert_ne. }
  assert (∀ f l', (∃ y, pl_peers st !! target f = Some y ∧ conn_loop (pp_connection y) = l') →
    ∃ y, <[c := x']> (pl_peers st) !! target f = Some y ∧ conn_loop (pp_connection y) = l') as Htgt.
  { intros f l' (y & Hy & ?). destruct (Hkeep (target f) (conn_fd (pp_connection y)) l') as (z & ? & _ & ?); [by exists y|]. by exists z. }
  destruct (decide (l0 = l)) as [->|Hl].
  - rewrite lookup_insert_eq in Hl0. injection Hl0 as <-. rewrite fn_lookup_insert. destruct (pi_io _ _ _ Hi l io Hio) as [Li Lh Lu Lr Lt].
    split; cbn [io_poller io_heap io_pending pl_next pl_peers].
    + apply Hp.
    + intros c0 ch Hch. destruct (decide (c0 = c)) as [->|Hne]; [by apply Hp|].
      destruct (same_status_some (io_heap io) h' c0 ch) as (ch0 & Hch0 & ->); [by apply Hp|done|].
      destruct (Lh _ _ Hch0). split; [by apply (mv_kept _ _ _ _ _ _ _ Hp)|done].
    + intros c0 [->%elem_of_singleton|?]%(mv_used _ _ _ _ _ _ _ Hp)%elem_of_union; [done|by apply Lu].
    + intros fd c0 ev Hr. destruct (decide (fd = conn_fd (pp_connection x))) as [->|Hne].
      * apply (mv_reg_own _ _ _ _ _ _ _ Hp) in Hr as ->. left. exists x'. by rewrite lookup_insert_eq, Hx'.
      * rewrite (mv_reg _ _ _ _ _ _ _ Hp) in Hr by done. destruct (Lr _ _ _ Hr) as [?|[? Hno]]; [left; by apply Hkeep|right].
        split; [done|]. apply Hnone; [|done]. intros ->. congruence.
    + intros f [Hf|Hf]%(qm_from _ _ _ Hq); [by apply Htgt, Lt|]. exists x'. rewrite Hf, lookup_insert_eq. by rewrite Hx'.
  - rewrite lookup_insert_ne in Hl0 by done. rewrite fn_lookup_insert_ne by done. destruct (pi_io _ _ _ Hi l0 io0 Hl0) as [Li Lh Lu Lr Lt].
    split; cbn [pl_next pl_peers]; try done.
    + intros fd c0 ev Hr. destruct (Lr _ _ _ Hr) as [?|[? Hno]]; [left; by apply Hkeep|right]. split; [done|].
      apply Hnone; [|done]. intros ->. congruence.
    + intros f Hf. by apply Htgt, Lt.
Qed.

Lemma pool_put rgs n n' st c x ph io x' ph' rg' p' h' q' b' s' :
  let l := conn_loop (pp_connection x) in
  pool_inv rgs n st → n ≤ n' → pl_peers st !! c = Some x → peer_ok n rgs st c x ph → pl_io st !! l = Some io →
  pp_connection x' = pp_connection x → channel_ (pp_conn x') = c →
  poll_moves c (conn_fd (pp_connection x)) (rgs l) (io_heap io) rg' p' h' →
  queue_moves c (io_pending io) q' → base_moves c (pl_base st) b' → server_moves (pp_connection x) (pl_server st) s' →
  in_phase n' rg' h' c x' ph' → queue_ok c ph' q' →
  removals c b' = (if bool_decide (ph' = Closed) then [(c, pp_connection x)] else []) →
  (kept ph' = true ↔ connections_ s' !! conn_name (pp_connection x) = Some (pp_connection x)) →
  pool_inv (<[l := rg']> rgs) n' (MkPooled s' b' (<[l := MkIo p' h' q']> (pl_io st)) (<[c := x']> (pl_peers st)) (pl_next st)).
Proof.
  cbv zeta. set (l := conn_loop (pp_connection x)). intros Hi Hn Hx Hpk Hio Hcn Hch Hp Hq Hb Hs Hph Hqo Hrm Hk.
  assert (∀ c0 y, <[c := x']> (pl_peers st) !! c0 = Some y → ∃ y0, pl_peers st !! c0 = Some y0 ∧ pp_connection y = pp_connection y0) as Hback.
  { intros c0 y. destruct (decide (c0 = c)) as [->|?]; [rewrite lookup_insert_eq; intros [= <-]; by exists x|].
    rewrite lookup_insert_ne by done. intros ?. by exists y. }
  split; cbn [pl_server pl_io pl_base pl_peers pl_next].
  - apply Hs.
  - intros l0 Hl0. rewrite lookup_insert_is_Some'. right. by eapply pi_loops.
  - intros l0 io0 Hl0. eapply loop_frame; try done. apply Hpk.
  - intros c0 x0. destruct (decide (c0 = c)) as [->|Hne].
    + rewrite lookup_insert_eq. intros [= <-]. exists ph'. destruct Hpk as [_ ? ? (id & ? & ?) _ _ _]. split; cbn [pl_server pl_io pl_base pl_next]; rewrite ?Hcn; try done.
      * exists id. by rewrite (sm_name _ _ _ Hs), (sm_ip _ _ _ Hs), (sm_id _ _ _ Hs).
      * exists (MkIo p' h' q'). fold l. rewrite lookup_insert_eq, fn_lookup_insert. done.
    + rewrite lookup_insert_ne by done. intros Hx0. destruct (pi_peers _ _ _ Hi _ _ Hx0) as [ph0 Hp0]. exists ph0. by eapply peer_frame.
  - intros c1 c2 y1 y2 (z1 & ? & ->)%Hback (z2 & ? & ->)%Hback. by eapply (pi_fds _ _ _ Hi).
  - intros c1 c2 y1 y2 (z1 & ? & ->)%Hback (z2 & ? & ->)%Hback. by eapply (pi_names _ _ _ Hi).
  - intros e [He|He]%(bm_from _ _ _ Hb); rewrite lookup_insert_is_Some'; [right; by eapply pi_base|by left].
  - intros nm conn Hc. destruct (decide (nm = conn_name (pp_connection x))) as [->|Hne].
    + apply (sm_own _ _ _ Hs) in Hc as ->. split; [done|]. exists c, x'. by rewrite lookup_insert_eq.
    + rewrite (sm_others _ _ _ Hs) in Hc by done. destruct (pi_map _ _ _ Hi _ _ Hc) as (? & c0 & y & Hy & Hyc). split; [done|].
      destruct (decide (c0 = c)) as [->|?]; [exists c, x'; rewrite lookup_insert_eq; split; congruence|].
      exists c0, y. by rewrite lookup_insert_ne.
Qed.

(** Steps that leave a part alone. *)
Lemma poll_moves_same rgs n st c x io ph :
  pool_inv rgs n st → pl_io st !! conn_loop (pp_connection x) = Some io →
  in_phase n (rgs (conn_loop (pp_connection x))) (io_heap io) c x ph →
  poll_moves c (conn_fd (pp_connection x)) (rgs (conn_loop (pp_connection x))) (io_heap io)
    (rgs (conn_loop (pp_connection x))) (io_poller io) (io_heap io).
Proof.
  intros Hi Hio Hp. pose proof (pi_io _ _ _ Hi _ _ Hio) as [Li Lh Lu Lr Lt]. split; try done.
  - apply Lh.
  - set_solver.
  - intros c' ev E. unfold in_phase in Hp. destruct ph; cbv zeta in Hp; naive_solver congruence.
Qed.

Lemma queue_moves_refl c q : queue_moves c q q.
Proof. split; [done|]. by left. Qed.
Lemma queue_moves_tasks c f q ts : target f = c → queue_moves c (f :: q) (q ++ (TaskFunctor c <$> ts)).
Proof.
  intros Hf. split.
  - intros c' Hc'. by rewrite lifecycle_app, lifecycle_tasks, app_nil_r, lifecycle_cons_ne by congruence.
  - intros g [?|(t & -> & _)%list_elem_of_fmap]%elem_of_app; [left; by right|by right].
Qed.
Lemma queue_moves_app c q fs : (∀ f, f ∈ fs → target f = c) → queue_moves c q (q ++ fs).
Proof.
  intros Hf. split.
  - intros c' Hc'. rewrite lifecycle_app. assert (lifecycle c' fs = []) as ->; [|by rewrite app_nil_r].
    apply elem_of_nil_inv. intros f [[-> | ->] Hin]%lifecycle_in; by apply Hf in Hin.
  - intros g [?|?]%elem_of_app; [by left|right; by apply Hf].
Qed.
Lemma base_moves_refl c b : base_moves c b b.
Proof. split; [done|]. by left. Qed.
Lemma base_moves_app c b conn : base_moves c b (b ++ [(c, conn)]).
Proof.
  split.
  - intros c' Hc'. by rewrite removals_app, (removals_cons_ne c' (c, conn)), app_nil_r.
  - intros e [?| ->%list_elem_of_singleton]%elem_of_app; [by left|by right].
Qed.
Lemma server_moves_refl rgs n st c x :
  pool_inv rgs n st → pl_peers st !! c = Some x → server_moves (pp_connection x) (pl_server st) (pl_server st).
Proof.
  intros Hi Hx. split; try done; [apply Hi|]. intros conn' Hc. destruct (pi_map _ _ _ Hi _ _ Hc) as (Hn & c0 & y & Hy & <-).
  assert (c0 = c) as -> by (by eapply (pi_names _ _ _ Hi)). by simplify_eq.
Qed.

#[export] Instance queue_moves_trans c : Transitive (queue_moves c).
Proof.
  intros q1 q2 q3 [O1 F1] [O2 F2]. split; [intros c' Hc'; by rewrite O2, O1|]. intros f [?%F1|?]%F2; [done|by right].
Qed.

(** ** Handlers of a connection in its loop *)
Abbreviation alone c conn rg server :=
  (lifted_inv (frame_inv (inv := inv) c (conn_fd conn) (delete (conn_fd conn) (reg rg)) (used rg)) server).
Implicit Types w : world (P * TcpServer).

Lemma load_up n rg p h q st c x :
  inv p h rg → (∀ c' y, h !! c' = Some y → c' ∈ used rg) → channel_ (pp_conn x) = c → in_phase n rg h c x Up →
  up (inv := alone c (pp_connection x) rg (pl_server st)) n (pool_load x (MkIo p h q) st).
Proof.
  intros Hi Hu Hc (Hst & [] & ev & Hr & Hio). split; try done. destruct (inv_common _ _ _ Hi) as [chs Hci].
  destruct (ci_reg _ _ _ Hci _ _ _ Hr) as (_ & _ & _ & ch & Hch & Hfd & Hev).
  exists (MkRegistry {[conn_fd (pp_connection x) := (c, ev)]} (used rg)), ch. split; cbn [pool_load poller channels TcpConnection.conn io_poller io_heap].
  - split; [|done]. by apply frame_take.
  - by rewrite Hc.
  - cbn [reg]. rewrite Hfd, Hc, Hev. apply lookup_singleton_eq.
  - by rewrite Hev.
Qed.

(** The poller after a handler, for the loop that has the other channels too. *)
Lemma pool_unload c conn rg server h w r y :
  registered (inv := alone c conn rg server) w r y → channel_ (TcpConnection.conn w) = c →
  (∀ c', c' ≠ c → SetStatus 0 <$> channels w !! c' = SetStatus 0 <$> h !! c') →
  ∃ rg', reg rg' !! conn_fd conn = Some (c, Channel.events_ y) ∧ channels w !! c = Some y ∧
    ∀ y', fd_ y' = fd_ y → status_ y' = status_ y → Channel.events_ y' = Channel.events_ y → is_event_handling_ y' = false →
      poll_moves c (conn_fd conn) rg h rg' (poller w).1 (<[c := y']> (channels w)).
Proof.
  intros [[Hf Hsv] Hch Hr Hio] Hc Ho. rewrite Hc in *. pose proof (own_fd _ _ _ _ _ _ _ _ _ Hf Hr) as Hfd. rewrite Hfd in Hr.
  destruct (frame_put _ _ _ _ _ _ _ _ Hf Hr) as (rg' & Hi & Hrg & Hu1 & Hu2). rewrite insert_delete_eq in Hrg.
  exists rg'. split; [by rewrite Hrg, lookup_insert_eq|]. split; [done|]. intros y' Hy1 Hy2 Hy3 Hy4.
  destruct (inv_common _ _ _ Hi) as [chs Hci].
  destruct (ci_reg _ _ _ Hci (conn_fd conn) c (Channel.events_ y)) as (Hin & _); [by rewrite Hrg, lookup_insert_eq|].
  split; try done.
  - by eapply inv_touch.
  - intros c' Hne. rewrite lookup_insert_ne by done. by apply Ho.
  - rewrite lookup_insert_eq. by intros ch [= <-].
  - intros fd' Hne. by rewrite Hrg, lookup_insert_ne.
  - intros c' ev. rewrite Hrg, lookup_insert_eq. by intros [= -> _].
Qed.

(** How a handler leaves an open connection: up, or closed with its removal
    queued in the base loop. *)
Record landed (n : Z) (c : chan) (conn : connection) (rg : registry) (server : TcpServer) (ph : phase) w : Prop := MkLanded {
  ld_registered : ∃ r y, registered (inv := alone c conn rg (poller w).2) w r y ∧ (ph = Closed → Channel.events_ y = 0);
  ld_channel : channel_ (TcpConnection.conn w) = c;
  ld_phase : match ph with
    | Up => (state_ (TcpConnection.conn w) = kConnected ∨ state_ (TcpConnection.conn w) = kDisconnecting) ∧
            usable n (TcpConnection.conn w) ∧ (poller w).2 = server
    | Closed => state_ (TcpConnection.conn w) = kDisconnected ∧
            (poller w).2 = post (loop_ server) (RemoveConnectionInLoopTask conn) server
    | _ => False
    end;
}.

Lemma up_landed n c conn rg server w :
  up (inv := alone c conn rg server) n w → channel_ (TcpConnection.conn w) = c → landed n c conn rg server Up w.
Proof.
  intros [(r & y & Hr) ? ? ? ? ?] Hc. pose proof (rg_inv _ _ _ Hr) as [_ Hsv]. split; [|done|done].
  exists r, y. split; [|done]. by rewrite Hsv.
Qed.

Lemma closed_landed n c conn rg server w :
  closed (inv := alone c conn rg server) w → channel_ (TcpConnection.conn w) = c →
  ∃ w', pool_close conn w = Ok w' ∧ landed n c conn rg server Closed w' ∧ channels w' = channels w ∧ tasks w' = tasks w.
Proof.
  intros [(r & y & [[Hf Hsv] Hch Hr Hio] & He) Hs _] Hc. unfold pool_close, RemoveConnection. cbn [mbind outcome_bind]. eexists. split; [done|].
  split; [|done]. split; [|done|]; cbn; [|by rewrite Hsv]. exists r, y. by split.
Qed.

Lemma pool_close_effect conn w w' : pool_close conn w = Ok w' → effect w w'.
Proof. unfold pool_close. intros E. apply bind_Ok in E as (s & _ & [= <-]). by apply effect_same. Qed.

Lemma handled_landed n c conn rg server m w0 :
  handled (inv := alone c conn rg server) n (pool_close conn) m → (∀ w, m = Ok w → effect w0 w) → channel_ (TcpConnection.conn w0) = c →
  ∃ w ph, m = Ok w ∧ landed n c conn rg server ph w ∧ effect w0 w.
Proof.
  intros [Hr|(w1 & Hc & ->)] He Hw0.
  - apply returns_ok_iff in Hr as (w & -> & Hu). exists w, Up. split; [done|]. split; [|by apply He]. apply up_landed; [done|].
    by rewrite (ef_channel _ _ (He _ eq_refl)).
  - pose proof (ef_channel _ _ (He _ eq_refl)) as Hch. cbn in Hch.
    destruct (closed_landed n c conn rg server w1 Hc) as (w' & Hw' & Hl & _); [congruence|]. exists w', Closed. split; [done|].
    split; [done|]. by apply He.
Qed.

(** The state after such a handler. *)
Lemma settle rgs n n' st c x ph io w y' q ph' :
  let conn := pp_connection x in
  pool_inv rgs n st → n ≤ n' → pl_peers st !! c = Some x → peer_ok n rgs st c x ph → ph = Waiting ∨ ph = Up →
  pl_io st !! conn_loop conn = Some io → landed n' c conn (rgs (conn_loop conn)) (pl_server st) ph' w →
  (∀ c', c' ≠ c → SetStatus 0 <$> channels w !! c' = SetStatus 0 <$> io_heap io !! c') → Forall harmless (tasks w) →
  queue_moves c (io_pending io) q → lifecycle c q = [] → (∀ t, TaskFunctor c t ∈ q → harmless t) →
  (∃ y, channels w !! c = Some y ∧ fd_ y' = fd_ y ∧ status_ y' = status_ y ∧ Channel.events_ y' = Channel.events_ y) →
  is_event_handling_ y' = false →
  ∃ rgs', pool_inv rgs' n'
    (MkPooled (pl_server st) (pl_base st ++ to_base c w)
       (<[conn_loop conn := MkIo (poller w).1 (<[c := y']> (channels w)) (q ++ (TaskFunctor c <$> tasks w))]> (pl_io st))
       (<[c := pool_peer_of conn w]> (pl_peers st)) (pl_next st)).
Proof.
  cbv zeta. set (conn := pp_connection x). intros Hi Hn Hx Hpk Hph Hio [(r & y & Hr & Hev) Hch Hld] Ho Hts Hqm Hlc Hqt (y0 & Hy0 & Ey1 & Ey2 & Ey3) Hh.
  destruct (pool_unload _ _ _ _ _ _ _ _ Hr Hch Ho) as (rg' & Hrg & Hy & Hmv). assert (y0 = y) as -> by congruence.
  specialize (Hmv y' Ey1 Ey2 Ey3 Hh). exists (<[conn_loop conn := rg']> rgs).
  assert (removals c (pl_base st) = []) as Hb0 by (rewrite (pk_base _ _ _ _ _ _ Hpk); by destruct Hph as [-> | ->]).
  assert (connections_ (pl_server st) !! conn_name conn = Some conn) as Hm by (apply (pk_map _ _ _ _ _ _ Hpk); by destruct Hph as [-> | ->]).
  assert (to_base c w = if bool_decide (ph' = Closed) then [(c, conn)] else []) as Hb1.
  { unfold to_base. destruct ph'; try done; [destruct Hld as (_ & _ & ->)|destruct Hld as (_ & ->); cbn [post posted]];
      rewrite (so_posted _ (pi_server _ _ _ Hi)); done. }
  apply (pool_put rgs n n' st c x ph io _ ph'); try done.
  - etransitivity; [done|]. apply queue_moves_app. by intros f (t & -> & _)%list_elem_of_fmap.
  - rewrite Hb1. case_bool_decide; [apply base_moves_app|rewrite app_nil_r; apply base_moves_refl].
  - by eapply server_moves_refl.
  - unfold in_phase. cbn [pool_peer_of pp_connection pp_conn]. rewrite Hrg. destruct ph'; try done.
    + destruct Hld as (? & ? & _). split; [done|]. split; [done|]. eexists. split; [done|]. apply Hr.
    + destruct Hld as (? & _). by rewrite Hev.
  - split.
    + rewrite lifecycle_app, lifecycle_tasks, Hlc. by destruct ph'.
    + intros t [Ht|(t' & [= ->] & Ht)%list_elem_of_fmap]%elem_of_app; (split; [|by destruct ph']); [by apply Hqt|].
      rewrite Forall_forall in Hts. by apply Hts.
  - by rewrite removals_app, Hb0, Hb1; case_bool_decide; rewrite ?removals_cons_eq.
  - split; intros _; [exact Hm|by destruct ph'].
Qed.

(** A step that leaves the connection itself as it is. *)
Lemma idle rgs n n' st c x ph io w q :
  let conn := pp_connection x in
  pool_inv rgs n st → n ≤ n' → pl_peers st !! c = Some x → peer_ok n rgs st c x ph → ph ≠ Waiting → pl_io st !! conn_loop conn = Some io →
  TcpConnection.conn w = pp_conn x → poller w = (io_poller io, pl_server st) → channels w = io_heap io → tasks w = [] →
  queue_moves c (io_pending io) q → queue_ok c ph q →
  ∃ rgs', pool_inv rgs' n'
    (MkPooled (pl_server st) (pl_base st ++ to_base c w)
       (<[conn_loop conn := MkIo (poller w).1 (channels w) (q ++ (TaskFunctor c <$> tasks w))]> (pl_io st))
       (<[c := pool_peer_of conn w]> (pl_peers st)) (pl_next st)).
Proof.
  cbv zeta. set (conn := pp_connection x). intros Hi Hn Hx Hpk Hph Hio Ec Ep Eh Et Hqm Hqo.
  exists (<[conn_loop conn := rgs (conn_loop conn)]> rgs). rewrite Ep, Eh, Et. unfold to_base. rewrite Ep. cbn [fst snd].
  rewrite (so_posted _ (pi_server _ _ _ Hi)). cbn [omap list_omap fmap list_fmap]. rewrite !app_nil_r.
  destruct (pk_loop _ _ _ _ _ _ Hpk) as (io' & Hio' & _ & Hin). assert (io' = io) as -> by (unfold conn in *; congruence).
  apply (pool_put rgs n n' st c x ph io _ ph); try done.
  - cbn. rewrite Ec. apply Hpk.
  - by eapply poll_moves_same.
  - apply base_moves_refl.
  - by eapply server_moves_refl.
  - eapply (in_phase_frame n n') in Hin; [|done..|by intros]. unfold in_phase in *. cbn [pool_peer_of pp_connection pp_conn]. rewrite Ec. by destruct ph.
  - apply Hpk.
  - apply Hpk.
Qed.

(** The functor at the head of a queue. *)
Lemma queue_ok_tail c ph f q : queue_ok c ph (f :: q) → lifecycle c q = lifecycle c (f :: q) → queue_ok c ph q.
Proof. intros [Hd Ht] E. split; [by rewrite E|]. intros t Hin. apply Ht. by right. Qed.

Lemma queue_moves_tail c f q : target f = c → queue_moves c (f :: q) q.
Proof.
  intros Hf. split; [|left; by right]. intros c' Hc'. by rewrite lifecycle_cons_ne by congruence.
Qed.

Lemma queue_ok_first c ph f q :
  queue_ok c ph (f :: q) → f = EstablishFunctor c ∨ f = DestroyedFunctor c →
  due ph c = [f] ∧ lifecycle c q = [] ∧ (∀ t, TaskFunctor c t ∈ q → harmless t).
Proof.
  intros [Hd Ht] Hf. unfold lifecycle in Hd. rewrite filter_cons, decide_True in Hd by done. fold (lifecycle c q) in Hd.
  assert (due ph c = [f] ∧ lifecycle c q = []) as [? ?] by (destruct ph; by simplify_eq/=).
  split_and!; try done. intros t Hin. apply (Ht t). by right.
Qed.

Lemma on_peer_eq c f st x io :
  pl_peers st !! c = Some x → pl_io st !! conn_loop (pp_connection x) = Some io →
  on_peer c f st = (w ← f (pp_connection x) (pool_load x io st); Ok (pool_store c (pp_connection x) w io st)).
Proof. intros Hx Hio. unfold on_peer, find_peer. by rewrite Hx, Hio. Qed.

(** The channel of a connection that is not waiting. *)
Lemma phase_channel rgs n st c x ph io :
  pool_inv rgs n st → peer_ok n rgs st c x ph → ph ≠ Waiting → pl_io st !! conn_loop (pp_connection x) = Some io →
  ∃ ch, io_heap io !! c = Some ch ∧ (ph ≠ Up → Channel.events_ ch = 0 ∧ state_ (pp_conn x) = kDisconnected).
Proof.
  intros Hi Hpk Hne Hio. destruct (pk_loop _ _ _ _ _ _ Hpk) as (io' & Hio' & _ & Hin). assert (io' = io) as -> by congruence.
  destruct (inv_common _ _ _ (lo_inv _ _ _ _ (pi_io _ _ _ Hi _ _ Hio))) as [chs Hci].
  unfold in_phase in Hin. destruct ph; try done.
  - destruct Hin as (_ & _ & ev & Hr & _). destruct (ci_reg _ _ _ Hci _ _ _ Hr) as (_ & _ & _ & ch & ? & _ & _). by exists ch.
  - destruct Hin as (? & Hr). destruct (ci_reg _ _ _ Hci _ _ _ Hr) as (_ & _ & _ & ch & ? & _ & ?). by exists ch.
  - destruct Hin as (? & Hr). destruct (ci_reg _ _ _ Hci _ _ _ Hr) as (_ & _ & _ & ch & ? & _ & ?). by exists ch.
  - destruct Hin as (? & _ & ch & ? & _ & ?). by exists ch.
Qed.

(** [settle], for a handler that started with the channel [ch1]. *)
Lemma settle_effect rgs n n' st c x ph io ch1 h1 w0 w q ph' :
  let conn := pp_connection x in
  pool_inv rgs n st → n ≤ n' → pl_peers st !! c = Some x → peer_ok n rgs st c x ph → ph = Waiting ∨ ph = Up →
  pl_io st !! conn_loop conn = Some io → h1 !! c = Some ch1 → (∀ c', c' ≠ c → h1 !! c' = io_heap io !! c') →
  channels w0 = h1 → tasks w0 = [] → channel_ (TcpConnection.conn w0) = c → effect w0 w →
  landed n' c conn (rgs (conn_loop conn)) (pl_server st) ph' w →
  queue_moves c (io_pending io) q → lifecycle c q = [] → (∀ t, TaskFunctor c t ∈ q → harmless t) →
  ∃ y rgs', channels w !! c = Some y ∧ is_event_handling_ y = is_event_handling_ ch1 ∧ pool_inv rgs' n'
    (MkPooled (pl_server st) (pl_base st ++ to_base c w)
       (<[conn_loop conn := MkIo (poller w).1 (<[c := set_handling false y]> (channels w)) (q ++ (TaskFunctor c <$> tasks w))]> (pl_io st))
       (<[c := pool_peer_of conn w]> (pl_peers st)) (pl_next st)).
Proof.
  cbv zeta. intros Hi Hn Hx Hpk Hph Hio Hc1 Hh1 E1 E2 E3 [_ Ho Hown (ts & Ets & Hts)] Hl Hqm Hlc Hqt.
  destruct (ld_registered _ _ _ _ _ _ _ Hl) as (r & y & Hr & _). pose proof (rg_chan _ _ _ Hr) as Hy. rewrite (ld_channel _ _ _ _ _ _ _ Hl) in Hy.
  rewrite E3, E1, Hy, Hc1 in Hown. injection Hown as Hown.
  destruct (settle rgs n n' st c x ph io w (set_handling false y) q ph') as [rgs' Hi']; try done.
  - intros c' Hne. rewrite Ho, E1, Hh1 by congruence. done.
  - by rewrite Ets, E2.
  - by exists y.
  - by exists y, rgs'.
Qed.

Lemma set_handling_id (h : heap) c y : h !! c = Some y → is_event_handling_ y = false → <[c := set_handling false y]> h = h.
Proof. intros Hy Hf. apply insert_id. rewrite Hy. destruct y. cbn in *. by subst. Qed.

(** ** The functors of a loop *)
Lemma task_step rgs n st l io c t rest ops :
  pool_inv rgs n st → pl_io st !! l = Some io → io_pending io = TaskFunctor c t :: rest →
  (∀ d, t = SendInLoopTask d → 2 * kCheapPrepend + n + zlen d ≤ vector_max_size) →
  ∃ st' rgs', run_loop_functor ops (TaskFunctor c t) (set_io l (MkIo (io_poller io) (io_heap io) rest) st) = Ok st' ∧
    pool_inv rgs' (n + match t with SendInLoopTask d => zlen d | _ => 0 end) st'.
Proof.
  intros Hi Hio Hq Hb. set (sz := match t with SendInLoopTask d => zlen d | _ => 0 end).
  assert (0 ≤ sz) as Hsz by (unfold sz; destruct t; [apply zlen_nonneg|done..]).
  pose proof (pi_io _ _ _ Hi _ _ Hio) as Hlo. destruct (lo_target _ _ _ _ Hlo (TaskFunctor c t)) as (x & Hx & <-); [rewrite Hq; by left|].
  cbn [target] in Hx. destruct (pi_peers _ _ _ Hi _ _ Hx) as [ph Hpk]. pose proof (pk_loop _ _ _ _ _ _ Hpk) as (io' & Hio' & Hqo & Hin).
  assert (io' = io) as -> by congruence. rewrite Hq in Hqo. destruct (qo_tasks _ _ _ Hqo t) as [Hht Hnw]; [by left|].
  assert (queue_ok c ph rest) as Hqr by (eapply queue_ok_tail; [done|]; by rewrite lifecycle_cons_task).
  assert (queue_moves c (io_pending io) rest) as Hqm by (rewrite Hq; by apply queue_moves_tail).
  pose proof (pk_channel _ _ _ _ _ _ Hpk) as Hch.
  cbn [run_loop_functor]. rewrite (on_peer_eq c _ _ x (MkIo (io_poller io) (io_heap io) rest)); [|done|by apply lookup_insert_eq].
  unfold pool_store. cbn [set_io pl_io pl_server pl_base pl_peers pl_next io_pending].
  set (w0 := pool_load x _ _). destruct (phase_channel rgs n st c x ph io) as (ch & Hc & Hdown); [done..|].
  destruct (decide (ph = Up)) as [->|Hnu].
  - assert (up (inv := alone c (pp_connection x) (rgs (conn_loop (pp_connection x))) (pl_server st)) n w0) as Hu.
    { refine (load_up n _ _ _ rest st c x _ _ _ _); try done; [apply Hlo|]. intros c' y Hy. by eapply lo_heap. }
    destruct (handled_landed (n + sz) c (pp_connection x) (rgs (conn_loop (pp_connection x))) (pl_server st)
      (run_task (user_run (pool_close (pp_connection x)) ops) (pool_close (pp_connection x)) t w0) w0) as (w & ph' & -> & Hl & He).
    + by apply up_run_task.
    + intros w. apply run_task_effect; [intros ? ?; apply user_run_effect|apply pool_close_effect|done].
    + done.
    + cbn [mbind outcome_bind]. destruct (settle_effect rgs n (n + sz) st c x Up io ch (io_heap io) w0 w rest ph') as (y & rgs' & Hy & Hyh & Hi');
        try done; [lia|by right|apply Hqr|by intros t' [? _]%(qo_tasks _ _ _ Hqr)|].
      rewrite set_handling_id in Hi'; [|done|rewrite Hyh; by eapply lo_heap]. eexists _, rgs'. split; [done|]. by rewrite insert_insert_eq.
  - destruct (Hdown Hnu) as [He Hs].
    destruct (down_run_task (user_run (pool_close (pp_connection x)) ops) (pool_close (pp_connection x)) t w0 ch)
      as (w & -> & Ec & Ep & Eh & Et); [done|by cbn; rewrite Hch|done..|].
    cbn [mbind outcome_bind]. destruct (idle rgs n (n + sz) st c x ph io w rest) as [rgs' Hi']; try done; [lia|].
    eexists _, rgs'. split; [done|]. by rewrite insert_insert_eq.
Qed.

Lemma load_fresh n rg p h q st c x :
  inv p h rg → (∀ c' y, h !! c' = Some y → c' ∈ used rg) → 0 ≤ conn_fd (pp_connection x) → in_phase n rg h c x Waiting →
  let w := pool_load x (MkIo p (<[c := Channel_new (conn_fd (pp_connection x))]> h) q) st in
  fresh (inv := alone c (pp_connection x) rg (pl_server st)) (poller w) (channels w) (MkRegistry ∅ (used rg)) c
    (Channel_new (conn_fd (pp_connection x))).
Proof.
  intros Hi Hu Hfd (Hs & _ & _ & Hc & Hn & Hr). cbv zeta. split; try done; [|apply lookup_insert_eq]. split; [|done].
  rewrite delete_id by done. set (ch := Channel_new _). change (conn_fd (pp_connection x)) with (fd_ ch). apply frame_fresh; try done.
  - cbn. by apply inv_alloc.
  - apply lookup_insert_eq.
  - cbn. intros c' y. destruct (decide (c' = c)) as [->|?]; [by left|]. rewrite lookup_insert_ne by done. intros Hy. right. by eapply Hu.
Qed.

Lemma establish_step rgs n st l io c rest ops :
  pool_inv rgs n st → 0 ≤ n → pl_io st !! l = Some io → io_pending io = EstablishFunctor c :: rest →
  2 * kCheapPrepend + n + ops_size ops ≤ vector_max_size →
  ∃ st' rgs', run_loop_functor ops (EstablishFunctor c) (set_io l (MkIo (io_poller io) (io_heap io) rest) st) = Ok st' ∧
    pool_inv rgs' (n + ops_size ops) st'.
Proof.
  intros Hi Hn Hio Hq Hb. pose proof (ops_size_nonneg ops) as Hsz.
  pose proof (pi_io _ _ _ Hi _ _ Hio) as Hlo. destruct (lo_target _ _ _ _ Hlo (EstablishFunctor c)) as (x & Hx & <-); [rewrite Hq; by left|].
  cbn [target] in Hx. destruct (pi_peers _ _ _ Hi _ _ Hx) as [ph Hpk]. pose proof (pk_loop _ _ _ _ _ _ Hpk) as (io' & Hio' & Hqo & Hin).
  assert (io' = io) as -> by congruence. rewrite Hq in Hqo. destruct (queue_ok_first _ _ _ _ Hqo) as (Hdue & Hlc & Htk); [by left|].
  assert (ph = Waiting) as -> by (by destruct ph).
  pose proof (pk_channel _ _ _ _ _ _ Hpk) as Hch. set (conn := pp_connection x) in *. set (rg := rgs (conn_loop conn)) in *.
  cbn [run_loop_functor]. unfold establish_peer, find_peer. cbn [set_io pl_peers pl_io]. rewrite Hx. fold conn. rewrite lookup_insert_eq. cbn [mbind outcome_bind].
  set (h1 := <[c := Channel_new (conn_fd conn)]> (io_heap io)).
  rewrite (on_peer_eq c _ _ x (MkIo (io_poller io) h1 rest)); [|done|by apply lookup_insert_eq].
  unfold pool_store. cbn [set_io set_io_heap pl_io pl_server pl_base pl_peers pl_next io_pending io_poller io_heap].
  set (w0 := pool_load x _ _). destruct (load_fresh n rg (io_poller io) (io_heap io) rest st c x) as [F1 F2 F3 F4 F5 F6]; try done; [apply Hlo|by intros; eapply lo_heap|apply Hpk|].
  destruct Hin as (Hs & [] & _).
  destruct (up_ConnectEstablished (inv := alone c conn rg (pl_server st)) n (MkRegistry ∅ (used rg)) c (Channel_new (conn_fd conn))
    (user_run (pool_close conn) ops) w0) as (w1 & Hu1 & Hw1); [by split|done..|].
  pose proof (up_user_run (pool_close conn) n ops w1 Hu1 Hb Hn) as Hu. rewrite <-Hw1 in Hu. apply returns_ok_iff in Hu as (w & Hw & Hu).
  assert (effect w0 w) as He.
  { eapply (ConnectEstablished_effect (user_run (pool_close conn) ops)); [intros ? ?; apply user_run_effect|done]. }
  fold conn. cbv beta. rewrite Hw. cbn [mbind outcome_bind].
  destruct (settle_effect rgs n (n + ops_size ops) st c x Waiting io (Channel_new (conn_fd conn)) h1 w0 w rest Up) as (y & rgs' & Hy & Hyh & Hi');
    try done; [lia|by left|intros; by apply lookup_insert_ne| |rewrite Hq; by apply queue_moves_tail|].
  { apply up_landed; [done|]. by rewrite (ef_channel _ _ He). }
  rewrite set_handling_id in Hi' by (done || by rewrite Hyh). eexists _, rgs'. split; [done|]. by rewrite !insert_insert_eq.
Qed.

Lemma destroyed_step rgs n st l io c rest ops :
  pool_inv rgs n st → pl_io st !! l = Some io → io_pending io = DestroyedFunctor c :: rest →
  ∃ st' rgs', run_loop_functor ops (DestroyedFunctor c) (set_io l (MkIo (io_poller io) (io_heap io) rest) st) = Ok st' ∧ pool_inv rgs' n st'.
Proof.
  intros Hi Hio Hq.
  pose proof (pi_io _ _ _ Hi _ _ Hio) as Hlo. destruct (lo_target _ _ _ _ Hlo (DestroyedFunctor c)) as (x & Hx & <-); [rewrite Hq; by left|].
  cbn [target] in Hx. destruct (pi_peers _ _ _ Hi _ _ Hx) as [ph Hpk]. pose proof (pk_loop _ _ _ _ _ _ Hpk) as (io' & Hio' & Hqo & Hin).
  assert (io' = io) as -> by congruence. rewrite Hq in Hqo. destruct (queue_ok_first _ _ _ _ Hqo) as (Hdue & Hlc & Htk); [by right|].
  assert (ph = Removed) as -> by (by destruct ph). destruct Hin as [Hs Hr].
  pose proof (pk_channel _ _ _ _ _ _ Hpk) as Hch. set (conn := pp_connection x) in *. set (rg := rgs (conn_loop conn)) in *.
  cbn [run_loop_functor]. rewrite (on_peer_eq c _ _ x (MkIo (io_poller io) (io_heap io) rest)); [|done|by apply lookup_insert_eq].
  unfold pool_store. cbn [set_io pl_io pl_server pl_base pl_peers pl_next io_pending]. set (w0 := pool_load x _ _). cbv beta. fold conn.
  destruct (inv_common _ _ _ (lo_inv _ _ _ _ Hlo)) as [chs Hci]. destruct (ci_reg _ _ _ Hci _ _ _ Hr) as (Hu & _ & _ & ch & Hc & Hfd & Hev).
  destruct (closed_ConnectDestroyed (inv := lifted_inv inv (pl_server st)) (user_run (pool_close conn) ops) rg ch w0) as (p' & h' & y & Hw & [Hi' Hsv] & Hy & Ha & Hev').
  { split; cbn; rewrite ?Hch, ?Hfd, ?Hev; try done; [|unfold io_events; set_solver]. split; [apply Hlo|done]. }
  { done. }
  { done. }
  cbn in Hy. rewrite Hch in Hy. rewrite Hfd in Hi'. set (w := set_channels (p', h') w0) in *.
  assert (effect w0 w) as [_ Ho Hown _] by (eapply (ConnectDestroyed_effect (user_run (pool_close conn) ops)); [intros ? ?; apply user_run_effect|done]).
  cbn in Ho, Hown. rewrite Hch in *. rewrite Hw. cbn [mbind outcome_bind].
  eexists _, _. split; [done|]. rewrite insert_insert_eq. cbn [w set_channels poller channels tasks fst snd w0 pool_load fmap list_fmap]. rewrite app_nil_r.
  assert (to_base c w = []) as ->.
  { unfold to_base, w. cbn. cbn in Hsv. rewrite Hsv. by rewrite (so_posted _ (pi_server _ _ _ Hi)). }
  rewrite app_nil_r. apply (pool_put rgs n n st c x Removed io _ Destroyed); try done.
  - split; try done; cbn [reg used].
    + intros c0. rewrite Hy, Hc in Hown. injection Hown as Hown. rewrite Hy. intros [= <-]. rewrite Hown. split; [done|by eapply lo_heap].
    + set_solver.
    + intros fd' Hne. by rewrite lookup_delete_ne.
    + intros c' ev. by rewrite lookup_delete_eq.
  - rewrite Hq. by apply queue_moves_tail.
  - apply base_moves_refl.
  - by eapply server_moves_refl.
  - split; [done|]. cbn. split; [apply lookup_delete_eq|]. by exists y.
  - split; [done|]. intros t Ht. split; [by apply Htk|done].
  - apply Hpk.
  - apply Hpk.
Qed.

(** [DoPendingFunctors], one functor. *)
Lemma loop_next_step rgs n st l ops :
  pool_inv rgs n st → 0 ≤ n → 2 * kCheapPrepend + n + pool_size (LoopFunctor l ops) st ≤ vector_max_size →
  ∃ st' rgs', loop_next l ops st = Ok st' ∧ pool_inv rgs' (n + pool_size (LoopFunctor l ops) st) st'.
Proof.
  intros Hi Hn Hb. pose proof (ops_size_nonneg ops) as Hsz. unfold loop_next. cbn [pool_size] in *.
  destruct (pl_io st !! l) as [io|] eqn:Hio; cbn [mbind option_bind] in *.
  2:{ exists st, rgs. split; [done|]. eapply pool_inv_mono; [done|lia]. }
  destruct (io_pending io) as [|f rest] eqn:Hq; cbn [head] in *; [exists st, rgs; split; [done|]; eapply pool_inv_mono; [done|lia]|].
  destruct f as [c|c t|c].
  - destruct (establish_step rgs n st l io c rest ops) as (st' & rgs' & -> & Hi'); [done..|lia|]. exists st', rgs'.
    split; [done|]. eapply pool_inv_mono; [done|lia].
  - destruct (task_step rgs n st l io c t rest ops) as (st' & rgs' & -> & Hi'); try done; [intros d ->; lia|]. exists st', rgs'.
    split; [done|]. eapply pool_inv_mono; [done|]. destruct t; lia.
  - destruct (destroyed_step rgs n st l io c rest ops) as (st' & rgs' & -> & Hi'); try done. exists st', rgs'.
    split; [done|]. eapply pool_inv_mono; [done|lia].
Qed.

(** ** Events of a loop *)
Lemma pool_report conn r ops cb_ops tied t w :
  HandleEvent (pool_callbacks conn r ops cb_ops) tied true (revents_of r) t w =
  (w ← match rp_in r with
       | Some ans => HandleRead (λ _, user_run (pool_close conn) ops) (user_run (pool_close conn) cb_ops) (pool_close conn) ans t w
       | None => if rp_hup r then HandleClose (user_run (pool_close conn) cb_ops) (pool_close conn) w else Ok w
       end;
   if rp_out r then HandleWrite w else Ok w).
Proof.
  transitivity (HandleEventWithGuard (pool_callbacks conn r ops cb_ops) (revents_of r) t w); [by destruct tied|].
  unfold HandleEventWithGuard. rewrite revents_hup, revents_err, revents_in, revents_out. cbn [call pool_callbacks
    close_callback_ error_callback_ read_callback_ write_callback_ fmap option_fmap option_map].
  destruct (rp_in r) as [ans|]; cbn [default]; [|destruct (rp_hup r); [destruct (HandleClose _ _ w); [|done]|]];
    cbn [mbind outcome_bind]; by destruct (rp_err r).
Qed.

Definition report_size (r : report) : Z := match rp_in r with Some a => answer_size a | None => 0 end.

Lemma answer_size_nonneg a : 0 ≤ answer_size a.
Proof. destruct a; cbn; [lia|apply zlen_nonneg]. Qed.
Lemma report_size_nonneg r : 0 ≤ report_size r.
Proof. unfold report_size. destruct (rp_in r); [apply answer_size_nonneg|lia]. Qed.

Lemma up_report n c conn rg server r ops cb_ops tied t w :
  up (inv := alone c conn rg server) n w → 0 ≤ n → 2 * kCheapPrepend + n + report_size r + ops_size ops ≤ vector_max_size →
  handled (inv := alone c conn rg server) (n + report_size r + ops_size ops) (pool_close conn)
    (HandleEvent (pool_callbacks conn r ops cb_ops) tied true (revents_of r) t w).
Proof.
  intros Hu Hn Hb. pose proof (report_size_nonneg r). pose proof (ops_size_nonneg ops). rewrite pool_report. set (m := match rp_in r with Some _ => _ | None => _ end).
  assert (handled (inv := alone c conn rg server) (n + report_size r + ops_size ops) (pool_close conn) m) as [Hm|(w1 & Hc & Hm)].
  { unfold m, report_size in *. destruct (rp_in r) as [ans|]; [by apply up_HandleRead|]. destruct (rp_hup r).
    - right. destruct (up_HandleClose n cb_ops (pool_close conn) w Hu) as (w1 & ? & ?). by exists w1.
    - left. by apply (up_mono n); [lia|]. }
  - left. eapply returns_bind; [exact Hm|]. intros w1 Hu1. destruct (rp_out r); [by apply up_HandleWrite|done].
  - right. exists w1. split; [done|]. rewrite Hm. destruct Hc as [(r' & y & [_ Hy _ _] & He) _ _].
    unfold pool_close, RemoveConnection. cbn [mbind outcome_bind]. destruct (rp_out r); [|done].
    unfold HandleWrite, channel_is, deref. cbn. rewrite Hy. cbn. unfold IsWriting. by rewrite He.
Qed.

Lemma report_effect conn r ops cb_ops tied t w w' :
  HandleEvent (pool_callbacks conn r ops cb_ops) tied true (revents_of r) t w = Ok w' → effect w w'.
Proof.
  rewrite pool_report. intros E. apply bind_Ok in E as (w1 & E1 & E). transitivity w1.
  - destruct (rp_in r) as [ans|]; [|destruct (rp_hup r); [|injection E1 as <-; reflexivity]].
    + eapply (HandleRead_effect (user_run (pool_close conn) cb_ops) (pool_close conn)); [intros ? ?; apply user_run_effect| | |exact E1];
        [apply pool_close_effect|intros ? ?; apply user_run_effect].
    + eapply (HandleClose_effect (user_run (pool_close conn) cb_ops) (pool_close conn)); [intros ? ?; apply user_run_effect| |exact E1].
      apply pool_close_effect.
  - destruct (rp_out r); [by apply HandleWrite_effect|injection E as <-; reflexivity].
Qed.

Lemma event_step rgs n st c t r ops cb_ops :
  pool_inv rgs n st → 0 ≤ n → pool_legal reserved (LoopEvent c t r ops cb_ops) st →
  2 * kCheapPrepend + n + report_size r + ops_size ops ≤ vector_max_size →
  ∃ st' rgs', loop_event c t r ops cb_ops st = Ok st' ∧ pool_inv rgs' (n + report_size r + ops_size ops) st'.
Proof.
  intros Hi Hn (x & io & ch & Hx & Hio & Hch & Hev) Hb. pose proof (report_size_nonneg r). pose proof (ops_size_nonneg ops).
  destruct (pi_peers _ _ _ Hi _ _ Hx) as [ph Hpk]. pose proof (pk_loop _ _ _ _ _ _ Hpk) as (io' & Hio' & Hqo & Hin).
  assert (io' = io) as -> by congruence. assert (ph = Up) as ->.
  { assert (ph ≠ Waiting) as Hnw by (intros ->; destruct Hin as (_ & _ & _ & ? & _); congruence).
    destruct (phase_channel rgs n st c x ph io) as (ch' & Hch' & Hd); [done..|]. destruct (decide (ph = Up)); [done|].
    destruct Hd; [done|]. congruence. }
  pose proof (pi_io _ _ _ Hi _ _ Hio) as Hlo. pose proof (pk_channel _ _ _ _ _ _ Hpk) as Hc.
  set (conn := pp_connection x) in *. set (rg := rgs (conn_loop conn)) in *.
  unfold loop_event, find_peer. rewrite Hx. fold conn. rewrite Hio. cbn [mbind outcome_bind].
  assert (deref (io_heap io) c = Ok ch) as -> by (unfold deref; by rewrite Hch). cbn [mbind outcome_bind]. fold conn.
  set (ch1 := set_handling true _). set (h1 := <[c := ch1]> (io_heap io)).
  rewrite (on_peer_eq c _ _ x (MkIo (io_poller io) h1 (io_pending io))); [|done|by apply lookup_insert_eq].
  set (w0 := pool_load x _ _). cbv beta. fold conn.
  assert (up (inv := alone c conn rg (pl_server st)) n w0) as Hu.
  { refine (load_up n _ _ h1 (io_pending io) st c x _ _ Hc Hin).
    - eapply inv_touch; [apply Hlo|exact Hch|done..].
    - intros c' y. unfold h1. destruct (decide (c' = c)) as [->|?]; [intros _; by eapply lo_heap|].
      rewrite lookup_insert_ne by done. intros Hy. by eapply lo_heap. }
  destruct (handled_landed (n + report_size r + ops_size ops) c conn rg (pl_server st)
    (HandleEvent (pool_callbacks conn r ops cb_ops) (is_tied_ ch) true (revents_of r) t w0) w0) as (w & ph' & -> & Hl & He).
  { by apply up_report. }
  { intros w. apply report_effect. }
  { done. }
  cbn [mbind outcome_bind]. destruct (settle_effect rgs n (n + report_size r + ops_size ops) st c x Up io ch1 h1 w0 w (io_pending io) ph')
    as (y & rgs' & Hy & _ & Hi'); try done;
    [lia|by right|apply lookup_insert_eq|intros; by apply lookup_insert_ne|apply queue_moves_refl|by apply Hqo|by intros t' [? _]%(qo_tasks _ _ _ Hqo)|].
  unfold pool_store. cbn [pl_peers pl_io pl_server pl_base pl_next set_io]. rewrite lookup_insert_eq. cbn [pool_peer_of pp_connection]. rewrite lookup_insert_eq.
  cbn [mbind outcome_bind io_heap io_poller io_pending]. unfold deref. rewrite Hy. cbn [mbind outcome_bind]. eexists _, rgs'. split; [done|].
  unfold set_io, set_io_heap. cbn [pl_peers pl_io pl_server pl_base pl_next io_heap io_poller io_pending]. by rewrite !insert_insert_eq.
Qed.

(** ** Timers, other threads and the base loop *)
Lemma timer_step rgs n st c ops :
  pool_inv rgs n st → ∃ st' rgs', loop_timer c ops st = Ok st' ∧ pool_inv rgs' n st'.
Proof.
  intros Hi. unfold loop_timer. destruct (pl_peers st !! c) as [x|] eqn:Hx; [|by exists st, rgs].
  destruct (pp_timers x) as [|tm tms] eqn:Htm; [by exists st, rgs|].
  destruct (pi_peers _ _ _ Hi _ _ Hx) as [ph Hpk]. pose proof (pk_loop _ _ _ _ _ _ Hpk) as (io & Hio & Hqo & Hin).
  assert (ph ≠ Waiting) as Hnw by (intros ->; destruct Hin as (_ & _ & ? & _); congruence).
  destruct (phase_channel rgs n st c x ph io) as (ch & Hch & Hdown); [done..|].
  pose proof (pi_io _ _ _ Hi _ _ Hio) as Hlo. pose proof (pk_channel _ _ _ _ _ _ Hpk) as Hc.
  set (conn := pp_connection x) in *. set (rg := rgs (conn_loop conn)) in *. set (x1 := MkPoolPeer conn _ _ _ _ _).
  rewrite (on_peer_eq c _ _ x1 io); [|by apply lookup_insert_eq|done]. change (pp_connection x1) with conn.
  unfold pool_store. cbn [pl_io pl_server pl_base pl_peers pl_next]. set (w0 := pool_load x1 _ _). cbv beta.
  destruct (decide (ph = Up)) as [->|Hnu].
  - assert (up (inv := alone c conn rg (pl_server st)) n w0) as Hu.
    { destruct io as [p h q]. refine (load_up n _ p h q st c x1 _ _ Hc Hin); [apply Hlo|]. by intros; eapply lo_heap. }
    set (m := match tm with ForceCloseTimer _ => _ | ForceCloseInLoopTimer _ => _ end).
    destruct (handled_landed n c conn rg (pl_server st) m w0) as (w & ph' & -> & Hl & He); [| |done|].
    { unfold m. destruct tm; [left; cbn|right].
      - unfold ForceClose. destruct (_ || _); [|done]. apply (up_same n w0); auto.
      - destruct (up_ForceCloseInLoop n ops (pool_close conn) w0 Hu) as (w1 & ? & ?). by exists w1. }
    { unfold m. intros w. destruct tm; [intros [= <-]; apply ForceClose_effect|].
      apply ForceCloseInLoop_effect; [intros ? ?; apply user_run_effect|apply pool_close_effect]. }
    cbn [mbind outcome_bind]. destruct (settle_effect rgs n n st c x Up io ch (io_heap io) w0 w (io_pending io) ph') as (y & rgs' & Hy & Hyh & Hi');
      try done; [by right|apply queue_moves_refl|by apply Hqo|by intros t' [? _]%(qo_tasks _ _ _ Hqo)|].
    rewrite set_handling_id in Hi'; [|done|rewrite Hyh; by eapply lo_heap]. eexists _, rgs'. split; [done|]. by rewrite insert_insert_eq.
  - destruct (Hdown Hnu) as [_ Hs]. set (m := match tm with ForceCloseTimer _ => _ | ForceCloseInLoopTimer _ => _ end).
    assert (m = Ok w0) as -> by (unfold m, ForceClose, ForceCloseInLoop; cbn; rewrite Hs; by destruct tm).
    cbn [mbind outcome_bind]. destruct (idle rgs n n st c x ph io w0 (io_pending io)) as [rgs' Hi']; try done; [apply queue_moves_refl|].
    eexists _, rgs'. split; [done|]. by rewrite insert_insert_eq.
Qed.

Lemma send_step rgs n st c d :
  pool_inv rgs n st → pool_legal reserved (OtherSend c d) st → ∃ st' rgs', other_send c d st = Ok st' ∧ pool_inv rgs' n st'.
Proof.
  intros Hi (x & Hx & Hs). destruct (pi_peers _ _ _ Hi _ _ Hx) as [ph Hpk]. pose proof (pk_loop _ _ _ _ _ _ Hpk) as (io & Hio & Hqo & Hin).
  assert (ph ≠ Waiting) as Hnw by (intros ->; by destruct Hin as (? & _)).
  unfold other_send, find_peer. rewrite Hx, Hio. cbn [mbind outcome_bind].
  destruct (idle rgs n n st c x ph io (pool_load x io st) (io_pending io ++ [TaskFunctor c (SendInLoopTask d)])) as [rgs' Hi']; try done.
  - apply queue_moves_app. by intros f ->%list_elem_of_singleton.
  - destruct Hqo as [Hd Ht]. split.
    + by rewrite lifecycle_app, lifecycle_cons_task, app_nil_r.
    + intros t [?|[= ->]%list_elem_of_singleton]%elem_of_app; [by apply Ht|done].
  - eexists _, rgs'. split; [done|]. unfold to_base in Hi'. cbn [pool_load poller fst snd tasks channels fmap list_fmap] in Hi'.
    rewrite (so_posted _ (pi_server _ _ _ Hi)) in Hi'. cbn [omap list_omap] in Hi'. rewrite !app_nil_r, (insert_id (pl_peers st)) in Hi'; [done|].
    rewrite Hx. by destruct x.
Qed.

Lemma base_step rgs n st : pool_inv rgs n st → ∃ st' rgs', base_functor st = Ok st' ∧ pool_inv rgs' n st'.
Proof.
  intros Hi. unfold base_functor. destruct (pl_base st) as [|[c conn] rest] eqn:Hb; [by exists st, rgs|].
  destruct (pi_base _ _ _ Hi (c, conn)) as [x Hx]; [rewrite Hb; by left|]. cbn [fst] in Hx.
  destruct (pi_peers _ _ _ Hi _ _ Hx) as [ph Hpk]. pose proof (pk_loop _ _ _ _ _ _ Hpk) as (io & Hio & Hqo & Hin).
  pose proof (pk_base _ _ _ _ _ _ Hpk) as Hrm. rewrite Hb, removals_cons_eq in Hrm. case_bool_decide; [|done]. subst ph.
  injection Hrm as -> Hrest. pose proof (proj1 (pk_map _ _ _ _ _ _ Hpk) eq_refl) as Hm.
  unfold RemoveConnectionInLoop. rewrite bool_decide_true by done. cbn [cassert mbind outcome_bind post set_connections posted].
  pose proof (pi_server _ _ _ Hi) as Hso. rewrite (so_posted _ Hso). cbn [app]. rewrite Hio.
  eexists _, _. split; [done|]. unfold clear_posted, push. cbn. rewrite <-(insert_id (pl_peers st) c x) by done.
  apply (pool_put rgs n n st c x Closed io x Removed); try done.
  - apply Hpk.
  - by eapply poll_moves_same.
  - apply queue_moves_app. by intros f ->%list_elem_of_singleton.
  - rewrite Hb. split; [intros; by rewrite removals_cons_ne by (cbn; congruence)|]. left. by right.
  - split; cbn; try done; [by destruct Hso|intros; by rewrite lookup_delete_ne|by rewrite lookup_delete_eq].
  - destruct Hqo as [Hd Ht]. split.
    + rewrite lifecycle_app, Hd. cbn [due app]. unfold lifecycle. rewrite filter_cons, decide_True by (by right). done.
    + intros t [?|?%list_elem_of_singleton]%elem_of_app; [|done]. split; [by eapply Ht|done].
  - cbn. by rewrite lookup_delete_eq.
Qed.

(** ** A new connection *)
Lemma GetNextLoop_ok p :
  is_started_ p = true → loops_ p = ls → ls ≠ [] → 0 ≤ next_ p < zlen ls →
  ∃ l p', GetNextLoop p = Ok (l, p') ∧ l ∈ ls ∧ is_started_ p' = true ∧ loops_ p' = ls ∧ 0 ≤ next_ p' < zlen ls.
Proof.
  intros Hs Hl Hne Hn. unfold GetNextLoop. rewrite Hs, Hl. cbn [cassert mbind outcome_bind]. unfold zlen in *.
  destruct (lookup_lt_is_Some_2 ls (Z.to_nat (next_ p))) as [l Hlk]; [lia|]. destruct ls as [|l0 ls0] eqn:E; [done|]. rewrite <-E in *. rewrite Hlk.
  eexists _, _. split; [done|]. split; [by eapply list_elem_of_lookup_2|]. cbn. split; [done|]. split; [done|].
  destruct (Z.leb_spec (Z.of_nat (length ls)) (next_ p + 1)); lia.
Qed.

Lemma new_usable n c wc hw : 0 ≤ n → ∃ t, TcpConnection_new c wc hw = Ok t ∧ usable n t ∧ state_ t = kConnecting ∧ channel_ t = c.
Proof.
  intros Hn. unfold TcpConnection_new. destruct (Buffer_new_good kInitialSize) as (b & -> & Hg & _ & _ & Hw); [done..|]. cbn [mbind outcome_bind].
  eexists. split; [done|]. split; [|done]. split; cbn; (done || lia).
Qed.

(** Nothing knows the next channel yet. *)
Lemma next_unknown rgs n st :
  pool_inv rgs n st → let c := pl_next st in
  pl_peers st !! c = None ∧ removals c (pl_base st) = [] ∧
  ∀ l io, pl_io st !! l = Some io → io_heap io !! c = None ∧ (c ∉ used (rgs l)) ∧ lifecycle c (io_pending io) = [] ∧ (∀ t, TaskFunctor c t ∉ io_pending io).
Proof.
  intros Hi. cbv zeta. set (c := pl_next st).
  assert (pl_peers st !! c = None) as Hno.
  { destruct (pl_peers st !! c) as [x|] eqn:Hx; [|done]. destruct (pi_peers _ _ _ Hi _ _ Hx) as [ph Hpk].
    pose proof (pk_next _ _ _ _ _ _ Hpk) as Hlt. unfold c in Hlt. lia. }
  split; [done|]. split.
  - apply elem_of_nil_inv. intros e [He [x Hx]%(pi_base _ _ _ Hi)]%list_elem_of_filter. congruence.
  - intros l io Hio. pose proof (pi_io _ _ _ Hi _ _ Hio) as [Li Lh Lu Lr Lt].
    assert (c ∉ used (rgs l)) as Hnu by (intros Hin%Lu; unfold c in Hin; lia).
    assert (∀ f, f ∈ io_pending io → target f ≠ c) as Hnt by (intros f (x & Hx & _)%Lt; congruence).
    split; [destruct (io_heap io !! c) as [ch|] eqn:E; [by apply Lh in E as [? _]|done]|]. split; [done|]. split.
    + apply elem_of_nil_inv. intros f [[-> | ->] Hin]%lifecycle_in; by apply Hnt in Hin.
    + intros t Ht. by apply Hnt in Ht.
Qed.

(** The server after [NewConnection], its functors taken. *)
Definition served (conn : connection) (p : EventLoopThreadPool) (s : TcpServer) : TcpServer :=
  TcpServer.MkServer (loop_ s) (ip_port_ s) (name_ s) p (started_ s) (next_conn_id_ s + 1) (<[conn_name conn := conn]> (connections_ s)) [].

(** The state with a new connection [x], waiting in its loop. *)
Section add.
Context rgs (n : Z) st x (io : io_loop P) (p : EventLoopThreadPool).
#[local] Abbreviation conn := (pp_connection x).
#[local] Abbreviation c := (pl_next st).
#[local] Abbreviation s := (pl_server st).
#[local] Abbreviation l := (conn_loop (pp_connection x)).
#[local] Abbreviation added :=
  (MkPooled (served conn p s) (pl_base st) (<[l := push (EstablishFunctor c) io]> (pl_io st)) (<[c := x]> (pl_peers st)) (c + 1)).
Hypothesis Hi : pool_inv rgs n st.
Hypothesis Hio : pl_io st !! l = Some io.
Hypothesis Hnew : channel_ (pp_conn x) = c ∧ state_ (pp_conn x) = kConnecting ∧ usable n (pp_conn x) ∧ pp_timers x = [].
Hypothesis Hfd : 0 ≤ conn_fd conn ∧ conn_fd conn ∉ reserved.
Hypothesis Hfds : ∀ c' x', pl_peers st !! c' = Some x' → conn_fd (pp_connection x') ≠ conn_fd conn.
Hypothesis Hname : conn_name conn = name_ s ++ conn_suffix (ip_port_ s) (next_conn_id_ s).
Hypothesis Hid : next_conn_id_ s < 2 ^ 31 - 1.
Hypothesis Hpool : is_started_ p = true ∧ loops_ p = ls ∧ 0 ≤ next_ p < zlen ls.

Lemma add_other c' y : pl_peers st !! c' = Some y → c' < c ∧ conn_name (pp_connection y) ≠ conn_name conn.
Proof.
  intros Hy. destruct (pi_peers _ _ _ Hi _ _ Hy) as [ph Hpk]. split; [apply Hpk|]. destruct (pk_name _ _ _ _ _ _ Hpk) as (id & Hr & ->).
  pose proof (so_ip _ (pi_server _ _ _ Hi)). rewrite Hname. intros E%app_inv_head%conn_suffix_inj; lia.
Qed.

Lemma add_loop l0 io0 q :
  pl_io st !! l0 = Some io0 → (∀ f, f ∈ q → f ∈ io_pending io0 ∨ (f = EstablishFunctor c ∧ l0 = l)) →
  loop_ok (rgs l0) added l0 (MkIo (io_poller io0) (io_heap io0) q).
Proof.
  intros Hio0 Hq. pose proof (pi_io _ _ _ Hi _ _ Hio0) as [Li Lh Lu Lr Lt]. split; cbn [io_poller io_heap io_pending pl_next pl_peers]; try done.
  - intros c0 H0'%Lu. lia.
  - intros fd c0 ev Hr. destruct (inv_common _ _ _ Li) as [chs Hci]. destruct (ci_reg _ _ _ Hci _ _ _ Hr) as (Hin%Lu & _).
    rewrite lookup_insert_ne by lia. by eapply Lr.
  - intros f [(y & Hy & ?)%Lt|[-> ->]]%Hq; [|exists x; by rewrite lookup_insert_eq].
    exists y. rewrite lookup_insert_ne; [done|]. destruct (add_other _ _ Hy). lia.
Qed.

Lemma add_new : peer_ok n rgs added c x Waiting.
Proof.
  destruct (next_unknown _ _ _ Hi) as (_ & Hrm & Hloops). destruct (Hloops _ _ Hio) as (Hh & Hu & Hlc & Htk). destruct Hnew as (? & ? & ? & ?).
  pose proof (so_id _ (pi_server _ _ _ Hi)).
  split; cbn [pl_server pl_io pl_base pl_next served next_conn_id_ name_ ip_port_ connections_]; try done;
    [lia|by exists (next_conn_id_ s); split; [lia|]| |by rewrite lookup_insert_eq].
  exists (push (EstablishFunctor c) io). rewrite lookup_insert_eq. split; [done|]. cbn [push io_pending io_heap]. split.
  - split; [|intros t [?%Htk|?%list_elem_of_singleton]%elem_of_app; done].
    rewrite lifecycle_app, Hlc. unfold lifecycle. rewrite filter_cons, decide_True by (by left). done.
  - split_and!; try done. destruct (reg (rgs l) !! conn_fd conn) as [[c1 ev]|] eqn:Hr; [|done].
    apply (lo_reg _ _ _ _ (pi_io _ _ _ Hi _ _ Hio)) in Hr as [(y & Hy & Ey & _)|[? _]]; [by apply Hfds in Hy|by destruct Hfd].
Qed.

Lemma add_old c0 x0 : pl_peers st !! c0 = Some x0 → ∃ ph, peer_ok n rgs added c0 x0 ph.
Proof.
  intros Hx0. destruct (pi_peers _ _ _ Hi _ _ Hx0) as [ph [Hc Hnx Hf (id & Hr & Hn') (io0 & Hio0 & [Hd Ht] & Hph) Hba Hm]].
  destruct (add_other _ _ Hx0) as [Hlt Hne]. exists ph.
  split; cbn [pl_server pl_io pl_base pl_next served next_conn_id_ name_ ip_port_ connections_]; try done;
    [lia|exists id; split; [lia|done]| |by rewrite lookup_insert_ne by congruence].
  destruct (decide (conn_loop (pp_connection x0) = l)) as [El|El]; [|exists io0; by rewrite lookup_insert_ne].
  rewrite El in *. assert (io0 = io) as -> by congruence. exists (push (EstablishFunctor c) io). rewrite lookup_insert_eq. split; [done|]. split; [|done].
  split; [|intros t [?%Ht|?%list_elem_of_singleton]%elem_of_app; done].
  cbn [push io_pending]. by rewrite lifecycle_app, (lifecycle_cons_ne c0), app_nil_r by (cbn; lia).
Qed.

Lemma pool_add : pool_inv rgs n added.
Proof.
  pose proof (pi_server _ _ _ Hi) as []. destruct Hpool as (? & ? & ?). split; cbn [pl_server pl_io pl_base pl_peers pl_next].
  - split; cbn; (done || lia).
  - intros l0 Hin. rewrite lookup_insert_is_Some'. right. by eapply pi_loops.
  - intros l0 io0. destruct (decide (l0 = l)) as [->|Hne].
    + rewrite lookup_insert_eq. intros [= <-]. apply add_loop; [done|]. intros f [?| ->%list_elem_of_singleton]%elem_of_app; [by left|by right].
    + rewrite lookup_insert_ne by done. intros Hio0. destruct io0 as [p0 h0 q0]. by apply (add_loop _ (MkIo p0 h0 q0)); [|left].
  - intros c0 x0. destruct (decide (c0 = c)) as [->|Hne]; [rewrite lookup_insert_eq; intros [= <-]; exists Waiting; apply add_new|].
    rewrite lookup_insert_ne by done. apply add_old.
  - intros c1 c2 y1 y2. rewrite !lookup_insert_Some. intros [[<- <-]|[? H1']] [[<- <-]|[? H2']] E; try done;
      [by apply Hfds in H2'|by apply Hfds in H1'|by eapply (pi_fds _ _ _ Hi)].
  - intros c1 c2 y1 y2. rewrite !lookup_insert_Some. intros [[<- <-]|[? H1']] [[<- <-]|[? H2']] E; try done;
      [by apply add_other in H2' as [_ ?]|by apply add_other in H1' as [_ ?]|by eapply (pi_names _ _ _ Hi)].
  - intros e [y He]%(pi_base _ _ _ Hi). rewrite lookup_insert_is_Some'. right. by exists y.
  - intros nm conn'. cbn. rewrite lookup_insert_Some. intros [[<- <-]|[? Hc]]; [split; [done|]; exists c, x; by rewrite lookup_insert_eq|].
    destruct (pi_map _ _ _ Hi _ _ Hc) as (? & c0 & y & Hy & ?). split; [done|]. exists c0, y. rewrite lookup_insert_ne; [done|].
    destruct (add_other _ _ Hy). lia.
Qed.
End add.

Lemma accept_step rgs n st fd wc hw kern :
  pool_inv rgs n st → 0 ≤ n → pool_legal reserved (BaseAccept fd wc hw kern) st →
  ∃ st', pool_accept fd wc hw kern st = Ok st' ∧ pool_inv rgs n st'.
Proof.
  intros Hi Hn (Hfd & Hres & Hfds & Hid). pose proof (pi_server _ _ _ Hi) as [S1 S2 S3 S4 S5 S6 S7].
  unfold pool_accept, NewConnection. destruct (GetNextLoop_ok (thread_pool_ (pl_server st))) as (l & p & -> & Hl & P1 & P2 & P3); [done..|].
  cbn [mbind outcome_bind]. replace (2 ^ 31 - 1 <=? next_conn_id_ (pl_server st)) with false by lia. cbn [mbind outcome_bind post posted]. rewrite S5. cbn [app].
  destruct (new_usable n (pl_next st) wc hw Hn) as (t & -> & Hu & Hs & Hc). cbn [mbind outcome_bind].
  destruct (pi_loops _ _ _ Hi l Hl) as [io Hio]. rewrite Hio. eexists. split; [done|].
  set (conn := MkConnection _ l fd). by apply (pool_add rgs n st (MkPoolPeer conn t [] false kern []) io p).
Qed.

(** ** The end of a connection *)
Lemma unreferenced_destroyed rgs n st c x :
  pool_inv rgs n st → pl_peers st !! c = Some x → unreferenced c st → peer_ok n rgs st c x Destroyed.
Proof.
  intros Hi Hx (x' & io & Hx' & Hio & Hm & _ & Hq). assert (x' = x) as -> by congruence.
  destruct (pi_peers _ _ _ Hi _ _ Hx) as [ph Hpk]. destruct (pk_loop _ _ _ _ _ _ Hpk) as (io' & Hio' & [Hd _] & _). assert (io' = io) as -> by congruence.
  destruct ph; try (by destruct Hm; apply (pk_map _ _ _ _ _ _ Hpk)); [|done].
  cbn in Hd. assert (DestroyedFunctor c ∈ lifecycle c (io_pending io)) as [_ Hin]%lifecycle_in by (rewrite Hd; by left). by apply Hq in Hin.
Qed.

(** What is left without the connection [x]. *)
Section delete.
Context rgs (n : Z) st (c : chan) x (io : io_loop P).
#[local] Abbreviation l := (conn_loop (pp_connection x)).
#[local] Abbreviation rest :=
  (MkPooled (pl_server st) (pl_base st) (<[l := set_io_heap (delete c (io_heap io)) io]> (pl_io st)) (delete c (pl_peers st)) (pl_next st)).
Hypothesis Hi : pool_inv rgs n st.
Hypothesis Hx : pl_peers st !! c = Some x.
Hypothesis Hio : pl_io st !! l = Some io.
Hypothesis Hreg : ∀ fd ev, reg (rgs l) !! fd ≠ Some (c, ev).
Hypothesis Hmap : connections_ (pl_server st) !! conn_name (pp_connection x) ≠ Some (pp_connection x).
Hypothesis Hbase : c ∉ (pl_base st).*1.
Hypothesis Hpending : ∀ f, f ∈ io_pending io → target f ≠ c.

Lemma delete_target l0 io0 f : pl_io st !! l0 = Some io0 → f ∈ io_pending io0 → target f ≠ c.
Proof.
  intros Hio0 Hf E. destruct (lo_target _ _ _ _ (pi_io _ _ _ Hi _ _ Hio0) f Hf) as (y & Hy & El). rewrite E in Hy. simplify_eq. by apply Hpending in Hf.
Qed.

Lemma delete_loop l0 io0 : pl_io rest !! l0 = Some io0 → loop_ok (rgs l0) rest l0 io0.
Proof.
  intros Hl0. cbn [pl_io] in Hl0. assert (∃ io1, pl_io st !! l0 = Some io1 ∧ io_pending io0 = io_pending io1 ∧ io_poller io0 = io_poller io1 ∧
    (io_heap io0 = io_heap io1 ∨ l0 = l ∧ io_heap io0 = delete c (io_heap io1))) as (io1 & Hio1 & Eq & Ep & Eh).
  { destruct (decide (l0 = l)) as [->|?]; [|rewrite lookup_insert_ne in Hl0 by done; exists io0; by split_and!; [..|left]].
    rewrite lookup_insert_eq in Hl0. injection Hl0 as <-. exists io. split_and!; try done. by right. }
  pose proof (pi_io _ _ _ Hi _ _ Hio1) as [Li Lh Lu Lr Lt]. split; cbn [pl_peers pl_next]; rewrite ?Ep, ?Eq; try done.
  - destruct Eh as [->|[-> ->]]; [done|by apply inv_free].
  - intros c0 ch0 H0'. apply (Lh c0). destruct Eh as [<-|[_ Eh]]; [done|]. rewrite Eh in H0'. by apply lookup_delete_Some in H0' as [_ ?].
  - intros fd c0 ev H0'. destruct (Lr _ _ _ H0') as [(y & Hy & Ef & El)|[? ?]]; [|right; split; [done|by rewrite lookup_delete_None; right]].
    destruct (decide (c0 = c)) as [->|?]; [|left; exists y; by rewrite lookup_delete_ne].
    assert (l0 = l) as -> by congruence. by apply Hreg in H0'.
  - intros f Hf. destruct (Lt f Hf) as (y & Hy & El). exists y. rewrite lookup_delete_ne; [done|]. by apply not_eq_sym, (delete_target l0 io1).
Qed.

Lemma pool_delete : pool_inv rgs n rest.
Proof.
  assert (∀ c' y, delete c (pl_peers st) !! c' = Some y → c' ≠ c ∧ pl_peers st !! c' = Some y) as Hback by (by intros c' y [? ?]%lookup_delete_Some).
  split; [apply Hi| |apply delete_loop|..]; cbn [pl_server pl_io pl_base pl_peers pl_next].
  - intros l0 Hin. rewrite lookup_insert_is_Some'. right. by eapply pi_loops.
  - intros c0 x0 [Hne Hx0]%Hback. destruct (pi_peers _ _ _ Hi _ _ Hx0) as [ph [Hc Hnx Hfd Hnm (io0 & Hio0 & Hqo & Hph) Hba Hmp]]. exists ph. split; try done.
    cbn [pl_io]. destruct (decide (conn_loop (pp_connection x0) = l)) as [El|El]; [|exists io0; by rewrite lookup_insert_ne].
    rewrite El in *. assert (io0 = io) as -> by congruence. exists (set_io_heap (delete c (io_heap io)) io). rewrite lookup_insert_eq. split_and!; try done.
    eapply in_phase_frame; [exact Hph|done| |done|done]. cbn. by rewrite lookup_delete_ne.
  - intros c1 c2 y1 y2 [_ ?]%Hback [_ ?]%Hback. by eapply (pi_fds _ _ _ Hi).
  - intros c1 c2 y1 y2 [_ ?]%Hback [_ ?]%Hback. by eapply (pi_names _ _ _ Hi).
  - intros e He. rewrite lookup_delete_ne; [by eapply pi_base|]. intros Ee. apply Hbase. rewrite Ee. by apply list_elem_of_fmap_2.
  - intros nm conn Hc. destruct (pi_map _ _ _ Hi _ _ Hc) as (E & c0 & y & Hy & Ey). split; [done|]. exists c0, y.
    rewrite lookup_delete_ne; [done|]. intros <-. simplify_eq.
Qed.
End delete.

Lemma release_step rgs n st c :
  pool_inv rgs n st → unreferenced c st → ∃ st', release c st = Ok st' ∧ pool_inv rgs n st'.
Proof.
  intros Hi Hun. pose proof Hun as (x & io & Hx & Hio & Hm & Hb & Hq). pose proof (unreferenced_destroyed _ _ _ _ _ Hi Hx Hun) as Hpk.
  pose proof (pk_loop _ _ _ _ _ _ Hpk) as (io' & Hio' & _ & Hs & Hr & ch & Hch & Hadd & _). assert (io' = io) as -> by congruence.
  pose proof (pi_io _ _ _ Hi _ _ Hio) as Hlo.
  assert (∀ fd ev, reg (rgs (conn_loop (pp_connection x))) !! fd ≠ Some (c, ev)) as Hnr.
  { intros fd ev E. destruct (lo_reg _ _ _ _ Hlo _ _ _ E) as [(y & Hy & Hfd & _)|[_ ?]]; [|congruence]. simplify_eq. }
  unfold release, find_peer. rewrite Hx, Hio. cbn [mbind outcome_bind]. unfold TcpConnection_destroy. cbn [pool_load TcpConnection.conn].
  rewrite bool_decide_true by done. cbn [cassert mbind outcome_bind]. unfold Channel_destroy, deref. rewrite Hch. cbn [mbind outcome_bind].
  destruct (lo_heap _ _ _ _ Hlo _ _ Hch) as [_ ->]. rewrite Hadd. cbn [negb cassert mbind outcome_bind].
  rewrite (inv_has _ _ _ _ _ (lo_inv _ _ _ _ Hlo) Hch Hnr). cbn [negb cassert mbind outcome_bind]. eexists. split; [done|]. by apply pool_delete.
Qed.

(** ** All steps *)
Lemma pool_step_ok rgs n st o :
  pool_inv rgs n st → 0 ≤ n → pool_legal reserved o st → 2 * kCheapPrepend + n + pool_size o st ≤ vector_max_size →
  ∃ st' rgs', pool_step o st = Ok st' ∧ pool_inv rgs' (n + pool_size o st) st'.
Proof.
  intros Hi Hn Hl Hb. destruct o as [fd wc hw kern| |l ops|c t r ops cb_ops|c ops|c d|c]; cbn [pool_step pool_size] in *; rewrite ?Z.add_0_r.
  - destruct (accept_step rgs n st fd wc hw kern) as (st' & ? & ?); [done..|]. by exists st', rgs.
  - by apply (base_step rgs).
  - by apply (loop_next_step rgs).
  - destruct (event_step rgs n st c t r ops cb_ops) as (st' & rgs' & ? & Hi'); [done..|unfold report_size; lia|]. exists st', rgs'.
    split; [done|]. eapply pool_inv_mono; [done|]. unfold report_size. lia.
  - by apply (timer_step rgs).
  - by apply (send_step rgs).
  - destruct (release_step rgs n st c) as (st' & ? & ?); [done..|]. by exists st', rgs.
Qed.

Lemma pool_size_nonneg o st : 0 ≤ pool_size o st.
Proof.
  destruct o as [| |l ops|c t r ops cb_ops| | |]; cbn [pool_size]; try done.
  - pose proof (ops_size_nonneg ops). destruct (_ ≫= _) as [[|? []|]|]; try lia. pose proof (zlen_nonneg data). lia.
  - pose proof (report_size_nonneg r). pose proof (ops_size_nonneg ops). unfold report_size in *. lia.
Qed.

Lemma pool_reach_inv rgs st0 n st : pool_inv rgs 0 st0 → pool_reach reserved st0 n st → 0 ≤ n ∧ ∃ rgs', pool_inv rgs' n st.
Proof.
  intros H0' Hr. induction Hr as [|n o st st' Hr [Hn [rgs1 Hi]] Hl Hb E]; [split; [done|]; by exists rgs|].
  pose proof (pool_size_nonneg o st). split; [lia|]. destruct (pool_step_ok rgs1 n st o) as (st1 & rgs2 & E1 & Hi'); [done..|].
  exists rgs2. congruence.
Qed.

(** What the invariant says of the map. *)
Lemma pool_map rgs n st conn :
  pool_inv rgs n st →
  connections_ (pl_server st) !! conn_name conn = Some conn ↔
  ∃ c x, pl_peers st !! c = Some x ∧ pp_connection x = conn ∧ (state_ (pp_conn x) ≠ kDisconnected ∨ c ∈ (pl_base st).*1).
Proof.
  intros Hi. split.
  - intros Hc. destruct (pi_map _ _ _ Hi _ _ Hc) as (_ & c & x & Hx & Ex). exists c, x. split; [done|]. split; [done|].
    destruct (pi_peers _ _ _ Hi _ _ Hx) as [ph Hpk]. rewrite <-Ex in Hc. apply (pk_map _ _ _ _ _ _ Hpk) in Hc.
    pose proof (pk_base _ _ _ _ _ _ Hpk) as Hb. destruct (pk_loop _ _ _ _ _ _ Hpk) as (io & _ & _ & Hin).
    destruct ph; try done; [left; destruct Hin as [-> _]; done|left; destruct Hin as [[-> | ->] _]; done|right].
    cbn in Hb. assert ((c, pp_connection x) ∈ removals c (pl_base st)) as [_ He]%list_elem_of_filter by (rewrite Hb; by left).
    by apply (list_elem_of_fmap_2 fst) in He.
  - intros (c & x & Hx & <- & Hs). destruct (pi_peers _ _ _ Hi _ _ Hx) as [ph Hpk]. apply (pk_map _ _ _ _ _ _ Hpk).
    pose proof (pk_base _ _ _ _ _ _ Hpk) as Hb. destruct (pk_loop _ _ _ _ _ _ Hpk) as (io & _ & _ & Hin).
    destruct ph; try done; (destruct Hin as [Hd _]; destruct Hs as [?|(e & -> & He)%list_elem_of_fmap]; [done|]);
      (assert (e ∈ removals e.1 (pl_base st)) as Hr by (by apply list_elem_of_filter); rewrite Hb in Hr; by apply elem_of_nil in Hr).
Qed.

(** When all queues are empty, what is not up can go. *)
Lemma pool_quiet rgs n st c x :
  pool_inv rgs n st → pl_base st = [] → (∀ l io, pl_io st !! l = Some io → io_pending io = []) → pl_peers st !! c = Some x →
  unreferenced c st ∨ (connections_ (pl_server st) !! conn_name (pp_connection x) = Some (pp_connection x) ∧
    (state_ (pp_conn x) = kConnected ∨ state_ (pp_conn x) = kDisconnecting)).
Proof.
  intros Hi Hb Hq Hx. destruct (pi_peers _ _ _ Hi _ _ Hx) as [ph Hpk]. destruct (pk_loop _ _ _ _ _ _ Hpk) as (io & Hio & [Hd _] & Hin).
  pose proof (pk_base _ _ _ _ _ _ Hpk) as Hrm. rewrite Hb in Hrm. pose proof (pk_map _ _ _ _ _ _ Hpk) as Hm. pose proof (Hq _ _ Hio) as Hqe. rewrite Hqe in Hd.
  destruct ph; try done.
  - right. split; [by apply Hm|apply Hin].
  - left. exists x, io. split_and!; try done; [by intros ?%Hm|rewrite Hb; by intros ?%elem_of_nil|]. intros f. rewrite Hqe. by intros ?%elem_of_nil.
Qed.
End lifecycle.

(** ** From the start *)
Lemma gmap_choose {K A B} `{Countable K, Inhabited B} (m : gmap K A) (R : A → B → Prop) :
  (∀ k a, m !! k = Some a → ∃ b, R a b) → ∃ f : K → B, ∀ k a, m !! k = Some a → R a (f k).
Proof.
  induction m as [|k a m Hk IH] using map_ind; intros Hm; [by exists (λ _, inhabitant)|].
  destruct IH as [f Hf]; [intros k' a' Hk'; apply (Hm k'); rewrite lookup_insert_ne; [done|congruence]|].
  destruct (Hm k a) as [b Hb]; [apply lookup_insert_eq|]. exists (<[k := b]> f). intros k' a'.
  destruct (decide (k' = k)) as [->|Hne]; [rewrite lookup_insert_eq, fn_lookup_insert; by intros [= <-]|].
  rewrite lookup_insert_ne, fn_lookup_insert_ne by done. apply Hf.
Qed.

#[local] Instance registry_inhabited : Inhabited registry := populate (MkRegistry ∅ ∅).

Section start.
Context {P : Type} `{PollerInv P inv, !PollerHeap P inv, !PollerStatus P}.
Context (reserved : gset Z).

Lemma pool_boot_inv base ip_port name threads new_loop ios next :
  1 ≤ threads → zlen ip_port ≤ 51 → (∀ j, 0 ≤ j < threads → is_Some (ios !! new_loop j)) →
  (∀ l io, ios !! l = Some io → io_pending io = [] ∧ loop_ready (inv := inv) reserved (io_poller io) (io_heap io) next) →
  ∃ st ls rgs, pool_boot base ip_port name threads new_loop ios next = Ok st ∧ pool_inv (inv := inv) reserved ls rgs 0 st.
Proof.
  intros Ht Hip Hl Hio. unfold pool_boot, SetThreadNum. replace (0 <=? threads) with true by lia. cbn [cassert mbind outcome_bind].
  unfold Start, Pool_Start. cbn [set_pool started_ TcpServer_new thread_pool_ Pool_SetThreadNum Pool_new is_started_ negb cassert mbind outcome_bind].
  rewrite start_threads_spec. cbn [base_loop_ is_started_ num_threads_ next_ threads_ loops_ app].
  set (ls := (λ j : nat, new_loop (0 + Z.of_nat j)) <$> seq 0 (Z.to_nat threads)). assert (zlen ls = threads) as Hlen.
  { unfold zlen, ls. rewrite length_fmap, length_seq. lia. }
  destruct (gmap_choose ios (λ io rg, io_pending io = [] ∧ inv (io_poller io) (io_heap io) rg ∧ dom (reg rg) ⊆ reserved ∧
    (∀ c ch, io_heap io !! c = Some ch → c ∈ used rg ∧ is_event_handling_ ch = false) ∧ (∀ c, next ≤ c → io_heap io !! c = None ∧ c ∉ used rg))) as [rgs Hrgs].
  { intros l io E. destruct (Hio _ _ E) as [Hq [(rg & Hr)]]. by exists rg. }
  eexists _, ls, rgs. split; [done|]. split; cbn.
  - split; cbn; try done; [|lia]. intros E. rewrite E in Hlen. change (zlen []) with 0 in Hlen. lia.
  - intros l (j & -> & Hj%elem_of_seq)%list_elem_of_fmap. apply Hl. lia.
  - intros l io E. destruct (Hrgs _ _ E) as (Hq & Hi & Hd & Hh & Hn). split; cbn; try done.
    + intros c Hc. destruct (decide (next ≤ c)) as [Hge|]; [|lia]. by destruct (Hn c Hge).
    + intros fd c ev Hr. right. split; [apply Hd; by eapply elem_of_dom_2|apply lookup_empty].
    + rewrite Hq. by intros f ?%elem_of_nil.
  - intros c x. by rewrite lookup_empty.
  - intros c c' x x'. by rewrite lookup_empty.
  - intros c c' x x'. by rewrite lookup_empty.
  - by intros e ?%elem_of_nil.
  - intros nm conn. by rewrite lookup_empty.
Qed.

End start.

(** ** Calls from other threads *)
Section races.
Context {P : Type} `{PollerInv P inv}.
Implicit Types w : world (P * TcpServer).

(** [state_] is a plain member that [ForceClose] tests and then sets.  When
    another thread calls it and the loop runs [HandleClose] between the two, the
    connection is closed a second time: its removal is queued twice. *)
Theorem force_close_race n conn ops server w :
  up (inv := lifted_inv inv server) n w →
  ∃ w1 w2, HandleClose (user_run (pool_close conn) ops) (pool_close conn) w = Ok w1 ∧
    ForceCloseInLoop (user_run (pool_close conn) ops) (pool_close conn) (SetState kDisconnecting w1) = Ok w2 ∧
    posted (poller w2).2 = posted server ++ [(loop_ server, RemoveConnectionInLoopTask conn); (loop_ server, RemoveConnectionInLoopTask conn)].
Proof.
  intros Hu. destruct (up_HandleClose n ops (pool_close conn) w Hu) as (w' & [(r & x & [[Hi Hsv] Hc Hr Hio] & He) Hs Hin] & ->).
  set (server' := post (loop_ server) (RemoveConnectionInLoopTask conn) server).
  assert (∃ w1, pool_close conn w' = Ok w1 ∧ registered (inv := lifted_inv inv server') (SetState kDisconnecting w1) r x ∧
    good (input_buffer_ (TcpConnection.conn w1))) as (w1 & Hw1 & Hr1 & Hin1).
  { unfold pool_close. cbn [RemoveConnection mbind outcome_bind]. rewrite Hsv. eexists. split; [done|]. by split; [split|]. }
  exists w1. rewrite Hw1. unfold ForceCloseInLoop. cbn [SetState set_conn TcpConnection.conn state_]. rewrite orb_true_r. fold (SetState kDisconnecting w1).
  unfold HandleClose. cbn [cassert mbind outcome_bind SetState set_conn TcpConnection.conn state_].
  destruct (change_events_ok (inv := lifted_inv inv server') (λ _, kNoneEvent) (SetState kDisconnected (SetState kDisconnecting w1)) r x)
    as (ph & r' & x' & Hok & Hr' & _); [by apply (registered_same (SetState kDisconnecting w1))|unfold io_events; set_solver|].
  unfold DisableAll. rewrite Hok. cbn [mbind outcome_bind]. set (w2 := set_channels ph _) in *.
  destruct (down_user_run (pool_close conn) ops w2 eq_refl Hin1) as (b & -> & _). cbn [mbind outcome_bind]. unfold pool_close. cbn [RemoveConnection mbind outcome_bind].
  eexists. split; [done|]. split; [done|]. destruct (rg_inv _ _ _ Hr') as [_ Hsv']. cbn in Hsv' |- *. rewrite Hsv'. cbn. by rewrite <-app_assoc.
Qed.

(** The second removal stops the server. *)
Theorem removed_twice_aborts conn s :
  (s ← RemoveConnectionInLoop conn s; RemoveConnectionInLoop conn s) = Fail (AssertionFailed "n == 1").
Proof.
  unfold RemoveConnectionInLoop. case_bool_decide; [|done]. cbn. by rewrite lookup_delete_eq.
Qed.
End races.

(** ** Two pool threads with epoll pollers *)
Definition sample_ios : gmap loop (io_loop (EPoll.EPollPoller (gmap Z (Z * chan)))) :=
  {[100 := MkIo sample_poller ∅ []; 101 := MkIo sample_poller ∅ []]}.

Lemma sample_ios_ready l io :
  sample_ios !! l = Some io → io_pending io = [] ∧ loop_ready (inv := epoll_inv) ∅ (io_poller io) (io_heap io) 1.
Proof.
  unfold sample_ios. rewrite lookup_insert_Some, lookup_singleton_Some. intros [[_ <-]|[_ [_ <-]]]; split; (done || apply sample_ready).
Qed.

