(* ===== verification/ServiceServing.v ===== *)
(** * The HTTP server in one loop answers the requests of all its connections

    Well-formed requests arrive on any number of connections, in segments that
    interleave in any way, while connections come and go.  A [ledger] says what
    the server owes: for each connection the part of a request that has arrived
    and the bytes of its replies, and the files as the requests left them in the
    order in which they were completed. *)

From stdpp Require Import base tactics list numbers strings sets gmap.
From Stdlib Require Import ZArith Lia Ascii.
From S2P Require Import Prelude.
From S2P Require Import CString.
From S2P Require Import Buffer.
From S2P Require Import HttpRequest.
From S2P Require Import HttpContext.
From S2P Require Import HttpResponse.
From S2P Require Import Timing.
From S2P Require Import HttpServer.
From S2P Require Import Channel.
From S2P Require Import Poller.
From S2P Require Import TcpServer.
From S2P Require Import TcpConnection.
From S2P Require Import HttpConnection.
From S2P Require Import SharedLoop.
From S2P Require Import HttpService.
From S2P Require Import ServiceLifecycle.
From S2P Require Import ServiceRefinement.

(** ** A timing object that serves every connection it was told about

    It knows the time of each connection's last message, and a tick at which all
    of them are within the limit closes none. *)
Class TimingTotal (T : Type) `{Timing T} (limit : Z) (knows : gmap conn_id Z → T → Prop) := {
  total_connect m c now (t : T) : knows m t → m !! c = None →
    ∃ t', Timing.OnConnection c (MkConnView true true) now t = Ok t' ∧ knows (<[c := now]> m) t';
  total_disconnect m c now (t : T) : knows m t → is_Some (m !! c) →
    ∃ t', Timing.OnConnection c (MkConnView true false) now t = Ok t' ∧ knows (delete c m) t';
  total_message m c time (t : T) : knows m t → is_Some (m !! c) →
    ∃ t', Timing.OnMessage c time t = Ok t' ∧ knows (<[c := time]> m) t';
  total_tick m view now (t : T) : knows m t →
    map_Forall (λ c last, alive (view c) = true ∧ 0 ≤ now - last ≤ limit) m →
    ∃ t', Timing.OnTimer view now t = Ok (t', []) ∧ knows m t';
}.

(** The list knows the connections whose nodes are in it. *)
Record list_knows (idle : Z) (m : gmap conn_id Z) (l : TList.TimingList) : Prop := MkListKnows {
  lk_idle : TList.idle_seconds_ l = idle;
  lk_list c : c ∈ TList.connection_list_ l ↔ is_Some (m !! c);
  lk_node c last : m !! c = Some last → TList.last_receive_time l !! c = Some last;
}.

Lemma list_knows_new idle : list_knows idle ∅ (TList.TimingList_new idle).
Proof.
  split; [done| |by intros c last; rewrite lookup_empty]. intros c. rewrite lookup_empty, is_Some_alt.
  cbn. by rewrite elem_of_nil.
Qed.

#[global] Instance list_total idle : TimingTotal TList.TimingList (idle * 1000000) (list_knows idle).
Proof.
  split; [intros m c now t [Hi Hl Hn] Hc|intros m c now t [Hi Hl Hn] [last Hc]|intros m c now t [Hi Hl Hn] [last Hc]|intros m view now t Hk Hm].
  - eexists. split; [done|]. split; cbn; [done| |].
    + intros c'. rewrite elem_of_app, Hl, list_elem_of_singleton, lookup_insert_is_Some. destruct (decide (c = c')); naive_solver.
    + intros c' s. rewrite !lookup_insert_Some. naive_solver.
  - cbn. unfold TList.OnConnection, TList.erase. cbn [connected]. rewrite !bool_decide_true by (first [by rewrite (Hn _ _ Hc)|apply Hl; by rewrite Hc]).
    cbn [cassert mbind outcome_bind]. eexists. split; [done|]. split; cbn; [done| |].
    + intros c'. rewrite list_elem_of_filter, Hl, lookup_delete_is_Some. naive_solver.
    + intros c' s [_ Hs]%lookup_delete_Some. by apply Hn.
  - cbn. unfold TList.OnMessage, TList.erase. rewrite !bool_decide_true by (first [by rewrite (Hn _ _ Hc)|apply Hl; by rewrite Hc]).
    cbn [cassert mbind outcome_bind].
    rewrite bool_decide_true by by rewrite last_snoc. cbn [cassert mbind outcome_bind]. eexists. split; [done|]. split; cbn; [done| |].
    + intros c'. rewrite elem_of_app, list_elem_of_filter, list_elem_of_singleton, Hl, lookup_insert_is_Some.
      destruct (decide (c = c')); naive_solver.
    + intros c' s. rewrite !lookup_insert_Some. naive_solver.
  - exists t. split; [|done]. destruct Hk as [Hi Hl Hn], t as [i l nodes]. cbn in *. unfold TList.OnTimer. cbn. subst i.
    destruct l as [|c l]; [done|]. destruct (proj1 (Hl c)) as [last Hc]; [set_solver|]. destruct (Hm _ _ Hc) as [Ha ?].
    cbn [TList.scan]. rewrite Ha, (Hn _ _ Hc). replace (_ <? _) with false by lia. by replace (now - last <? 0) with false by lia.
Qed.

(** ** What the server owes *)
Record account := MkAccount {
  l_fd : Z;
  l_part : bytes;        (* of the request that is arriving *)
  l_sent : bytes;        (* the replies so far *)
  l_open : bool;         (* no reply closed the connection *)
  l_last : Z;            (* when the last segment arrived *)
}.

Record ledger (F : Type) := MkLedger {
  l_files : F;
  l_accounts : gmap chan account;
  l_closing : gset Z;    (* descriptors of connections closed in this turn *)
  l_next : chan;
  l_count : Z;           (* connections so far *)
}.
Arguments MkLedger {F} _ _ _ _ _.
Arguments l_files {F} _.
Arguments l_accounts {F} _.
Arguments l_closing {F} _.
Arguments l_next {F} _.
Arguments l_count {F} _.

Section serving.
Context {F T : Type} `{FileSystem F, TimingOrderly T, !TimingTotal T limit knows}.
Context (config : HttpServerConfig) (reserved : gset Z).
Implicit Types (L : ledger F) (a : aservice F T).

Definition set_account (c : chan) (x : account) L : ledger F :=
  MkLedger (l_files L) (<[c := x]> (l_accounts L)) (l_closing L) (l_next L) (l_count L).
Definition close_account (c : chan) (fd : Z) L : ledger F :=
  MkLedger (l_files L) (delete c (l_accounts L)) ({[fd]} ∪ l_closing L) (l_next L) (l_count L).

(** The whole head of a request but for its end has arrived, at most. *)
Definition part_of_request (l : bytes) : Prop :=
  ∃ w more, valid_wire w ∧ more ≠ [] ∧ l ++ more = print_head w.

Record completes (l data : bytes) (w : wire_request) : Prop := MkCompletes {
  co_valid : valid_wire w;
  co_body : sends_body (w_method w) = false → w_body w = [];
  co_bytes : l ++ data = print_request w;
}.

Inductive ledger_step (now : Z) : event → ledger F → ledger F → Prop :=
| step_accept fd reopened kern L :
    0 ≤ fd → fd ∉ reserved → fd ∉ l_closing L → map_Forall (λ _ x, l_fd x ≠ fd) (l_accounts L) →
    Forall (λ x, is_fault x = false) kern → l_count L < 2 ^ 31 - 2 →
    ledger_step now (EvAccept (Accepted fd) reopened kern) L
      (MkLedger (l_files L) (<[l_next L := MkAccount fd [] [] true now]> (l_accounts L)) (l_closing L) (l_next L + 1) (l_count L + 1))
| step_no_accept errno reopened kern L : ledger_step now (EvAccept (AcceptError errno) reopened kern) L L
| step_part c t data out err hup x L :
    l_accounts L !! c = Some x → data ≠ [] → part_of_request (l_part x ++ data) →
    ledger_step now (EvSocket c t (MkReport (Some (ReadvOk data)) out err hup)) L
      (set_account c (MkAccount (l_fd x) (l_part x ++ data) (l_sent x) (l_open x) t) L)
| step_request c t data out err hup x w p close files L :
    l_accounts L !! c = Some x → data ≠ [] → completes (l_part x) data w →
    answerable config (real_path_of config w) (request_of 0 w) (l_files L) →
    answer config w (l_files L) = (p, close, files) →
    2 * kCheapPrepend + zlen (l_sent x ++ (if l_open x then render p else [])) ≤ vector_max_size →
    ledger_step now (EvSocket c t (MkReport (Some (ReadvOk data)) out err hup)) L
      (MkLedger files
         (<[c := MkAccount (l_fd x) [] (l_sent x ++ (if l_open x then render p else [])) (l_open x && negb close) t]> (l_accounts L))
         (l_closing L) (l_next L) (l_count L))
| step_writable c t out err x L :
    l_accounts L !! c = Some x → ledger_step now (EvSocket c t (MkReport None out err false)) L L
| step_end c t out err hup x L :
    l_accounts L !! c = Some x → ledger_step now (EvSocket c t (MkReport (Some (ReadvOk [])) out err hup)) L (close_account c (l_fd x) L)
| step_hangup c t out err x L :
    l_accounts L !! c = Some x → ledger_step now (EvSocket c t (MkReport None out err true)) L (close_account c (l_fd x) L)
| step_tick L : map_Forall (λ _ x, 0 ≤ now - l_last x ≤ limit) (l_accounts L) → ledger_step now EvTick L L.

Inductive ledger_events : list (Z * event) → ledger F → ledger F → Prop :=
| events_nil L : ledger_events [] L L
| events_cons now e es L1 L2 L3 : ledger_step now e L1 L2 → ledger_events es L2 L3 → ledger_events ((now, e) :: es) L1 L3.

(** At the end of a turn the closed connections are gone. *)
Inductive ledger_turns : list (list (Z * event) * Z) → ledger F → ledger F → Prop :=
| turns_nil L : ledger_turns [] L L
| turns_cons es now ts L1 L2 L3 :
    ledger_events es L1 L2 →
    ledger_turns ts (MkLedger (l_files L2) (l_accounts L2) ∅ (l_next L2) (l_count L2)) L3 →
    ledger_turns ((es, now) :: ts) L1 L3.

(** ** The contract follows the ledger *)
Record settles (x : account) (y : apeer) : Prop := MkSettles {
  st_open : ap_closed y = false;
  st_fd : conn_fd (ap_connection y) = l_fd x;
  st_sent : ap_sent y = l_sent x;
  st_replies : ap_open y = l_open x;
  st_timers : ap_timers y = O;
  st_bound : 2 * kCheapPrepend + zlen (l_sent x) ≤ vector_max_size;
  st_part : ∃ c0, expects_line c0 ∧ waits (ap_context y) ∧
    ∀ t more, untimed (parse t (ap_context y) (ap_unread y ++ more)) = untimed (parse 0 c0 (l_part x ++ more));
}.

Record follows L a : Prop := MkFollows {
  fo_wf : awf [] a;
  fo_files : k_files (as_control a) = l_files L;
  fo_next : k_next (as_control a) = l_next L;
  fo_count : next_conn_id_ (k_server (as_control a)) = 1 + l_count L;
  fo_timing : knows (l_last <$> l_accounts L) (k_timing (as_control a));
  fo_account c x : l_accounts L !! c = Some x → ∃ y, as_peers a !! c = Some y ∧ settles x y;
  fo_closing c y : as_peers a !! c = Some y → l_accounts L !! c = None → ap_closed y = true ∧ conn_fd (ap_connection y) ∈ l_closing L;
  fo_pending f : f ∈ k_pending (as_control a) → ∃ c, f = DestroyFunctor c;
}.

(** A message of a connection in its account. *)
Lemma follows_store L a c x y s x' :
  follows L a → l_accounts L !! c = Some x → as_peers a !! c = Some y → ap_closed y = false →
  knows (<[c := l_last x']> (l_last <$> l_accounts L)) (a_timing s) → (ap_open y = false → a_open s = false) → settles x' (apeer_of y s) →
  follows (MkLedger (a_files s) (<[c := x']> (l_accounts L)) (l_closing L) (l_next L) (l_count L)) (astore c y s a).
Proof.
  intros [] Hx Hy Hcl Ht Ho Hs. split; cbn [as_control as_peers astore k_files k_next k_server k_timing k_pending l_files l_accounts l_closing l_next l_count]; try done.
  - by apply astore_wf.
  - by rewrite fmap_insert.
  - intros c' z. destruct (decide (c = c')) as [<-|]; [rewrite !lookup_insert_eq; intros [= <-]; by eexists|].
    rewrite !lookup_insert_ne by done. apply fo_account0.
  - intros c' z. destruct (decide (c = c')) as [<-|]; [by rewrite !lookup_insert_eq|]. rewrite !lookup_insert_ne by done. apply fo_closing0.
Qed.

(** The connections whose messages it takes. *)
Definition takes (m : gmap conn_id Z) (t : T) : Prop := ∃ m', dom m' = dom m ∧ knows m' t.

Lemma follows_partway L a c x y :
  follows L a → as_peers a !! c = Some y → settles x y →
  ∃ c0, expects_line c0 ∧ partway (takes (l_last <$> l_accounts L)) c0 (l_part x) (aload y a).
Proof. intros [] Hy [? ? ? ? ? ? (c0 & H1' & H2' & H3')]. exists c0. split; [done|]. split; [done|by eexists|done]. Qed.

Lemma takes_message L c x :
  l_accounts L !! c = Some x →
  ∀ t y, takes (l_last <$> l_accounts L) y → ∃ y', Timing.OnMessage c t y = Ok y' ∧ takes (l_last <$> l_accounts L) y'.
Proof.
  intros Hx t y (m & Hd & Hy). assert (c ∈ dom m) as Hc. { rewrite Hd, dom_fmap_L. by eapply elem_of_dom_2. }
  destruct (total_message m c t y Hy) as (y' & -> & Hy'); [by apply elem_of_dom|]. exists y'. split; [done|].
  eexists. split; [|done]. rewrite dom_insert_L. set_solver.
Qed.

Lemma acalls_keep_timing calls (s : aserver F T) : a_timing (acalls calls s) = a_timing s.
Proof.
  revert s. induction calls as [|call calls IH]; intros s; [done|]. change (a_timing (acalls calls (acall s call)) = a_timing s).
  rewrite IH. by destruct call.
Qed.

(** The timing object after a segment. *)
Lemma segment_known L a c x y t data s :
  follows L a → l_accounts L !! c = Some x → areact config c t data (aload y a) = Ok s →
  knows (<[c := t]> (l_last <$> l_accounts L)) (a_timing s).
Proof.
  intros Hf Hx E. destruct (total_message (l_last <$> l_accounts L) c t _ (fo_timing _ _ Hf)) as (t' & Ht & Hk); [by rewrite lookup_fmap, Hx|].
  assert (a_timing s = t') as ->; [|done]. unfold areact in E. cbn [aload a_timing] in E. rewrite Ht in E. cbn [mbind outcome_bind] in E.
  apply bind_Ok in E as ([[ok ctx] rest] & _ & E). destruct (IsGotAll ctx).
  - apply bind_Ok in E as ([fs calls] & _ & [= <-]). by rewrite acalls_keep_timing.
  - injection E as <-. by rewrite acalls_keep_timing.
Qed.

Lemma part_follows L a now c t data out err hup x :
  follows L a → l_accounts L !! c = Some x → data ≠ [] → part_of_request (l_part x ++ data) →
  let e := EvSocket c t (MkReport (Some (ReadvOk data)) out err hup) in
  permitted config reserved now e a ∧
  ∃ a', aevent config now e a = Ok a' ∧
    follows (set_account c (MkAccount (l_fd x) (l_part x ++ data) (l_sent x) (l_open x) t) L) a'.
Proof.
  intros Hf Hx Hd (w & more & Hw & Hm & Hh) e. destruct (fo_account _ _ Hf _ _ Hx) as (y & Hy & Hs).
  destruct (follows_partway _ _ _ _ _ Hf Hy Hs) as (c0 & Hc0 & Hp).
  destruct (segment_partway config c _ (takes_message _ _ _ Hx) w c0 (l_part x) (aload y a) t data more)
    as (s & Ha & Hp' & (Hfl & Hse & Hop) & Hl); [done..|]. cbn [aload a_files a_sent a_open] in Hfl, Hse, Hop.
  cbn [e aevent permitted]. unfold awith. rewrite Hy. unfold aread. cbn [rp_in].
  destruct data as [|b data]; [done|]. rewrite Ha. cbn [mbind outcome_bind]. split.
  { split; [apply Hs|]. split; [|done]. rewrite Hse, (st_sent _ _ Hs). apply Hs. }
  eexists. split; [done|]. rewrite (fo_files _ _ Hf) in Hfl. unfold set_account. rewrite <-Hfl.
  apply (follows_store L a c x y); try done; [apply Hs|by eapply segment_known|by rewrite Hop|].
  destruct Hs, Hp'. split; cbn; try congruence. by exists c0.
Qed.

Lemma request_follows L a now c t data out err hup x w p close files :
  follows L a → l_accounts L !! c = Some x → data ≠ [] → completes (l_part x) data w →
  answerable config (real_path_of config w) (request_of 0 w) (l_files L) →
  answer config w (l_files L) = (p, close, files) →
  2 * kCheapPrepend + zlen (l_sent x ++ (if l_open x then render p else [])) ≤ vector_max_size →
  let e := EvSocket c t (MkReport (Some (ReadvOk data)) out err hup) in
  permitted config reserved now e a ∧
  ∃ a', aevent config now e a = Ok a' ∧
    follows (MkLedger files
         (<[c := MkAccount (l_fd x) [] (l_sent x ++ (if l_open x then render p else [])) (l_open x && negb close) t]> (l_accounts L))
         (l_closing L) (l_next L) (l_count L)) a'.
Proof.
  intros Hf Hx Hd [Hw Hbd Hby] Han Hanw Hb e. destruct (fo_account _ _ Hf _ _ Hx) as (y & Hy & Hs).
  destruct (follows_partway _ _ _ _ _ Hf Hy Hs) as (c0 & Hc0 & Hp). rewrite <-(fo_files _ _ Hf) in Han, Hanw.
  destruct (request_completed config c _ (takes_message _ _ _ Hx) w c0 (l_part x) (aload y a) t data) as (s & Ha & Has); [done..|].
  unfold answered in Has. cbn [aload a_files a_sent a_open] in Has. rewrite Hanw in Has. destruct Has as (Hrest & Hfl & Hse & Hop).
  rewrite (st_sent _ _ Hs), (st_replies _ _ Hs) in Hse. rewrite (st_replies _ _ Hs) in Hop.
  cbn [e aevent permitted]. unfold awith. rewrite Hy. unfold aread. cbn [rp_in].
  destruct data as [|b data]; [done|]. rewrite Ha. cbn [mbind outcome_bind]. split.
  { split; [apply Hs|]. split; [by rewrite Hse|]. intros _. left. apply Hrest. }
  eexists. split; [done|]. rewrite <-Hfl. pose proof (at_rest_partway _ _ Hrest) as Hp'.
  apply (follows_store L a c x y); try done; [apply Hs|by eapply segment_known| |].
  - intros Ho. rewrite Hop, <-(st_replies _ _ Hs), Ho. done.
  - destruct Hs, Hp'. split; cbn; try done. exists (a_context s). split; [apply Hrest|done].
Qed.

Lemma close_follows L a now c x :
  follows L a → l_accounts L !! c = Some x →
  ∃ y a', as_peers a !! c = Some y ∧ ap_closed y = false ∧ aclose now c y a = Ok a' ∧ follows (close_account c (l_fd x) L) a'.
Proof.
  intros Hf Hx. destruct (fo_account _ _ Hf _ _ Hx) as (y & Hy & Hs). pose proof Hs as [Hcl Hfd _ _ _ _ _].
  destruct (total_disconnect _ c now _ (fo_timing _ _ Hf)) as (timing & Ht & Hk); [by rewrite lookup_fmap, Hx|].
  destruct (aclose_ok now c y a timing) as (a' & Ha'); [by exists []; apply Hf|done..|]. exists y, a'. split; [done|]. split; [done|].
  split; [done|]. pose proof (aclose_wf now [] c y a a' (fo_wf _ _ Hf) Hy Hcl Ha') as Hwf.
  unfold aclose, RemoveConnection, RemoveConnectionInLoop in Ha'. rewrite Ht in Ha'. inv_ok. destruct Hf.
  split; cbn [as_control as_peers k_files k_next k_server k_timing k_pending close_account l_files l_accounts l_closing l_next l_count]; try done.
  - by rewrite fmap_delete.
  - intros c' z [Hne Hz]%lookup_delete_Some. rewrite lookup_insert_ne by done. by apply fo_account0.
  - intros c' z. destruct (decide (c = c')) as [<-|Hne].
    + rewrite lookup_insert_eq. intros [= <-] _. cbn. split; [done|]. rewrite Hfd. set_solver.
    + rewrite lookup_insert_ne, lookup_delete_ne by done. intros Hz Hn. destruct (fo_closing0 _ _ Hz Hn). set_solver.
  - intros f Hin. apply elem_of_app in Hin as [Hin|Hin]; [by apply fo_pending0|].
    apply list_elem_of_singleton in Hin as ->. by eexists.
Qed.

Lemma accept_follows L a now fd reopened kern :
  follows L a → fd ∉ l_closing L → map_Forall (λ _ x, l_fd x ≠ fd) (l_accounts L) → l_count L < 2 ^ 31 - 2 →
  map_Forall (λ _ y, conn_fd (ap_connection y) ≠ fd) (as_peers a) ∧
  ∃ a', aevent config now (EvAccept (Accepted fd) reopened kern) a = Ok a' ∧
    follows (MkLedger (l_files L) (<[l_next L := MkAccount fd [] [] true now]> (l_accounts L)) (l_closing L) (l_next L + 1) (l_count L + 1)) a'.
Proof.
  intros Hf Hcl Hac Hid. split.
  { intros c y Hy E. destruct (l_accounts L !! c) as [x|] eqn:Hx.
    - destruct (fo_account _ _ Hf _ _ Hx) as (y' & Hy' & Hs). assert (y' = y) as -> by congruence.
      rewrite (st_fd _ _ Hs) in E. by apply (Hac c x).
    - apply Hcl. rewrite <-E. by apply (fo_closing _ _ Hf c). }
  cbn [aevent Acceptor_HandleRead]. set (a1 := MkAservice _ _).
  assert (awf [] a1) as Hw1 by (apply awf_control; [apply Hf|done..]). pose proof Hf as [Hwf Hfi Hn Hc Ht Hacc Hclo Hpe].
  assert (l_accounts L !! l_next L = None ∧ as_peers a !! l_next L = None) as [Hna Hnp].
  { assert (as_peers a !! l_next L = None) as E.
    { destruct (as_peers a !! l_next L) as [y|] eqn:E; [|done]. apply (aw_next _ _ Hwf) in E. lia. }
    split; [|done]. destruct (l_accounts L !! l_next L) as [x|] eqn:Ex; [|done]. destruct (Hacc _ _ Ex) as (? & ? & _). congruence. }
  destruct (total_connect _ (l_next L) now _ Ht) as (timing & Htm & Hk); [by rewrite lookup_fmap, Hna|].
  destruct (anew now fd a1) as [a'|f] eqn:Ea.
  2:{ unfold anew, NewConnection, GetNextLoop in Ea. cbn [a1 as_control k_server k_next k_timing] in Ea.
      rewrite (aw_started _ _ Hwf), (aw_loops _ _ Hwf), Hc, Hn in Ea. cbn [cassert mbind outcome_bind] in Ea.
      replace (2 ^ 31 - 1 <=? 1 + l_count L) with false in Ea by lia. cbn [mbind outcome_bind post posted] in Ea.
      rewrite (aw_posted _ _ Hwf) in Ea. cbn [app] in Ea. by rewrite Htm in Ea. }
  exists a'. split; [done|]. pose proof (anew_wf _ _ _ _ _ Hw1 Ea) as Hwf'.
  unfold anew, NewConnection, GetNextLoop in Ea. cbn [a1 as_control k_server k_next k_timing] in Ea.
  rewrite (aw_started _ _ Hwf), (aw_loops _ _ Hwf), Hc, Hn in Ea. cbn [cassert mbind outcome_bind] in Ea.
  replace (2 ^ 31 - 1 <=? 1 + l_count L) with false in Ea by lia. cbn [mbind outcome_bind post posted] in Ea.
  rewrite (aw_posted _ _ Hwf) in Ea. cbn [app] in Ea. rewrite Htm in Ea. injection Ea as <-.
  split; cbn [as_control as_peers k_files k_next k_server k_timing k_pending l_files l_accounts l_closing l_next l_count
    clear_posted post next_conn_id_ a1]; try done; [lia|by rewrite fmap_insert| |].
  - intros c x. destruct (decide (l_next L = c)) as [<-|]; [|rewrite !lookup_insert_ne by done; apply Hacc].
    rewrite !lookup_insert_eq. intros [= <-]. eexists. split; [done|]. split; try done.
    exists HttpContext_new. split; [done|]. split; [by left|]. intros t more. by apply parse_untimed.
  - intros c y. destruct (decide (l_next L = c)) as [<-|]; [by rewrite !lookup_insert_eq|]. rewrite !lookup_insert_ne by done. apply Hclo.
Qed.

Lemma step_follows L L' e now a :
  ledger_step now e L L' → follows L a → permitted config reserved now e a ∧ ∃ a', aevent config now e a = Ok a' ∧ follows L' a'.
Proof.
  intros Hst Hf. destruct Hst as [fd reopened kern L Hp Hr Hc Hac Hk Hid|errno reopened kern L|c t data out err hup x L Hx Hd Hp
    |c t data out err hup x w p close files L Hx Hd Hc Han Hanw Hb|c t out err x L Hx|c t out err hup x L Hx|c t out err x L Hx|L Hl].
  - destruct (accept_follows L a now fd reopened kern Hf Hc Hac Hid) as [Hpe Ha]. split; [|done]. by cbn.
  - split; [done|]. cbn [aevent Acceptor_HandleRead]. destruct (errno =? EMFILE); (eexists; split; [done|]); destruct Hf;
      (split; try done; by apply awf_control).
  - by apply part_follows.
  - by eapply request_follows.
  - destruct (fo_account _ _ Hf _ _ Hx) as (y & Hy & Hs). cbn [permitted aevent]. unfold awith. rewrite Hy. cbn.
    split; [by split; [apply Hs|]|]. by exists a.
  - destruct (close_follows L a now c x Hf Hx) as (y & a' & Hy & Hcl & Ha & Hf'). cbn [permitted aevent]. unfold awith. rewrite Hy. cbn.
    split; [done|]. by exists a'.
  - destruct (close_follows L a now c x Hf Hx) as (y & a' & Hy & Hcl & Ha & Hf'). cbn [permitted aevent]. unfold awith. rewrite Hy. cbn.
    split; [done|]. by exists a'.
  - split; [done|]. cbn [aevent]. unfold atick.
    destruct (total_tick _ (aview a) now _ (fo_timing _ _ Hf)) as (t' & -> & Hk).
    { intros c last. rewrite lookup_fmap, fmap_Some. intros (x & Hx & ->). split; [|by apply (Hl c)].
      destruct (fo_account _ _ Hf _ _ Hx) as (y & Hy & _). unfold aview, view_from. by rewrite lookup_fmap, Hy. }
    cbn [mbind outcome_bind acalls_timing]. eexists. split; [done|]. destruct Hf. split; try done. by apply awf_control.
Qed.

Lemma events_follow es L L' a :
  ledger_events es L L' → follows L a → permitted_events config reserved es a ∧ ∃ a', aevents config es a = Ok a' ∧ follows L' a'.
Proof.
  intros He. revert a. induction He as [L|now e es L1 L2 L3 Hst _ IH]; intros a Hf; [split; [done|by exists a]|].
  destruct (step_follows _ _ _ _ a Hst Hf) as [Hp (a1 & Ha1 & Hf1)]. destruct (IH a1 Hf1) as [Hps (a2 & Ha2 & Hf2)].
  cbn [permitted_events aevents]. rewrite Ha1. cbn [mbind outcome_bind]. split; [done|]. by exists a2.
Qed.

(** The functors at the end of a turn: all closed connections go. *)
Lemma functors_follow now fs a :
  awf fs a → (∀ f, f ∈ fs → ∃ c, f = DestroyFunctor c) →
  ∃ a', arun_functors now fs a = Ok a' ∧ as_control a' = as_control a ∧
    (∀ c y, as_peers a' !! c = Some y ↔ as_peers a !! c = Some y ∧ DestroyFunctor c ∉ fs).
Proof.
  revert a. induction fs as [|f fs IH]; intros a Ha Hfs; [exists a; split; [done|]; split; [done|]; set_solver|].
  destruct (Hfs f) as [c ->]; [set_solver|]. cbn [arun_functors arun_functor]. unfold awith.
  destruct (aw_known _ _ Ha (DestroyFunctor c)) as [y Hy]; [set_solver|]. cbn in Hy. rewrite Hy. cbn [mbind outcome_bind].
  destruct (IH (MkAservice (as_control a) (delete c (as_peers a)))) as (a' & Ha' & Hk & Hpe); [by apply destroy_wf|set_solver|].
  exists a'. split; [done|]. split; [done|]. intros c' z. rewrite Hpe. cbn. rewrite lookup_delete_Some, not_elem_of_cons.
  naive_solver.
Qed.

Lemma turn_follows es now L L' a :
  ledger_events es L L' → follows L a →
  permitted_events config reserved es a ∧
  ∃ a', aturn config es now a = Ok a' ∧ follows (MkLedger (l_files L') (l_accounts L') ∅ (l_next L') (l_count L')) a'.
Proof.
  intros He Hf. destruct (events_follow es L L' a He Hf) as [Hp (a1 & Ha1 & Hf1)]. split; [done|].
  unfold aturn. rewrite Ha1. cbn [mbind outcome_bind]. unfold ado_pending.
  pose proof (swap_wf a1 (fo_wf _ _ Hf1)) as Hsw. destruct Hf1.
  destruct (functors_follow now (k_pending (as_control a1)) _ Hsw fo_pending0) as (a2 & Ha2 & Hk & Hpe).
  exists a2. split; [done|]. cbn [as_peers as_control] in Hk, Hpe.
  pose proof (arun_functors_wf now _ _ _ Hsw Ha2) as Hw2.
  assert (∀ c y, as_peers a1 !! c = Some y → DestroyFunctor c ∈ k_pending (as_control a1) ↔ ap_closed y = true) as Hdc.
  { intros c y Hy. apply (aw_destroy _ _ fo_wf0 c y Hy). }
  split; cbn [l_files l_accounts l_closing l_next l_count]; rewrite ?Hk; try done.
  - intros c x Hx. destruct (fo_account0 _ _ Hx) as (y & Hy & Hs). exists y. split; [|done]. apply Hpe. split; [done|].
    rewrite (Hdc _ _ Hy), (st_open _ _ Hs). done.
  - intros c y [Hy Hno]%Hpe Hx. destruct (fo_closing0 _ _ Hy Hx) as [Hcl _]. by apply (Hdc _ _ Hy) in Hcl.
  - intros f Hin. cbn in Hin. by apply elem_of_nil in Hin.
Qed.

Lemma turns_follow ts L L' a :
  ledger_turns ts L L' → follows L a → permitted_turns config reserved ts a ∧ ∃ a', aturns config ts a = Ok a' ∧ follows L' a'.
Proof.
  intros Ht. revert a. induction Ht as [L|es now ts L1 L2 L3 He _ IH]; intros a Hf; [split; [done|by exists a]|].
  destruct (turn_follows es now L1 L2 a He Hf) as [Hp (a1 & Ha1 & Hf1)]. destruct (IH a1 Hf1) as [Hps (a2 & Ha2 & Hf2)].
  cbn [permitted_turns aturns]. rewrite Ha1. cbn [mbind outcome_bind]. split; [done|]. by exists a2.
Qed.

Lemma turns_closing ts L L' : ledger_turns ts L L' → l_closing L = ∅ → l_closing L' = ∅.
Proof. induction 1; auto. Qed.

Lemma start_follows base ip_port name acc (files : F) (timing : T) next :
  zlen ip_port ≤ 51 → knows ∅ timing →
  follows (MkLedger files ∅ ∅ next 0) (astart base ip_port name acc files timing next).
Proof.
  intros Hip Hk. split; cbn [astart as_control as_peers k_files k_next k_server k_timing k_pending l_files l_accounts l_closing l_next l_count]; try done.
  - by apply astart_wf.
  - intros f Hin. by apply elem_of_nil in Hin.
Qed.

End serving.

(** The server from its start in a loop that is ready. *)
Lemma service_run_serves {P F T} `{PollerInv P inv, !PollerHeap P inv, !PollerStatus P, FileSystem F, TimingOrderly T, !TimingTotal T limit knows}
    config reserved base ip_port name acc p h (files : F) (timing : T) next ts L :
  loop_ready (inv := inv) reserved p h next → zlen ip_port ≤ 51 → knows ∅ timing →
  ledger_turns (limit := limit) config reserved ts (MkLedger files ∅ ∅ next 0) L →
  2 * kCheapPrepend + zlen (turns_input ts) ≤ vector_max_size →
  ∃ v, (v ← service_start base ip_port name acc p h files timing next; serve_turns config ts v) = Ok v ∧
    k_files (v_control v) = l_files L ∧ dom (v_peers v) = dom (l_accounts L) ∧
    ∀ c x, l_accounts L !! c = Some x →
      ∃ y, v_peers v !! c = Some y ∧ p_wire y ++ contents (output_buffer_ (p_conn y)) = l_sent x ∧
        (p_shut y = true ↔ l_open x = false ∧ p_wire y = l_sent x).
Proof.
  intros Hl Hip Hk Ht Hb. destruct (turns_follow config reserved ts _ L _ Ht (start_follows base ip_port name acc files timing next Hip Hk))
    as (Hp & a & Ha & Hf). pose proof (service_run_observed (inv := inv) config reserved base ip_port name acc p h files timing next ts Hl Hip Hp Hb) as Hs.
  rewrite Ha in Hs. destruct Hs as (v & Hv & Hob). exists v. split; [done|].
  split; [rewrite (ob_control _ _ Hob); apply Hf|]. split.
  - rewrite (ob_peers _ _ Hob). apply set_eq. intros c. rewrite !elem_of_dom. split; intros [z Hz].
    + destruct (l_accounts L !! c) as [x|] eqn:Hx; [by eexists|]. destruct (fo_closing _ _ Hf _ _ Hz Hx) as [_ Hc].
      rewrite (turns_closing _ _ _ _ _ Ht) in Hc by done. set_solver.
    + destruct (fo_account _ _ Hf _ _ Hz) as (y & Hy & _). by exists y.
  - intros c x Hx. destruct (fo_account _ _ Hf _ _ Hx) as (y & Hy & Hs).
    assert (is_Some (v_peers v !! c)) as [z Hz]. { apply elem_of_dom. rewrite (ob_peers _ _ Hob). by eapply elem_of_dom_2. }
    exists z. split; [done|]. destruct (ob_peer _ _ Hob c z y Hz Hy (st_open _ _ Hs)) as (Hw & _ & _ & Hsh).
    by rewrite <-(st_sent _ _ Hs), <-(st_replies _ _ Hs).
Qed.

(** ** Two connections: a [PUT] in two segments, and a [GET] of the same file *)
Definition put_request : wire_request := MkWire kPut (str "f") [] kHttp11 [] (str "hi").
Definition get_request2 : wire_request := MkWire kGet (str "f") [] kHttp10 [] [].
Definition segment (c : chan) (t : Z) (data : bytes) : Z * event := (t, EvSocket c t (MkReport (Some (ReadvOk data)) true false false)).

(** The descriptors of the loop and the listening socket; eight seconds. *)
Definition sample_reserved : gset Z := {[3; 4; 5]}.
Definition sample_limit : Z := 8 * 1000000.

Definition sample_turns : list (list (Z * event) * Z) :=
  [([(0, EvAccept (Accepted 7) 0 [Wrote 2; Wrote 1000]); (0, EvAccept (Accepted 8) 0 [])], 0);
   ([segment 4 1 (take 10 (print_request put_request)); segment 5 1 (take 4 (print_request get_request2))], 1);
   ([segment 4 2 (drop 10 (print_request put_request)); segment 5 2 (drop 4 (print_request get_request2))], 2);
   ([(3, EvTick); (3, EvSocket 4 3 (MkReport (Some (ReadvOk [])) false false false))], 3)].

Definition sample_replies : bytes := (serve sample_config [put_request; get_request2] true (∅ : gmap bytes bytes)).1.1.
Definition put_reply : bytes := (serve sample_config [put_request] true (∅ : gmap bytes bytes)).1.1.
Definition get_reply : bytes := drop (length put_reply) sample_replies.
Definition sample_after : gmap bytes bytes := (answer sample_config put_request (∅ : gmap bytes bytes)).2.

Lemma sample_part w n :
  valid_wire w → (n < length (print_head w))%nat → part_of_request ([] ++ take n (print_request w)).
Proof.
  intros Hw Hn. exists w, (drop n (print_head w)). split; [done|]. split.
  - intros E. apply (f_equal length) in E. rewrite length_drop in E. cbn in E. lia.
  - unfold print_request. cbn. rewrite take_app_le by lia. apply take_drop.
Qed.

Lemma put_valid : valid_wire put_request.
Proof. split; repeat split; try (apply (bool_decide_unpack _); vm_compute; exact I); try discriminate; by left. Qed.
Lemma get_valid : valid_wire get_request2.
Proof. split; repeat split; try (apply (bool_decide_unpack _); vm_compute; exact I); try discriminate; by left. Qed.

Definition sample_ledger : ledger (gmap bytes bytes) := MkLedger sample_after {[5 := MkAccount 8 [] get_reply false 2]} ∅ 6 2.

(** A request completed with the answer the reference gives. *)
Lemma sample_step (c : chan) (t : Z) (data : bytes) (x : account) (w : wire_request) (L : ledger (gmap bytes bytes)) :
  l_accounts L !! c = Some x → data ≠ [] → completes (l_part x) data w →
  answerable sample_config (real_path_of sample_config w) (request_of 0 w) (l_files L) →
  2 * kCheapPrepend + zlen (l_sent x ++ (if l_open x then render (answer sample_config w (l_files L)).1.1 else [])) ≤ vector_max_size →
  ledger_step (limit := sample_limit) sample_config sample_reserved t (segment c t data).2 L
    (MkLedger (answer sample_config w (l_files L)).2
       (<[c := MkAccount (l_fd x) [] (l_sent x ++ (if l_open x then render (answer sample_config w (l_files L)).1.1 else []))
                 (l_open x && negb (answer sample_config w (l_files L)).1.2) t]> (l_accounts L)) (l_closing L) (l_next L) (l_count L)).
Proof. intros. eapply step_request; try done. by destruct (answer _ _ _) as [[? ?] ?]. Qed.

Lemma get_keeps_files (fs : gmap bytes bytes) : (answer sample_config get_request2 fs).2 = fs.
Proof. unfold answer, handle. cbn [get_request2 request_of method_ path_ w_method w_path]. by case_bool_decide; [|destruct (open_in _ fs)]. Qed.

(** The ledger after each event. *)
Definition sample_ledger_at (files : gmap bytes bytes) (l1 sent1 l2 sent2 : bytes) (open2 : bool) (t1 t2 : Z) : ledger (gmap bytes bytes) :=
  MkLedger files {[4 := MkAccount 7 l1 sent1 true t1; 5 := MkAccount 8 l2 sent2 open2 t2]} ∅ 6 2.

Lemma events_next (now : Z) (e : event) (es : list (Z * event)) (L1 L2 L2' L3 : ledger (gmap bytes bytes)) :
  ledger_step (limit := sample_limit) sample_config sample_reserved now e L1 L2' → L2' = L2 → ledger_events (limit := sample_limit) sample_config sample_reserved es L2 L3 →
  ledger_events (limit := sample_limit) sample_config sample_reserved ((now, e) :: es) L1 L3.
Proof. intros ? <-. by apply events_cons. Qed.

Lemma sample_end files (r1 r2 : bytes) :
  ledger_events (limit := sample_limit) sample_config sample_reserved [(3, EvTick); (3, EvSocket 4 3 (MkReport (Some (ReadvOk [])) false false false))]
    (sample_ledger_at files [] r1 [] r2 false 2 2) (MkLedger files {[5 := MkAccount 8 [] r2 false 2]} {[7]} 6 2).
Proof.
  eapply events_next; [apply step_tick|reflexivity|].
  { intros c x. unfold sample_ledger_at, sample_limit. cbn [l_accounts]. rewrite lookup_insert_Some, lookup_singleton_Some.
    intros [[_ <-]|[_ [_ <-]]]; cbn; lia. }
  eapply events_next; [by eapply (step_end _ _ 3 4 3 false false false (MkAccount 7 [] r1 true 2))| |apply events_nil].
  unfold close_account, sample_ledger_at. cbn [l_files l_accounts l_closing l_next l_count l_fd].
  rewrite delete_insert_id by done. by rewrite (right_id_L ∅ (∪)).
Qed.

Lemma sample_ledger_turns : ledger_turns (limit := sample_limit) sample_config sample_reserved sample_turns (MkLedger ∅ ∅ ∅ 4 0) sample_ledger.
Proof.
  set (p1 := take 10 (print_request put_request)). set (p2 := take 4 (print_request get_request2)).
  apply (turns_cons _ _ _ _ _ _ (sample_ledger_at ∅ [] [] [] [] true 0 0));
    [|apply (turns_cons _ _ _ _ _ _ (sample_ledger_at ∅ p1 [] p2 [] true 1 1));
      [|apply (turns_cons _ _ _ _ _ _ (sample_ledger_at sample_after [] put_reply [] get_reply false 2 2));
        [|apply (turns_cons _ _ _ _ _ _ (MkLedger sample_after {[5 := MkAccount 8 [] get_reply false 2]} {[7]} 6 2)); [|apply turns_nil]]]].
  - eapply events_next; [|reflexivity|eapply events_next; [|vm_compute; reflexivity|apply events_nil]].
    + apply step_accept; [lia|by vm_compute|by apply not_elem_of_empty|apply map_Forall_empty| |cbn; lia].
      apply (bool_decide_unpack _). vm_compute. exact I.
    + apply step_accept; [lia|by vm_compute|by apply not_elem_of_empty| | |cbn; lia];
        apply (bool_decide_unpack _); vm_compute; exact I.
  - apply (events_next _ _ _ _ (sample_ledger_at ∅ p1 [] [] [] true 1 0) _ _ (step_part _ _ 1 4 1 p1 true false false (MkAccount 7 [] [] true 0) (sample_ledger_at ∅ [] [] [] [] true 0 0) eq_refl
      ltac:(discriminate) (sample_part put_request 10 put_valid ltac:(vm_compute; lia)))); [vm_compute; reflexivity|].
    apply (events_next _ _ _ _ (sample_ledger_at ∅ p1 [] p2 [] true 1 1) _ _ (step_part _ _ 1 5 1 p2 true false false (MkAccount 8 [] [] true 0) (sample_ledger_at ∅ p1 [] [] [] true 1 0) eq_refl
      ltac:(discriminate) (sample_part get_request2 4 get_valid ltac:(vm_compute; lia)))); [vm_compute; reflexivity|apply events_nil].
  - eapply (events_next _ _ _ _ (sample_ledger_at sample_after [] put_reply p2 [] true 2 1));
      [eapply (sample_step 4 2 _ (MkAccount 7 p1 [] true 1) put_request); [vm_compute; reflexivity|discriminate| | |vm_compute; discriminate]|apply (f_equal (λ m, MkLedger sample_after m ∅ 6 2)); vm_compute; reflexivity|].
    { split; [apply put_valid|discriminate|]. vm_compute. reflexivity. }
    { split; vm_compute; (reflexivity || discriminate). }
    eapply (events_next _ _ _ _ (sample_ledger_at sample_after [] put_reply [] get_reply false 2 2));
      [eapply (sample_step 5 2 _ (MkAccount 8 p2 [] true 1) get_request2); [vm_compute; reflexivity|discriminate| | |vm_compute; discriminate]| |apply events_nil].
    { split; [apply get_valid|reflexivity|]. vm_compute. reflexivity. }
    { split; vm_compute; (reflexivity || discriminate). }
    rewrite get_keeps_files. apply (f_equal (λ m, MkLedger sample_after m ∅ 6 2)). vm_compute. reflexivity.
  - apply sample_end.
Qed.

