(* ===== verification/InetAddress.v ===== *)
(** * [net::InetAddress] (net/inet_address.h, net/inet_address.cc), [net::Socket]
    (net/socket.h, net/socket.cc) and the wrappers of net/socket_ops.cc

    An address is the 28 bytes of its [sockaddr_in6], which the union shares with
    a [sockaddr_in]: family, port in network order, and then the IPv4 address at
    offset 4 or flow information, the IPv6 address at offset 8 and the scope.
    Text goes through a character array of 64 bytes, as in the code.  The
    conversions of the C library between addresses and text are a class with the
    documented laws; the answers of system calls are arguments. *)

From stdpp Require Import base tactics list numbers strings sets.
From Stdlib Require Import ZArith Lia Ascii.
From S2P Require Import Prelude.
From S2P Require Import CString.
From S2P Require Import Buffer.

Definition AF_INET : Z := 2.
Definition AF_INET6 : Z := 10.
Definition INET_ADDRSTRLEN : Z := 16.
Definition INET6_ADDRSTRLEN : Z := 46.
Definition INADDR_ANY : Z := 0.
Definition INADDR_LOOPBACK : Z := 0x7f000001.
Definition NUL : ascii := "000"%char.

(** ** Text of addresses: [inet_ntop] and [inet_pton] *)
Class Inet := {
  inet_ntop4 : bytes → bytes;
  inet_pton4 : bytes → option bytes;
  inet_ntop6 : bytes → bytes;
  inet_pton6 : bytes → option bytes;
}.

Class InetLaws `{Inet} := {
  pton_ntop4 a : zlen a = 4 → inet_pton4 (inet_ntop4 a) = Some a;
  pton4_size s a : inet_pton4 s = Some a → zlen a = 4;
  ntop4_size a : zlen a = 4 → zlen (inet_ntop4 a) < INET_ADDRSTRLEN;
  ntop4_text a : zlen a = 4 → (NUL ∉ inet_ntop4 a) ∧ (":"%char ∉ inet_ntop4 a);
  pton_ntop6 a : zlen a = 16 → inet_pton6 (inet_ntop6 a) = Some a;
  pton6_size s a : inet_pton6 s = Some a → zlen a = 16;
  ntop6_size a : zlen a = 16 → zlen (inet_ntop6 a) < INET6_ADDRSTRLEN;
  ntop6_text a : zlen a = 16 → (NUL ∉ inet_ntop6 a) ∧ (":"%char ∈ inet_ntop6 a);
}.

(** ** The bytes of an address *)
Definition sa_family (addr : bytes) : Z := le_val (zsub 0 2 addr).
Definition sin_port (addr : bytes) : Z := le_val (zsub 2 2 addr).
Definition sin_addr (addr : bytes) : bytes := zsub 4 4 addr.
Definition sin6_addr (addr : bytes) : bytes := zsub 8 16 addr.
Definition sin6_scope_id (addr : bytes) : Z := le_val (zsub 24 4 addr).

Definition bzero (n : Z) (addr : bytes) : bytes := zstore 0 (replicate (Z.to_nat n) NUL) addr.
Definition set_family (f : Z) (addr : bytes) : bytes := zstore 0 (le_bytes 2 f) addr.
Definition set_port (p : Z) (addr : bytes) : bytes := zstore 2 (le_bytes 2 p) addr.
Definition set_sin_addr (x : bytes) (addr : bytes) : bytes := zstore 4 x addr.
Definition set_sin6_addr (x : bytes) (addr : bytes) : bytes := zstore 8 x addr.

Definition in6addr_any : bytes := replicate 16 NUL.
Definition in6addr_loopback : bytes := replicate 15 NUL ++ ["001"%char].

(** ** C strings in a character array *)
Definition strlen (buf : bytes) : Z := std_find NUL buf.
Definition c_string (buf : bytes) : bytes := ztake (strlen buf) buf.

(** [snprintf(buf + off, size, "%s", s)] for a positive [size]. *)
Definition snprintf (off size : Z) (s buf : bytes) : bytes := zstore off (ztake (size - 1) s ++ [NUL]) buf.

(** [inet_ntop(.., buf + off, size)] writes nothing when the text does not fit. *)
Definition ntop_into (off size : Z) (s buf : bytes) : bytes :=
  if zlen s <? size then zstore off (s ++ [NUL]) buf else buf.

Section addresses.
Context `{Inet}.

(** [socket::ToIp(buf + off, size, addr)]. *)
Definition ToIp (off size : Z) (addr buf : bytes) : outcome bytes :=
  if sa_family addr =? AF_INET then
    cassert "size >= INET_ADDRSTRLEN" (INET_ADDRSTRLEN <=? size);;
    Ok (ntop_into off size (inet_ntop4 (sin_addr addr)) buf)
  else if sa_family addr =? AF_INET6 then
    cassert "size >= INET6_ADDRSTRLEN" (INET6_ADDRSTRLEN <=? size);;
    Ok (ntop_into off size (inet_ntop6 (sin6_addr addr)) buf)
  else Ok buf.

Definition ToIpPort (size : Z) (addr buf : bytes) : outcome bytes :=
  if sa_family addr =? AF_INET6 then
    let buf := zstore 0 ["["%char] buf in
    buf ← ToIp 1 (size - 1) addr buf;
    let end_ := strlen buf in
    let port := NetworkToHost16 (sin_port addr) in
    cassert "size > end" (end_ <? size);;
    Ok (snprintf end_ (size - end_) (str "]:" ++ fmt_u port) buf)
  else
    buf ← ToIp 0 size addr buf;
    let end_ := strlen buf in
    let port := NetworkToHost16 (sin_port addr) in
    cassert "size > end" (end_ <? size);;
    Ok (snprintf end_ (size - end_) (str ":" ++ fmt_u port) buf).

(** [FromIpPort]: what [inet_pton] refuses leaves the address as it was. *)
Definition FromIpPort4 (ip : bytes) (port : Z) (addr : bytes) : bytes :=
  let addr := set_port (HostToNetwork16 port) (set_family AF_INET addr) in
  match inet_pton4 ip with Some x => set_sin_addr x addr | None => addr end.
Definition FromIpPort6 (ip : bytes) (port : Z) (addr : bytes) : bytes :=
  let addr := set_port (HostToNetwork16 port) (set_family AF_INET6 addr) in
  match inet_pton6 ip with Some x => set_sin6_addr x addr | None => addr end.

(** The constructors; [junk] is what the object's storage holds before. *)
Definition InetAddress_any (port : Z) (is_loopback_only is_ipv6 : bool) (junk : bytes) : bytes :=
  if is_ipv6 then
    set_port (HostToNetwork16 port)
      (set_sin6_addr (if is_loopback_only then in6addr_loopback else in6addr_any)
        (set_family AF_INET6 (bzero 28 junk)))
  else
    set_port (HostToNetwork16 port)
      (set_sin_addr (le_bytes 4 (HostToNetwork32 (if is_loopback_only then INADDR_LOOPBACK else INADDR_ANY)))
        (set_family AF_INET (bzero 16 junk))).

Definition InetAddress_ip (ip : bytes) (port : Z) (is_ipv6 : bool) (junk : bytes) : bytes :=
  if is_ipv6 || bool_decide (":"%char ∈ ip) then FromIpPort6 ip port (bzero 28 junk)
  else FromIpPort4 ip port (bzero 16 junk).

(** The methods. *)
Definition family (addr : bytes) : Z := sa_family addr.
Definition InetAddress_ToIpPort (addr : bytes) : outcome bytes :=
  buf ← ToIpPort 64 addr (replicate 64 NUL); Ok (c_string buf).
Definition InetAddress_ToIp (addr : bytes) : outcome bytes :=
  buf ← ToIp 0 64 addr (replicate 64 NUL); Ok (c_string buf).
Definition GetPortNetEndian (addr : bytes) : Z := sin_port addr.
Definition port (addr : bytes) : Z := NetworkToHost16 (GetPortNetEndian addr).
Definition GetIpv4NetEndian (addr : bytes) : outcome Z :=
  cassert "family() == AF_INET" (family addr =? AF_INET);;
  Ok (le_val (sin_addr addr)).
Definition SetScopeId (scope_id : Z) (addr : bytes) : bytes :=
  if family addr =? AF_INET6 then zstore 24 (le_bytes 4 scope_id) addr else addr.
Definition SetSockAddrInet6 (addr6 : bytes) (_ : bytes) : bytes := addr6.

(** [Resolve(hostname, out)]: the answer of [gethostbyname_r] is an error number
    and, on success, the type and the bytes of the first address. *)
Definition Resolve (ret : Z) (he : option (Z * bytes)) (out : bytes) : outcome (bool * bytes) :=
  match (if ret =? 0 then he else None) with
  | Some (h_addrtype, h_addr) =>
      cassert "he->h_addrtype == AF_INET && he->h_length == sizeof(uint32_t)"
        ((h_addrtype =? AF_INET) && (zlen h_addr =? 4));;
      Ok (true, set_sin_addr h_addr out)
  | None => Ok (false, out)
  end.

End addresses.

(** ** System calls *)

(** A call that must succeed: the return value. *)
Definition or_die (what : string) (ret : Z) : outcome Z := if ret <? 0 then Fail (FatalLog what) else Ok ret.
Definition CreateNonblockingOrDie (sockfd : Z) : outcome Z := or_die "CreateNonblockingOrDie" sockfd.
Definition BindOrDie (ret : Z) : outcome unit := or_die "BindOrDie" ret;; Ok tt.
Definition ListenOrDie (ret : Z) : outcome unit := or_die "ListenOrDie" ret;; Ok tt.

Inductive accept_answer := AcceptedFd (connfd : Z) (addr : bytes) | AcceptError (errno : Z).

Definition EAGAIN : Z := 11.
Definition ECONNABORTED : Z := 103.
Definition EINTR : Z := 4.
Definition EPROTO : Z := 71.
Definition EPERM : Z := 1.
Definition EMFILE : Z := 24.
Definition EBADF : Z := 9.
Definition EFAULT : Z := 14.
Definition EINVAL : Z := 22.
Definition ENFILE : Z := 23.
Definition ENOBUFS : Z := 105.
Definition ENOMEM : Z := 12.
Definition ENOTSOCK : Z := 88.
Definition EOPNOTSUPP : Z := 95.

Definition accept_transient : list Z := [EAGAIN; ECONNABORTED; EINTR; EPROTO; EPERM; EMFILE].
Definition accept_unexpected : list Z := [EBADF; EFAULT; EINVAL; ENFILE; ENOBUFS; ENOMEM; ENOTSOCK; EOPNOTSUPP].

(** [socket::Accept]: the descriptor and the address; -1 for an error that passes. *)
Definition Accept (answer : accept_answer) (addr : bytes) : outcome (Z * bytes) :=
  match answer with
  | AcceptedFd connfd addr => Ok (connfd, addr)
  | AcceptError e =>
      if bool_decide (e ∈ accept_transient) then Ok (-1, addr)
      else if bool_decide (e ∈ accept_unexpected) then Fail (FatalLog "unexpected error of ::accept")
      else Fail (FatalLog "unknown error of ::accept")
  end.

(** [Socket::Accept(peeraddr)]. *)
Definition Socket_Accept (answer : accept_answer) (peeraddr : bytes) : outcome (Z * bytes) :=
  '(connfd, addr) ← Accept answer (replicate 28 NUL);
  Ok (connfd, if 0 <=? connfd then SetSockAddrInet6 addr peeraddr else peeraddr).

Definition GetSocketError (ret optval errno : Z) : Z := if ret <? 0 then errno else optval.

(** [GetLocalAddr] and [GetPeerAddr]: zeros when the call fails. *)
Definition GetAddr (answer : option bytes) : bytes := default (replicate 28 NUL) answer.

Definition IsSelfConnect (local peer : option bytes) : bool :=
  let localaddr := GetAddr local in
  let peeraddr := GetAddr peer in
  if sa_family localaddr =? AF_INET then
    (sin_port localaddr =? sin_port peeraddr) && (le_val (sin_addr localaddr) =? le_val (sin_addr peeraddr))
  else if sa_family localaddr =? AF_INET6 then
    (sin_port localaddr =? sin_port peeraddr) && bool_decide (sin6_addr localaddr = sin6_addr peeraddr)
  else false.

(** ** Text in an array *)
Lemma strlen_text s r : NUL ∉ s → strlen (s ++ NUL :: r) = zlen s.
Proof. apply std_find_app_cons. Qed.

Lemma c_string_text s r : NUL ∉ s → c_string (s ++ NUL :: r) = s.
Proof.
  intros Hs. unfold c_string. rewrite strlen_text by done. pose proof (zlen_nonneg s). rewrite ztake_app, ztake_all, ztake_0 by lia. apply app_nil_r.
Qed.

(** The text of an address, and then [tail] behind it. *)
Lemma append_text (s t r : bytes) size :
  NUL ∉ s → NUL ∉ t → zlen s + zlen t < size →
  c_string (snprintf (strlen (s ++ NUL :: r)) (size - strlen (s ++ NUL :: r)) t (s ++ NUL :: r)) = s ++ t.
Proof.
  intros Hs Ht Hl. rewrite strlen_text by done. unfold snprintf, zstore. pose proof (zlen_nonneg s).
  rewrite (ztake_all (size - zlen s - 1) t) by lia.
  rewrite ztake_app, ztake_all, ztake_0, app_nil_r by lia.
  replace (s ++ (t ++ [NUL]) ++ _) with ((s ++ t) ++ NUL :: zdrop (zlen s + zlen (t ++ [NUL])) (s ++ NUL :: r))
    by (by rewrite <-!app_assoc).
  apply c_string_text. rewrite elem_of_app. tauto.
Qed.

Lemma first_text s n : zlen s < n → ∃ r, zstore 0 (s ++ [NUL]) (replicate (Z.to_nat n) NUL) = s ++ NUL :: r.
Proof. intros Hs. unfold zstore. rewrite ztake_0 by lia. eexists. rewrite app_nil_l, <-app_assoc. done. Qed.

Lemma fmt_u_clean c n : 0 ≤ n → isdigit c = false → c ∉ fmt_u n.
Proof.
  intros Hn Hc. destruct (fmt_u_spec n Hn) as (_ & Hd & _). intros Hin. rewrite Forall_forall in Hd.
  rewrite (Hd c Hin) in Hc. done.
Qed.

(** *** Ports *)
Lemma byte_swap_range n v : 0 ≤ byte_swap n v < 2 ^ (8 * Z.of_nat n).
Proof.
  unfold byte_swap. pose proof (le_val_range (rev (le_bytes n v))) as Hr.
  unfold zlen in Hr. rewrite length_rev, length_le_bytes in Hr. done.
Qed.

Lemma byte_swap_swap n v : 0 ≤ v < 2 ^ (8 * Z.of_nat n) → byte_swap n (byte_swap n v) = v.
Proof.
  intros Hv. unfold byte_swap at 1. unfold byte_swap.
  replace (le_bytes n (le_val (rev (le_bytes n v)))) with (rev (le_bytes n v)).
  - rewrite rev_involutive, le_val_le_bytes. by apply Z.mod_small.
  - pose proof (le_bytes_le_val (rev (le_bytes n v))) as E. rewrite length_rev, length_le_bytes in E. done.
Qed.

Lemma port_range addr : 0 ≤ port addr < 65536.
Proof. apply (byte_swap_range 2). Qed.

(** A number below [10 ^ k] has at most [k] digits. *)
Lemma dec_loop_size k fuel n acc :
  0 ≤ n < 10 ^ Z.of_nat (S k) → zlen (dec_loop fuel n acc) ≤ Z.of_nat (S k) + zlen acc.
Proof.
  revert fuel n acc. induction k as [|k IH]; intros [|fuel] n acc Hn; cbn [dec_loop]; try lia.
  - replace (n / 10) with 0 by (symmetry; apply Z.div_small; lia). rewrite Z.eqb_refl, zlen_cons. lia.
  - destruct (n / 10 =? 0); [rewrite zlen_cons; lia|].
    specialize (IH fuel (n / 10) (digit_of (n `mod` 10) :: acc)). rewrite zlen_cons in IH. etransitivity; [apply IH|lia].
    rewrite (Nat2Z.inj_succ (S k)), Z.pow_succ_r in Hn by lia. split; [apply Z.div_pos; lia|apply Z.div_lt_upper_bound; lia].
Qed.

Lemma fmt_port_size p : 0 ≤ p < 65536 → zlen (fmt_u p) ≤ 5.
Proof.
  intros Hp. unfold fmt_u. pose proof (dec_loop_size 4 (S (Z.to_nat (Z.log2 p))) p []) as H.
  change (zlen (@nil ascii)) with 0 in H. change (10 ^ Z.of_nat 5) with 100000 in H. lia.
Qed.

(** ** Printing *)
Section printing.
Context `{InetLaws}.

(** The text without its port, as [ToIp] and [ToIpPort] have it. *)
Definition ip_text (addr : bytes) : bytes :=
  if sa_family addr =? AF_INET then inet_ntop4 (sin_addr addr) else inet_ntop6 (sin6_addr addr).

Definition inet_family (addr : bytes) : Prop := sa_family addr = AF_INET ∨ sa_family addr = AF_INET6.

Lemma sin_sizes addr : zlen addr = 28 → zlen (sin_addr addr) = 4 ∧ zlen (sin6_addr addr) = 16.
Proof. intros Hl. unfold sin_addr, sin6_addr. rewrite !zlen_zsub; lia. Qed.

Lemma ip_text_clean addr : zlen addr = 28 → (NUL ∉ ip_text addr) ∧ zlen (ip_text addr) < INET6_ADDRSTRLEN.
Proof.
  intros Hl. destruct (sin_sizes addr Hl) as [H4 H6]. unfold ip_text. destruct (_ =? _).
  - split; [by apply ntop4_text|]. pose proof (ntop4_size _ H4). unfold INET_ADDRSTRLEN, INET6_ADDRSTRLEN in *. lia.
  - split; [by apply ntop6_text|]. by apply ntop6_size.
Qed.

Lemma ToIp_text off size addr buf :
  zlen addr = 28 → inet_family addr → INET6_ADDRSTRLEN ≤ size →
  ToIp off size addr buf = Ok (zstore off (ip_text addr ++ [NUL]) buf).
Proof.
  intros Hl Hf Hs. destruct (ip_text_clean addr Hl) as [_ Hlen]. unfold ToIp, ntop_into.
  unfold INET_ADDRSTRLEN, INET6_ADDRSTRLEN in *. destruct Hf as [Hf|Hf].
  - assert (ip_text addr = inet_ntop4 (sin_addr addr)) as <- by (unfold ip_text; by rewrite Hf).
    rewrite Hf, Z.eqb_refl. replace (16 <=? size) with true by lia. cbn [cassert mbind outcome_bind].
    by replace (zlen (ip_text addr) <? size) with true by lia.
  - assert (ip_text addr = inet_ntop6 (sin6_addr addr)) as <- by (unfold ip_text; by rewrite Hf).
    rewrite Hf. change (AF_INET6 =? AF_INET) with false. rewrite Z.eqb_refl. cbv iota.
    replace (46 <=? size) with true by lia. cbn [cassert mbind outcome_bind].
    by replace (zlen (ip_text addr) <? size) with true by lia.
Qed.

Definition ip_port_text (addr : bytes) : bytes :=
  if sa_family addr =? AF_INET6 then str "[" ++ ip_text addr ++ str "]:" ++ fmt_u (port addr)
  else ip_text addr ++ str ":" ++ fmt_u (port addr).

Lemma InetAddress_ToIp_text addr : zlen addr = 28 → inet_family addr → InetAddress_ToIp addr = Ok (ip_text addr).
Proof.
  intros Hl Hf. unfold InetAddress_ToIp. rewrite ToIp_text by done. cbn [mbind outcome_bind].
  destruct (ip_text_clean addr Hl) as [Hn Hs]. unfold INET6_ADDRSTRLEN in Hs.
  destruct (first_text (ip_text addr) 64) as [r Hr]; [lia|]. change (Z.to_nat 64) with 64%nat in Hr. rewrite Hr.
  by rewrite c_string_text.
Qed.

Lemma InetAddress_ToIpPort_text addr :
  zlen addr = 28 → inet_family addr → InetAddress_ToIpPort addr = Ok (ip_port_text addr).
Proof.
  intros Hl Hf. destruct (ip_text_clean addr Hl) as [Hn Hs]. unfold INET6_ADDRSTRLEN in Hs.
  pose proof (port_range addr) as Hp. pose proof (fmt_port_size _ Hp) as Hd. pose proof (zlen_nonneg (ip_text addr)).
  assert (NUL ∉ fmt_u (port addr)) as Hnp by (apply fmt_u_clean; [lia|done]).
  unfold InetAddress_ToIpPort, ToIpPort, ip_port_text. destruct (Z.eqb_spec (sa_family addr) AF_INET6) as [E|E].
  - rewrite ToIp_text by done. cbn [mbind outcome_bind].
    assert (∃ r, zstore 1 (ip_text addr ++ [NUL]) (zstore 0 ["["%char] (replicate 64 NUL)) = ("["%char :: ip_text addr) ++ NUL :: r)
      as [r Hr].
    { change (zstore 0 ["["%char] (replicate 64 NUL)) with ("["%char :: replicate 63 NUL). eexists.
      unfold zstore. change (ztake 1 ("["%char :: replicate 63 NUL)) with ["["%char]. rewrite <-!app_assoc. cbn [app]. done. }
    rewrite Hr. assert (NUL ∉ "["%char :: ip_text addr) as Hn1 by (rewrite not_elem_of_cons; done).
    rewrite strlen_text at 1 by done. rewrite zlen_cons. replace (_ <? 64) with true by lia. cbn [cassert mbind outcome_bind].
    f_equal. fold (port addr). change (str "[" ++ ip_text addr ++ str "]:" ++ fmt_u (port addr))
      with (("["%char :: ip_text addr) ++ str "]:" ++ fmt_u (port addr)).
    apply append_text; [done| |rewrite zlen_cons, zlen_app; change (zlen (str "]:")) with 2; lia].
    rewrite elem_of_app. intros [Hin|?]; [|done]. by repeat (apply elem_of_cons in Hin as [Hin|Hin]; [done|]); apply elem_of_nil in Hin.
  - rewrite ToIp_text by done. cbn [mbind outcome_bind].
    destruct (first_text (ip_text addr) 64) as [r Hr]; [lia|]. change (Z.to_nat 64) with 64%nat in Hr. rewrite Hr.
    rewrite strlen_text at 1 by done. replace (_ <? 64) with true by lia. cbn [cassert mbind outcome_bind].
    f_equal. fold (port addr). apply append_text; [done| |rewrite zlen_app; change (zlen (str ":")) with 1; lia].
    rewrite elem_of_app. intros [Hin|?]; [|done]. by repeat (apply elem_of_cons in Hin as [Hin|Hin]; [done|]); apply elem_of_nil in Hin.
Qed.
End printing.

(** ** What the constructors store *)
Lemma two_bytes v : ∃ p q, le_bytes 2 v = [p; q].
Proof. by eexists _, _. Qed.

Lemma bytes_of_size n (x : bytes) : zlen x = Z.of_nat n → length x = n.
Proof. unfold zlen. lia. Qed.

Lemma v4_shape x v junk :
  zlen x = 4 →
  set_sin_addr x (set_port v (set_family AF_INET (bzero 16 junk))) =
  le_bytes 2 AF_INET ++ le_bytes 2 v ++ x ++ replicate 8 NUL ++ zdrop 16 junk.
Proof.
  intros Hx%(bytes_of_size 4). destruct (two_bytes v) as (p & q & Hv). unfold set_port. rewrite Hv.
  destruct x as [|a [|b [|c [|d [|? ?]]]]]; try done.
Qed.

Lemma v6_shape x v junk :
  zlen x = 16 →
  set_sin6_addr x (set_port v (set_family AF_INET6 (bzero 28 junk))) =
  le_bytes 2 AF_INET6 ++ le_bytes 2 v ++ replicate 4 NUL ++ x ++ replicate 4 NUL ++ zdrop 28 junk.
Proof.
  intros Hx%(bytes_of_size 16). destruct (two_bytes v) as (p & q & Hv). unfold set_port. rewrite Hv.
  do 16 (destruct x as [|? x]; [done|]). by destruct x.
Qed.

(** An address object with the given members. *)
Record stores4 (p : Z) (x : bytes) (addr : bytes) : Prop := MkStores4 {
  s4_size : zlen addr = 28;
  s4_family : sa_family addr = AF_INET;
  s4_port : port addr = p;
  s4_addr : sin_addr addr = x;
}.
Record stores6 (p : Z) (x : bytes) (addr : bytes) : Prop := MkStores6 {
  s6_size : zlen addr = 28;
  s6_family : sa_family addr = AF_INET6;
  s6_port : port addr = p;
  s6_addr : sin6_addr addr = x;
}.

Lemma swapped_port p : 0 ≤ p < 65536 → NetworkToHost16 (le_val (le_bytes 2 (HostToNetwork16 p))) = p.
Proof.
  intros Hp. rewrite le_val_le_bytes. rewrite Z.mod_small by apply (byte_swap_range 2). by apply (byte_swap_swap 2).
Qed.

Lemma v4_stores x p junk :
  zlen x = 4 → 0 ≤ p < 65536 → zlen junk = 28 →
  stores4 p x (set_sin_addr x (set_port (HostToNetwork16 p) (set_family AF_INET (bzero 16 junk)))).
Proof.
  intros Hx Hp Hj. rewrite v4_shape by done. pose proof (swapped_port p Hp) as Hs.
  destruct (two_bytes (HostToNetwork16 p)) as (a & b & E). rewrite E in *. split.
  - rewrite !zlen_app, Hx, zlen_zdrop by lia. change (zlen (le_bytes 2 AF_INET)) with 2. change (zlen [a; b]) with 2.
    change (zlen (replicate 8 NUL)) with 8. lia.
  - done.
  - exact Hs.
  - apply (bytes_of_size 4) in Hx. do 4 (destruct x as [|? x]; [done|]). by destruct x.
Qed.

Lemma v6_stores x p junk :
  zlen x = 16 → 0 ≤ p < 65536 → zlen junk = 28 →
  stores6 p x (set_sin6_addr x (set_port (HostToNetwork16 p) (set_family AF_INET6 (bzero 28 junk)))).
Proof.
  intros Hx Hp Hj. rewrite v6_shape by done. pose proof (swapped_port p Hp) as Hs.
  destruct (two_bytes (HostToNetwork16 p)) as (a & b & E). rewrite E in *. split.
  - rewrite !zlen_app, Hx, zlen_zdrop by lia. change (zlen (le_bytes 2 AF_INET6)) with 2. change (zlen [a; b]) with 2.
    change (zlen (replicate 4 NUL)) with 4. lia.
  - done.
  - exact Hs.
  - apply (bytes_of_size 16) in Hx. do 16 (destruct x as [|? x]; [done|]). by destruct x.
Qed.

(** Not touching the address is storing the zeros that are there. *)
Lemma v4_any v junk : set_port v (set_family AF_INET (bzero 16 junk)) =
  set_sin_addr (replicate 4 NUL) (set_port v (set_family AF_INET (bzero 16 junk))).
Proof. destruct (two_bytes v) as (p & q & Hv). unfold set_port. by rewrite Hv. Qed.

Lemma v6_any v junk : set_port v (set_family AF_INET6 (bzero 28 junk)) =
  set_sin6_addr (replicate 16 NUL) (set_port v (set_family AF_INET6 (bzero 28 junk))).
Proof. destruct (two_bytes v) as (p & q & Hv). unfold set_port. by rewrite Hv. Qed.

Section theorems.
Context `{InetLaws}.

Lemma ip_stores4 s x p junk :
  inet_pton4 s = Some x → ":"%char ∉ s → 0 ≤ p < 65536 → zlen junk = 28 → stores4 p x (InetAddress_ip s p false junk).
Proof.
  intros Hs Hc Hp Hj. unfold InetAddress_ip. rewrite bool_decide_false by done. cbn [orb]. unfold FromIpPort4.
  rewrite Hs. apply v4_stores; [by eapply pton4_size|done|done].
Qed.

Lemma ip_stores6 s x p flag junk :
  inet_pton6 s = Some x → flag = true ∨ ":"%char ∈ s → 0 ≤ p < 65536 → zlen junk = 28 →
  stores6 p x (InetAddress_ip s p flag junk).
Proof.
  intros Hs Hc Hp Hj. unfold InetAddress_ip.
  replace (flag || bool_decide (":"%char ∈ s)) with true
    by (destruct Hc as [->|Hc]; [done|by rewrite bool_decide_true, orb_true_r]).
  unfold FromIpPort6. rewrite Hs. apply v6_stores; [by eapply pton6_size|done|done].
Qed.

(** C37: addresses and their text.  For every IPv4 or IPv6 address and port, the
    address object made from the address's text prints as that text with the
    port ([a.b.c.d:p] and [[..]:p]) and gives the port back; nothing is cut off
    in the arrays of 64 characters, no assertion fails, and what the object's
    storage held before does not matter. *)
Theorem address_text_roundtrip x4 x6 p flag junk :
  zlen x4 = 4 → zlen x6 = 16 → 0 ≤ p < 65536 → zlen junk = 28 →
  let a4 := InetAddress_ip (inet_ntop4 x4) p false junk in
  let a6 := InetAddress_ip (inet_ntop6 x6) p flag junk in
  (InetAddress_ToIpPort a4 = Ok (inet_ntop4 x4 ++ str ":" ++ fmt_u p) ∧ InetAddress_ToIp a4 = Ok (inet_ntop4 x4) ∧ port a4 = p) ∧
  (InetAddress_ToIpPort a6 = Ok (str "[" ++ inet_ntop6 x6 ++ str "]:" ++ fmt_u p) ∧ InetAddress_ToIp a6 = Ok (inet_ntop6 x6) ∧ port a6 = p).
Proof.
  intros H4 H6 Hp Hj a4 a6.
  destruct (ip_stores4 (inet_ntop4 x4) x4 p junk) as [Hl4 Hf4 Hp4 Ha4]; [by apply pton_ntop4|by apply ntop4_text|done|done|].
  destruct (ip_stores6 (inet_ntop6 x6) x6 p flag junk) as [Hl6 Hf6 Hp6 Ha6];
    [by apply pton_ntop6|right; by apply ntop6_text|done|done|]. fold a4 in Hl4, Hf4, Hp4, Ha4. fold a6 in Hl6, Hf6, Hp6, Ha6.
  assert (inet_family a4 ∧ inet_family a6) as [Hi4 Hi6] by (split; [by left|by right]).
  rewrite !InetAddress_ToIpPort_text, !InetAddress_ToIp_text by done. unfold ip_port_text, ip_text.
  rewrite Hf4, Hf6, Hp4, Hp6, Ha4, Ha6. done.
Qed.

(** A text that is no address becomes the wildcard.  When [inet_pton] refuses
    the text, the constructor logs and leaves zeros: the object is the one for
    any address, [0.0.0.0] or [::], with the port asked for. *)
Theorem address_bad_text_is_any s p junk :
  0 ≤ p < 65536 → zlen junk = 28 →
  (inet_pton4 s = None → ":"%char ∉ s → InetAddress_ip s p false junk = InetAddress_any p false false junk) ∧
  (∀ flag, inet_pton6 s = None → flag = true ∨ ":"%char ∈ s →
     InetAddress_ip s p flag junk = InetAddress_any p false true junk).
Proof.
  intros Hp Hj. split.
  - intros Hs Hc. unfold InetAddress_ip. rewrite bool_decide_false by done. cbn [orb]. unfold FromIpPort4. rewrite Hs.
    rewrite v4_any. unfold InetAddress_any. destruct (two_bytes (HostToNetwork16 p)) as (a & b & E). unfold set_port. by rewrite E.
  - intros flag Hs Hc. unfold InetAddress_ip.
    replace (flag || bool_decide (":"%char ∈ s)) with true
      by (destruct Hc as [->|Hc]; [done|by rewrite bool_decide_true, orb_true_r]).
    unfold FromIpPort6. rewrite Hs. unfold InetAddress_any. destruct (two_bytes (HostToNetwork16 p)) as (a & b & E).
    unfold set_port. by rewrite E.
Qed.

Lemma last_separator (c : ascii) s s' d d' : c ∉ d → c ∉ d' → s ++ c :: d = s' ++ c :: d' → s = s' ∧ d = d'.
Proof.
  intros Hd Hd' E. destruct (app_eq_inv _ _ _ _ E) as [(k & -> & Hk)|(k & -> & Hk)]; destruct k as [|y k]; cbn in Hk.
  - rewrite app_nil_r. by simplify_eq.
  - simplify_eq. set_solver.
  - rewrite app_nil_r. by simplify_eq.
  - simplify_eq. set_solver.
Qed.

Lemma port_inj a b : sin_port a = sin_port b ↔ port a = port b.
Proof.
  unfold port, GetPortNetEndian. split; [congruence|]. intros E. unfold NetworkToHost16 in E.
  assert (∀ x, 0 ≤ sin_port x < 2 ^ (8 * Z.of_nat 2)) as Hr.
  { intros x. unfold sin_port. pose proof (le_val_range (zsub 2 2 x)) as Hx. split; [lia|]. eapply Z.lt_le_trans; [apply Hx|].
    apply Z.pow_le_mono_r; [lia|]. unfold zsub, ztake, zlen. rewrite length_take. lia. }
  apply (f_equal (byte_swap 2)) in E. by rewrite !byte_swap_swap in E.
Qed.

Lemma le_val_inj (l l' : bytes) : length l = length l' → le_val l = le_val l' → l = l'.
Proof. intros Hl E. rewrite <-(le_bytes_le_val l), <-(le_bytes_le_val l'). by rewrite E, Hl. Qed.

Lemma ip_text_inj a b :
  zlen a = 28 → zlen b = 28 → inet_family a → sa_family a = sa_family b → ip_text a = ip_text b →
  (sa_family a = AF_INET ∧ sin_addr a = sin_addr b) ∨ (sa_family a = AF_INET6 ∧ sin6_addr a = sin6_addr b).
Proof.
  intros Ha Hb Hf Hab E. unfold ip_text in E. rewrite <-Hab in E.
  destruct (sin_sizes a Ha) as [Ha4 Ha6], (sin_sizes b Hb) as [Hb4 Hb6]. destruct Hf as [Hf|Hf]; rewrite Hf in *.
  - left. split; [done|]. apply (f_equal inet_pton4) in E. change (AF_INET =? AF_INET) with true in E. cbv iota in E.
    rewrite !pton_ntop4 in E by done. congruence.
  - right. split; [done|]. change (AF_INET6 =? AF_INET) with false in E. cbv iota in E.
    apply (f_equal inet_pton6) in E. rewrite !pton_ntop6 in E by done. congruence.
Qed.

(** A connection to itself is recognised.  For two ends of one family,
    [IsSelfConnect] answers [true] exactly when both ends have the same text,
    address and port. *)
Theorem self_connect_iff_same_text a b :
  zlen a = 28 → zlen b = 28 → inet_family a → sa_family a = sa_family b →
  IsSelfConnect (Some a) (Some b) = true ↔ InetAddress_ToIpPort a = InetAddress_ToIpPort b.
Proof.
  intros Ha Hb Hf Hab. assert (inet_family b) as Hfb by (unfold inet_family in *; by rewrite <-Hab).
  rewrite !InetAddress_ToIpPort_text by done.
  assert (ip_port_text a = ip_port_text b ↔ ip_text a = ip_text b ∧ port a = port b) as Htext.
  { unfold ip_port_text. rewrite <-Hab. split; [|by intros [-> ->]].
    pose proof (port_range a). pose proof (port_range b).
    assert (∀ n, 0 ≤ n → ":"%char ∉ fmt_u n) as Hc by (intros n ?; by apply fmt_u_clean).
    assert (∀ s s', s ++ ":"%char :: fmt_u (port a) = s' ++ ":"%char :: fmt_u (port b) → s = s' ∧ port a = port b) as Hlast.
    { intros s s' E. apply last_separator in E as [-> E]; [|apply Hc; lia..]. split; [done|]. apply fmt_u_inj; [lia..|done]. }
    destruct (_ =? _); intros E.
    - destruct (Hlast ("["%char :: ip_text a ++ ["]"%char]) ("["%char :: ip_text b ++ ["]"%char])) as [E' ?].
      { cbn [app]. rewrite <-!app_assoc. exact E. }
      injection E' as E'. by apply app_inj_2 in E' as [? _].
    - by apply (Hlast (ip_text a) (ip_text b)) in E. }
  transitivity (ip_port_text a = ip_port_text b); [|split; congruence]. rewrite Htext, <-port_inj.
  unfold IsSelfConnect. change (GetAddr (Some a)) with a. change (GetAddr (Some b)) with b. destruct (sin_sizes a Ha) as [Ha4 Ha6], (sin_sizes b Hb) as [Hb4 Hb6].
  split.
  - intros E. unfold ip_text. rewrite <-Hab. destruct Hf as [Hf'|Hf']; rewrite Hf' in *.
    + change (AF_INET =? AF_INET) with true in *. cbv iota in *. apply andb_true_iff in E as [E1 E2]. split; [|lia].
      f_equal. apply le_val_inj; [unfold zlen in *; lia|lia].
    + change (AF_INET6 =? AF_INET) with false in *. change (AF_INET6 =? AF_INET6) with true in *. cbv iota in *.
      apply andb_true_iff in E as [E1 E2%bool_decide_eq_true]. split; [by rewrite E2|lia].
  - intros [Et Ep]. destruct (ip_text_inj a b Ha Hb Hf Hab Et) as [[Hf' E]|[Hf' E]]; rewrite Hf', Ep, E.
    + by rewrite !Z.eqb_refl.
    + change (AF_INET6 =? AF_INET) with false. rewrite !Z.eqb_refl. by rewrite bool_decide_true.
Qed.
End theorems.

(** ** The text conversions, for one instance

    Dotted decimals, and IPv6 addresses as eight groups of four digits. *)
Module Text.

Fixpoint join4 (a : bytes) : bytes :=
  match a with
  | [] => []
  | [x] => fmt_u (byte_val x)
  | x :: a => fmt_u (byte_val x) ++ "."%char :: join4 a
  end.

(** The number in front of the first dot, and what is behind it. *)
Fixpoint split4 (n : nat) (s : bytes) : bytes :=
  match n with
  | O => []
  | S n => let i := std_find "."%char s in byte_of (dec_value (ztake i s)) :: split4 n (zdrop (i + 1) s)
  end.

Definition hex_of (d : Z) : ascii := if d <? 10 then digit_of d else byte_of (d + 87).
Definition hex_val (c : ascii) : Z := if isdigit c then digit_val c else byte_val c - 87.
Definition hex_byte (c : ascii) : bytes := [hex_of (byte_val c / 16); hex_of (byte_val c `mod` 16)].

Fixpoint join6 (a : bytes) : bytes :=
  match a with
  | x :: y :: [] => hex_byte x ++ hex_byte y
  | x :: y :: a => hex_byte x ++ hex_byte y ++ ":"%char :: join6 a
  | _ => []
  end.
Fixpoint hex_pairs (s : bytes) : bytes :=
  match s with x :: y :: s => byte_of (16 * hex_val x + hex_val y) :: hex_pairs s | _ => [] end.

#[global] Instance text_inet : Inet := {|
  inet_ntop4 a := if zlen a =? 4 then join4 a else [];
  inet_pton4 s := let a := split4 4 s in if bool_decide (join4 a = s) then Some a else None;
  inet_ntop6 a := if zlen a =? 16 then join6 a else [];
  inet_pton6 s := let a := hex_pairs (filter (λ c, c ≠ ":"%char) s) in
                  if bool_decide (join6 a = s) && (zlen a =? 16) then Some a else None;
|}.

Lemma byte_text x : zlen (fmt_u (byte_val x)) ≤ 3 ∧ ("."%char ∉ fmt_u (byte_val x)) ∧
  (NUL ∉ fmt_u (byte_val x)) ∧ (":"%char ∉ fmt_u (byte_val x)) ∧ byte_of (dec_value (fmt_u (byte_val x))) = x.
Proof.
  pose proof (byte_val_range x) as Hx. split; [|split_and!; try (apply fmt_u_clean; [lia|done])].
  - unfold fmt_u. pose proof (dec_loop_size 2 (S (Z.to_nat (Z.log2 (byte_val x)))) (byte_val x) []) as H.
    change (zlen (@nil ascii)) with 0 in H. change (10 ^ Z.of_nat 3) with 1000 in H. lia.
  - destruct (fmt_u_spec (byte_val x)) as (_ & _ & ->); [lia|]. apply byte_of_val.
Qed.

Lemma split_dot x s n :
  split4 (S n) (fmt_u (byte_val x) ++ "."%char :: s) = x :: split4 n s.
Proof.
  destruct (byte_text x) as (_ & Hd & _ & _ & Hv). cbn [split4]. rewrite std_find_app_cons by done.
  set (t := fmt_u (byte_val x)) in *. pose proof (zlen_nonneg t).
  rewrite ztake_app, ztake_all, ztake_0, app_nil_r, Hv by lia. f_equal. f_equal.
  rewrite zdrop_app, zdrop_all by lia. by replace (zlen t + 1 - zlen t) with 1 by lia.
Qed.

Lemma split_last x : split4 1 (fmt_u (byte_val x)) = [x].
Proof.
  destruct (byte_text x) as (_ & Hd & _ & _ & Hv). cbn [split4]. rewrite (proj2 (std_find_absent "."%char _)) by done.
  by rewrite ztake_all, Hv by lia.
Qed.

Lemma hex_ok d : 0 ≤ d < 16 → hex_val (hex_of d) = d ∧ (hex_of d ≠ ":"%char ∧ hex_of d ≠ NUL).
Proof.
  intros Hd. assert (d ∈ [0;1;2;3;4;5;6;7;8;9;10;11;12;13;14;15]) as Hin by (repeat (rewrite elem_of_cons); lia).
  repeat (apply elem_of_cons in Hin as [->|Hin]; [by vm_compute|]). by apply elem_of_nil in Hin.
Qed.

Lemma hex_byte_ok x r : hex_pairs (hex_byte x ++ r) = x :: hex_pairs r ∧
  filter (λ c, c ≠ ":"%char) (hex_byte x ++ r) = hex_byte x ++ filter (λ c, c ≠ ":"%char) r ∧ (NUL ∉ hex_byte x).
Proof.
  pose proof (byte_val_range x) as Hx.
  destruct (hex_ok (byte_val x / 16)) as (E1 & N1 & Z1); [split; [apply Z.div_pos; lia|apply Z.div_lt_upper_bound; lia]|].
  destruct (hex_ok (byte_val x `mod` 16)) as (E2 & N2 & Z2); [apply Z.mod_pos_bound; lia|].
  split_and!.
  - cbn [hex_byte hex_pairs app]. rewrite E1, E2, <-Z_div_mod_eq_full. by rewrite byte_of_val.
  - cbn [hex_byte app]. by rewrite !filter_cons_True by done.
  - unfold hex_byte. rewrite !not_elem_of_cons. split_and!; [done|done|apply not_elem_of_nil].
Qed.

#[global] Instance text_inet_laws : InetLaws.
Proof.
  split.
  - intros a Ha%(bytes_of_size 4). destruct a as [|a [|b [|c [|d [|? ?]]]]]; try done. cbn [inet_ntop4 inet_pton4 text_inet].
    change (zlen [a; b; c; d] =? 4) with true. cbv iota. cbn [join4]. rewrite !split_dot, split_last. cbn [join4].
    by rewrite bool_decide_true.
  - intros s a. cbn [inet_pton4 text_inet]. case_bool_decide; [|done]. by intros [= <-].
  - intros a Ha%(bytes_of_size 4). destruct a as [|a [|b [|c [|d [|? ?]]]]]; try done. cbn [inet_ntop4 text_inet].
    change (zlen [a; b; c; d] =? 4) with true. cbv iota. cbn [join4]. repeat (rewrite zlen_app || rewrite zlen_cons).
    destruct (byte_text a) as [? _], (byte_text b) as [? _], (byte_text c) as [? _], (byte_text d) as [? _].
    unfold INET_ADDRSTRLEN. lia.
  - intros a Ha%(bytes_of_size 4). destruct a as [|a [|b [|c [|d [|? ?]]]]]; try done. cbn [inet_ntop4 text_inet].
    change (zlen [a; b; c; d] =? 4) with true. cbv iota. cbn [join4].
    destruct (byte_text a) as (_ & _ & ? & ? & _), (byte_text b) as (_ & _ & ? & ? & _), (byte_text c) as (_ & _ & ? & ? & _),
      (byte_text d) as (_ & _ & ? & ? & _). split; repeat (rewrite elem_of_app || rewrite elem_of_cons); intuition discriminate.
  - intros a Ha%(bytes_of_size 16). do 16 (destruct a as [|? a]; [done|]). destruct a; [|done].
    cbn [inet_ntop6 inet_pton6 text_inet]. set (l := [_; _; _; _; _; _; _; _; _; _; _; _; _; _; _; _]).
    change (zlen l =? 16) with true. cbv iota.
    assert (hex_pairs (filter (λ c, c ≠ ":"%char) (join6 l)) = l) as ->.
    { unfold l. cbn [join6]. repeat (rewrite (proj1 (proj2 (hex_byte_ok _ _))) || rewrite filter_cons_False by tauto).
      rewrite <-(app_nil_r (hex_byte a15)).
      repeat (rewrite (proj1 (proj2 (hex_byte_ok _ _))) || rewrite (proj1 (hex_byte_ok _ _))). done. }
    by rewrite bool_decide_true.
  - intros s a. cbn [inet_pton6 text_inet]. destruct (Z.eqb_spec (zlen (hex_pairs (filter (λ c, c ≠ ":"%char) s))) 16);
      [|by rewrite andb_false_r]. destruct (_ && _); [|done]. by intros [= <-].
  - intros a Ha%(bytes_of_size 16). do 16 (destruct a as [|? a]; [done|]). destruct a; [|done]. by vm_compute.
  - intros a Ha%(bytes_of_size 16). do 16 (destruct a as [|? a]; [done|]). destruct a; [|done].
    cbn [inet_ntop6 text_inet]. set (l := [_; _; _; _; _; _; _; _; _; _; _; _; _; _; _; _]).
    change (zlen l =? 16) with true. cbv iota. unfold l. cbn [join6]. split.
    + repeat (rewrite elem_of_app || rewrite elem_of_cons). pose proof (λ x, proj2 (proj2 (hex_byte_ok x []))) as Hn.
      intros Hin. repeat (destruct Hin as [Hin|Hin]; [by (apply Hn in Hin || discriminate Hin)|]). by apply Hn in Hin.
    + repeat (rewrite elem_of_app || rewrite elem_of_cons). tauto.
Qed.
End Text.

Import Text.

Definition localhost : bytes := ["127"%char; NUL; NUL; "001"%char].

Lemma address_text_roundtrip_witness :
  InetAddress_ToIpPort (InetAddress_ip (str "127.0.0.1") 8000 false (replicate 28 "x"%char)) = Ok (str "127.0.0.1:8000").
Proof.
  refine (proj1 (proj1 (address_text_roundtrip localhost in6addr_loopback 8000 false (replicate 28 "x"%char) _ _ _ _)));
    vm_compute; (reflexivity || (split; [discriminate|reflexivity])).
Defined.

(** A host name is not looked up: the server listens on every interface. *)
Lemma address_bad_text_is_any_witness :
  InetAddress_ip (str "localhost") 80 false (replicate 28 NUL) = InetAddress_any 80 false false (replicate 28 NUL) ∧
  InetAddress_ToIpPort (InetAddress_ip (str "localhost") 80 false (replicate 28 NUL)) = Ok (str "0.0.0.0:80").
Proof.
  split; [|vm_compute; reflexivity].
  apply (address_bad_text_is_any (str "localhost") 80 (replicate 28 NUL)).
  - lia.
  - vm_compute. reflexivity.
  - vm_compute. reflexivity.
  - apply (bool_decide_unpack _). vm_compute. exact I.
Defined.

Lemma self_connect_iff_same_text_witness :
  IsSelfConnect (Some (InetAddress_ip (str "127.0.0.1") 8000 false (replicate 28 NUL)))
    (Some (InetAddress_any 8000 true false (replicate 28 NUL))) = true.
Proof.
  apply (self_connect_iff_same_text (InetAddress_ip (str "127.0.0.1") 8000 false (replicate 28 NUL))
    (InetAddress_any 8000 true false (replicate 28 NUL))).
  - vm_compute. reflexivity.
  - vm_compute. reflexivity.
  - left. vm_compute. reflexivity.
  - vm_compute. reflexivity.
  - vm_compute. reflexivity.
Defined.

(** ** [Socket] *)

(** The descriptors the process has open; what [close] answers. *)
Definition close_fd (fd : Z) (open : list Z) : bool * list Z :=
  (bool_decide (fd ∈ open), filter (λ x, x ≠ fd) open).

Record Socket := MkSocket { sockfd_ : Z }.
(** [Socket(Socket&& x)]: the new object, and [x] as it is left. *)
Definition Socket_move (x : Socket) : Socket * Socket := (MkSocket (sockfd_ x), x).
(** [~Socket()]. *)
Definition Socket_destroy (s : Socket) (open : list Z) : bool * list Z := close_fd (sockfd_ s) open.

(** A moved-from socket still owns its descriptor.  After a move, destroying the
    new object and then the old one closes the descriptor twice: the second
    [close] fails, or, when the number was given out again in between, closes
    somebody else's descriptor. *)
Theorem socket_move_closes_twice fd open reused :
  fd ∈ open →
  let '(s, x) := Socket_move (MkSocket fd) in
  let '(_, open1) := Socket_destroy s open in
  let '(ok, open2) := Socket_destroy x (if reused : bool then fd :: open1 else open1) in
  ok = reused ∧ fd ∉ open2.
Proof.
  intros Hin. cbn. destruct reused.
  - rewrite bool_decide_true by set_solver. split; [done|]. rewrite list_elem_of_filter. tauto.
  - rewrite bool_decide_false by (rewrite list_elem_of_filter; tauto). split; [done|]. rewrite list_elem_of_filter. tauto.
Qed.

(** Socket options: the values set, with the kernel's answer for SO_REUSEPORT. *)
Record sock_options := MkOptions { tcp_nodelay : Z; so_reuseaddr : Z; so_reuseport : Z; so_keepalive : Z }.
Definition optval (on : bool) : Z := if on then 1 else 0.
Definition SetTcpNoDelay (on : bool) (o : sock_options) : sock_options :=
  MkOptions (optval on) (so_reuseaddr o) (so_reuseport o) (so_keepalive o).
Definition SetReuseAddr (on : bool) (o : sock_options) : sock_options :=
  MkOptions (tcp_nodelay o) (optval on) (so_reuseport o) (so_keepalive o).
(** ... and whether the failure is logged. *)
Definition SetReusePort (on : bool) (ret : Z) (o : sock_options) : sock_options * bool :=
  (if ret <? 0 then o else MkOptions (tcp_nodelay o) (so_reuseaddr o) (optval on) (so_keepalive o), (ret <? 0) && on).
Definition SetKeepAlive (on : bool) (o : sock_options) : sock_options :=
  MkOptions (tcp_nodelay o) (so_reuseaddr o) (so_reuseport o) (optval on).

(** The fields of [struct tcp_info] that are printed. *)
Record tcp_info := MkTcpInfo {
  tcpi_retransmits : Z; tcpi_rto : Z; tcpi_ato : Z; tcpi_snd_mss : Z; tcpi_rcv_mss : Z; tcpi_lost : Z;
  tcpi_retrans : Z; tcpi_rtt : Z; tcpi_rttvar : Z; tcpi_snd_ssthresh : Z; tcpi_snd_cwnd : Z; tcpi_total_retrans : Z;
}.

(** [GetTcpInfoString(buf, len)]: whether [getsockopt] succeeded, and the array. *)
Definition GetTcpInfoString (info : option tcp_info) (len : Z) (buf : bytes) : bool * bytes :=
  match info with
  | None => (false, buf)
  | Some i =>
      (true, snprintf 0 len
        (str "unrecovered=" ++ fmt_u (tcpi_retransmits i) ++ str " rto=" ++ fmt_u (tcpi_rto i) ++
         str " ato=" ++ fmt_u (tcpi_ato i) ++ str " snd_mss=" ++ fmt_u (tcpi_snd_mss i) ++
         str " rcv_mss=" ++ fmt_u (tcpi_rcv_mss i) ++ str " lost=" ++ fmt_u (tcpi_lost i) ++
         str " retrans=" ++ fmt_u (tcpi_retrans i) ++ str " rtt=" ++ fmt_u (tcpi_rtt i) ++
         str " rttvar=" ++ fmt_u (tcpi_rttvar i) ++ str " sshthresh=" ++ fmt_u (tcpi_snd_ssthresh i) ++
         str " cwnd=" ++ fmt_u (tcpi_snd_cwnd i) ++ str " total_retrans=" ++ fmt_u (tcpi_total_retrans i)) buf)
  end.

(** A failed accept that passes leaves the peer's address alone, and every other
    failure stops the server: among them [ENFILE], [ENOBUFS] and [ENOMEM], which
    a loaded system returns for a while. *)
Theorem accept_errors e peeraddr :
  (e ∈ accept_transient → Socket_Accept (AcceptError e) peeraddr = Ok (-1, peeraddr)) ∧
  (e ∉ accept_transient → ∃ msg, Socket_Accept (AcceptError e) peeraddr = Fail (FatalLog msg)).
Proof.
  unfold Socket_Accept, Accept. split; intros He.
  - by rewrite bool_decide_true.
  - rewrite bool_decide_false by done. case_bool_decide; by eexists.
Qed.
