(* ===== verification/Calendar.v ===== *)
(** * [Date] and UTC conversions (utils/date.h, utils/date.cc, utils/timestamp.h,
    utils/timestamp.cc, [TimeZone::ToUtcTime] and [TimeZone::FromUtcTime] of
    utils/timezone.cc)

    Days are counted by the Julian day number.  The arithmetic is in [int]: an
    expression whose value or any intermediate value leaves the range is
    undefined behaviour ([ints]), and division truncates. *)

From stdpp Require Import base tactics list numbers strings.
From Stdlib Require Import ZArith Lia Ascii.
From S2P Require Import Prelude.
From S2P Require Import CString.

(** ** [int] expressions *)
Definition int_ok (x : Z) : bool := (- 2 ^ 31 <=? x) && (x <? 2 ^ 31).

(** The value [x] of an expression with the intermediate values [steps]. *)
Definition ints (steps : list Z) (x : Z) : outcome Z :=
  if forallb int_ok steps && int_ok x then Ok x else Fail (UndefinedBehaviour "signed overflow").

(** ** [Date] *)
Record YearMonthDay := MkYmd { year : Z; month : Z; day : Z }.
#[global] Instance YearMonthDay_eq_dec : EqDecision YearMonthDay.
Proof. solve_decision. Defined.

Definition kDaysPerWeek : Z := 7.

Definition ToJulianDayNumber (year month day : Z) : outcome Z :=
  a ← ints [14 - month] (Z.quot (14 - month) 12);
  y ← ints [year + 4800] (year + 4800 - a);
  m ← ints [12 * a; month + 12 * a] (month + 12 * a - 3);
  let s0 := Z.quot (153 * m + 2) 5 in
  let s1 := day + s0 in
  let s2 := s1 + y * 365 in
  let s3 := s2 + Z.quot y 4 in
  let s4 := s3 - Z.quot y 100 in
  let s5 := s4 + Z.quot y 400 in
  ints [153 * m; 153 * m + 2; s1; y * 365; s2; s3; s4; s5] (s5 - 32045).

Definition ToYearMonthDay (julian_day_number : Z) : outcome YearMonthDay :=
  a ← ints [] (julian_day_number + 32044);
  b ← ints [4 * a; 4 * a + 3] (Z.quot (4 * a + 3) 146097);
  c ← ints [b * 146097; Z.quot (b * 146097) 4] (a - Z.quot (b * 146097) 4);
  d ← ints [4 * c; 4 * c + 3] (Z.quot (4 * c + 3) 1461);
  e ← ints [1461 * d; Z.quot (1461 * d) 4] (c - Z.quot (1461 * d) 4);
  m ← ints [5 * e; 5 * e + 2] (Z.quot (5 * e + 2) 153);
  day ← ints [153 * m; 153 * m + 2; e - Z.quot (153 * m + 2) 5] (e - Z.quot (153 * m + 2) 5 + 1);
  month ← ints [m + 3; 12 * Z.quot m 10] (m + 3 - 12 * Z.quot m 10);
  year ← ints [b * 100; b * 100 + d; b * 100 + d - 4800] (b * 100 + d - 4800 + Z.quot m 10);
  Ok (MkYmd year month day).

(** [Date::kJulianDayOf1970_01_01]. *)
Definition kJulianDayOf1970_01_01 : Z := 2440588.

Example kJulianDayOf1970_01_01_ok : ToJulianDayNumber 1970 1 1 = Ok kJulianDayOf1970_01_01.
Proof. reflexivity. Qed.

Definition Date_IsValid (julian_day_number_ : Z) : bool := 0 <? julian_day_number_.
Definition ToWeekDay (julian_day_number_ : Z) : outcome Z :=
  ints [julian_day_number_ + 1] (Z.rem (julian_day_number_ + 1) kDaysPerWeek).

(** ["%4d-%02d-%02d"]: a number in a field of [width], filled with [fill]; the
    zeros of "%02d" go after the sign. *)
Definition pad (fill : ascii) (width : Z) (s : bytes) : bytes :=
  replicate (Z.to_nat (width - zlen s)) fill ++ s.
Definition fmt_02d (n : Z) : bytes :=
  if n <? 0 then str "-" ++ pad "0"%char 1 (fmt_u (- n)) else pad "0"%char 2 (fmt_u n).
Definition fmt_4d (n : Z) : bytes := pad " "%char 4 (fmt_d n).

Definition ToIsoString (julian_day_number_ : Z) : outcome bytes :=
  ymd ← ToYearMonthDay julian_day_number_;
  Ok (ztake 31 (fmt_4d (year ymd) ++ str "-" ++ fmt_02d (month ymd) ++ str "-" ++ fmt_02d (day ymd))).

(** ** Time of day: [struct tm] *)
Record tm := MkTm {
  tm_sec : Z; tm_min : Z; tm_hour : Z; tm_mday : Z; tm_mon : Z; tm_year : Z;
  tm_wday : Z; tm_yday : Z; tm_isdst : Z; tm_gmtoff : Z; tm_zone : bytes;
}.

Definition kSecondsPerDay : Z := 24 * 60 * 60.

(** [FillHms]: seconds, minutes and hours of an [unsigned]. *)
Definition FillHms (seconds : Z) : Z * Z * Z :=
  let minutes := seconds / 60 in
  (seconds mod 60, minutes mod 60, minutes / 60).

Definition ToUtcTime (secondsSinceEpoch : Z) (yday : bool) : outcome tm :=
  let seconds := wrapS 32 (Z.rem secondsSinceEpoch kSecondsPerDay) in
  let days := wrapS 32 (Z.quot secondsSinceEpoch kSecondsPerDay) in
  '(seconds, days) ← (if seconds <? 0 then
      s ← ints [] (seconds + kSecondsPerDay); d ← ints [] (days - 1); Ok (s, d)
    else Ok (seconds, days));
  let '(sec, min, hour) := FillHms (wrapU 32 seconds) in
  date ← ints [] (days + kJulianDayOf1970_01_01);
  ymd ← ToYearMonthDay date;
  y ← ints [] (year ymd - 1900);
  mon ← ints [] (month ymd - 1);
  wday ← ToWeekDay date;
  yd ← (if yday then start ← ToJulianDayNumber (year ymd) 1 1; ints [] (date - start) else Ok 0);
  Ok (MkTm sec min hour (day ymd) mon y wday yd 0 0 (str "GMT")).

Definition FromUtcTime_fields (year month day hour minute seconds : Z) : outcome Z :=
  date ← ToJulianDayNumber year month day;
  secondsInDay ← ints [hour * 3600; minute * 60; hour * 3600 + minute * 60] (hour * 3600 + minute * 60 + seconds);
  days ← ints [] (date - kJulianDayOf1970_01_01);
  Ok (days * kSecondsPerDay + secondsInDay).

Definition FromUtcTime (utc : tm) : outcome Z :=
  y ← ints [] (tm_year utc + 1900);
  m ← ints [] (tm_mon utc + 1);
  FromUtcTime_fields y m (tm_mday utc) (tm_hour utc) (tm_min utc) (tm_sec utc).

(** [Date(const struct tm&)]. *)
Definition Date_of_tm (t : tm) : outcome Z :=
  y ← ints [] (tm_year t + 1900);
  m ← ints [] (tm_mon t + 1);
  ToJulianDayNumber y m (tm_mday t).

(** ** The Gregorian calendar *)
Definition leap (y : Z) : bool := (y mod 4 =? 0) && negb (y mod 100 =? 0) || (y mod 400 =? 0).
Definition days_in_month (y m : Z) : Z :=
  if m =? 2 then (if leap y then 29 else 28)
  else if (m =? 4) || (m =? 6) || (m =? 9) || (m =? 11) then 30 else 31.

(** A date from March of the year -4800 on, before the year one million. *)
Record valid_date (x : YearMonthDay) : Prop := MkValidDate {
  vd_year : -4799 ≤ year x < 1000000;
  vd_month : 1 ≤ month x ≤ 12;
  vd_day : 1 ≤ day x ≤ days_in_month (year x) (month x);
}.

(** The same in terms of the computation: [y] counts years that start in March,
    [m] its months from 0, [D] its days from 0. *)
Definition march_day (m d : Z) : Z := d - 1 + (153 * m + 2) / 5.
Definition day_number (y D : Z) : Z := D + 365 * y + y / 4 - y / 100 + y / 400.

(** A year that ends on the 29th of February. *)
Definition long_year (y : Z) : Prop := y mod 4 = 3 ∧ (y mod 100 ≠ 99 ∨ y mod 400 = 399).

Lemma century_ok y D :
  0 ≤ y → 0 ≤ D ≤ 365 → (D = 365 → long_year y) →
  (4 * day_number y D + 3) / 146097 = y / 100.
Proof.
  intros Hy HD Hl. unfold day_number, long_year in *.
  assert (y / 400 = y / 100 / 4) as -> by (rewrite Z.div_div by lia; done).
  assert (y mod 400 = 100 * (y / 100 mod 4) + y mod 100) as H400.
  { rewrite (Z.mod_eq y 400), (Z.mod_eq (y / 100) 4), (Z.mod_eq y 100) by lia. rewrite Z.div_div by lia. change (100 * 4) with 400. lia. }
  assert (y / 4 = 25 * (y / 100) + y mod 100 / 4 ∧ y mod 4 = y mod 100 mod 4) as [-> H4].
  { rewrite (Z.mod_eq y 100) by lia. Z.to_euclidean_division_equations. lia. }
  rewrite H400, H4 in Hl. pose proof (Z.div_mod y 100 ltac:(lia)) as E.
  set (b := y / 100) in *. set (r := y mod 100) in *. assert (0 ≤ r < 100) by (apply Z.mod_pos_bound; lia).
  clearbody b r. subst y. symmetry. apply Z.div_unique with (r := 3 - b mod 4 + 4 * (365 * r + r / 4 + D)).
  - Z.to_euclidean_division_equations. lia.
  - Z.to_euclidean_division_equations. lia.
Qed.

(** The steps of [ToYearMonthDay] from the day number of a date. *)
Lemma split_day_number y D :
  0 ≤ y → 0 ≤ D ≤ 365 → (D = 365 → long_year y) →
  let a := day_number y D in
  let b := (4 * a + 3) / 146097 in
  let c := a - b * 146097 / 4 in
  let d := (4 * c + 3) / 1461 in
  b = y / 100 ∧ c = 365 * (y mod 100) + y mod 100 / 4 + D ∧ d = y mod 100 ∧ c - 1461 * d / 4 = D.
Proof.
  intros Hy HD Hl a b c d. assert (b = y / 100) as Hb by (by apply century_ok).
  split; [done|]. assert (c = 365 * (y mod 100) + y mod 100 / 4 + D) as Hc.
  { unfold c. rewrite Hb. unfold a, day_number. clear -Hy. Z.to_euclidean_division_equations. lia. }
  split; [done|]. assert (0 ≤ y mod 100 < 100) as Hr by (apply Z.mod_pos_bound; lia).
  assert (D = 365 → y mod 100 mod 4 = 3) as Hl'.
  { intros E. destruct (Hl E) as [H4 _]. rewrite <-H4. clear. Z.to_euclidean_division_equations. lia. }
  assert (d = y mod 100) as Hd.
  { unfold d. rewrite Hc. clear -Hr HD Hl'. set (r := y mod 100) in *. clearbody r.
    symmetry. apply Z.div_unique with (r := 3 - r mod 4 + 4 * D); Z.to_euclidean_division_equations; lia. }
  split; [done|]. rewrite Hd, Hc. clear. Z.to_euclidean_division_equations. lia.
Qed.

(** ... and the day number of what they find. *)
Lemma join_day_number a :
  0 ≤ a →
  let b := (4 * a + 3) / 146097 in
  let c := a - b * 146097 / 4 in
  let d := (4 * c + 3) / 1461 in
  let e := c - 1461 * d / 4 in
  0 ≤ b ∧ 0 ≤ c ≤ 36524 ∧ 0 ≤ d ≤ 99 ∧ 0 ≤ e ≤ 365 ∧ (e = 365 → long_year (100 * b + d)) ∧ day_number (100 * b + d) e = a.
Proof.
  intros Ha b c d e.
  assert (0 ≤ b) as Hb by (apply Z.div_pos; lia).
  assert (a = 36524 * b + b / 4 + c) as Ea.
  { unfold c. assert (b * 146097 / 4 = 36524 * b + b / 4) as -> by (clear; Z.to_euclidean_division_equations; lia). lia. }
  assert (0 ≤ 3 - b mod 4 + 4 * c < 146097) as Hc.
  { pose proof (Z.div_mod (4 * a + 3) 146097 ltac:(lia)) as E. fold b in E.
    pose proof (Z.mod_pos_bound (4 * a + 3) 146097 ltac:(lia)).
    pose proof (Z.div_mod b 4 ltac:(lia)). lia. }
  assert (0 ≤ b mod 4 < 4) by (apply Z.mod_pos_bound; lia).
  assert (0 ≤ c ≤ 36524) as Hc' by lia.
  assert (0 ≤ d ≤ 99) as Hd. { unfold d. clearbody c. clear -Hc'. Z.to_euclidean_division_equations. lia. }
  assert (c = 365 * d + d / 4 + e) as Ec.
  { unfold e. assert (1461 * d / 4 = 365 * d + d / 4) as -> by (clear; Z.to_euclidean_division_equations; lia). lia. }
  assert (0 ≤ 3 - d mod 4 + 4 * e < 1461) as He.
  { pose proof (Z.div_mod (4 * c + 3) 1461 ltac:(lia)) as E. fold d in E.
    pose proof (Z.mod_pos_bound (4 * c + 3) 1461 ltac:(lia)).
    pose proof (Z.div_mod d 4 ltac:(lia)). lia. }
  assert (0 ≤ d mod 4 < 4) by (apply Z.mod_pos_bound; lia).
  split; [done|]. split; [done|]. split; [done|]. split; [lia|]. clearbody b c d e. split.
  - intros ->. unfold long_year. Z.to_euclidean_division_equations. lia.
  - unfold day_number. subst a c. clear -Hb Hd. Z.to_euclidean_division_equations. lia.
Qed.

(** The months of a year that starts in March. *)
Definition march_month_days (m : Z) : Z :=
  if m =? 11 then 29 else if (m =? 1) || (m =? 3) || (m =? 6) || (m =? 8) then 30 else 31.

Lemma twelve (Q : Z → Prop) :
  Q 0 → Q 1 → Q 2 → Q 3 → Q 4 → Q 5 → Q 6 → Q 7 → Q 8 → Q 9 → Q 10 → Q 11 → ∀ m, 0 ≤ m ≤ 11 → Q m.
Proof.
  intros ???????????? m Hm.
  assert (m = 0 ∨ m = 1 ∨ m = 2 ∨ m = 3 ∨ m = 4 ∨ m = 5 ∨ m = 6 ∨ m = 7 ∨ m = 8 ∨ m = 9 ∨ m = 10 ∨ m = 11) as Hc by lia.
  naive_solver.
Qed.

(** Case analysis on the month, everything that mentions it included. *)
Ltac by_month := match goal with |- ∀ m, _ → @?Q m => apply (twelve Q) end.

Lemma month_of_day m d :
  0 ≤ m ≤ 11 → 1 ≤ d ≤ march_month_days m →
  (5 * march_day m d + 2) / 153 = m ∧ 0 ≤ march_day m d ≤ 365 ∧ (march_day m d = 365 ↔ m = 11 ∧ d = 29).
Proof.
  intros Hm. revert d. revert m Hm. unfold march_day, march_month_days.
  by_month; intros d Hd; cbn in Hd; Z.to_euclidean_division_equations; lia.
Qed.

Lemma day_of_month D :
  0 ≤ D ≤ 365 → let m := (5 * D + 2) / 153 in
  0 ≤ m ≤ 11 ∧ 1 ≤ D - (153 * m + 2) / 5 + 1 ≤ march_month_days m ∧ (D - (153 * m + 2) / 5 + 1 = 29 → m = 11 → D = 365).
Proof.
  intros HD m. assert (0 ≤ m ≤ 11) as Hm by (unfold m; Z.to_euclidean_division_equations; lia).
  assert (153 * m ≤ 5 * D + 2 < 153 * m + 153) as Hb by (unfold m; Z.to_euclidean_division_equations; lia).
  split; [done|]. clearbody m. revert m Hm Hb. unfold march_month_days.
  by_month; intros Hb; cbn -[Z.mul Z.add Z.div Z.sub]; Z.to_euclidean_division_equations; lia.
Qed.

(** ** [int] suffices *)
Lemma ints_Ok steps x :
  Forall (λ z, -2147483648 ≤ z ≤ 2147483647) (x :: steps) → ints steps x = Ok x.
Proof.
  intros [Hx Hs]%Forall_cons. unfold ints.
  replace (forallb int_ok steps) with true; [unfold int_ok; replace (_ && _) with true by lia; done|].
  symmetry. induction Hs as [|z l Hz _ IH]; [done|]. cbn. rewrite IH. unfold int_ok. lia.
Qed.

Ltac ints_ok := rewrite ints_Ok by (repeat constructor; lia); cbn [mbind outcome_bind].

(** March-based year and month of a date. *)
Definition march_year (x : YearMonthDay) : Z := year x + 4800 - (if month x <=? 2 then 1 else 0).
Definition march_month (x : YearMonthDay) : Z := if month x <=? 2 then month x + 9 else month x - 3.

Lemma valid_march x :
  valid_date x →
  0 ≤ march_year x < 1004800 ∧ 0 ≤ march_month x ≤ 11 ∧ 1 ≤ day x ≤ march_month_days (march_month x) ∧
  (march_day (march_month x) (day x) = 365 → long_year (march_year x)).
Proof.
  intros [Hy Hm Hd]. unfold march_year, march_month in *.
  assert (0 ≤ year x + 4800 - (if month x <=? 2 then 1 else 0) < 1004800) as Hy' by (destruct (month x <=? 2); lia).
  assert (0 ≤ (if month x <=? 2 then month x + 9 else month x - 3) ≤ 11) as Hm' by (destruct (Z.leb_spec (month x) 2); lia).
  assert (1 ≤ day x ≤ march_month_days (if month x <=? 2 then month x + 9 else month x - 3)) as Hd'.
  { destruct x as [y m d]. cbn [year month day] in *. unfold days_in_month, march_month_days in *.
    clear Hy Hy'. repeat case_match; lia. }
  split; [done|]. split; [done|]. split; [done|]. intros E.
  apply (month_of_day _ _ Hm' Hd') in E as [Em Ed]. destruct (Z.leb_spec (month x) 2); [|lia].
  assert (month x = 2) as E2 by lia. unfold days_in_month in Hd. rewrite E2, Ed in Hd. replace (2 =? 2) with true in Hd by done.
  destruct (leap (year x)) eqn:El; [|lia]. unfold leap in El. unfold long_year. clear -El.
  apply orb_true_iff in El as [[? Hn]%andb_true_iff|?]; [apply negb_true_iff in Hn|];
    Z.to_euclidean_division_equations; lia.
Qed.

Lemma day_number_bounds y D : 0 ≤ y < 1004800 → 0 ≤ D ≤ 365 → 0 ≤ day_number y D ≤ 367000000.
Proof. intros. unfold day_number. Z.to_euclidean_division_equations. lia. Qed.

Lemma ToJulianDayNumber_ok x :
  valid_date x →
  ToJulianDayNumber (year x) (month x) (day x) =
    Ok (day_number (march_year x) (march_day (march_month x) (day x)) - 32044).
Proof.
  intros Hv. destruct (valid_march x Hv) as (Hy & Hm & Hd & _). pose proof Hv as [? Hmo _].
  unfold ToJulianDayNumber.
  assert (Z.quot (14 - month x) 12 = if month x <=? 2 then 1 else 0) as Hq.
  { destruct (Z.leb_spec (month x) 2); Z.to_euclidean_division_equations; lia. }
  rewrite ints_Ok, Hq by (rewrite ?Hq; destruct (month x <=? 2); repeat constructor; lia). cbn [mbind outcome_bind].
  rewrite ints_Ok by (destruct (month x <=? 2); repeat constructor; lia). cbn [mbind outcome_bind].
  fold (march_year x). rewrite ints_Ok by (destruct (month x <=? 2); repeat constructor; lia). cbn [mbind outcome_bind].
  replace (month x + 12 * (if month x <=? 2 then 1 else 0) - 3) with (march_month x)
    by (unfold march_month; destruct (month x <=? 2); lia).
  assert (1 ≤ day x ≤ 31) as Hd31 by (unfold march_month_days in Hd; repeat case_match; lia).
  set (y := march_year x) in *. set (m := march_month x) in *. clearbody y m.
  rewrite !Z.quot_div_nonneg by lia. rewrite ints_Ok.
  - f_equal. unfold day_number, march_day. lia.
  - clear -Hy Hm Hd31. repeat constructor; Z.to_euclidean_division_equations; lia.
Qed.

(** [ToYearMonthDay] in the same terms. *)
Lemma ToYearMonthDay_ok y D :
  0 ≤ y < 1004800 → 0 ≤ D ≤ 365 → (D = 365 → long_year y) →
  let m := (5 * D + 2) / 153 in
  ToYearMonthDay (day_number y D - 32044) =
    Ok (MkYmd (y - 4800 + m / 10) (m + 3 - 12 * (m / 10)) (D - (153 * m + 2) / 5 + 1)).
Proof.
  intros Hy HD Hl m. pose proof (day_number_bounds y D Hy HD) as Hn.
  destruct (split_day_number y D) as (Hb & Hc & Hd & He); [lia|done|done|].
  set (a := day_number y D) in *. clearbody a.
  assert (0 ≤ y / 100 < 10048) as Hyb by (clear -Hy; Z.to_euclidean_division_equations; lia).
  assert (0 ≤ y mod 100 < 100) as Hyr by (apply Z.mod_pos_bound; lia).
  assert (0 ≤ y / 100 * 146097 / 4 ≤ 367000000) as Hbq by (clear -Hyb; Z.to_euclidean_division_equations; lia).
  assert (0 ≤ y mod 100 / 4 ≤ 24) as Hr4 by (clear -Hyr; Z.to_euclidean_division_equations; lia).
  destruct (day_of_month D HD) as (Hm & Hday & _). fold m in Hm, Hday.
  unfold ToYearMonthDay. replace (a - 32044 + 32044) with a by lia.
  ints_ok. rewrite (Z.quot_div_nonneg (4 * a + 3)), Hb by lia. ints_ok.
  rewrite Hb in Hc. rewrite (Z.quot_div_nonneg (_ * 146097)), Hc by lia. ints_ok.
  rewrite Hb, Hc in Hd. rewrite Z.quot_div_nonneg, Hd by lia. ints_ok.
  rewrite Hb, Hc, Hd in He. rewrite (Z.quot_div_nonneg (1461 * _)) by lia.
  set (r := y mod 100) in *. set (c := 365 * r + r / 4 + D) in *.
  assert (0 ≤ 1461 * r / 4 ≤ 40000) by (clear -Hyr; Z.to_euclidean_division_equations; lia).
  rewrite He. ints_ok. rewrite (Z.quot_div_nonneg (5 * D + 2)) by lia. fold m. ints_ok.
  assert (0 ≤ (153 * m + 2) / 5 ≤ 400) by (clear -Hm; Z.to_euclidean_division_equations; lia).
  assert (0 ≤ m / 10 ≤ 1) by (clear -Hm; Z.to_euclidean_division_equations; lia).
  rewrite (Z.quot_div_nonneg (153 * m + 2)), (Z.quot_div_nonneg m 10) by lia. do 3 ints_ok.
  do 2 f_equal. pose proof (Z.div_mod y 100 ltac:(lia)). lia.
Qed.

(** From a day number to a date. *)
Definition date_of (y D : Z) : YearMonthDay :=
  let m := (5 * D + 2) / 153 in MkYmd (y - 4800 + m / 10) (m + 3 - 12 * (m / 10)) (D - (153 * m + 2) / 5 + 1).

Lemma date_of_valid y D :
  0 ≤ y < 1004799 → 0 ≤ D ≤ 365 → (D = 365 → long_year y) →
  march_year (date_of y D) = y ∧ march_month (date_of y D) = (5 * D + 2) / 153 ∧
  march_day (march_month (date_of y D)) (day (date_of y D)) = D ∧
  (y < 1004798 → -4799 ≤ y - 4800 + (5 * D + 2) / 153 / 10 → valid_date (date_of y D)).
Proof.
  intros Hy HD Hl. destruct (day_of_month D HD) as (Hm & Hday & H29). unfold date_of.
  set (m := (5 * D + 2) / 153) in *.
  assert (march_year (MkYmd (y - 4800 + m / 10) (m + 3 - 12 * (m / 10)) (D - (153 * m + 2) / 5 + 1)) = y) as E1.
  { unfold march_year. cbn [year month]. case_match; clear Hday H29; Z.to_euclidean_division_equations; lia. }
  assert (march_month (MkYmd (y - 4800 + m / 10) (m + 3 - 12 * (m / 10)) (D - (153 * m + 2) / 5 + 1)) = m) as E2.
  { unfold march_month. cbn [year month]. case_match; clear Hday H29; Z.to_euclidean_division_equations; lia. }
  split; [done|]. split; [done|]. rewrite E2. split; [unfold march_day; cbn [day]; lia|].
  intros Hy2 Hlow. clearbody m. split; cbn [year month day].
  - clear -Hm Hy2 Hlow Hy. Z.to_euclidean_division_equations. lia.
  - clear -Hm. Z.to_euclidean_division_equations. lia.
  - set (d := D - (153 * m + 2) / 5 + 1) in *. clearbody d. revert Hday H29. clear E1 E2 Hlow. revert m Hm. unfold march_month_days, days_in_month.
    by_month; intros Hd H29; try (vm_compute in Hd |- *; exact Hd); try (cbn in Hd |- *; lia).
    replace (11 =? 11) with true in Hd by done. change (11 / 10) with 1. change (11 + 3 - 12 * 1) with 2.
    replace (2 =? 2) with true by done. destruct (leap (y - 4800 + 1)) eqn:El; [lia|].
    assert (d ≠ 29); [|lia]. intros ->. destruct (Hl (H29 eq_refl eq_refl)) as [H4 H100].
    assert (leap (y - 4800 + 1) = true); [|congruence]. unfold leap. clear -H4 H100.
    apply orb_true_iff. rewrite andb_true_iff, negb_true_iff. Z.to_euclidean_division_equations. lia.
Qed.

Lemma date_of_march x :
  valid_date x → date_of (march_year x) (march_day (march_month x) (day x)) = x.
Proof.
  intros Hv. destruct (valid_march x Hv) as (Hy & Hm & Hd & _). pose proof Hv as [_ Hmo _].
  destruct (month_of_day _ _ Hm Hd) as (Em & _ & _). unfold date_of. rewrite Em. destruct x as [y m d].
  unfold march_day. unfold march_year, march_month in *. cbn [year month day] in *.
  f_equal; destruct (Z.leb_spec m 2); clear -Hmo H; Z.to_euclidean_division_equations; lia.
Qed.

(** Julian day numbers of the dates above. *)
Definition valid_julian (j : Z) : Prop := -31738 ≤ j ≤ 366000000.

Lemma julian_date j :
  valid_julian j → ∃ x, valid_date x ∧ ToYearMonthDay j = Ok x ∧ ToJulianDayNumber (year x) (month x) (day x) = Ok j.
Proof.
  intros Hj. unfold valid_julian in Hj. destruct (join_day_number (j + 32044)) as (Hb & _ & Hd & He & Hl & Ea); [lia|].
  set (b := (4 * (j + 32044) + 3) / 146097) in *. set (c := j + 32044 - b * 146097 / 4) in *.
  set (d := (4 * c + 3) / 1461) in *. set (e := c - 1461 * d / 4) in *. clearbody b c d e.
  set (y := 100 * b + d) in *.
  assert (0 ≤ y < 1004798) as Hy.
  { assert (0 ≤ y) by (unfold y; lia). unfold day_number in Ea. clearbody y. split; [lia|]. clear -Ea Hj He H. Z.to_euclidean_division_equations. lia. }
  assert (-4799 ≤ y - 4800 + (5 * e + 2) / 153 / 10) as Hlow.
  { destruct (decide (y = 0)) as [Ey|]; [|assert (0 ≤ (5 * e + 2) / 153 / 10) by (repeat apply Z.div_pos; lia); lia].
    rewrite Ey in Ea |- *. assert (306 ≤ e).
    { clear -Ea Hj. unfold day_number in Ea. Z.to_euclidean_division_equations. lia. }
    clear -H He. Z.to_euclidean_division_equations. lia. }
  destruct (date_of_valid y e) as (E1 & E2 & E3 & Hv); [lia|done|done|]. specialize (Hv (proj2 Hy) Hlow).
  exists (date_of y e). split; [done|]. split.
  - replace j with (day_number y e - 32044) by lia. apply ToYearMonthDay_ok; [lia|done|done].
  - rewrite ToJulianDayNumber_ok by done. rewrite E1, E3. f_equal. lia.
Qed.

(** Dates and Julian day numbers are the same thing.  For every Gregorian date
    from the year -4799 to the year 999999, [ToJulianDayNumber] has no overflow
    and [ToYearMonthDay] gives the date back; for every day number of that span,
    [ToYearMonthDay] has no overflow, gives a date that exists in the calendar
    (month lengths and leap years included), and [ToJulianDayNumber] gives the
    day number back. *)
Theorem date_julian_roundtrip :
  (∀ x, valid_date x → ∃ j, ToJulianDayNumber (year x) (month x) (day x) = Ok j ∧ ToYearMonthDay j = Ok x) ∧
  (∀ j, valid_julian j → ∃ x, ToYearMonthDay j = Ok x ∧ valid_date x ∧
     ToJulianDayNumber (year x) (month x) (day x) = Ok j).
Proof.
  split.
  - intros x Hv. eexists. split; [by apply ToJulianDayNumber_ok|].
    destruct (valid_march x Hv) as (Hy & Hm & Hd & Hl). destruct (month_of_day _ _ Hm Hd) as (_ & HD & _).
    rewrite ToYearMonthDay_ok by done. f_equal. by apply date_of_march.
  - intros j Hj. destruct (julian_date j Hj) as (x & ? & ? & ?). by exists x.
Qed.

Lemma date_julian_roundtrip_witness :
  ∃ j, ToJulianDayNumber 2000 2 29 = Ok j ∧ ToYearMonthDay j = Ok (MkYmd 2000 2 29).
Proof.
  destruct date_julian_roundtrip as [H _]. apply (H (MkYmd 2000 2 29)).
  split; [split; reflexivity || discriminate|split; discriminate|split; discriminate].
Defined.

(** Seconds since the epoch with such a date. *)
Definition valid_time (s : Z) : Prop := valid_julian (s / kSecondsPerDay + kJulianDayOf1970_01_01).

Lemma FillHms_ok s : 0 ≤ s < 86400 → ∃ sec min hour, FillHms s = (sec, min, hour) ∧
  0 ≤ sec < 60 ∧ 0 ≤ min < 60 ∧ 0 ≤ hour < 24 ∧ hour * 3600 + min * 60 + sec = s.
Proof. intros Hs. unfold FillHms. eexists _, _, _. split; [done|]. Z.to_euclidean_division_equations. lia. Qed.

(** The floored quotient and remainder from C's truncated ones. *)
Lemma split_seconds s :
  valid_time s →
  (let seconds := wrapS 32 (Z.rem s kSecondsPerDay) in
   let days := wrapS 32 (Z.quot s kSecondsPerDay) in
   if seconds <? 0 then a ← ints [] (seconds + kSecondsPerDay); d ← ints [] (days - 1); Ok (a, d)
   else Ok (seconds, days)) = Ok (s mod kSecondsPerDay, s / kSecondsPerDay).
Proof.
  unfold valid_time, valid_julian, kSecondsPerDay, kJulianDayOf1970_01_01. change (24 * 60 * 60) with 86400. intros Hs.
  assert (-86400 < Z.rem s 86400 < 86400) as Hr by (Z.to_euclidean_division_equations; lia).
  assert (-3000000 ≤ Z.quot s 86400 ≤ 366000000) as Hq by (Z.to_euclidean_division_equations; lia).
  rewrite !wrapS_small by lia. destruct (Z.ltb_spec (Z.rem s 86400) 0) as [Hn|Hn].
  - do 2 ints_ok. do 2 f_equal; clear Hs; Z.to_euclidean_division_equations; lia.
  - do 2 f_equal; clear Hs; Z.to_euclidean_division_equations; lia.
Qed.

(** The day of the year does not overflow. *)
Lemma year_day_ok x (yday : bool) j :
  valid_date x → valid_julian j →
  ∃ yd, (if yday then start ← ToJulianDayNumber (year x) 1 1; ints [] (j - start) else Ok 0) = Ok yd.
Proof.
  intros [Hy Hm Hd] Hj. destruct yday; [|by eexists].
  assert (valid_date (MkYmd (year x) 1 1)) as Hv by (split; cbn [year month day]; [lia|lia|unfold days_in_month; cbn; lia]).
  pose proof (ToJulianDayNumber_ok _ Hv) as E. cbn [year month day] in E. rewrite E. cbn [mbind outcome_bind].
  destruct (valid_march _ Hv) as (Hy' & Hm' & _). unfold valid_julian in Hj.
  pose proof (day_number_bounds (march_year (MkYmd (year x) 1 1)) (march_day (march_month (MkYmd (year x) 1 1)) 1) Hy' ltac:(vm_compute; split; discriminate)).
  cbn [day] in *. eexists. rewrite ints_Ok by (repeat constructor; lia). done.
Qed.

(** The conversion with or without the day of the year: no overflow, normalised
    fields, and the time can be had back. *)
Lemma ToUtcTime_ok s yday :
  valid_time s →
  ∃ t, ToUtcTime s yday = Ok t ∧ FromUtcTime t = Ok s ∧
    valid_date (MkYmd (tm_year t + 1900) (tm_mon t + 1) (tm_mday t)) ∧
    0 ≤ tm_sec t < 60 ∧ 0 ≤ tm_min t < 60 ∧ 0 ≤ tm_hour t < 24 ∧
    (0 ≤ s / kSecondsPerDay + kJulianDayOf1970_01_01 → tm_wday t = (s / kSecondsPerDay + 4) mod 7).
Proof.
  intros Hs. unfold ToUtcTime. pose proof (split_seconds s Hs) as Hsp. cbv zeta in Hsp. rewrite Hsp. clear Hsp. cbn [mbind outcome_bind].
  assert (0 ≤ s mod kSecondsPerDay < 86400) as Hm by (apply Z.mod_pos_bound; done).
  rewrite wrapU_small by lia. destruct (FillHms_ok _ Hm) as (sec & min & hour & -> & H1 & H2 & H3 & Hsum).
  pose proof (Z.div_mod s kSecondsPerDay ltac:(done)) as Es.
  unfold valid_time in Hs. set (j := s / kSecondsPerDay + kJulianDayOf1970_01_01) in *.
  pose proof Hs as Hj. unfold valid_julian in Hj. ints_ok.
  destruct (julian_date j Hs) as (x & Hv & -> & Hback). cbn [mbind outcome_bind]. pose proof Hv as [Hvy Hvm _]. do 2 ints_ok.
  unfold ToWeekDay, kDaysPerWeek. assert (-7 < Z.rem (j + 1) 7 < 7) by (clear; Z.to_euclidean_division_equations; lia). ints_ok.
  destruct (year_day_ok x yday j Hv Hs) as [yd ->]. cbn [mbind outcome_bind].
  eexists. split; [done|]. unfold FromUtcTime, FromUtcTime_fields. cbn [tm_year tm_mon tm_mday tm_hour tm_min tm_sec tm_wday].
  replace (year x - 1900 + 1900) with (year x) by lia. replace (month x - 1 + 1) with (month x) by lia. do 3 ints_ok.
  rewrite Hback. cbn [mbind outcome_bind]. unfold kJulianDayOf1970_01_01 in *. ints_ok.
  split; [|split; [by destruct x|split; [done|split; [done|split; [done|]]]]].
  - f_equal. rewrite Hsum. unfold j. lia.
  - intros Hpos. rewrite Z.rem_mod_nonneg by lia. unfold j. clear. Z.to_euclidean_division_equations. lia.
Qed.

(** UTC conversion is exact.  For every time whose date is in the supported
    span, [ToUtcTime] has no overflow and gives normalised fields with an
    existing date and the right day of the week, and [FromUtcTime] gives the
    time back. *)
Theorem utc_roundtrip s :
  valid_time s →
  ∃ t, ToUtcTime s false = Ok t ∧ FromUtcTime t = Ok s ∧
    valid_date (MkYmd (tm_year t + 1900) (tm_mon t + 1) (tm_mday t)) ∧
    0 ≤ tm_sec t < 60 ∧ 0 ≤ tm_min t < 60 ∧ 0 ≤ tm_hour t < 24 ∧
    (0 ≤ s / kSecondsPerDay + kJulianDayOf1970_01_01 → tm_wday t = (s / kSecondsPerDay + 4) mod 7).
Proof. apply ToUtcTime_ok. Qed.

Lemma utc_roundtrip_witness :
  ∃ t, ToUtcTime 951827696 false = Ok t ∧ FromUtcTime t = Ok 951827696 ∧ tm_mday t = 29.
Proof.
  destruct (utc_roundtrip 951827696) as (t & H1 & H2 & _).
  - vm_compute. split; discriminate.
  - exists t. split; [exact H1|]. split; [exact H2|]. vm_compute in H1. injection H1 as <-. reflexivity.
Defined.

(** The last second of the year 9999. *)
Definition end_of_9999 : Z := 253402300799.

Lemma ints_inv steps x z : ints steps x = Ok z → z = x.
Proof. unfold ints. case_match; congruence. Qed.

(** Four-digit years: what the text formats of the program count on. *)
Lemma utc_fields s yday :
  0 ≤ s ≤ end_of_9999 →
  ∃ t, ToUtcTime s yday = Ok t ∧ FromUtcTime t = Ok s ∧ 1000 ≤ tm_year t + 1900 ≤ 9999 ∧
    1 ≤ tm_mon t + 1 ≤ 12 ∧ 1 ≤ tm_mday t ≤ 31 ∧ 0 ≤ tm_hour t ≤ 23 ∧ 0 ≤ tm_min t ≤ 59 ∧ 0 ≤ tm_sec t ≤ 59.
Proof.
  unfold end_of_9999. intros Hs. assert (valid_time s) as Hv.
  { unfold valid_time, valid_julian, kSecondsPerDay, kJulianDayOf1970_01_01. change (24 * 60 * 60) with 86400.
    Z.to_euclidean_division_equations. lia. }
  destruct (ToUtcTime_ok s yday Hv) as (t & -> & Hback & Hd & H1 & H2 & H3 & _). exists t. split; [done|]. split; [done|].
  pose proof Hd as [Hy Hm Hmd]. cbn [year month day] in *.
  assert (1 ≤ tm_mday t ≤ 31) as Hmd31 by (unfold days_in_month in Hmd; repeat case_match; lia).
  split; [|lia]. unfold FromUtcTime, FromUtcTime_fields in Hback.
  apply bind_Ok in Hback as (y & ->%ints_inv & Hback). apply bind_Ok in Hback as (m & ->%ints_inv & Hback).
  pose proof (ToJulianDayNumber_ok _ Hd) as E. cbn [year month day] in E. rewrite E in Hback. clear E. cbn [mbind outcome_bind] in Hback.
  apply bind_Ok in Hback as (sec & ->%ints_inv & Hback). apply bind_Ok in Hback as (days & ->%ints_inv & [= <-]).
  destruct (valid_march _ Hd) as (Hy' & Hm' & Hdd & _). cbn [day] in *.
  destruct (month_of_day _ _ Hm' Hdd) as (_ & HD & _).
  set (Y := march_year _) in *. set (D := march_day _ _) in *.
  assert ((Y = tm_year t + 1900 + 4799 ∧ 306 ≤ D) ∨ Y = tm_year t + 1900 + 4800) as HY.
  { unfold Y, D, march_year, march_day, march_month. cbn [year month]. destruct (Z.leb_spec (tm_mon t + 1) 2); [left|right; lia].
    split; [lia|]. clear -Hm Hmd31. Z.to_euclidean_division_equations. lia. }
  clearbody Y D. unfold kSecondsPerDay, kJulianDayOf1970_01_01, day_number in Hs. clear Hd Hv Hy Hm Hmd Hm' Hdd.
  split; Z.to_euclidean_division_equations; lia.
Qed.

(** ** [Timestamp] *)
Definition Timestamp_IsValid (micro_seconds_since_epoch_ : Z) : bool := 0 <? micro_seconds_since_epoch_.
Definition seconds_since_epoch (t : Z) : Z := Z.quot t 1000000.
Definition FromUnixTime (t microseconds : Z) : outcome Z :=
  let x := t * 1000000 + microseconds in
  if bool_decide (- 2 ^ 63 ≤ t * 1000000 < 2 ^ 63) && bool_decide (- 2 ^ 63 ≤ x < 2 ^ 63)
  then Ok x else Fail (UndefinedBehaviour "signed overflow").

(** ["%06ld"]. *)
Definition fmt_06d (n : Z) : bytes :=
  if n <? 0 then str "-" ++ pad "0"%char 5 (fmt_u (- n)) else pad "0"%char 6 (fmt_u n).

Definition Timestamp_ToString (t : Z) : bytes :=
  ztake 31 (fmt_d (Z.quot t 1000000) ++ str "." ++ fmt_06d (Z.rem t 1000000)).

Example Timestamp_ToString_1 : Timestamp_ToString 1500000042 = str "1500.000042".
Proof. reflexivity. Qed.

(** [ToFormattedString]; [gmtime_r] is the UTC conversion above. *)
Definition ToFormattedString (show_microseconds : bool) (t : Z) : outcome bytes :=
  u ← ToUtcTime (seconds_since_epoch t) true;
  Ok (ztake 63 (fmt_4d (tm_year u + 1900) ++ fmt_02d (tm_mon u + 1) ++ fmt_02d (tm_mday u) ++ str " " ++
      fmt_02d (tm_hour u) ++ str ":" ++ fmt_02d (tm_min u) ++ str ":" ++ fmt_02d (tm_sec u) ++
      (if show_microseconds then str "." ++ fmt_06d (Z.rem t 1000000) else []))).

Example ToFormattedString_1 : ToFormattedString true 951827696000007 = Ok (str "20000229 12:34:56.000007").
Proof. reflexivity. Qed.

(** [operator+=], [operator-=]: signed 64-bit arithmetic. *)
Definition int64 (x : Z) : outcome Z :=
  if bool_decide (- 2 ^ 63 ≤ x < 2 ^ 63) then Ok x else Fail (UndefinedBehaviour "signed overflow").
Definition Timestamp_add (t u : Z) : outcome Z := int64 (t + u).
Definition Timestamp_sub (t u : Z) : outcome Z := int64 (t - u).
Definition Timestamp_lt (t u : Z) : bool := t <? u.
Definition Timestamp_eq (t u : Z) : bool := t =? u.

(** ** The widths of the fields *)
Lemma zlen_pad fill w s : zlen (pad fill w s) = Z.max w (zlen s).
Proof. unfold pad, zlen. rewrite length_app, length_replicate. lia. Qed.

Lemma fmt_4d_len n : 0 ≤ n ≤ 9999 → zlen (fmt_4d n) = 4.
Proof.
  intros Hn. unfold fmt_4d, fmt_d. replace (n <? 0) with false by lia.
  rewrite zlen_pad. pose proof (fmt_u_len n 4 ltac:(lia) ltac:(lia)). lia.
Qed.
Lemma fmt_02d_len n : 0 ≤ n ≤ 99 → zlen (fmt_02d n) = 2.
Proof.
  intros Hn. unfold fmt_02d. replace (n <? 0) with false by lia.
  rewrite zlen_pad. pose proof (fmt_u_len n 2 ltac:(lia) ltac:(lia)). lia.
Qed.
Lemma fmt_06d_len n : 0 ≤ n ≤ 999999 → zlen (fmt_06d n) = 6.
Proof.
  intros Hn. unfold fmt_06d. replace (n <? 0) with false by lia.
  rewrite zlen_pad. pose proof (fmt_u_len n 6 ltac:(lia) ltac:(lia)). lia.
Qed.

(** Leading zeros do not change the value. *)
Lemma dec_value_zeros k s : dec_value (replicate k "0"%char ++ s) = dec_value s.
Proof. unfold dec_value, dec_value_from. rewrite foldl_app. f_equal. induction k as [|k IH]; [done|]. exact IH. Qed.

Lemma fmt_02d_inj m n : 0 ≤ m → 0 ≤ n → fmt_02d m = fmt_02d n → m = n.
Proof.
  intros Hm Hn E. unfold fmt_02d in E. replace (m <? 0) with false in E by lia. replace (n <? 0) with false in E by lia.
  apply (f_equal dec_value) in E. unfold pad in E. rewrite !dec_value_zeros in E.
  destruct (fmt_u_spec m Hm) as (_ & _ & Vm). destruct (fmt_u_spec n Hn) as (_ & _ & Vn). congruence.
Qed.
