(* ===== verification/TimeZone.v ===== *)
(** * [TimeZone] (utils/timezone.h, utils/timezone.cc) and [File] (utils/file.cc)

    Local time from a table of transitions: the table is read from a zone file or
    made for a fixed offset, and a lookup finds the transition in force by binary
    search. *)

From stdpp Require Import base tactics list numbers strings sorting.
From Stdlib Require Import ZArith Lia Ascii.
From S2P Require Import Prelude.
From S2P Require Import CString.
From S2P Require Import Buffer.
From S2P Require Import Calendar.

Record Transition := MkTransition { gmttime : Z; localtime : Z; localtime_idx : Z }.
Record Localtime := MkLocaltime { gmt_offset : Z; is_dst : bool; arrb_idx : Z }.

(** [Comp]: compare by GMT or by local time. *)
Definition comp_key (compare_gmt : bool) (t : Transition) : Z := if compare_gmt then gmttime t else localtime t.
Definition Comp_less (gmt : bool) (lhs rhs : Transition) : bool := comp_key gmt lhs <? comp_key gmt rhs.
Definition Comp_equal (gmt : bool) (lhs rhs : Transition) : bool := comp_key gmt lhs =? comp_key gmt rhs.

Record Rep := MkRep {
  transitions : list Transition;
  localtimes : list Localtime;
  names : list bytes;
  abbreviation : bytes;
}.
Definition Rep_new : Rep := MkRep [] [] [] [].

(** ** Reading a zone file *)

(** A method of [File] in the middle of [ReadTimeZoneFile]: the bytes not read
    yet and the table so far; a thrown [std::logic_error] keeps both. *)
Inductive result (A : Type) := Value (a : A) | Throw (what : string) | Ub (why : string).
Arguments Value {A} _.
Arguments Throw {A} _.
Arguments Ub {A} _.
Definition reader (A : Type) : Type := bytes * Rep → result A * (bytes * Rep).

#[global] Instance reader_ret : MRet reader := λ A a s, (Value a, s).
#[global] Instance reader_bind : MBind reader := λ A B k m s,
  match m s with
  | (Value a, s) => k a s
  | (Throw e, s) => (Throw e, s)
  | (Ub e, s) => (Ub e, s)
  end.

Definition throw {A} (what : string) : reader A := λ s, (Throw what, s).
Definition ub {A} (why : string) : reader A := λ s, (Ub why, s).

(** [fread(buf, 1, n, fp_)]; a short read leaves nothing. *)
Definition fread (n : Z) (what : string) : reader bytes := λ '(f, r),
  if n <=? zlen f then (Value (ztake n f), (zdrop n f, r)) else (Throw what, ([], r)).

(** [n] comes from an [int]: a negative one is a huge [size_t] for the array. *)
Definition ReadBytes (n : Z) : reader bytes :=
  if n <? 0 then ub "size of a variable-length array" else fread n "no enough data".
Definition ReadUInt8 : reader Z := s ← fread 1 "bad uint8_t data"; mret (le_val s).
Definition ReadInt32 : reader Z := s ← fread 4 "bad int32_t data"; mret (wrapS 32 (le_val (rev s))).
Definition ReadInt64 : reader Z := s ← fread 8 "bad int64_t data"; mret (wrapS 64 (le_val (rev s))).

Definition update (g : Rep → Rep) : reader unit := λ '(f, r), (Value tt, (f, g r)).
Definition get : reader Rep := λ s, (Value s.2, s).

(** [for (int i = 0; i < n; ++i) v.push_back(body)]. *)
Fixpoint times {A} (n : nat) (body : reader A) : reader (list A) :=
  match n with
  | O => mret []
  | S n => x ← body; l ← times n body; mret (x :: l)
  end.

Definition read_localtime : reader unit :=
  gmtoff ← ReadInt32;
  isdst ← ReadUInt8;
  abbrind ← ReadUInt8;
  update (λ r, MkRep (transitions r) (localtimes r ++ [MkLocaltime gmtoff (negb (isdst =? 0)) abbrind]) (names r) (abbreviation r)).

(** Join the times and the types of the transitions. *)
Fixpoint add_transitions (l : list (Z * Z)) : reader unit :=
  match l with
  | [] => mret tt
  | (t, local_idx) :: l =>
      r ← get;
      match localtimes r !! Z.to_nat local_idx with
      | Some lt =>
          update (λ r, MkRep (transitions r ++ [MkTransition t (t + gmt_offset lt) local_idx]) (localtimes r) (names r) (abbreviation r));;
          add_transitions l
      | None => ub "data->localtimes[local_idx]"
      end
  end.

Definition read_zone : reader unit :=
  head ← ReadBytes 4;
  (if bool_decide (head = str "TZif") then mret tt else throw "bad head");;
  version ← ReadBytes 1;
  _ ← ReadBytes 15;
  isgmtcnt ← ReadInt32;
  isstdcnt ← ReadInt32;
  timecnt ← ReadInt32;
  typecnt ← ReadInt32;
  charcnt ← ReadInt32;
  (if timecnt <? 0 then throw "vector::reserve" else mret tt);;
  trans ← times (Z.to_nat timecnt) ReadInt32;
  locals ← times (Z.to_nat timecnt) ReadUInt8;
  _ ← times (Z.to_nat typecnt) read_localtime;
  add_transitions (zip trans locals);;
  abbr ← ReadBytes charcnt;
  update (λ r, MkRep (transitions r) (localtimes r) (names r) abbr).

(** [ReadTimeZoneFile]: [None] is a file that cannot be opened.  Errors are
    printed; the result is always [true]. *)
Definition ReadTimeZoneFile (zonefile : option bytes) (data : Rep) : outcome (bool * Rep) :=
  match zonefile with
  | None => Ok (true, data)
  | Some f =>
      match read_zone (f, data) with
      | (Ub why, _) => Fail (UndefinedBehaviour why)
      | (_, (_, r)) => Ok (true, r)
      end
  end.

(** The two constructors; [None] is a null [rep_]. *)
Definition TimeZone_file (zonefile : option bytes) : outcome (option Rep) :=
  '(ok, r) ← ReadTimeZoneFile zonefile Rep_new;
  Ok (if ok : bool then Some r else None).
Definition TimeZone_fixed (east_of_utc : Z) (name : bytes) : option Rep :=
  Some (MkRep [] [MkLocaltime east_of_utc false 0] [] name).
Definition TimeZone_IsValid (rep_ : option Rep) : bool := bool_decide (is_Some rep_).

(** ** Lookup *)

(** [std::lower_bound] on [len] elements from [first] on. *)
Fixpoint lower_bound_loop (fuel : nat) (less : Transition → bool) (l : list Transition) (first len : nat) : nat :=
  match fuel with
  | O => first
  | S fuel =>
      if decide (len = 0)%nat then first
      else
        let half := Nat.div2 len in
        let mid := (first + half)%nat in
        match l !! mid with
        | Some t => if less t then lower_bound_loop fuel less l (S mid) (len - half - 1)
                    else lower_bound_loop fuel less l first half
        | None => first
        end
  end.
Definition lower_bound (less : Transition → bool) (l : list Transition) : nat :=
  lower_bound_loop (length l) less l 0 (length l).

Definition localtime_at (rep : Rep) (i : Z) : outcome Localtime :=
  match localtimes rep !! Z.to_nat i with
  | Some lt => Ok lt
  | None => Fail (UndefinedBehaviour "rep.localtimes[i]")
  end.

Definition FindLocaltime (rep : Rep) (sentry : Transition) (gmt : bool) : outcome Localtime :=
  match transitions rep with
  | [] => localtime_at rep 0
  | front :: _ =>
      if Comp_less gmt sentry front then localtime_at rep 0
      else
        let i := lower_bound (λ t, Comp_less gmt t sentry) (transitions rep) in
        match transitions rep !! i with
        | Some t =>
            if Comp_equal gmt sentry t then localtime_at rep (localtime_idx t)
            else
              cassert "trans_i != rep.transitions.begin()" (negb (Nat.eqb i 0));;
              match transitions rep !! (i - 1)%nat with
              | Some t => localtime_at rep (localtime_idx t)
              | None => Fail (UndefinedBehaviour "trans_i")
              end
        | None =>
            match last (transitions rep) with
            | Some t => localtime_at rep (localtime_idx t)
            | None => Fail (UndefinedBehaviour "back()")
            end
        end
  end.

(** ** Conversions; [gmtime_r] and [timegm] are the UTC conversions of Calendar.v *)

(** [&data.abbreviation[i]] as a C string. *)
Definition zone_name (rep : Rep) (i : Z) : outcome bytes :=
  if i <=? zlen (abbreviation rep)
  then let s := zdrop i (abbreviation rep) in Ok (ztake (std_find "000"%char s) s)
  else Fail (UndefinedBehaviour "data.abbreviation[i]").

Definition ToLocalTime (rep_ : option Rep) (seconds : Z) : outcome tm :=
  match rep_ with
  | None => Fail (AssertionFailed "rep_ != nullptr")
  | Some data =>
      local ← FindLocaltime data (MkTransition seconds 0 0) true;
      t ← ToUtcTime (seconds + gmt_offset local) true;
      zone ← zone_name data (arrb_idx local);
      Ok (MkTm (tm_sec t) (tm_min t) (tm_hour t) (tm_mday t) (tm_mon t) (tm_year t) (tm_wday t) (tm_yday t)
            (if is_dst local then 1 else 0) (gmt_offset local) zone)
  end.

Definition FromLocalTime (rep_ : option Rep) (localTm : tm) : outcome Z :=
  match rep_ with
  | None => Fail (AssertionFailed "rep_ != nullptr")
  | Some data =>
      seconds ← FromUtcTime localTm;
      local ← FindLocaltime data (MkTransition 0 seconds 0) false;
      seconds ← (if negb (tm_isdst localTm =? 0) then
          try_tm ← ToLocalTime rep_ (seconds - gmt_offset local);
          Ok (if (tm_isdst try_tm =? 0) && (tm_hour try_tm =? tm_hour localTm) && (tm_min try_tm =? tm_min localTm)
              then seconds - 3600 else seconds)
        else Ok seconds);
      Ok (seconds - gmt_offset local)
  end.

(** ** Binary search *)
Lemma lower_bound_loop_spec fuel less l first len k :
  (len ≤ fuel)%nat → (first + len ≤ length l)%nat → (first ≤ k ≤ first + len)%nat →
  (∀ i t, l !! i = Some t → (i < k)%nat → less t = true) →
  (∀ i t, l !! i = Some t → (k ≤ i)%nat → less t = false) →
  lower_bound_loop fuel less l first len = k.
Proof.
  revert first len. induction fuel as [|fuel IH]; intros first len Hf Hl Hk Hlo Hhi; cbn [lower_bound_loop]; [lia|].
  destruct (decide (len = 0%nat)) as [->|Hne]; [lia|].
  assert (Nat.div2 len < len)%nat as Hh by (apply Nat.lt_div2; lia).
  set (half := Nat.div2 len) in *. clearbody half.
  destruct (lookup_lt_is_Some_2 l (first + half)) as [t Ht]; [lia|]. rewrite Ht.
  destruct (less t) eqn:E.
  - assert (first + half < k)%nat. { apply Nat.lt_nge. intros Hge. rewrite (Hhi _ _ Ht Hge) in E. done. }
    apply IH; try done; lia.
  - assert (k ≤ first + half)%nat. { apply Nat.nlt_ge. intros Hlt. rewrite (Hlo _ _ Ht Hlt) in E. done. }
    apply IH; try done; lia.
Qed.

Section lookup.
Context (gmt : bool).

(** Strictly ascending keys, as a zone file has them. *)
Definition ascending (l : list Transition) : Prop := StronglySorted (λ a b, comp_key gmt a < comp_key gmt b) l.

(** The transition in force at [s]: the last one not after it. *)
Definition in_force (s : Z) (l : list Transition) : option Transition := last (filter (λ t, comp_key gmt t ≤ s) l).

Lemma ascending_split s l :
  ascending l → ∃ a b, l = a ++ b ∧ Forall (λ t, comp_key gmt t < s) a ∧ Forall (λ t, s ≤ comp_key gmt t) b.
Proof.
  induction 1 as [|x l Hs IH Hx]; [by exists [], []|]. destruct (decide (comp_key gmt x < s)) as [Hlt|Hge].
  - destruct IH as (a & b & -> & ? & ?). exists (x :: a), b. split; [done|]. split; [by constructor|done].
  - exists [], (x :: l). split; [done|]. split; [done|]. constructor; [lia|].
    eapply Forall_impl; [exact Hx|]. cbn. intros. lia.
Qed.

Lemma lower_bound_split sentry a b :
  Forall (λ t, comp_key gmt t < comp_key gmt sentry) a → Forall (λ t, comp_key gmt sentry ≤ comp_key gmt t) b →
  lower_bound (λ t, Comp_less gmt t sentry) (a ++ b) = length a.
Proof.
  intros Ha Hb. unfold lower_bound. rewrite length_app. rewrite Forall_forall in Ha, Hb.
  apply lower_bound_loop_spec; try (rewrite ?length_app; lia); intros i t Ht Hi; unfold Comp_less.
  - rewrite lookup_app_l in Ht by lia. apply list_elem_of_lookup_2, Ha in Ht. lia.
  - rewrite lookup_app_r in Ht by lia. apply list_elem_of_lookup_2, Hb in Ht. lia.
Qed.

Lemma in_force_split s a b :
  Forall (λ t, comp_key gmt t ≤ s) a → Forall (λ t, s < comp_key gmt t) b → in_force s (a ++ b) = last a.
Proof.
  intros Ha Hb. unfold in_force. rewrite filter_app.
  assert (filter (λ t, comp_key gmt t ≤ s) a = a) as ->.
  { clear -Ha. induction Ha as [|x l Hx _ IH]; [done|]. rewrite filter_cons_True by done. by rewrite IH. }
  assert (filter (λ t, comp_key gmt t ≤ s) b = []) as ->; [|by rewrite app_nil_r].
  clear -Hb. induction Hb as [|x l Hx _ IH]; [done|]. rewrite filter_cons_False by lia. done.
Qed.

(** C38: [FindLocaltime] finds the entry in force.  When the transitions are in
    strictly ascending order, the lookup fails no assertion and gives the local
    time type of the last transition at or before the time looked for, or the
    first type when the time is before all transitions or there are none. *)
Theorem find_localtime_in_force rep sentry :
  ascending (transitions rep) →
  FindLocaltime rep sentry gmt =
    localtime_at rep (match in_force (comp_key gmt sentry) (transitions rep) with
                      | Some t => localtime_idx t | None => 0 end).
Proof.
  intros Hasc. destruct (ascending_split (comp_key gmt sentry) _ Hasc) as (a & b & Heq & Ha & Hb).
  unfold FindLocaltime. destruct (transitions rep) as [|front l] eqn:El; [done|]. rewrite Heq.
  assert (Forall (λ t, comp_key gmt t ≤ comp_key gmt sentry) a) as Ha' by (eapply Forall_impl; [exact Ha|cbn; lia]).
  rewrite lower_bound_split by done. rewrite lookup_app_r, Nat.sub_diag by lia.
  destruct b as [|t b].
  - cbn [lookup list_lookup]. rewrite in_force_split, app_nil_r by done. rewrite app_nil_r in Heq. subst a.
    apply Forall_cons in Ha as [Hf _]. unfold Comp_less at 1.
    replace (comp_key gmt sentry <? comp_key gmt front) with false by lia.
    destruct (last (front :: l)) eqn:E; [done|]. by apply last_None in E.
  - cbn [lookup list_lookup]. apply Forall_cons in Hb as [Ht Hb]. rewrite Heq in Hasc.
    assert (Forall (λ x, comp_key gmt t < comp_key gmt x) b) as Hb'.
    { clear -Hasc. induction a as [|x a IH]; cbn in Hasc; apply StronglySorted_inv in Hasc as [? ?]; auto. }
    unfold Comp_less, Comp_equal. destruct (Z.eqb_spec (comp_key gmt sentry) (comp_key gmt t)) as [E|E].
    + replace (a ++ t :: b) with ((a ++ [t]) ++ b) by (by rewrite <-app_assoc). rewrite in_force_split, last_snoc.
      * destruct a as [|x a]; injection Heq as -> _; [by replace (_ <? _) with false by lia|].
        apply Forall_cons in Ha as [? _]. by replace (_ <? _) with false by lia.
      * apply Forall_app. split; [done|]. constructor; [lia|done].
      * eapply Forall_impl; [exact Hb'|cbn; lia].
    + rewrite in_force_split; [|done|constructor; [lia|eapply Forall_impl; [exact Hb'|cbn; lia]]].
      destruct a as [|x a] using rev_ind.
      * injection Heq as -> _. by replace (_ <? _) with true by lia.
      * rewrite last_snoc. assert ((comp_key gmt sentry <? comp_key gmt front) = false) as ->.
        { destruct a as [|y a]; injection Heq as -> _; apply Forall_app in Ha as [Ha Hx];
            [apply Forall_cons in Hx as [? _]; lia|apply Forall_cons in Ha as [? _]; lia]. }
        rewrite length_app. cbn [length]. replace (Nat.eqb (length a + 1) 0) with false by (symmetry; apply Nat.eqb_neq; lia).
        cbn [negb cassert mbind outcome_bind]. replace (length a + 1 - 1)%nat with (length a) by lia.
        rewrite <-!app_assoc, lookup_app_r, Nat.sub_diag by lia. done.
Qed.

End lookup.

Lemma find_localtime_in_force_witness :
  let rep := MkRep [MkTransition 100 3700 1; MkTransition 200 200 0; MkTransition 300 3900 1]
               [MkLocaltime 0 false 0; MkLocaltime 3600 true 4] [] [] in
  FindLocaltime rep (MkTransition 250 0 0) true = Ok (MkLocaltime 0 false 0).
Proof.
  intros rep. rewrite (find_localtime_in_force true rep).
  - reflexivity.
  - unfold rep. repeat constructor.
Defined.

(** ** The zone file format *)

(** The header of RFC 8536 with its six counts, and what follows it. *)
Definition tzif (version reserved : bytes) (isutcnt isstdcnt leapcnt timecnt typecnt charcnt : Z) (rest : bytes) : bytes :=
  str "TZif" ++ version ++ reserved ++ be_bytes 4 isutcnt ++ be_bytes 4 isstdcnt ++ be_bytes 4 leapcnt ++
  be_bytes 4 timecnt ++ be_bytes 4 typecnt ++ be_bytes 4 charcnt ++ rest.

(** A reader that does not touch the transitions and stays defined. *)
Definition keeps {A} (m : reader A) : Prop :=
  ∀ s, transitions (m s).2.2 = transitions s.2 ∧ ∀ why, (m s).1 ≠ Ub why.

Lemma keeps_bind {A B} (m : reader A) (k : A → reader B) : keeps m → (∀ a, keeps (k a)) → keeps (m ≫= k).
Proof.
  intros Hm Hk s. unfold mbind, reader_bind. specialize (Hm s). destruct (m s) as [[a|e|e] s'] eqn:E; cbn in *.
  - destruct (Hk a s') as [E1 ?]. destruct Hm as [E2 _]. split; [by rewrite E1|done].
  - split; [apply Hm|done].
  - destruct Hm as [_ Hm]. by destruct (Hm e).
Qed.

Lemma keeps_ret {A} (a : A) : keeps (mret a).
Proof. intros s. done. Qed.

Lemma keeps_fread n what : keeps (fread n what).
Proof. intros [f r]. unfold fread. by destruct (n <=? zlen f). Qed.

Lemma keeps_ReadBytes n : 0 ≤ n → keeps (ReadBytes n).
Proof. intros Hn. unfold ReadBytes. replace (n <? 0) with false by lia. apply keeps_fread. Qed.

Lemma keeps_update g : (∀ r, transitions (g r) = transitions r) → keeps (update g).
Proof. intros Hg [f r]. cbn. by rewrite Hg. Qed.

Lemma keeps_times {A} n (m : reader A) : keeps m → keeps (times n m).
Proof.
  intros Hm. induction n as [|n IH]; cbn [times]; [apply keeps_ret|].
  apply keeps_bind; [done|]. intros x. apply keeps_bind; [done|]. intros l. apply keeps_ret.
Qed.

Lemma keeps_read_localtime : keeps read_localtime.
Proof.
  unfold read_localtime, ReadInt32, ReadUInt8. repeat (apply keeps_bind; [|intros ?]); try apply keeps_fread; try apply keeps_ret.
  by apply keeps_update.
Qed.

Create HintDb zone.
#[export] Hint Resolve keeps_ret keeps_fread keeps_read_localtime keeps_times : zone.

Lemma fread_app what d rest r : fread (zlen d) what (d ++ rest, r) = (Value d, (rest, r)).
Proof.
  unfold fread. rewrite zlen_app. pose proof (zlen_nonneg rest). pose proof (zlen_nonneg d). replace (_ <=? _) with true by lia.
  rewrite ztake_app, zdrop_app, ztake_all, ztake_0, zdrop_all, zdrop_0, app_nil_r by lia. done.
Qed.

Lemma ReadBytes_app n d rest r : zlen d = n → ReadBytes n (d ++ rest, r) = (Value d, (rest, r)).
Proof.
  intros <-. unfold ReadBytes. pose proof (zlen_nonneg d). replace (_ <? 0) with false by lia. apply fread_app.
Qed.

Lemma ReadInt32_app x rest r : 0 ≤ x < 2 ^ 31 → ReadInt32 (be_bytes 4 x ++ rest, r) = (Value x, (rest, r)).
Proof.
  intros Hx. unfold ReadInt32, mbind, reader_bind.
  replace 4 with (zlen (be_bytes 4 x)) by (by rewrite zlen_be_bytes). rewrite fread_app. unfold mret, reader_ret.
  do 2 f_equal. unfold be_bytes. rewrite rev_involutive, le_val_le_bytes.
  change (2 ^ (8 * Z.of_nat 4)) with (2 ^ 32). fold (wrapU 32 x). rewrite wrapS_wrapU by lia. apply wrapS_small; lia.
Qed.

(** Run the first step of a sequence whose result is known. *)
Lemma reader_step {A B} (m : reader A) (k : A → reader B) s a s' : m s = (Value a, s') → (m ≫= k) s = k a s'.
Proof. intros E. unfold mbind, reader_bind. by rewrite E. Qed.

Lemma reader_stop {A B} (m : reader A) (k : A → reader B) s e s' : m s = (Throw e, s') → (m ≫= k) s = (Throw e, s').
Proof. intros E. unfold mbind, reader_bind. by rewrite E. Qed.

(** Reading a zone file loses its transitions.  The header has six counts;
    [ReadTimeZoneFile] reads five and takes the number of leap seconds for the
    number of transitions.  So for every file without leap seconds, however many
    transitions it has, the table has none (and [ReadTimeZoneFile] reports
    success): local times have one constant offset. *)
Theorem zone_file_transitions_lost version reserved isutcnt isstdcnt timecnt typecnt charcnt rest :
  zlen version = 1 → zlen reserved = 15 →
  0 ≤ isutcnt < 2 ^ 31 → 0 ≤ isstdcnt < 2 ^ 31 → 0 ≤ timecnt < 2 ^ 31 → 0 ≤ typecnt < 2 ^ 31 →
  ∃ r, ReadTimeZoneFile (Some (tzif version reserved isutcnt isstdcnt 0 timecnt typecnt charcnt rest)) Rep_new = Ok (true, r) ∧
    transitions r = [].
Proof.
  intros Hv Hres Hu Hs Ht Hty. unfold ReadTimeZoneFile, read_zone, tzif.
  rewrite (reader_step _ _ _ (str "TZif") _ (ReadBytes_app 4 (str "TZif") _ _ eq_refl)).
  rewrite bool_decide_true by done. rewrite (reader_step _ _ _ tt _ eq_refl).
  rewrite (reader_step _ _ _ _ _ (ReadBytes_app 1 version _ _ Hv)).
  rewrite (reader_step _ _ _ _ _ (ReadBytes_app 15 reserved _ _ Hres)).
  rewrite (reader_step _ _ _ _ _ (ReadInt32_app isutcnt _ _ Hu)), (reader_step _ _ _ _ _ (ReadInt32_app isstdcnt _ _ Hs)).
  rewrite (reader_step _ _ _ _ _ (ReadInt32_app 0 _ _ ltac:(lia))), (reader_step _ _ _ _ _ (ReadInt32_app timecnt _ _ Ht)).
  rewrite (reader_step _ _ _ _ _ (ReadInt32_app typecnt _ _ Hty)). change (0 <? 0) with false.
  rewrite (reader_step _ _ _ tt _ eq_refl). change (Z.to_nat 0) with 0%nat. cbn [times].
  do 2 rewrite (reader_step (mret ([] : list Z)) _ _ [] _ eq_refl). cbn [zip zip_with add_transitions].
  set (m := mbind _ _). assert (keeps m) as Hk.
  { unfold m. apply keeps_bind; [apply keeps_times, keeps_read_localtime|]. intros _.
    apply keeps_bind; [apply keeps_ret|]. intros _. apply keeps_bind; [apply keeps_ReadBytes; lia|]. intros abbr.
    by apply keeps_update. }
  destruct (Hk (be_bytes 4 charcnt ++ rest, Rep_new)) as [Hkeep Hub]. destruct (m _) as [[a|e|e] [f r]]; cbn in *.
  - by exists r.
  - by exists r.
  - by destruct (Hub e).
Qed.

Lemma zone_file_transitions_lost_witness :
  ∃ r, ReadTimeZoneFile (Some (tzif (str "2") (replicate 15 "000"%char) 0 0 0 2 2 8
    (be_bytes 4 100 ++ be_bytes 4 200 ++ be_bytes 1 1 ++ be_bytes 1 0 ++
     be_bytes 4 0 ++ be_bytes 1 0 ++ be_bytes 1 0 ++ be_bytes 4 3600 ++ be_bytes 1 1 ++ be_bytes 1 4 ++
     str "GMT_BST_"))) Rep_new = Ok (true, r) ∧ transitions r = [].
Proof. apply (zone_file_transitions_lost (str "2") (replicate 15 "000"%char) 0 0 2 2 8); (reflexivity || lia). Defined.

(** A zone file that is missing, or is not a zone file, gives a time zone that
    says it is valid and has no local time type at all: [ToLocalTime] uses the
    front of an empty vector. *)
Theorem bad_zone_file_valid_but_undefined zonefile seconds :
  (∀ f, zonefile = Some f → zlen f < 4 ∨ ztake 4 f ≠ str "TZif") →
  ∃ rep_, TimeZone_file zonefile = Ok rep_ ∧ TimeZone_IsValid rep_ = true ∧
    ToLocalTime rep_ seconds = Fail (UndefinedBehaviour "rep.localtimes[i]").
Proof.
  intros Hbad. exists (Some Rep_new). split; [|split; reflexivity]. unfold TimeZone_file, ReadTimeZoneFile.
  destruct zonefile as [f|]; [|done].
  assert (∃ e f', read_zone (f, Rep_new) = (Throw e, (f', Rep_new))) as (e & f' & ->); [|done]. unfold read_zone.
  destruct (Z.leb_spec 4 (zlen f)) as [Hlen|Hlen].
  - destruct (Hbad f eq_refl) as [?|Hne]; [lia|].
    rewrite (reader_step _ _ _ (ztake 4 f) (zdrop 4 f, Rep_new)) by (cbn; by replace (4 <=? zlen f) with true by lia).
    rewrite bool_decide_false by done. eexists _, _. by apply reader_stop.
  - eexists _, _. apply reader_stop. cbn. by replace (4 <=? zlen f) with false by lia.
Qed.

Lemma bad_zone_file_valid_but_undefined_witness :
  ∃ rep_, TimeZone_file (Some (str "# not a zone file")) = Ok rep_ ∧ TimeZone_IsValid rep_ = true ∧
    ToLocalTime rep_ 0 = Fail (UndefinedBehaviour "rep.localtimes[i]").
Proof.
  apply (bad_zone_file_valid_but_undefined (Some (str "# not a zone file")) 0).
  intros f E. injection E as <-. right. vm_compute. discriminate.
Defined.
