(* ===== verification/LogStream.v ===== *)
(** * [Slice] (utils/slice.h) and [LogStream] (base/log_stream.h, base/log_stream.cc)

    A slice is a view of bytes, modelled by the bytes it shows.  A log line is
    built in a fixed buffer: what does not fit is dropped whole.  Numbers are
    converted in place, by a loop that fills the digits in backwards and reverses
    them. *)

From stdpp Require Import base tactics list numbers strings.
From Stdlib Require Import ZArith Lia Ascii.
From S2P Require Import Prelude.
From S2P Require Import CString.

(** ** [Slice] *)
Module Slice.

Abbreviation Slice := bytes.

(** [Slice(const char* s)]: up to the terminating null of [s]. *)
Definition of_cstring (s : bytes) : Slice := ztake (std_find "000"%char s) s.
Definition size (s : Slice) : Z := zlen s.
Definition empty (s : Slice) : bool := size s =? 0.

(** [operator[]]. *)
Definition at_ (n : Z) (s : Slice) : outcome ascii :=
  cassert "n < size()" (n <? size s);;
  match s !! Z.to_nat n with Some c => Ok c | None => Fail (UndefinedBehaviour "data_[n]") end.

Definition clear (s : Slice) : Slice := [].

Definition remove_prefix (n : Z) (s : Slice) : outcome Slice :=
  cassert "n <= size()" (n <=? size s);;
  Ok (zdrop n s).
Definition remove_suffix (n : Z) (s : Slice) : outcome Slice :=
  cassert "n <= size()" (n <=? size s);;
  Ok (ztake (size s - n) s).
Definition ToString (s : Slice) : bytes := s.

(** [memcmp(a, b, n)] for the [n] bytes that both have: its sign. *)
Fixpoint memcmp (n : nat) (a b : bytes) : Z :=
  match n, a, b with
  | S n, x :: a, y :: b =>
      if byte_val x <? byte_val y then -1 else if byte_val y <? byte_val x then 1 else memcmp n a b
  | _, _, _ => 0
  end.

Definition min_len (a b : Slice) : Z := if size a <? size b then size a else size b.

(** The macro [SLICE_BINARY_PREDICATE(cmp, auxcmp)]. *)
Definition binary_predicate (cmp auxcmp : Z → Z → bool) (a b : Slice) : bool :=
  let r := memcmp (Z.to_nat (min_len a b)) a b in
  auxcmp r 0 || ((r =? 0) && cmp (size a) (size b)).
Definition lt : Slice → Slice → bool := binary_predicate Z.ltb Z.ltb.
Definition le : Slice → Slice → bool := binary_predicate Z.leb Z.ltb.
Definition ge : Slice → Slice → bool := binary_predicate Z.geb Z.gtb.
Definition gt : Slice → Slice → bool := binary_predicate Z.gtb Z.gtb.

Definition eq (a b : Slice) : bool := (size a =? size b) && (memcmp (Z.to_nat (size a)) a b =? 0).
Definition ne (a b : Slice) : bool := negb (eq a b).

Definition compare (a b : Slice) : Z :=
  let r := memcmp (Z.to_nat (min_len a b)) a b in
  if r =? 0 then (if size a <? size b then -1 else if size b <? size a then 1 else r) else r.

Definition starts_with (a x : Slice) : bool :=
  (size x <=? size a) && (memcmp (Z.to_nat (size x)) a x =? 0).

(** ** The order is lexicographic *)
Fixpoint lex (a b : bytes) : comparison :=
  match a, b with
  | [], [] => Eq
  | [], _ => Lt
  | _, [] => Gt
  | x :: a, y :: b => match Z.compare (byte_val x) (byte_val y) with Eq => lex a b | c => c end
  end.

Definition sign (c : comparison) : Z := match c with Lt => -1 | Eq => 0 | Gt => 1 end.

Lemma compare_lex a b : compare a b = sign (lex a b).
Proof.
  unfold compare, min_len, size.
  revert b. induction a as [|x a IH]; intros [|y b].
  - done.
  - rewrite (@zlen_nil ascii), zlen_cons. pose proof (zlen_nonneg b). replace (0 <? zlen b + 1) with true by lia. done.
  - rewrite (@zlen_nil ascii), zlen_cons. pose proof (zlen_nonneg a). replace (zlen a + 1 <? 0) with false by lia.
    cbn. replace (0 <? zlen a + 1) with true by lia. done.
  - rewrite !zlen_cons. pose proof (zlen_nonneg a). pose proof (zlen_nonneg b). specialize (IH b).
    replace (zlen a + 1 <? zlen b + 1) with (zlen a <? zlen b) by lia.
    replace (zlen b + 1 <? zlen a + 1) with (zlen b <? zlen a) by lia.
    assert (Z.to_nat (if zlen a <? zlen b then zlen a + 1 else zlen b + 1) = S (Z.to_nat (if zlen a <? zlen b then zlen a else zlen b))) as ->
      by (destruct (zlen a <? zlen b); lia).
    cbn [memcmp lex]. destruct (Z.compare_spec (byte_val x) (byte_val y)).
    + replace (byte_val x <? byte_val y) with false by lia. replace (byte_val y <? byte_val x) with false by lia. exact IH.
    + replace (byte_val x <? byte_val y) with true by lia. done.
    + replace (byte_val x <? byte_val y) with false by lia. replace (byte_val y <? byte_val x) with true by lia. done.
Qed.

(** The four operators and [compare] agree. *)
Lemma predicates_compare a b :
  lt a b = (compare a b <? 0) ∧ le a b = (compare a b <=? 0) ∧ ge a b = (0 <=? compare a b) ∧ gt a b = (0 <? compare a b).
Proof.
  unfold lt, le, ge, gt, binary_predicate, compare. set (r := memcmp _ a b).
  assert (r = -1 ∨ r = 0 ∨ r = 1) as Hr.
  { unfold r. generalize (Z.to_nat (min_len a b)). intros n. revert a b r. induction n as [|n IH]; intros [|x a] [|y b] r; cbn; auto.
    destruct (_ <? _); [auto|]. destruct (_ <? _); [auto|]. apply IH. }
  destruct (Z.eqb_spec r 0); destruct (Z.ltb_spec (size a) (size b)); destruct (Z.ltb_spec (size b) (size a)); lia.
Qed.

End Slice.

(** ** [Convert] *)
Definition digits : bytes := str "9876543210123456789".

(** [zero[lsd]], where [zero] points to the middle of [digits]. *)
Definition zero_at (lsd : Z) : ascii := default "000"%char (digits !! Z.to_nat (9 + lsd)).

(** The do-while loop: the characters written, in order; a 64-bit number has at
    most 20 digits, so 64 rounds are enough. *)
Fixpoint convert_loop (fuel : nat) (i : Z) : bytes :=
  match fuel with
  | O => []
  | S fuel =>
      let lsd := Z.rem i 10 in
      let i := Z.quot i 10 in
      zero_at lsd :: (if i =? 0 then [] else convert_loop fuel i)
  end.

Definition Convert (value : Z) : bytes :=
  rev (convert_loop 64 value ++ (if value <? 0 then str "-" else [])).

Definition digits_hex : bytes := str "0123456789ABCDEF".

Fixpoint convert_hex_loop (fuel : nat) (i : Z) : bytes :=
  match fuel with
  | O => []
  | S fuel =>
      let lsd := i mod 16 in
      let i := i / 16 in
      default "000"%char (digits_hex !! Z.to_nat lsd) :: (if i =? 0 then [] else convert_hex_loop fuel i)
  end.
Definition ConvertHex (value : Z) : bytes := rev (convert_hex_loop 64 value).

Example ConvertHex_1 : ConvertHex 48879 = str "BEEF".
Proof. reflexivity. Qed.

(** ** The fixed buffer and the stream *)
Definition kSmallBuffer : Z := 4000.
Definition kLargeBuffer : Z := 4000 * 1000.
Definition kMaxNumericSize : Z := 48.

(** [FixedBuffer<SIZE>]: the bytes up to [cur_]. *)
Record FixedBuffer := MkFixed { fb_size : Z; fb_data : bytes }.

Definition fb_new (sz : Z) : FixedBuffer := MkFixed sz [].
Definition length_ (b : FixedBuffer) : Z := zlen (fb_data b).
Definition avail (b : FixedBuffer) : Z := fb_size b - length_ b.
Definition Append (buf : bytes) (b : FixedBuffer) : FixedBuffer :=
  if zlen buf <? avail b then MkFixed (fb_size b) (fb_data b ++ buf) else b.
(** [current()] written to and [Add(len)]: beyond the end it is undefined. *)
Definition Add (buf : bytes) (b : FixedBuffer) : outcome FixedBuffer :=
  if zlen buf <=? avail b then Ok (MkFixed (fb_size b) (fb_data b ++ buf)) else Fail (UndefinedBehaviour "FixedBuffer overflow").
Definition fb_Reset (b : FixedBuffer) : FixedBuffer := MkFixed (fb_size b) [].

(** The operators of [LogStream]. *)
Definition put_bool (v : bool) (b : FixedBuffer) : FixedBuffer := Append (if v then str "1" else str "0") b.
Definition put_char (c : ascii) (b : FixedBuffer) : FixedBuffer := Append [c] b.
Definition put_cstring (s : option bytes) (b : FixedBuffer) : FixedBuffer :=
  match s with Some s => Append (Slice.of_cstring s) b | None => Append (str "(null)") b end.
Definition put_string (s : bytes) (b : FixedBuffer) : FixedBuffer := Append s b.

(** [FormatInteger]: the digits and the terminating null are written in place. *)
Definition FormatInteger (v : Z) (b : FixedBuffer) : outcome FixedBuffer :=
  if kMaxNumericSize <=? avail b then
    (if zlen (Convert v) + 1 <=? avail b then Add (Convert v) b else Fail (UndefinedBehaviour "FixedBuffer overflow"))
  else Ok b.

(** [operator<<] of the integer types; the short ones are promoted. *)
Definition put_int (v : Z) (b : FixedBuffer) : outcome FixedBuffer := FormatInteger v b.
Definition put_uint (v : Z) (b : FixedBuffer) : outcome FixedBuffer := FormatInteger v b.
Definition put_short (v : Z) (b : FixedBuffer) : outcome FixedBuffer := put_int v b.
Definition put_ushort (v : Z) (b : FixedBuffer) : outcome FixedBuffer := put_uint v b.
Definition put_long (v : Z) (b : FixedBuffer) : outcome FixedBuffer := FormatInteger v b.
Definition put_ulong (v : Z) (b : FixedBuffer) : outcome FixedBuffer := FormatInteger v b.
Definition put_llong (v : Z) (b : FixedBuffer) : outcome FixedBuffer := FormatInteger v b.
Definition put_ullong (v : Z) (b : FixedBuffer) : outcome FixedBuffer := FormatInteger v b.

Definition put_pointer (v : Z) (b : FixedBuffer) : outcome FixedBuffer :=
  if kMaxNumericSize <=? avail b then
    (if zlen (ConvertHex v) + 3 <=? avail b then Add (str "0x" ++ ConvertHex v) b else Fail (UndefinedBehaviour "FixedBuffer overflow"))
  else Ok b.

(** ** [Convert] is [%d] *)
Lemma zero_at_digit d : 0 ≤ d < 10 → zero_at d = digit_of d ∧ zero_at (- d) = digit_of d.
Proof.
  intros Hd. assert (d = 0 ∨ d = 1 ∨ d = 2 ∨ d = 3 ∨ d = 4 ∨ d = 5 ∨ d = 6 ∨ d = 7 ∨ d = 8 ∨ d = 9) as Hc by lia.
  destruct Hc as [->|[->|[->|[->|[->|[->|[->|[->|[->| ->]]]]]]]]]; split; reflexivity.
Qed.

Lemma convert_loop_neg f n : 0 ≤ n → convert_loop f (- n) = convert_loop f n.
Proof.
  revert n. induction f as [|f IH]; intros n Hn; cbn [convert_loop]; [done|].
  rewrite Z.rem_opp_l, Z.quot_opp_l by done. destruct (zero_at_digit (Z.rem n 10)) as [-> ->]; [apply Z.rem_bound_pos; lia|].
  f_equal. assert (0 ≤ Z.quot n 10) by (apply Z.quot_pos; lia).
  replace (- Z.quot n 10 =? 0) with (Z.quot n 10 =? 0) by lia. destruct (_ =? 0); [done|]. by apply IH.
Qed.

Lemma convert_loop_dec f n acc : 0 ≤ n → dec_loop f n acc = rev (convert_loop f n) ++ acc.
Proof.
  revert n acc. induction f as [|f IH]; intros n acc Hn; cbn [convert_loop dec_loop]; [done|].
  rewrite Z.rem_mod_nonneg, Z.quot_div_nonneg by lia.
  destruct (zero_at_digit (n mod 10)) as [-> _]; [apply Z.mod_pos_bound; lia|].
  cbn [rev]. destruct (n / 10 =? 0); [done|]. rewrite IH by (apply Z.div_pos; lia). by rewrite <-app_assoc.
Qed.

(** More rounds than digits change nothing. *)
Lemma convert_loop_fuel f n k :
  0 ≤ n < 10 ^ Z.of_nat k → (1 ≤ k)%nat → (k ≤ f)%nat → convert_loop f n = convert_loop k n ∧ (length (convert_loop k n) ≤ k)%nat.
Proof.
  revert n k. induction f as [|f IH]; intros n k Hn Hk Hf; [lia|]. destruct k as [|k]; [lia|]. cbn [convert_loop].
  rewrite Z.quot_div_nonneg by lia. destruct (Z.eqb_spec (n / 10) 0) as [E|E]; [split; [done|cbn; lia]|].
  rewrite Nat2Z.inj_succ, Z.pow_succ_r in Hn by lia.
  assert (0 ≤ n / 10 < 10 ^ Z.of_nat k) as Hn' by (split; [apply Z.div_pos; lia|]; apply Z.div_lt_upper_bound; lia).
  destruct k as [|k]; [change (10 ^ Z.of_nat 0) with 1 in Hn'; lia|].
  destruct (IH (n / 10) (S k)) as [-> Hl]; [done|lia|lia|]. split; [done|]. cbn [length]. lia.
Qed.

Lemma pow2_le_pow10 k : 0 ≤ k → 2 ^ k ≤ 10 ^ k.
Proof. intros Hk. apply Z.pow_le_mono_l. lia. Qed.

Lemma convert_fmt_u n : 0 ≤ n < 2 ^ 64 → rev (convert_loop 64 n) = fmt_u n ∧ (length (convert_loop 64 n) ≤ 20)%nat.
Proof.
  intros Hn. split.
  - unfold fmt_u. set (k := S (Z.to_nat (Z.log2 n))).
    assert (n < 2 ^ Z.of_nat k).
    { unfold k. rewrite Nat2Z.inj_succ, Z2Nat.id by apply Z.log2_nonneg.
      destruct (decide (n = 0)) as [->|]; [done|]. apply Z.log2_spec. lia. }
    pose proof (pow2_le_pow10 (Z.of_nat k) ltac:(lia)).
    assert (Z.log2 n ≤ 63) by (destruct (decide (n = 0)) as [->|]; [done|]; apply Z.lt_succ_r, Z.log2_lt_pow2; lia).
    destruct (convert_loop_fuel 64 n k) as [-> _]; [lia|unfold k; lia|unfold k; lia|].
    rewrite convert_loop_dec, app_nil_r by lia. done.
  - assert (2 ^ 64 < 10 ^ Z.of_nat 20) by done. destruct (convert_loop_fuel 64 n 20) as [-> ?]; [lia|lia|lia|done].
Qed.

Lemma FormatInteger_all v b :
  - 2 ^ 63 ≤ v < 2 ^ 64 →
  Convert v = fmt_d v ∧ zlen (Convert v) ≤ 21 ∧
  FormatInteger v b = Ok (if kMaxNumericSize <=? avail b then MkFixed (fb_size b) (fb_data b ++ fmt_d v) else b).
Proof.
  intros Hv. assert (Convert v = fmt_d v ∧ zlen (Convert v) ≤ 21) as [Hc Hl].
  { unfold Convert, fmt_d. destruct (Z.ltb_spec v 0).
    - destruct (convert_fmt_u (- v)) as [E Hlen]; [lia|]. rewrite <-(Z.opp_involutive v) at 1 3. rewrite convert_loop_neg by lia.
      rewrite rev_app_distr. change (rev (str "-")) with ["-"%char]. cbn [app]. rewrite E. split; [done|].
      rewrite zlen_cons, <-E. unfold zlen. rewrite length_rev. lia.
    - destruct (convert_fmt_u v) as [E Hlen]; [lia|]. rewrite app_nil_r. split; [done|]. unfold zlen. rewrite length_rev. lia. }
  split; [done|]. split; [done|]. unfold FormatInteger, Add, kMaxNumericSize in *. rewrite Hc in *.
  destruct (Z.leb_spec 48 (avail b)); [|done].
  replace (zlen (fmt_d v) + 1 <=? avail b) with true by lia. by replace (zlen (fmt_d v) <=? avail b) with true by lia.
Qed.

(** A piece that fits with room for a number is appended, whatever its kind. *)
Lemma Append_fits sz s t : zlen s + zlen t < sz → Append t (MkFixed sz s) = MkFixed sz (s ++ t).
Proof. intros H. unfold Append, avail, length_. cbn [fb_size fb_data]. by replace (zlen t <? sz - zlen s) with true by lia. Qed.

Lemma put_int_fits sz s v :
  - 2 ^ 63 ≤ v < 2 ^ 64 → zlen s + kMaxNumericSize ≤ sz → put_int v (MkFixed sz s) = Ok (MkFixed sz (s ++ fmt_d v)).
Proof.
  intros Hv Hs. destruct (FormatInteger_all v (MkFixed sz s) Hv) as (_ & _ & E). unfold put_int. rewrite E.
  unfold avail, length_. cbn [fb_size fb_data]. by replace (kMaxNumericSize <=? sz - zlen s) with true by lia.
Qed.

(** C39: the log's number formatting is [%d].  For every 64-bit integer, signed or
    unsigned, [Convert] writes exactly what printf's conversion would, in at most
    21 characters, so that [FormatInteger] never writes outside of the stream's
    buffer; it appends the whole number or, when fewer than 48 bytes are left,
    nothing. *)
Theorem format_integer_decimal v b :
  - 2 ^ 63 ≤ v < 2 ^ 64 →
  Convert v = fmt_d v ∧ zlen (Convert v) ≤ 21 ∧
  FormatInteger v b = Ok (if kMaxNumericSize <=? avail b then MkFixed (fb_size b) (fb_data b ++ fmt_d v) else b).
Proof. apply FormatInteger_all. Qed.

Lemma format_integer_decimal_witness :
  FormatInteger (- 2 ^ 63) (fb_new kSmallBuffer) = Ok (MkFixed kSmallBuffer (str "-9223372036854775808")).
Proof.
  destruct (format_integer_decimal (- 2 ^ 63) (fb_new kSmallBuffer)) as (_ & _ & ->).
  - split; [reflexivity||discriminate|reflexivity].
  - reflexivity.
Defined.
