(* ===== verification/Units.v ===== *)
(** * Quantities with units: [FormatSi] and [FormatIec] (base/log_stream.cc)

    The functions divide in [double] and print with [%.kf].  A [double] is a
    mantissa of at most 53 bits and an exponent; conversions and divisions round
    to the nearest one, ties to even, and so does [printf], on the exact value.
    All values here lie between 1 and [2 ^ 63] in absolute value, far from
    overflow and from subnormal numbers. *)

From stdpp Require Import base tactics list numbers strings.
From Stdlib Require Import ZArith Lia Ascii.
From S2P Require Import Prelude.
From S2P Require Import CString.

(** ** Rounding *)

(** [p / q] to the nearest integer, ties to even. *)
Definition nearest (p q : Z) : Z :=
  match 2 * (p `mod` q) ?= q with
  | Lt => p / q
  | Eq => if Z.even (p / q) then p / q else p / q + 1
  | Gt => p / q + 1
  end.

Record double := MkDouble { mantissa : Z; exponent : Z }.

(** The value of a double as a fraction. *)
Definition num (d : double) : Z := mantissa d * 2 ^ Z.max 0 (exponent d).
Definition den (d : double) : Z := 2 ^ Z.max 0 (- exponent d).

(** The exponent [e] with [2 ^ e <= p / q < 2 ^ (e + 1)]. *)
Definition at_least (p q e : Z) : bool := q * 2 ^ Z.max 0 e <=? p * 2 ^ Z.max 0 (- e).
Definition magnitude (p q : Z) : Z :=
  let k := Z.log2 p - Z.log2 q in if at_least p q k then k else k - 1.

(** [p / q] as a double, for [p] and [q] positive. *)
Definition round_at (p q e : Z) : double := MkDouble (nearest (p * 2 ^ Z.max 0 (- e)) (q * 2 ^ Z.max 0 e)) e.
Definition round_double (p q : Z) : double := round_at p q (magnitude p q - 52).

Definition double_neg (d : double) : double := MkDouble (- mantissa d) (exponent d).
(** [static_cast<double>(s)]. *)
Definition double_of (s : Z) : double :=
  if s =? 0 then MkDouble 0 0 else if s <? 0 then double_neg (round_double (- s) 1) else round_double s 1.
(** Quotient and product of positive doubles, and the comparison. *)
Definition double_div (a b : double) : double := round_double (num a * den b) (den a * num b).
Definition double_mul (a b : double) : double := round_double (num a * num b) (den a * den b).
Definition double_lt (a b : double) : bool := num a * den b <? num b * den a.

(** [%.kf] of a double that is not negative. *)
Definition fixed (k : nat) (v : Z) : bytes :=
  match k with
  | O => fmt_u v
  | _ => let frac := fmt_u (v `mod` 10 ^ Z.of_nat k) in
         fmt_u (v / 10 ^ Z.of_nat k) ++ str "." ++ replicate (k - length frac) "0"%char ++ frac
  end.
Definition fmt_f (k : nat) (d : double) : bytes := fixed k (nearest (num d * 10 ^ Z.of_nat k) (den d)).

(** ** The functions *)

(** [snprintf(buf, 64, "%.kf<unit>", n / u)]. *)
Definition print_unit (k : nat) (n u : double) (unit : string) : bytes := ztake 63 (fmt_f k (double_div n u) ++ str unit).

Definition FormatSi (s : Z) : bytes :=
  let n := double_of s in
  if s <? 1000 then ztake 63 (fmt_d s)
  else if s <? 9995 then print_unit 2 n (double_of (10 ^ 3)) "k"
  else if s <? 99950 then print_unit 1 n (double_of (10 ^ 3)) "k"
  else if s <? 999500 then print_unit 0 n (double_of (10 ^ 3)) "k"
  else if s <? 9995000 then print_unit 2 n (double_of (10 ^ 6)) "M"
  else if s <? 99950000 then print_unit 1 n (double_of (10 ^ 6)) "M"
  else if s <? 999500000 then print_unit 0 n (double_of (10 ^ 6)) "M"
  else if s <? 9995000000 then print_unit 2 n (double_of (10 ^ 9)) "G"
  else if s <? 99950000000 then print_unit 1 n (double_of (10 ^ 9)) "G"
  else if s <? 999500000000 then print_unit 0 n (double_of (10 ^ 9)) "G"
  else if s <? 9995000000000 then print_unit 2 n (double_of (10 ^ 12)) "T"
  else if s <? 99950000000000 then print_unit 1 n (double_of (10 ^ 12)) "T"
  else if s <? 999500000000000 then print_unit 0 n (double_of (10 ^ 12)) "T"
  else if s <? 9995000000000000 then print_unit 2 n (double_of (10 ^ 15)) "P"
  else if s <? 99950000000000000 then print_unit 1 n (double_of (10 ^ 15)) "P"
  else if s <? 999500000000000000 then print_unit 0 n (double_of (10 ^ 15)) "P"
  else print_unit 2 n (double_of (10 ^ 18)) "E".

(** The literals 1024.0, 9.995, 99.95 and 1023.5. *)
Definition Ki : double := double_of 1024.
Definition Mi : double := double_mul Ki Ki.
Definition Gi : double := double_mul Mi Ki.
Definition Ti : double := double_mul Gi Ki.
Definition Pi : double := double_mul Ti Ki.
Definition Ei : double := double_mul Pi Ki.
Definition d9_995 : double := round_double 9995 1000.
Definition d99_95 : double := round_double 9995 100.
Definition d1023_5 : double := round_double 10235 10.

Definition FormatIec (s : Z) : bytes :=
  let n := double_of s in
  if double_lt n Ki then ztake 63 (fmt_d s)
  else if double_lt n (double_mul Ki d9_995) then print_unit 2 n Ki "Ki"
  else if double_lt n (double_mul Ki d99_95) then print_unit 1 n Ki "Ki"
  else if double_lt n (double_mul Ki d1023_5) then print_unit 0 n Ki "Ki"
  else if double_lt n (double_mul Mi d9_995) then print_unit 2 n Mi "Mi"
  else if double_lt n (double_mul Mi d99_95) then print_unit 1 n Mi "Mi"
  else if double_lt n (double_mul Mi d1023_5) then print_unit 0 n Mi "Mi"
  else if double_lt n (double_mul Gi d9_995) then print_unit 2 n Gi "Gi"
  else if double_lt n (double_mul Gi d99_95) then print_unit 1 n Gi "Gi"
  else if double_lt n (double_mul Gi d1023_5) then print_unit 0 n Gi "Gi"
  else if double_lt n (double_mul Ti d9_995) then print_unit 2 n Ti "Ti"
  else if double_lt n (double_mul Ti d99_95) then print_unit 1 n Ti "Ti"
  else if double_lt n (double_mul Ti d1023_5) then print_unit 0 n Ti "Ti"
  else if double_lt n (double_mul Pi d9_995) then print_unit 2 n Pi "Pi"
  else if double_lt n (double_mul Pi d99_95) then print_unit 1 n Pi "Pi"
  else if double_lt n (double_mul Pi d1023_5) then print_unit 0 n Pi "Pi"
  else if double_lt n (double_mul Ei d9_995) then print_unit 2 n Ei "Ei"
  else print_unit 1 n Ei "Ei".

(** ** Errors of rounding *)
Lemma nearest_error p q : 0 < q → 2 * Z.abs (nearest p q * q - p) ≤ q.
Proof.
  intros Hq. unfold nearest. pose proof (Z.mod_pos_bound p q Hq). pose proof (Z_div_mod_eq_full p q) as E.
  set (d := p / q) in *. set (r := p `mod` q) in *. clearbody d r.
  destruct (Z.compare_spec (2 * r) q); [destruct (Z.even d)| |]; nia.
Qed.

Lemma nearest_le p q v : 0 < q → 2 * p < (2 * v + 1) * q → nearest p q ≤ v.
Proof. intros Hq H. pose proof (nearest_error p q Hq). nia. Qed.
Lemma nearest_ge p q v : 0 < q → (2 * v - 1) * q < 2 * p → v ≤ nearest p q.
Proof. intros Hq H. pose proof (nearest_error p q Hq). nia. Qed.
Lemma nearest_exact a q : 0 < q → nearest (a * q) q = a.
Proof. intros Hq. pose proof (nearest_error (a * q) q Hq). nia. Qed.

Lemma den_pos d : 0 < den d.
Proof. apply Z.pow_pos_nonneg; lia. Qed.
#[local] Hint Resolve den_pos : core.

(** A quotient is at least the power of two of its magnitude. *)
Lemma at_least_magnitude p q : 0 < p → 0 < q → at_least p q (magnitude p q) = true.
Proof.
  intros Hp Hq. unfold magnitude. destruct (at_least p q (Z.log2 p - Z.log2 q)) eqn:E; [done|]. clear E.
  unfold at_least. apply Z.leb_le.
  pose proof (Z.log2_spec p Hp) as [Hp1 _]. pose proof (Z.log2_spec q Hq) as [_ Hq2].
  pose proof (Z.log2_nonneg p). pose proof (Z.log2_nonneg q).
  set (a := Z.log2 p) in *. set (b := Z.log2 q) in *. clearbody a b.
  destruct (Z.le_gt_cases 0 (a - b - 1)).
  - rewrite (Z.max_r 0 (a - b - 1)), (Z.max_l 0 (- _)) by lia. rewrite Z.mul_1_r.
    assert (2 ^ a = 2 ^ Z.succ b * 2 ^ (a - b - 1)) as Ha by (rewrite <-Z.pow_add_r by lia; f_equal; lia).
    assert (0 < 2 ^ (a - b - 1)) by (apply Z.pow_pos_nonneg; lia). nia.
  - rewrite (Z.max_l 0 (a - b - 1)), (Z.max_r 0 (- _)) by lia. rewrite Z.mul_1_r.
    assert (2 ^ Z.succ b = 2 ^ a * 2 ^ (- (a - b - 1))) as Hb by (rewrite <-Z.pow_add_r by lia; f_equal; lia).
    assert (0 < 2 ^ (- (a - b - 1))) by (apply Z.pow_pos_nonneg; lia). nia.
Qed.

Lemma at_least_52 p q e :
  at_least p q (e + 52) = true → 0 < p → 0 < q → q * 2 ^ Z.max 0 e * 2 ^ 52 ≤ p * 2 ^ Z.max 0 (- e).
Proof.
  unfold at_least. intros H%Z.leb_le Hp Hq. destruct (Z.le_gt_cases 0 e); [|destruct (Z.le_gt_cases 0 (e + 52))].
  - rewrite (Z.max_r 0 e), (Z.max_l 0 (- e)) by lia. rewrite (Z.max_r 0 (e + 52)), (Z.max_l 0 (- (e + 52))) in H by lia.
    rewrite Z.pow_add_r in H by lia. lia.
  - rewrite (Z.max_l 0 e), (Z.max_r 0 (- e)) by lia. rewrite (Z.max_r 0 (e + 52)), (Z.max_l 0 (- (e + 52))) in H by lia.
    assert (2 ^ 52 = 2 ^ (e + 52) * 2 ^ (- e)) as -> by (rewrite <-Z.pow_add_r by lia; f_equal; lia).
    assert (0 < 2 ^ (- e)) by (apply Z.pow_pos_nonneg; lia). nia.
  - rewrite (Z.max_l 0 e), (Z.max_r 0 (- e)) by lia. rewrite (Z.max_l 0 (e + 52)), (Z.max_r 0 (- (e + 52))) in H by lia.
    assert (2 ^ (- e) = 2 ^ (- (e + 52)) * 2 ^ 52) as -> by (rewrite <-Z.pow_add_r by lia; f_equal; lia). lia.
Qed.

(** Rounding to a double is right up to a relative error of [2 ^ -53]. *)
Lemma round_error p q :
  0 < p → 0 < q → let d := round_double p q in 2 ^ 53 * Z.abs (num d * q - p * den d) ≤ p * den d.
Proof.
  intros Hp Hq d. subst d. unfold round_double, round_at, num, den. cbn [mantissa exponent].
  pose proof (at_least_magnitude p q Hp Hq) as Hm. set (e := magnitude p q - 52) in *.
  replace (magnitude p q) with (e + 52) in Hm by (subst e; lia). apply at_least_52 in Hm; [|done..]. clearbody e.
  assert (0 < 2 ^ Z.max 0 e) by (apply Z.pow_pos_nonneg; lia). set (A := 2 ^ Z.max 0 e) in *. set (B := 2 ^ Z.max 0 (- e)) in *.
  pose proof (nearest_error (p * B) (q * A) ltac:(nia)) as He. set (m := nearest _ _) in *. clearbody A B m.
  replace (m * A * q) with (m * (q * A)) by ring. change (2 ^ 53) with (2 ^ 52 * 2). lia.
Qed.

(** A quotient that is a double already is not changed. *)
Definition is_double (p q : Z) : Prop := ∃ m e, 0 < m < 2 ^ 53 ∧ p * 2 ^ Z.max 0 (- e) = m * 2 ^ Z.max 0 e * q.

(** [2 ^ a / 2 ^ b] with the exponents of numerator and denominator. *)
Lemma scale_eq e k : 0 ≤ k → 2 ^ Z.max 0 (e + k) * 2 ^ Z.max 0 (- e) = 2 ^ k * (2 ^ Z.max 0 e * 2 ^ Z.max 0 (- (e + k))).
Proof. intros. rewrite <-!Z.pow_add_r by lia. f_equal. lia. Qed.

Lemma pow2_max_pos e : 0 < 2 ^ Z.max 0 e.
Proof. apply Z.pow_pos_nonneg; lia. Qed.

Lemma round_exact p q : 0 < p → 0 < q → is_double p q → num (round_double p q) * q = p * den (round_double p q).
Proof.
  intros Hp Hq (m & e & Hm & E). unfold round_double, round_at, num, den. cbn [mantissa exponent].
  pose proof (at_least_magnitude p q Hp Hq) as Hl. set (f := magnitude p q - 52) in *.
  replace (magnitude p q) with (f + 52) in Hl by (subst f; lia). apply at_least_52 in Hl; [|done..]. clearbody f.
  pose proof (pow2_max_pos e). pose proof (pow2_max_pos (- e)). pose proof (pow2_max_pos f). pose proof (pow2_max_pos (- f)).
  assert (f ≤ e) as Hfe.
  { destruct (Z.le_gt_cases f e) as [|Hlt]; [done|exfalso]. pose proof (scale_eq e (f - e) ltac:(lia)) as Hs. replace (e + (f - e)) with f in Hs by lia.
    assert (2 ≤ 2 ^ (f - e)) by (change 2 with (2 ^ 1) at 1; apply Z.pow_le_mono_r; lia).
    set (K := 2 ^ (f - e)) in *. set (A := 2 ^ Z.max 0 f) in *. set (B := 2 ^ Z.max 0 (- f)) in *.
    set (C := 2 ^ Z.max 0 e) in *. set (D := 2 ^ Z.max 0 (- e)) in *. clearbody A B C D K.
    assert (q * A * 2 ^ 52 * D ≤ m * C * q * B) by (rewrite <-E; nia).
    assert (q * (C * B) * (K * 2 ^ 52) ≤ q * (C * B) * m) by nia.
    assert (0 < q * (C * B)) by nia. assert (K * 2 ^ 52 ≤ m) by nia. lia. }
  pose proof (scale_eq f (e - f) ltac:(lia)) as Hs. replace (f + (e - f)) with e in Hs by lia.
  set (K := 2 ^ (e - f)) in *. set (A := 2 ^ Z.max 0 f) in *. set (B := 2 ^ Z.max 0 (- f)) in *.
  set (C := 2 ^ Z.max 0 e) in *. set (D := 2 ^ Z.max 0 (- e)) in *. clearbody A B C D K.
  assert (p * B = m * K * (q * A)) as Hex.
  { apply (Z.mul_reg_r _ _ D); [lia|]. replace (p * B * D) with (p * D * B) by ring. rewrite E.
    replace (m * K * (q * A) * D) with (m * q * (K * (A * D))) by ring. rewrite <-Hs. ring. }
  rewrite Hex, nearest_exact by nia. ring.
Qed.

Lemma num_pos p q : 0 < p → 0 < q → 0 < num (round_double p q).
Proof.
  intros Hp Hq. pose proof (round_error p q Hp Hq) as H. cbv zeta in H. pose proof (den_pos (round_double p q)).
  set (N := num _) in *. set (D := den _) in *. clearbody N D. assert (0 < p * D) by nia. assert (0 < N * q) by lia. nia.
Qed.

(** ** Integers as doubles *)
Lemma double_of_pos s : 0 < s → double_of s = round_double s 1.
Proof. intros. unfold double_of. replace (s =? 0) with false by lia. by replace (s <? 0) with false by lia. Qed.

Lemma double_of_num s : 0 < s → 0 < num (double_of s).
Proof. intros. rewrite double_of_pos by done. apply num_pos; lia. Qed.

Lemma double_of_error s : 0 < s → 2 ^ 53 * Z.abs (num (double_of s) - s * den (double_of s)) ≤ s * den (double_of s).
Proof. intros Hs. rewrite double_of_pos by done. pose proof (round_error s 1 Hs ltac:(lia)) as H. cbv zeta in H. by rewrite Z.mul_1_r in H. Qed.

Lemma double_of_exact s : 0 < s < 2 ^ 53 → num (double_of s) = s * den (double_of s).
Proof.
  intros Hs. rewrite double_of_pos by lia. rewrite <-(round_exact s 1); [lia|lia|lia|]. exists s, 0. split; [lia|]. change (s * 1 = s * 1 * 1). lia.
Qed.

Lemma magnitude_int s : 0 < s → magnitude s 1 = Z.log2 s.
Proof.
  intros Hs. unfold magnitude. change (Z.log2 1) with 0. rewrite Z.sub_0_r.
  pose proof (Z.log2_spec s Hs) as [H _]. pose proof (Z.log2_nonneg s).
  unfold at_least. rewrite (Z.max_r 0 (Z.log2 s)), (Z.max_l 0 (- Z.log2 s)) by lia. by replace (_ <=? _) with true by lia.
Qed.

(** The mantissa has 53 bits, or is the next power of two. *)
Lemma mantissa_int s : 0 < s → 0 < mantissa (round_double s 1) ≤ 2 ^ 53.
Proof.
  intros Hs. split.
  - pose proof (num_pos s 1 Hs ltac:(lia)) as H. unfold num in H. pose proof (pow2_max_pos (exponent (round_double s 1))). nia.
  - unfold round_double, round_at. cbn [mantissa]. rewrite magnitude_int by done. pose proof (Z.log2_spec s Hs) as [_ H].
    pose proof (Z.log2_nonneg s). set (l := Z.log2 s) in *. clearbody l. pose proof (pow2_max_pos (l - 52)).
    apply nearest_le; [lia|].
    assert (2 ^ Z.succ l * 2 ^ Z.max 0 (- (l - 52)) = 2 ^ 53 * 2 ^ Z.max 0 (l - 52)) as E by (rewrite <-!Z.pow_add_r by lia; f_equal; lia).
    pose proof (pow2_max_pos (- (l - 52))). nia.
Qed.

Lemma double_of_is_double s : 0 < s → is_double (num (double_of s)) (den (double_of s)).
Proof.
  intros Hs. rewrite double_of_pos by done. pose proof (mantissa_int s Hs) as Hm. unfold num, den.
  destruct (round_double s 1) as [m e]. cbn [mantissa exponent] in *. destruct (decide (m = 2 ^ 53)) as [->|].
  - exists (2 ^ 52), (e + 1). split; [lia|]. pose proof (scale_eq e 1 ltac:(lia)) as E.
    replace (2 ^ 52 * 2 ^ Z.max 0 (e + 1) * 2 ^ Z.max 0 (- e)) with (2 ^ 52 * (2 ^ Z.max 0 (e + 1) * 2 ^ Z.max 0 (- e))) by ring.
    rewrite E. change (2 ^ 53) with (2 ^ 52 * 2). change (2 ^ 1) with 2. ring.
  - exists m, e. split; [lia|]. ring.
Qed.

(** ** Quotients by a unit

    [u] is a double of the integer value [U]. *)
Section quotient.
Context (s U : Z) (u : double) (Hs : 0 < s) (HU : 0 < U) (Hu : num u = U * den u).
Let n := double_of s.
Let d := double_div n u.

Lemma quotient_double : d = round_double (num n * den u) (den n * (U * den u)).
Proof. unfold d, double_div. by rewrite Hu. Qed.

(** Two roundings: of the integer and of the quotient. *)
Lemma quotient_error :
  s * den d * (2 ^ 53 - 1) ^ 2 ≤ num d * U * 2 ^ 106 ≤ s * den d * (2 ^ 53 + 1) ^ 2.
Proof.
  pose proof (double_of_error s Hs) as H1. pose proof (double_of_num s Hs) as Hn. fold n in H1, Hn.
  pose proof (den_pos n) as Hd. pose proof (den_pos u) as Hdu.
  pose proof (round_error (num n * den u) (den n * (U * den u)) ltac:(nia) ltac:(nia)) as H2. cbv zeta in H2. rewrite <-quotient_double in H2.
  pose proof (den_pos d) as Hdd. set (N := num n) in *. set (D := den n) in *. set (R := num d) in *. set (E := den d) in *. set (X := den u) in *.
  clearbody N D R E X. clear n d.
  assert (2 ^ 53 * Z.abs (R * (D * U) - N * E) ≤ N * E) as H3.
  { replace (R * (D * (U * X)) - N * X * E) with ((R * (D * U) - N * E) * X) in H2 by ring. rewrite Z.abs_mul, (Z.abs_eq X) in H2 by lia. nia. }
  assert (N * E * (2 ^ 53 - 1) ≤ 2 ^ 53 * (R * (D * U)) ≤ N * E * (2 ^ 53 + 1)) as H4 by lia.
  assert (s * D * (2 ^ 53 - 1) ≤ 2 ^ 53 * N ≤ s * D * (2 ^ 53 + 1)) as H5 by lia.
  assert (s * D * (2 ^ 53 - 1) * E ≤ 2 ^ 53 * N * E ≤ s * D * (2 ^ 53 + 1) * E) as H6 by (split; apply Z.mul_le_mono_nonneg_r; lia).
  change (2 ^ 106) with (2 ^ 53 * 2 ^ 53).
  assert (D * (s * E * (2 ^ 53 - 1) ^ 2) ≤ D * (R * U * (2 ^ 53 * 2 ^ 53)) ≤ D * (s * E * (2 ^ 53 + 1) ^ 2)) as H7 by lia.
  nia.
Qed.

(** What is printed with [k] digits behind the point. *)
Definition shown (k : nat) : Z := nearest (num d * 10 ^ Z.of_nat k) (den d).

Lemma shown_le k v : 2 * (s * 10 ^ Z.of_nat k) * (2 ^ 53 + 1) ^ 2 < (2 * v + 1) * U * 2 ^ 106 → shown k ≤ v.
Proof.
  intros H. pose proof quotient_error as [_ He]. pose proof (den_pos d) as Hd. apply nearest_le; [done|].
  assert (0 < 10 ^ Z.of_nat k) by (apply Z.pow_pos_nonneg; lia). set (T := 10 ^ Z.of_nat k) in *. set (R := num d) in *. set (E := den d) in *.
  clearbody T R E. assert (U * 2 ^ 106 * (2 * (R * T)) < U * 2 ^ 106 * ((2 * v + 1) * E)); [|nia].
  apply (Z.le_lt_trans _ (2 * T * (s * E * (2 ^ 53 + 1) ^ 2))).
  - replace (U * 2 ^ 106 * (2 * (R * T))) with (2 * T * (R * U * 2 ^ 106)) by ring. apply Z.mul_le_mono_nonneg_l; lia.
  - replace (2 * T * (s * E * (2 ^ 53 + 1) ^ 2)) with (E * (2 * (s * T) * (2 ^ 53 + 1) ^ 2)) by ring.
    replace (U * 2 ^ 106 * ((2 * v + 1) * E)) with (E * ((2 * v + 1) * U * 2 ^ 106)) by ring. by apply Z.mul_lt_mono_pos_l.
Qed.

Lemma shown_ge k v : (2 * v - 1) * U * 2 ^ 106 < 2 * (s * 10 ^ Z.of_nat k) * (2 ^ 53 - 1) ^ 2 → v ≤ shown k.
Proof.
  intros H. pose proof quotient_error as [He _]. pose proof (den_pos d) as Hd. apply nearest_ge; [done|].
  assert (0 < 10 ^ Z.of_nat k) by (apply Z.pow_pos_nonneg; lia). set (T := 10 ^ Z.of_nat k) in *. set (R := num d) in *. set (E := den d) in *.
  clearbody T R E. assert (U * 2 ^ 106 * ((2 * v - 1) * E) < U * 2 ^ 106 * (2 * (R * T))); [|nia].
  apply (Z.lt_le_trans _ (2 * T * (s * E * (2 ^ 53 - 1) ^ 2))).
  - replace (2 * T * (s * E * (2 ^ 53 - 1) ^ 2)) with (E * (2 * (s * T) * (2 ^ 53 - 1) ^ 2)) by ring.
    replace (U * 2 ^ 106 * ((2 * v - 1) * E)) with (E * ((2 * v - 1) * U * 2 ^ 106)) by ring. by apply Z.mul_lt_mono_pos_l.
  - replace (U * 2 ^ 106 * (2 * (R * T))) with (2 * T * (R * U * 2 ^ 106)) by ring. apply Z.mul_le_mono_nonneg_l; lia.
Qed.

(** The number shown is the nearest one, but for a trillionth of its last digit:
    with at most four digits the roundings add no more. *)
Lemma shown_accurate k : s * 10 ^ Z.of_nat k ≤ 1024 * U →
  2 * 10 ^ 12 * Z.abs (shown k * U - s * 10 ^ Z.of_nat k) ≤ (10 ^ 12 + 1) * U.
Proof.
  intros H. pose proof quotient_error as He. pose proof (den_pos d) as Hd. pose proof (nearest_error (num d * 10 ^ Z.of_nat k) (den d) Hd) as Hn.
  fold (shown k) in Hn. assert (0 < 10 ^ Z.of_nat k) by (apply Z.pow_pos_nonneg; lia). set (T := 10 ^ Z.of_nat k) in *.
  set (v := shown k) in *. set (R := num d) in *. set (E := den d) in *. clearbody T v R E. clear n d.
  assert (2 * Z.abs (v * E * U - R * T * U) ≤ E * U) as H1.
  { replace (v * E * U - R * T * U) with ((v * E - R * T) * U) by ring. rewrite Z.abs_mul, (Z.abs_eq U) by lia. nia. }
  assert (10 ^ 12 * (2 * Z.abs (R * T * U - s * T * E)) ≤ E * U) as H2.
  { assert (s * T * E * (2 ^ 53 - 1) ^ 2 ≤ R * T * U * 2 ^ 106 ≤ s * T * E * (2 ^ 53 + 1) ^ 2) as H2.
    { replace (R * T * U * 2 ^ 106) with (T * (R * U * 2 ^ 106)) by ring.
      replace (s * T * E * (2 ^ 53 - 1) ^ 2) with (T * (s * E * (2 ^ 53 - 1) ^ 2)) by ring.
      replace (s * T * E * (2 ^ 53 + 1) ^ 2) with (T * (s * E * (2 ^ 53 + 1) ^ 2)) by ring. split; apply Z.mul_le_mono_nonneg_l; lia. }
    assert (0 ≤ s * T * E ≤ 1024 * (E * U)) by nia. set (a := s * T * E) in *. set (b := R * T * U) in *. set (c := E * U) in *. clearbody a b c. lia. }
  assert (E * (2 * 10 ^ 12 * Z.abs (v * U - s * T)) ≤ E * ((10 ^ 12 + 1) * U)); [|nia].
  replace (E * (2 * 10 ^ 12 * Z.abs (v * U - s * T))) with (2 * 10 ^ 12 * Z.abs (v * E * U - s * T * E)); [lia|].
  replace (v * E * U - s * T * E) with (E * (v * U - s * T)) by ring. rewrite Z.abs_mul, (Z.abs_eq E) by lia. ring.
Qed.

(** Division by a power of two is exact. *)
Lemma quotient_exact j : 0 ≤ j → U = 2 ^ j → num d * (den n * U) = num n * den d ∧ is_double (num d) (den d).
Proof.
  intros Hj HU2. pose proof (double_of_num s Hs) as Hn. pose proof (double_of_is_double s Hs) as (m & e & Hm & Em). fold n in Hn, Em.
  pose proof (den_pos n). pose proof (den_pos u). pose proof (den_pos d).
  pose proof (scale_eq (e - j) j Hj) as Hsc. replace (e - j + j) with e in Hsc by lia.
  pose proof (pow2_max_pos e). pose proof (pow2_max_pos (- e)). pose proof (pow2_max_pos (e - j)). pose proof (pow2_max_pos (- (e - j))).
  assert (num n * 2 ^ Z.max 0 (- (e - j)) = m * 2 ^ Z.max 0 (e - j) * (den n * U)) as Hval.
  { rewrite HU2. apply (Z.mul_reg_r _ _ (2 ^ Z.max 0 (- e))); [lia|].
    replace (num n * 2 ^ Z.max 0 (- (e - j)) * 2 ^ Z.max 0 (- e)) with (num n * 2 ^ Z.max 0 (- e) * 2 ^ Z.max 0 (- (e - j))) by ring.
    rewrite Em. nia. }
  assert (num d * (den n * U) = num n * den d) as Hex.
  { pose proof (round_exact (num n * den u) (den n * (U * den u)) ltac:(nia) ltac:(nia)) as Hr. rewrite <-quotient_double in Hr.
    assert (is_double (num n * den u) (den n * (U * den u))) as Hid.
    { exists m, (e - j). split; [done|].
      replace (num n * den u * 2 ^ Z.max 0 (- (e - j))) with (num n * 2 ^ Z.max 0 (- (e - j)) * den u) by ring. rewrite Hval. ring. }
    specialize (Hr Hid). apply (Z.mul_reg_r _ _ (den u)); [lia|]. lia. }
  split; [done|]. exists m, (e - j). split; [done|].
  apply (Z.mul_reg_r _ _ (den n * U)); [nia|].
  replace (num d * 2 ^ Z.max 0 (- (e - j)) * (den n * U)) with (num d * (den n * U) * 2 ^ Z.max 0 (- (e - j))) by ring.
  rewrite Hex. replace (num n * den d * 2 ^ Z.max 0 (- (e - j))) with (num n * 2 ^ Z.max 0 (- (e - j)) * den d) by ring. rewrite Hval. ring.
Qed.
End quotient.

(** ** Lengths *)
Lemma fixed_len k v : (k ≤ 2)%nat → 0 ≤ v ≤ 1023 → zlen (fixed k v) ≤ 5 ∧ (v ≤ 999 → zlen (fixed k v) ≤ 4).
Proof.
  intros Hk Hv. assert (forallb (λ k, forallb (λ v, zlen (fixed k v) <=? if v <=? 999 then 4 else 5) (seqZ 0 1024)) (seq 0 3) = true) as H
    by (vm_compute; reflexivity).
  rewrite forallb_forall in H. specialize (H k ltac:(apply in_seq; lia)). rewrite forallb_forall in H.
  specialize (H v ltac:(apply list_elem_of_In, elem_of_seqZ; lia)). destruct (Z.leb_spec v 999); lia.
Qed.

Lemma fixed_0_len v : 0 ≤ v ≤ 1023 → zlen (fixed 0 v) ≤ 4.
Proof. intros Hv. apply fmt_u_len; lia. Qed.

Lemma print_unit_shown k s u unit : print_unit k (double_of s) u unit = ztake 63 (fixed k (shown s u k) ++ str unit).
Proof. reflexivity. Qed.

(** What one call of [snprintf] shows of [s]: three digits or, at the ends, four,
    and the unit. *)
Record shows (s U : Z) (k : nat) (unit : string) (v : Z) (out : bytes) : Prop := MkShows {
  sh_text : out = fixed k v ++ str unit;
  sh_digits : (k ≤ 2)%nat;
  sh_three : 100 ≤ v ≤ 1023;
  sh_accurate : 2 * 10 ^ 12 * Z.abs (v * U - s * 10 ^ Z.of_nat k) ≤ (10 ^ 12 + 1) * U;
}.

Lemma print_unit_shows s U u k unit :
  0 < s → 0 < U → num u = U * den u → (k ≤ 2)%nat → zlen (str unit) ≤ 2 →
  9990 * U ≤ 100 * (s * 10 ^ Z.of_nat k) → s * 10 ^ Z.of_nat k ≤ 1024 * U → shown s u k ≤ 1023 →
  shows s U k unit (shown s u k) (print_unit k (double_of s) u unit).
Proof.
  intros Hs HU Hu Hk Hl Hlo Hhi Hv.
  assert (100 ≤ shown s u k) as Hge by (apply (shown_ge s U u Hs HU Hu); lia).
  split; [|done|done|by apply shown_accurate].
  rewrite print_unit_shown. apply ztake_all. rewrite zlen_app. pose proof (fixed_len k (shown s u k) Hk ltac:(lia)). lia.
Qed.

(** ** [FormatSi] *)
Definition si_units : list (Z * string) := [(10 ^ 3, "k"); (10 ^ 6, "M"); (10 ^ 9, "G"); (10 ^ 12, "T"); (10 ^ 15, "P"); (10 ^ 18, "E")].

Definition si_shows (s : Z) (out : bytes) : Prop :=
  ∃ U unit k v, (U, unit) ∈ si_units ∧ shows s U k unit v out ∧ v ≤ 1000.

Lemma si_unit U unit : (U, unit) ∈ si_units → 0 < U ∧ zlen (str unit) = 1.
Proof.
  unfold si_units. rewrite !elem_of_cons. intros Hin.
  destruct_or! Hin; try (injection Hin as -> ->; split; done). by apply not_elem_of_nil in Hin.
Qed.

Lemma si_branch s U u k unit :
  (U, unit) ∈ si_units → 0 < s → num u = U * den u → (k ≤ 2)%nat →
  9995 * U ≤ 100 * (s * 10 ^ Z.of_nat k) → s * 10 ^ Z.of_nat k ≤ 1000 * U → si_shows s (print_unit k (double_of s) u unit).
Proof.
  intros Hin Hs Hu Hk Hlo Hhi. destruct (si_unit _ _ Hin) as [HU Hl].
  assert (shown s u k ≤ 1000) as Hle by (apply (shown_le s U u Hs HU Hu); lia).
  exists U, unit, k, (shown s u k). split; [done|]. split; [|done]. apply print_unit_shows; first [done|lia].
Qed.

(** Five characters suffice when the rounding stays below 1000, or without a
    point. *)
Lemma si_branch_short s U u k unit :
  (U, unit) ∈ si_units → 0 < s → num u = U * den u → (k ≤ 2)%nat →
  9995 * U ≤ 100 * (s * 10 ^ Z.of_nat k) → s * 10 ^ Z.of_nat k ≤ 1000 * U →
  k = 0%nat ∨ 2 * (s * 10 ^ Z.of_nat k) * (2 ^ 53 + 1) ^ 2 < 1999 * U * 2 ^ 106 →
  zlen (print_unit k (double_of s) u unit) ≤ 5.
Proof.
  intros Hin Hs Hu Hk Hlo Hhi Hor. destruct (si_unit _ _ Hin) as [HU Hl].
  assert (shown s u k ≤ 1000) as Hle by (apply (shown_le s U u Hs HU Hu); lia).
  destruct (print_unit_shows s U u k unit Hs HU Hu Hk ltac:(lia) ltac:(lia) ltac:(lia) ltac:(lia)) as [-> _ Hv _]. rewrite zlen_app, Hl.
  destruct Hor as [-> |Hor]; [pose proof (fixed_0_len (shown s u 0) ltac:(lia)); lia|].
  assert (shown s u k ≤ 999) as Hle' by (apply (shown_le s U u Hs HU Hu); lia). pose proof (fixed_len k (shown s u k) Hk ltac:(lia)). lia.
Qed.

Ltac si_cases s :=
  repeat match goal with |- context [if s <? ?b then _ else _] => destruct (Z.ltb_spec s b) end.
Ltac si_side := first [unfold si_units; rewrite !elem_of_cons; tauto|lia|vm_compute; reflexivity].

Lemma FormatSi_shows s : 1000 ≤ s < 2 ^ 63 → si_shows s (FormatSi s).
Proof.
  intros Hs. unfold FormatSi. cbv zeta. replace (s <? 1000) with false by lia. si_cases s; eapply si_branch; si_side.
Qed.

Lemma FormatSi_short s :
  1000 ≤ s < 2 ^ 63 → ¬ 9994999999999998 ≤ s < 9995000000000000 → ¬ 99949999999999978 ≤ s < 99950000000000000 → zlen (FormatSi s) ≤ 5.
Proof.
  intros Hs H1 H2. unfold FormatSi. cbv zeta. replace (s <? 1000) with false by lia.
  si_cases s; eapply si_branch_short; first [si_side|by left|right; lia].
Qed.

(** The quantities left, one by one. *)
Lemma FormatSi_edge s :
  9994999999999998 ≤ s < 9995000000000000 ∨ 99949999999999978 ≤ s < 99950000000000000 →
  (zlen (FormatSi s) <=? 5) = negb (99949999999999992 <=? s).
Proof.
  intros Hs. assert (forallb (λ s, Bool.eqb (zlen (FormatSi s) <=? 5) (negb (99949999999999992 <=? s)))
    (seqZ 9994999999999998 2 ++ seqZ 99949999999999978 22) = true) as H by (vm_compute; reflexivity).
  rewrite forallb_forall in H. apply Bool.eqb_prop, H, list_elem_of_In. rewrite elem_of_app, !elem_of_seqZ. lia.
Qed.



(** ** [FormatIec] *)
Definition iec_units : list (Z * string) := [(2 ^ 10, "Ki"); (2 ^ 20, "Mi"); (2 ^ 30, "Gi"); (2 ^ 40, "Ti"); (2 ^ 50, "Pi"); (2 ^ 60, "Ei")].

Lemma iec_unit U unit : (U, unit) ∈ iec_units → zlen (str unit) = 2 ∧ ∃ j, 0 ≤ j ∧ U = 2 ^ j.
Proof.
  unfold iec_units. rewrite !elem_of_cons. intros Hin.
  destruct_or! Hin; try (injection Hin as -> ->; split; [done|eexists; split; [|reflexivity]; lia]). by apply not_elem_of_nil in Hin.
Qed.

Lemma iec_U U unit : (U, unit) ∈ iec_units → 0 < U.
Proof. intros Hin. destruct (iec_unit _ _ Hin) as (_ & j & ? & ->). by apply Z.pow_pos_nonneg. Qed.

(** No double lies between 99.95 and the one nearest to it. *)
Lemma below_99_95 p q : 0 < q → is_double p q → p * 2 ^ 46 < 7033355980557517 * q → 20 * p < 1999 * q.
Proof.
  intros Hq (m & e & Hm & E) Hlt. destruct (Z.le_gt_cases (-46) e) as [He|He].
  - assert (p * 2 ^ 46 = m * 2 ^ (e + 46) * q) as Hp.
    { pose proof (scale_eq (-46) (e + 46) ltac:(lia)) as Hs. replace (-46 + (e + 46)) with e in Hs by lia.
      change (2 ^ Z.max 0 (- -46)) with (2 ^ 46) in Hs. change (2 ^ Z.max 0 (-46)) with 1 in Hs. rewrite Z.mul_1_l in Hs.
      pose proof (pow2_max_pos (- e)). apply (Z.mul_reg_r _ _ (2 ^ Z.max 0 (- e))); [lia|].
      replace (p * 2 ^ 46 * 2 ^ Z.max 0 (- e)) with (p * 2 ^ Z.max 0 (- e) * 2 ^ 46) by ring. rewrite E.
      replace (m * 2 ^ Z.max 0 e * q * 2 ^ 46) with (m * q * (2 ^ Z.max 0 e * 2 ^ 46)) by ring. rewrite Hs. ring. }
    set (M := m * 2 ^ (e + 46)) in *. clearbody M. assert (M < 7033355980557517) by nia. nia.
  - rewrite (Z.max_r 0 (- e)), (Z.max_l 0 e) in E by lia.
    assert (2 ^ 47 ≤ 2 ^ (- e)) by (apply Z.pow_le_mono_r; lia). set (B := 2 ^ (- e)) in *. clearbody B.
    change (2 ^ 0) with 1 in E. assert (0 < p) by nia. nia.
Qed.

Section iec.
Context (s U : Z) (u : double) (k : nat) (unit : string).
Context (Hin : (U, unit) ∈ iec_units) (Hs : 0 < s) (Hu : num u = U * den u).
Let n := double_of s.

Lemma iec_quotient : let d := double_div n u in num d * (den n * U) = num n * den d ∧ is_double (num d) (den d).
Proof. destruct (iec_unit _ _ Hin) as (_ & j & Hj & HU). by apply (quotient_exact s U u Hs (iec_U U unit Hin) Hu j). Qed.

(** A bound on [n / U] is one on what is shown. *)
Lemma iec_shown_le v : 2 * (num n * 10 ^ Z.of_nat k) < (2 * v + 1) * (U * den n) → shown s u k ≤ v.
Proof.
  intros H. pose proof (iec_U U unit Hin) as HU. destruct iec_quotient as [Hq _]. fold n in Hq. unfold shown. fold n. set (d := double_div n u) in *.
  pose proof (den_pos d). pose proof (den_pos n). apply nearest_le; [done|]. set (T := 10 ^ Z.of_nat k) in *.
  assert (den n * U * (2 * (num d * T)) < den n * U * ((2 * v + 1) * den d)); [|nia].
  replace (den n * U * (2 * (num d * T))) with (2 * (num n * T) * den d) by (rewrite <-(Z.mul_1_l (num n)); nia).
  replace (den n * U * ((2 * v + 1) * den d)) with ((2 * v + 1) * (U * den n) * den d) by ring. apply Z.mul_lt_mono_pos_r; lia.
Qed.

Context (Hk : (k ≤ 2)%nat).
Context (Hlo : 9994 * (U * den n) ≤ 100 * (num n * 10 ^ Z.of_nat k)) (Hhi : 2 * (num n * 10 ^ Z.of_nat k) < 2047 * (U * den n)).

Lemma iec_shows : shows s U k unit (shown s u k) (print_unit k n u unit).
Proof.
  pose proof (iec_U U unit Hin) as HU. destruct (iec_unit _ _ Hin) as [Hl _]. pose proof (double_of_error s Hs) as He. fold n in He.
  pose proof (den_pos n) as Hd. pose proof (iec_shown_le 1023 Hhi) as Hle.
  assert (0 < 10 ^ Z.of_nat k) by (apply Z.pow_pos_nonneg; lia). subst n. set (N := num (double_of s)) in *. set (D := den (double_of s)) in *.
  remember (10 ^ Z.of_nat k) as T eqn:HT. clearbody N D.
  assert (s * D * (2 ^ 53 - 1) * T ≤ 2 ^ 53 * N * T ≤ s * D * (2 ^ 53 + 1) * T) as He' by (split; apply Z.mul_le_mono_nonneg_r; lia).
  assert (D * (9990 * U) ≤ D * (100 * (s * T))) as H1 by lia. assert (D * (s * T) ≤ D * (1024 * U)) as H2 by lia.
  apply print_unit_shows; rewrite <-?HT; first [done|lia|nia].
Qed.
End iec.

Lemma iec_shown_1 s U u unit :
  (U, unit) ∈ iec_units → 0 < s → num u = U * den u →
  num (double_of s) * 2 ^ 46 < 7033355980557517 * (U * den (double_of s)) → shown s u 1 ≤ 999.
Proof.
  intros Hin Hs Hu H. pose proof (iec_U U unit Hin) as HU. destruct (iec_quotient s U u unit Hin Hs Hu) as [Hq Hid].
  unfold shown. set (n := double_of s) in *. set (d := double_div n u) in *. pose proof (den_pos d). pose proof (den_pos n).
  assert (20 * num d < 1999 * den d); [|apply nearest_le; [done|change (10 ^ Z.of_nat 1) with 10; lia]].
  apply below_99_95; [done..|]. set (N := num n) in *. set (D := den n) in *. set (R := num d) in *. set (E := den d) in *. clearbody N D R E.
  assert (D * U * (R * 2 ^ 46) < D * U * (7033355980557517 * E)); [|nia].
  replace (D * U * (R * 2 ^ 46)) with (N * 2 ^ 46 * E) by (rewrite (Z.mul_comm N), <-Z.mul_assoc, <-Hq; ring).
  replace (D * U * (7033355980557517 * E)) with (7033355980557517 * (U * D) * E) by ring. by apply Z.mul_lt_mono_pos_r.
Qed.

Definition iec_result (s : Z) (out : bytes) : Prop :=
  ∃ U unit k v, (U, unit) ∈ iec_units ∧ shows s U k unit v out ∧ (v ≤ 999 ∨ k = 0%nat).

Lemma iec_2 s U u unit :
  (U, unit) ∈ iec_units → 0 < s → num u = U * den u → let n := double_of s in
  9994 * (U * den n) ≤ 100 * (num n * 100) → 2 * (num n * 100) < 1999 * (U * den n) → iec_result s (print_unit 2 n u unit).
Proof.
  intros Hin Hs Hu n Hlo Hhi. pose proof (den_pos n). pose proof (iec_U U unit Hin).
  exists U, unit, 2%nat, (shown s u 2). split; [done|]. split; [apply iec_shows; try done; change (10 ^ Z.of_nat 2) with 100; fold n; nia|].
  left. apply (iec_shown_le s U u 2 unit Hin Hs Hu). change (10 ^ Z.of_nat 2) with 100. fold n. lia.
Qed.

Lemma iec_1 s U u unit :
  (U, unit) ∈ iec_units → 0 < s → num u = U * den u → let n := double_of s in
  9994 * (U * den n) ≤ 100 * (num n * 10) → num n * 2 ^ 46 < 7033355980557517 * (U * den n) → iec_result s (print_unit 1 n u unit).
Proof.
  intros Hin Hs Hu n Hlo Hhi. pose proof (den_pos n). pose proof (iec_U U unit Hin).
  exists U, unit, 1%nat, (shown s u 1). split; [done|]. split; [|left; by apply (iec_shown_1 s U u unit)].
  apply iec_shows; try done; change (10 ^ Z.of_nat 1) with 10; fold n; nia.
Qed.

Lemma iec_0 s U u unit :
  (U, unit) ∈ iec_units → 0 < s → num u = U * den u → let n := double_of s in
  9994 * (U * den n) ≤ 100 * num n → 2 * num n < 2047 * (U * den n) → iec_result s (print_unit 0 n u unit).
Proof.
  intros Hin Hs Hu n Hlo Hhi. exists U, unit, 0%nat, (shown s u 0). split; [done|]. split; [|by right].
  apply iec_shows; try done; [lia|change (10 ^ Z.of_nat 0) with 1; fold n; lia..].
Qed.

Lemma double_of_Ki s : 0 ≤ s < 2 ^ 63 → double_lt (double_of s) Ki = (s <? 1024).
Proof.
  intros Hs. unfold double_lt.
  replace (num Ki) with (1024 * den Ki) by (vm_compute; reflexivity). pose proof (den_pos Ki) as Hk. set (K := den Ki) in *. clearbody K.
  pose proof (den_pos (double_of s)) as Hd. destruct (decide (s = 0)) as [->|]; [change (num (double_of 0)) with 0; change (den (double_of 0)) with 1; lia|].
  destruct (decide (s < 2 ^ 53)).
  - rewrite double_of_exact by lia. set (D := den _) in *. clearbody D. destruct (Z.ltb_spec s 1024), (Z.ltb_spec (s * D * K) (1024 * K * D)); nia.
  - pose proof (double_of_error s ltac:(lia)) as He. set (D := den _) in *. set (N := num _) in *. clearbody D N.
    assert (2 ^ 53 * D ≤ s * D) by nia. assert (1024 * D ≤ N) by lia. destruct (Z.ltb_spec s 1024); [lia|]. nia.
Qed.

(** The comparison with a constant, as an inequality of numbers; the lower bound
    [low] known before is replaced by the new one. *)
Ltac iec_case C low :=
  let E := fresh "E" in
  destruct (double_lt _ C) eqn:E; unfold double_lt in E;
  let a := eval vm_compute in (num C) in let b := eval vm_compute in (den C) in
  replace (num C) with a in E by (vm_compute; reflexivity); replace (den C) with b in E by (vm_compute; reflexivity);
  first [apply Z.ltb_lt in E|apply Z.ltb_ge in E; clear low; rename E into low].

Lemma FormatIec_shows s : 1024 ≤ s < 2 ^ 63 → iec_result s (FormatIec s).
Proof.
  intros Hs. unfold FormatIec. cbv zeta. pose proof (double_of_Ki s ltac:(lia)) as H0. rewrite H0. replace (s <? 1024) with false in * by lia.
  unfold double_lt in H0. apply Z.ltb_ge in H0. replace (num Ki) with (1024 * 2 ^ 42) in H0 by (vm_compute; reflexivity).
  replace (den Ki) with (2 ^ 42) in H0 by (vm_compute; reflexivity).
  assert (num (double_of s) ≤ 9 * 2 ^ 60 * den (double_of s)) as H9.
  { pose proof (double_of_error s ltac:(lia)) as He. pose proof (den_pos (double_of s)) as Hd. set (D := den _) in *. set (N := num _) in *. clearbody D N.
    assert (s * D ≤ 2 ^ 63 * D) by nia. lia. }
  pose proof (den_pos (double_of s)) as Hd.
  repeat match goal with |- context [if double_lt _ ?C then _ else _] => iec_case C H0 end.
  all: match goal with
    | |- iec_result _ (print_unit 2 _ _ _) => eapply iec_2
    | |- iec_result _ (print_unit 1 _ _ _) => eapply iec_1
    | |- iec_result _ (print_unit 0 _ _ _) => eapply iec_0
    end; [unfold iec_units; rewrite !elem_of_cons; tauto|lia|vm_compute; reflexivity|lia|lia].
Qed.

(** [FormatIec] shows at least three digits of a quantity with its binary unit.
    From 1024 on the text is a number of three digits with the point where it
    belongs, or a whole number up to 1023, and a unit; the number is the nearest
    one but for a trillionth of its last digit; and no text has more than six
    characters.  Comparisons and divisions are of [double]s. *)
Theorem format_iec_digits s :
  0 ≤ s < 2 ^ 63 →
  (s < 1024 → FormatIec s = fmt_d s) ∧
  (1024 ≤ s → ∃ U unit k v, (U, unit) ∈ iec_units ∧ FormatIec s = fixed k v ++ str unit ∧ 100 ≤ v ≤ 1023 ∧ (v ≤ 999 ∨ k = 0%nat) ∧
     2 * 10 ^ 12 * Z.abs (v * U - s * 10 ^ Z.of_nat k) ≤ (10 ^ 12 + 1) * U) ∧
  zlen (FormatIec s) ≤ 6.
Proof.
  intros Hs. assert (s < 1024 → FormatIec s = fmt_d s ∧ zlen (fmt_d s) ≤ 4) as Hsmall.
  { intros Hlt. unfold FormatIec. cbv zeta. rewrite double_of_Ki by done. replace (s <? 1024) with true by lia.
    unfold fmt_d. replace (s <? 0) with false by lia. pose proof (fmt_u_len s 4 ltac:(lia) ltac:(lia)). split; [apply ztake_all|]; lia. }
  split; [apply Hsmall|]. destruct (decide (s < 1024)) as [Hlt|Hge].
  { split; [lia|]. destruct (Hsmall Hlt) as [-> ?]. lia. }
  destruct (FormatIec_shows s) as (U & unit & k & v & Hin & [Ht Hk Hv Ha] & Hor); [lia|].
  split; [intros _; by exists U, unit, k, v|]. rewrite Ht, zlen_app. destruct (iec_unit _ _ Hin) as [-> _].
  destruct Hor as [Hle| ->]; [pose proof (fixed_len k v Hk ltac:(lia)); lia|]. pose proof (fixed_0_len v ltac:(lia)). lia.
Qed.

Lemma format_iec_digits_witness :
  FormatIec 102348 = str "99.9Ki" ∧ FormatIec 1048063 = str "1023Ki" ∧ zlen (FormatIec (2 ^ 63 - 1)) ≤ 6.
Proof. split; [reflexivity|]. split; [reflexivity|]. apply format_iec_digits; lia. Defined.
