(* ===== verification/Seconds.v ===== *)
(** * Times as [double] seconds: the conversions of [Timestamp]
    (utils/timestamp.h) and what is computed with them

    [Timestamp] counts microseconds in an [int64_t]; delays ([RunAfter],
    [RunEvery], [ForceCloseWithDelay], [Connector::Retry]), the age of a
    connection in [TimingList::OnTimer] and CPU times are [double] seconds. *)

From stdpp Require Import base tactics list numbers strings.
From Stdlib Require Import ZArith Lia.
From S2P Require Import Prelude.
From S2P Require Import CString.
From S2P Require Import Units.

(** ** The conversions *)

Definition zero : double := MkDouble 0 0.
Definition million : double := double_of 1000000.

(** Products and quotients with their sign. *)
Definition scaled (op : double → double → double) (d u : double) : double :=
  match mantissa d ?= 0 with
  | Eq => zero
  | Lt => double_neg (op (double_neg d) u)
  | Gt => op d u
  end.

(** [static_cast<int64_t>(d)] cuts the fraction off. *)
Definition int64_of (d : double) : outcome Z :=
  let v := Z.quot (num d) (den d) in
  if bool_decide (- 2 ^ 63 ≤ v < 2 ^ 63) then Ok v else Fail (UndefinedBehaviour "double out of range of int64_t").

(** [explicit Timestamp(double seconds_since_epoch)]. *)
Definition Timestamp_of_seconds (d : double) : outcome Z := int64_of (scaled double_mul d million).

(** [explicit operator double()]. *)
Definition seconds (t : Z) : double := scaled double_div (double_of t) million.

(** [CpuTime]: clock ticks as seconds. *)
Definition cpu_seconds (ticks clock_ticks_per_second : Z) : double := scaled double_div (double_of ticks) (double_of clock_ticks_per_second).

(** [retry_delay_ms_ / 1000.0]. *)
Definition retry_seconds (retry_delay_ms : Z) : double := scaled double_div (double_of retry_delay_ms) (double_of 1000).

(** ** The delays of the program are exact *)

(** 3.5 s of [TimingList::OnTimer], 1.0 s of the server's tick. *)
Example force_close_delay : Timestamp_of_seconds (round_double 35 10) = Ok 3500000.
Proof. vm_compute. reflexivity. Qed.
Example tick_delay : Timestamp_of_seconds (double_of 1) = Ok 1000000.
Proof. vm_compute. reflexivity. Qed.

(** Every delay the connector can use: it doubles from 500 ms up to 30 s. *)
Lemma retry_delay_exact ms :
  ms ∈ [500; 1000; 2000; 4000; 8000; 16000; 30000] → Timestamp_of_seconds (retry_seconds ms) = Ok (ms * 1000).
Proof. intros H. repeat (apply elem_of_cons in H as [->|H]; [vm_compute; reflexivity|]). by apply elem_of_nil in H. Qed.

(** ** Rounding *)
Lemma million_num : num million = 1000000 * den million.
Proof. vm_compute. reflexivity. Qed.

Lemma sign_pos t : 0 < t → (mantissa (double_of t) ?= 0) = Gt.
Proof. intros Ht. rewrite double_of_pos by done. pose proof (mantissa_int t Ht). apply Z.compare_gt_iff. lia. Qed.

Lemma double_of_neg t : t < 0 → double_of t = double_neg (double_of (- t)).
Proof.
  intros Ht. unfold double_of. replace (t =? 0) with false by lia. replace (t <? 0) with true by lia.
  replace (- t =? 0) with false by lia. by replace (- t <? 0) with false by lia.
Qed.

Lemma double_neg_neg d : double_neg (double_neg d) = d.
Proof. destruct d as [m e]. unfold double_neg. cbn. by rewrite Z.opp_involutive. Qed.

Lemma num_neg d : num (double_neg d) = - num d.
Proof. unfold num, double_neg. cbn. ring. Qed.

Lemma seconds_pos t : 0 < t → seconds t = double_div (double_of t) million.
Proof. intros Ht. unfold seconds, scaled. by rewrite sign_pos. Qed.

Lemma seconds_neg t : t < 0 → seconds t = double_neg (seconds (- t)).
Proof.
  intros Ht. rewrite (seconds_pos (- t)) by lia. unfold seconds, scaled. rewrite double_of_neg by done. rewrite double_neg_neg.
  pose proof (sign_pos (- t) ltac:(lia)) as H. apply Z.compare_gt_iff in H. cbn [double_neg mantissa].
  by rewrite (proj2 (Z.compare_lt_iff _ _)) by lia.
Qed.

(** A whole number of seconds comes out exactly. *)
Lemma seconds_whole v : 0 < v < 2 ^ 32 → num (seconds (v * 1000000)) = v * den (seconds (v * 1000000)).
Proof.
  intros Hv. rewrite seconds_pos by lia. set (n := double_of (v * 1000000)). pose proof (double_of_exact (v * 1000000) ltac:(lia)) as Hn. fold n in Hn.
  pose proof (den_pos n). pose proof (den_pos million). unfold double_div. rewrite million_num, Hn.
  set (D := den n) in *. set (E := den million) in *.
  pose proof (round_exact (v * 1000000 * D * E) (D * (1000000 * E)) ltac:(nia) ltac:(nia)) as H'.
  assert (is_double (v * 1000000 * D * E) (D * (1000000 * E))) as Hd.
  { exists v, 0. split; [lia|]. change (2 ^ Z.max 0 (- 0)) with 1. change (2 ^ Z.max 0 0) with 1. ring. }
  specialize (H' Hd). set (r := round_double _ _) in *. clearbody D E r.
  apply (Z.mul_reg_r _ _ (D * (1000000 * E))); [nia|]. rewrite H'. ring.
Qed.

(** ** Comparing an age with a number of seconds *)

(** The relative error of [2 ^ -53] twice cannot hide a microsecond. *)
Lemma seconds_above t v : 0 ≤ v < 2 ^ 32 → v * 1000000 < t → v * den (seconds t) < num (seconds t).
Proof.
  intros Hv Ht. rewrite seconds_pos by lia.
  pose proof (quotient_error t 1000000 million ltac:(lia) ltac:(lia) million_num) as [He _].
  set (d := double_div _ _) in *. pose proof (den_pos d). set (N := num d) in *. set (D := den d) in *. clearbody N D.
  assert ((v * 1000000 + 1) * (2 ^ 53 - 1) ^ 2 > v * 1000000 * 2 ^ 106) by lia.
  assert ((v * 1000000 + 1) * D * (2 ^ 53 - 1) ^ 2 ≤ N * 1000000 * 2 ^ 106) by nia. nia.
Qed.

Lemma seconds_below t v : 0 < t → v < 2 ^ 32 → t < v * 1000000 → num (seconds t) < v * den (seconds t).
Proof.
  intros Hp Hv Ht. rewrite seconds_pos by lia.
  pose proof (quotient_error t 1000000 million ltac:(lia) ltac:(lia) million_num) as [_ He].
  set (d := double_div _ _) in *. pose proof (den_pos d). set (N := num d) in *. set (D := den d) in *. clearbody N D.
  assert ((v * 1000000 - 1) * (2 ^ 53 + 1) ^ 2 < v * 1000000 * 2 ^ 106) by lia.
  assert (N * 1000000 * 2 ^ 106 ≤ (v * 1000000 - 1) * D * (2 ^ 53 + 1) ^ 2) by nia. nia.
Qed.

(** The [double] [v] as a fraction with a positive denominator. *)
Lemma int_double v : 0 ≤ v < 2 ^ 53 → num (double_of v) = v * den (double_of v).
Proof. intros Hv. destruct (decide (v = 0)) as [->|]; [done|]. apply double_of_exact. lia. Qed.

(** The comparisons of [TimingList::OnTimer] are those of integers: for every
    age that an [int64_t] holds and every [int] number of seconds, [age > idle]
    and [age < 0] on [double]s say what the microseconds say. *)
Theorem age_comparison_exact age idle :
  0 ≤ idle < 2 ^ 31 →
  double_lt (double_of idle) (seconds age) = (idle * 1000000 <? age) ∧ double_lt (seconds age) zero = (age <? 0).
Proof.
  intros Hi. pose proof (int_double idle ltac:(lia)) as Hn. pose proof (den_pos (double_of idle)) as Hd. unfold double_lt. rewrite Hn.
  change (num zero) with 0. change (den zero) with 1. set (D := den (double_of idle)) in *. clearbody D.
  destruct (Z.lt_trichotomy age 0) as [Hlt|[->|Hgt]].
  - rewrite seconds_neg by done. rewrite num_neg. change (den (double_neg ?d)) with (den d).
    pose proof (seconds_above (- age) 0 ltac:(lia) ltac:(lia)) as H'. pose proof (den_pos (seconds (- age))).
    set (N := num _) in *. set (E := den _) in *. clearbody N E. split; apply eq_true_iff_eq; rewrite !Z.ltb_lt; nia.
  - change (seconds 0) with zero. change (num zero) with 0. change (den zero) with 1. split; apply eq_true_iff_eq; rewrite !Z.ltb_lt; nia.
  - pose proof (den_pos (seconds age)). pose proof (seconds_above age 0 ltac:(lia) ltac:(lia)).
    assert (idle * den (seconds age) < num (seconds age) ↔ idle * 1000000 < age) as Hiff.
    { split; [|by apply seconds_above; lia]. intros H'. destruct (Z.lt_trichotomy age (idle * 1000000)) as [Hl|[->|]]; [| |done].
      - pose proof (seconds_below age idle Hgt ltac:(lia) Hl). lia.
      - rewrite seconds_whole in H' by lia. lia. }
    set (N := num _) in *. set (E := den _) in *. clearbody N E. split; apply eq_true_iff_eq; rewrite !Z.ltb_lt; nia.
Qed.

(** ** There and back *)

(** Three roundings in a row move a time by less than a microsecond. *)
Lemma three_roundings t A D E R :
  0 < t < 2 ^ 51 → 0 < D → 0 < E →
  t * D * (2 ^ 53 - 1) ^ 2 ≤ A * 2 ^ 106 ≤ t * D * (2 ^ 53 + 1) ^ 2 →
  2 ^ 53 * Z.abs (R * D - A * E) ≤ A * E → (t - 1) * E ≤ R < (t + 1) * E.
Proof.
  intros Ht HD HE HA HR.
  assert (A * E * (2 ^ 53 - 1) ≤ 2 ^ 53 * (R * D) ≤ A * E * (2 ^ 53 + 1)) as H4 by lia.
  assert (t * D * (2 ^ 53 - 1) ^ 2 * E ≤ A * 2 ^ 106 * E ≤ t * D * (2 ^ 53 + 1) ^ 2 * E) as H5 by nia.
  assert (D * (t * E * (2 ^ 53 - 1) ^ 3) ≤ D * (2 ^ 159 * R) ≤ D * (t * E * (2 ^ 53 + 1) ^ 3)) as H6.
  { change (2 ^ 159) with (2 ^ 106 * 2 ^ 53). lia. }
  assert (t * E * (2 ^ 53 - 1) ^ 3 ≤ 2 ^ 159 * R ≤ t * E * (2 ^ 53 + 1) ^ 3) as [H7 H8] by nia.
  assert ((t - 1) * 2 ^ 159 < t * (2 ^ 53 - 1) ^ 3) by lia. assert (t * (2 ^ 53 + 1) ^ 3 < (t + 1) * 2 ^ 159) by lia. nia.
Qed.

Lemma cancel_factor R D N E X :
  0 < X → 2 ^ 53 * Z.abs (R * (D * X) - N * (1000000 * X) * E) ≤ N * (1000000 * X) * E →
  2 ^ 53 * Z.abs (R * D - N * 1000000 * E) ≤ N * 1000000 * E.
Proof.
  intros HX H. replace (R * (D * X) - N * (1000000 * X) * E) with ((R * D - N * 1000000 * E) * X) in H by ring.
  rewrite Z.abs_mul, (Z.abs_eq X) in H by lia. apply (Z.mul_le_mono_pos_r _ _ X); [done|]. lia.
Qed.

Lemma quot_near R E t : 0 < E → 0 < t → (t - 1) * E ≤ R < (t + 1) * E → Z.quot R E = t - 1 ∨ Z.quot R E = t.
Proof. intros. Z.to_euclidean_division_equations. nia. Qed.

(** Times through [double] and back keep the microsecond or lose one: the
    conversion to [int64_t] cuts off what three roundings left below it. *)
Theorem seconds_roundtrip t :
  0 ≤ t < 2 ^ 51 → Timestamp_of_seconds (seconds t) = Ok t ∨ Timestamp_of_seconds (seconds t) = Ok (t - 1).
Proof.
  intros Ht. destruct (decide (t = 0)) as [->|Hz]; [left; vm_compute; reflexivity|]. rewrite seconds_pos by lia.
  pose proof (quotient_error t 1000000 million ltac:(lia) ltac:(lia) million_num) as He.
  set (d := double_div _ _) in *. pose proof (den_pos d) as HD. pose proof (den_pos million) as HX. clearbody d.
  assert (0 < num d) as Hd by nia.
  unfold Timestamp_of_seconds, scaled. assert (0 < mantissa d) as Hm. { unfold num in Hd. pose proof (pow2_max_pos (exponent d)). nia. }
  rewrite (proj2 (Z.compare_gt_iff _ _)) by done. unfold double_mul. rewrite million_num.
  pose proof (round_error (num d * (1000000 * den million)) (den d * den million) ltac:(nia) ltac:(nia)) as H2. cbv zeta in H2.
  set (r := round_double _ _) in *. clearbody r. pose proof (den_pos r) as HE. unfold int64_of.
  set (X := den million) in *. clearbody X.
  assert (2 ^ 53 * Z.abs (num r * den d - num d * 1000000 * den r) ≤ num d * 1000000 * den r) as H3.
  { by apply (cancel_factor _ _ _ _ X). }
  pose proof (three_roundings t (num d * 1000000) (den d) (den r) (num r) ltac:(lia) HD HE He H3) as HR.
  destruct (quot_near (num r) (den r) t HE ltac:(lia) HR) as [->| ->]; rewrite bool_decide_true by lia; auto.
Qed.

(** The microsecond can be lost, even for small times. *)
Example seconds_loses_a_microsecond : Timestamp_of_seconds (seconds 249) = Ok 248.
Proof. vm_compute. reflexivity. Qed.
