(* ===== verification/LoopObject.v ===== *)
(** * The life of an [EventLoop] object (net/event_loop.h, net/event_loop.cc)

    Construction and destruction with the two channels every loop has (the
    timer queue's and the wake-up descriptor's), the loop of each thread, the way
    from a channel through the loop to the poller with its checks, and the timer
    functions that add [double] delays to the clock. *)

From stdpp Require Import base tactics list numbers strings sets gmap.
From Stdlib Require Import ZArith Lia Ascii.
From S2P Require Import Prelude.
From S2P Require Import CString.
From S2P Require Import Channel.
From S2P Require Import Poller.
From S2P Require Import EventLoop.
From S2P Require Import TimerQueue.
From S2P Require Import Units.
From S2P Require Import Seconds.
From S2P Require Import SharedLoop.

(** ** From a channel through the loop to the poller

    In the thread [tid]: the loop checks the thread, and that a channel that is
    removed while events are handled is the current one or not active. *)
Section routed.
Context {P : Type} `{Poller P} (tid : Z).

#[local] Instance loop_poller : Poller (dispatch * P) := {|
  Channel.UpdateChannel c p h := '(p', h) ← EventLoop.UpdateChannel tid c p.1 p.2 h; Ok ((p.1, p'), h);
  Channel.RemoveChannel c p h := '(p', h) ← EventLoop.RemoveChannel tid c p.1 p.2 h; Ok ((p.1, p'), h);
  Channel.HasChannel c p h := EventLoop.HasChannel tid c p.1 p.2 h;
|}.

(** Between the events of a turn, in the loop's thread. *)
Definition routed_inv (inv : P → heap → registry → Prop) (p : dispatch * P) (h : heap) (r : registry) : Prop :=
  inv p.2 h r ∧ thread_id_ p.1 = tid ∧ EventLoop.is_event_handling_ p.1 = false.

Lemma routed_update inv c (p : dispatch * P) h p' h' r :
  routed_inv inv p h r → Channel.UpdateChannel c p.2 h' = Ok p' → Channel.UpdateChannel c p h' = Ok ((p.1, p'.1), p'.2).
Proof.
  intros (_ & Ht & _) E. cbn. unfold EventLoop.UpdateChannel, AssertInLoopThread, IsInLoopThread. rewrite Ht, Z.eqb_refl.
  cbn [mbind outcome_bind]. rewrite E. by destruct p'.
Qed.

Lemma routed_remove inv c (p : dispatch * P) h p' h' r :
  routed_inv inv p h r → Channel.RemoveChannel c p.2 h' = Ok p' → Channel.RemoveChannel c p h' = Ok ((p.1, p'.1), p'.2).
Proof.
  intros (_ & Ht & He) E. cbn. unfold EventLoop.RemoveChannel, AssertInLoopThread, IsInLoopThread. rewrite Ht, He, Z.eqb_refl.
  cbn [mbind outcome_bind]. rewrite E. by destruct p'.
Qed.

#[local] Instance loop_poller_inv inv `{!PollerInv P inv} : PollerInv (dispatch * P) (routed_inv inv).
Proof.
  split.
  - intros p h r (Hi & _). exact (inv_common (inv := inv) _ _ _ Hi).
  - intros p h r c x x0 ev Hp ? ? ? ? ? ? ?. pose proof Hp as (Hi & Ht & He).
    destruct (inv_update p.2 h r c x x0 ev Hi) as (p' & h' & E & Hfd & Hi'); try done.
    exists (p.1, p'), h'. rewrite (routed_update inv c p h (p', h') _ r Hp E). by repeat split.
  - intros p h r c x x0 Hp ? ? ? ? ?. pose proof Hp as (Hi & Ht & He).
    destruct (inv_remove p.2 h r c x x0 Hi) as (p' & h' & E & Hfd & Hi'); try done.
    exists (p.1, p'), h'. rewrite (routed_remove inv c p h (p', h') _ r Hp E). by repeat split.
Qed.

#[local] Instance loop_poller_heap inv `{!PollerHeap P inv} : PollerHeap (dispatch * P) (routed_inv inv).
Proof.
  split.
  - intros p h r c x (Hi & ?) ? ? ?. split; [exact (inv_alloc (inv := inv) _ _ _ _ _ Hi ltac:(done) ltac:(done) ltac:(done))|done].
  - intros p h r c (Hi & ?) Hn. split; [exact (inv_free (inv := inv) _ _ _ _ Hi Hn)|done].
  - intros p h r c x x' (Hi & ?) ? ? ? ?. split; [|done].
    exact (inv_touch (inv := inv) _ _ _ _ _ _ Hi ltac:(done) ltac:(done) ltac:(done) ltac:(done)).
  - intros p h r c x (Hi & Ht & _) Hx Hn. cbn. unfold EventLoop.HasChannel, AssertInLoopThread, IsInLoopThread.
    rewrite Ht, Z.eqb_refl. exact (inv_has (inv := inv) _ _ _ _ _ Hi Hx Hn).
Qed.

#[local] Instance loop_poller_status `{!PollerStatus P} : PollerStatus (dispatch * P).
Proof.
  split; intros c p h p' h' E; cbn in E; apply bind_Ok in E as ([p1 h1] & E & [= _ <-]).
  - unfold EventLoop.UpdateChannel in E. apply bind_Ok in E as (? & _ & E). exact (update_status (P := P) _ _ _ _ _ E).
  - unfold EventLoop.RemoveChannel in E. apply bind_Ok in E as (? & _ & E). apply bind_Ok in E as (? & _ & E).
    exact (remove_status (P := P) _ _ _ _ _ E).
Qed.
End routed.

(** ** The constructor and the destructor *)
Section object.
Context {P : Type} `{Poller P} (tid : Z).
#[local] Hint Extern 0 (Poller (dispatch * P)) => exact (loop_poller tid) : typeclass_instances.

Record loop_object := MkLoopObject {
  lo_self : Z;
  lo_poller : dispatch * P;            (* thread_id_, the active channels, poller_ *)
  lo_timers : TimerQueue;
  lo_timerfd_channel : chan;
  lo_wakeup_channel : chan;
}.

Definition CreateTimerfd (timerfd : Z) : outcome Z :=
  if timerfd <? 0 then Fail (FatalLog "Failed in timerfd_create") else Ok timerfd.
(** Logs and calls [abort]. *)
Definition CreateEventfd (evtfd : Z) : outcome Z :=
  if evtfd <? 0 then Fail (FatalLog "Failed in eventfd") else Ok evtfd.

(** [TimerQueue::TimerQueue(loop)]: its channel. *)
Definition TimerQueue_construct (timerfd : Z) (c : chan) (p : dispatch * P) (h : heap) : outcome (dispatch * P * heap) :=
  fd ← CreateTimerfd timerfd;
  EnableReading c p (<[c := Channel_new fd]> h).

Definition TimerQueue_destruct (c : chan) (p : dispatch * P) (h : heap) : outcome (dispatch * P * heap) :=
  '(p, h) ← DisableAll c p h;
  '(p, h) ← Remove c p h;
  h ← Channel_destroy c p h;
  Ok (p, h).

(** [threads] are the [t_loop_in_this_thread] that are not null. *)
Definition EventLoop_construct (self timerfd evtfd now : Z) (c1 c2 : chan) (poller : P) (h : heap) (threads : gmap Z Z)
    : outcome (loop_object * heap * gmap Z Z) :=
  '(p, h) ← TimerQueue_construct timerfd c1 (MkDispatch tid false [] None, poller) h;
  fd ← CreateEventfd evtfd;
  let h := <[c2 := Channel_new fd]> h in
  match threads !! tid with
  | Some _ => Fail (FatalLog "Another EventLoop exists in this thread")
  | None =>
      '(p, h) ← EnableReading c2 p h;
      Ok (MkLoopObject self p (TimerQueue_new now) c1 c2, h, <[tid := self]> threads)
  end.

(** The body, then the members: the wake-up channel, the timer queue, the poller. *)
Definition EventLoop_destruct (o : loop_object) (h : heap) (threads : gmap Z Z) : outcome (P * heap * gmap Z Z) :=
  '(p, h) ← DisableAll (lo_wakeup_channel o) (lo_poller o) h;
  '(p, h) ← Remove (lo_wakeup_channel o) p h;
  let threads := delete tid threads in
  h ← Channel_destroy (lo_wakeup_channel o) p h;
  '(p, h) ← TimerQueue_destruct (lo_timerfd_channel o) p h;
  Ok (p.2, h, threads).
End object.
Arguments MkLoopObject {P} _ _ _ _ _.
Arguments lo_self {P} _.
Arguments lo_poller {P} _.
Arguments lo_timers {P} _.
Arguments lo_timerfd_channel {P} _.
Arguments lo_wakeup_channel {P} _.

(** [queue_size()] under the mutex. *)
Definition queue_size {Functor} (s : EventLoop (Functor := Functor)) : Z := zlen (pending_functors_ s).

(** [PrintActiveChannels]: a line per active channel. *)
Definition PrintActiveChannels (h : heap) (active : list chan) : outcome (list bytes) :=
  mapM (M := outcome) (λ c, x ← deref h c; Ok (str "{" ++ ReventsToString x ++ str "} ")) active.

(** ** [RunAt], [RunAfter], [RunEvery] and [Cancel] in the loop's thread *)
Section timers.
Context (alloc : gmap Z Timer → Z).

Definition RunAt (time cb : Z) (q : TimerQueue) : outcome (TimerQueue * TimerId) := AddTimer alloc cb time 0 false q.

Definition RunAfter (delay : double) (cb : Z) (q : TimerQueue) : outcome (TimerQueue * TimerId) :=
  d ← Timestamp_of_seconds delay;
  time ← add_int64 (now_ q) d;
  RunAt time cb q.

Definition RunEvery (interval : double) (cb : Z) (q : TimerQueue) : outcome (TimerQueue * TimerId) :=
  d ← Timestamp_of_seconds interval;
  time ← add_int64 (now_ q) d;
  AddTimer alloc cb time d (double_lt zero interval) q.

Definition Cancel (id : TimerId) (q : TimerQueue) : outcome TimerQueue := CancelInLoop id q.
End timers.

(** ** A channel of the loop's own, registered and taken away *)
Section own.
Context {P : Type} `{PollerInv P inv, !PollerHeap P inv, !PollerStatus P}.

(** The state of a registered channel that only reads. *)
Record own_channel (c : chan) (fd : Z) (h : heap) (r : registry) : Prop := MkOwn {
  oc_reg : reg r !! fd = Some (c, kReadEvent);
  oc_flags : ∃ x, h !! c = Some x ∧ Channel.is_event_handling_ x = false;
}.

(** Other channels keep their flags. *)
Definition others_kept (c : chan) (h h' : heap) : Prop :=
  ∀ c', c' ≠ c → Channel.is_event_handling_ <$> h' !! c' = Channel.is_event_handling_ <$> h !! c'.

Lemma status_flags h h' c : status_only h h' → Channel.is_event_handling_ <$> h' !! c = Channel.is_event_handling_ <$> h !! c.
Proof. intros Hs%status_handling. apply (f_equal (.!! c)) in Hs. by rewrite !lookup_fmap in Hs. Qed.

Lemma status_added h h' c x x' :
  status_only h h' → h !! c = Some x → h' !! c = Some x' → is_added_to_loop_ x' = is_added_to_loop_ x ∧ fd_ x' = fd_ x.
Proof. intros Hs Hx Hx'. specialize (Hs c). rewrite Hx, Hx' in Hs. cbn in Hs. by injection Hs. Qed.

Lemma status_lookup h h' c x : status_only h h' → h !! c = Some x → ∃ x', h' !! c = Some x'.
Proof. intros Hs Hx. specialize (Hs c). rewrite Hx in Hs. destruct (h' !! c) as [x'|]; [by exists x'|done]. Qed.

Lemma register_ok p h r c fd :
  inv p h r → h !! c = None → c ∉ used r → 0 ≤ fd → reg r !! fd = None →
  ∃ p' h', EnableReading c p (<[c := Channel_new fd]> h) = Ok (p', h') ∧
    inv p' h' (MkRegistry (<[fd := (c, kReadEvent)]> (reg r)) ({[c]} ∪ used r)) ∧
    own_channel c fd h' (MkRegistry (<[fd := (c, kReadEvent)]> (reg r)) ({[c]} ∪ used r)) ∧
    others_kept c h h' ∧ dom h' = {[c]} ∪ dom h.
Proof.
  intros Hi Hc Hu Hfd Hr. pose proof (inv_alloc p h r c (Channel_new fd) Hi Hc Hu eq_refl) as Hi1.
  unfold EnableReading, change_events, Update, deref. rewrite lookup_insert_eq. cbn [mbind outcome_bind].
  rewrite lookup_insert_eq. cbn [mbind outcome_bind]. rewrite insert_insert_eq.
  set (x := set_added true (set_events (Z.lor (Channel.events_ (Channel_new fd)) kReadEvent) (Channel_new fd))).
  destruct (inv_update p _ r c x (Channel_new fd) kReadEvent Hi1) as (p' & h' & E & Hfi & Hi'); try done.
  { apply lookup_insert_eq. }
  { by left. }
  exists p', h'. split; [exact E|]. split; [exact Hi'|]. pose proof (update_status _ _ _ _ _ E) as Hs. rewrite insert_insert_eq in Hs.
  split; [|split].
  - split; [apply lookup_insert_eq|]. destruct (status_lookup _ _ c x Hs) as [x' Hx']; [apply lookup_insert_eq|]. exists x'. split; [done|].
    pose proof (status_flags _ _ c Hs) as Hf. rewrite lookup_insert_eq, Hx' in Hf. by injection Hf.
  - intros c' Hne. rewrite (status_flags _ _ c' Hs). by rewrite lookup_insert_ne.
  - apply set_eq. intros c'. rewrite elem_of_union, elem_of_singleton, !elem_of_dom.
    pose proof (status_flags _ _ c' Hs) as Hf. destruct (decide (c = c')) as [<-|Hne].
    + rewrite lookup_insert_eq in Hf. destruct (h' !! c); [|done]. split; [by left|by eexists].
    + rewrite lookup_insert_ne in Hf by done. destruct (h' !! c'), (h !! c'); cbn in Hf; try done; naive_solver.
Qed.

(** [DisableAll], [Remove] and the channel's destructor. *)
Lemma unregister_ok p h r c fd :
  inv p h r → own_channel c fd h r →
  ∃ p1 h1 p2 h2, DisableAll c p h = Ok (p1, h1) ∧ Remove c p1 h1 = Ok (p2, h2) ∧
    Channel_destroy c p2 h2 = Ok (delete c h2) ∧ inv p2 (delete c h2) (MkRegistry (delete fd (reg r)) (used r)) ∧
    others_kept c h (delete c h2) ∧ dom (delete c h2) = dom h ∖ {[c]}.
Proof.
  intros Hi [Hr (x & Hx & Hh)]. destruct (inv_common _ _ _ Hi) as [chs Hci].
  destruct (ci_reg _ _ _ Hci _ _ _ Hr) as (Hu & _ & Hpos & y & Hy & Hfd & Hev). assert (y = x) as -> by congruence.
  unfold DisableAll, change_events, Update, deref. rewrite Hx. cbn [mbind outcome_bind]. rewrite lookup_insert_eq. cbn [mbind outcome_bind].
  rewrite insert_insert_eq. set (x1 := set_added true (set_events kNoneEvent x)).
  destruct (inv_update p h r c x1 x 0 Hi) as (p1 & h1 & E1 & Hfi1 & Hi1); try done.
  { change (fd_ x1) with (fd_ x). lia. }
  { right. exists kReadEvent. change (fd_ x1) with (fd_ x). by rewrite Hfd. }
  change (fd_ x1) with (fd_ x) in Hi1. rewrite Hfd in Hi1. pose proof (update_status _ _ _ _ _ E1) as Hs1.
  destruct (status_lookup _ _ c x1 Hs1) as [x1' Hx1']; [apply lookup_insert_eq|].
  destruct (inv_common _ _ _ Hi1) as [chs1 Hci1].
  destruct (ci_reg _ _ _ Hci1 fd c 0) as (_ & _ & _ & z & Hz & Hfd1 & Hev1); [apply lookup_insert_eq|]. assert (z = x1') as -> by congruence.
  exists p1, h1. unfold Remove, deref. rewrite Hx1'. cbn [mbind outcome_bind]. unfold IsNoneEvent. rewrite Hev1.
  change (0 =? kNoneEvent) with true. cbn [cassert mbind outcome_bind].
  destruct (inv_remove p1 h1 _ c (set_added false x1') x1' Hi1) as (p2 & h2 & E2 & Hfi2 & Hi2); try done.
  { change (fd_ (set_added false x1')) with (fd_ x1'). rewrite Hfd1. apply lookup_insert_eq. }
  change (fd_ (set_added false x1')) with (fd_ x1') in Hi2. rewrite Hfd1 in Hi2. cbn [reg used] in Hi2.
  rewrite delete_insert_eq in Hi2. replace ({[c]} ∪ used r) with (used r) in Hi2 by set_solver.
  pose proof (remove_status _ _ _ _ _ E2) as Hs2. destruct (status_lookup _ _ c _ Hs2 (lookup_insert_eq _ _ _)) as [x2 Hx2].
  assert (∀ c' ev, reg (MkRegistry (delete fd (reg r)) (used r)) !! c' ≠ Some (c, ev)) as Hno.
  { intros fd' ev. cbn [reg]. rewrite lookup_delete_Some. intros [Hne Hr']. apply Hne. exact (common_inj _ _ _ _ _ _ _ _ Hci Hr Hr'). }
  exists p2, h2. split; [exact E1|]. split; [exact E2|]. split.
  - unfold Channel_destroy, deref. rewrite Hx2. cbn [mbind outcome_bind].
    destruct (status_added _ _ c _ _ Hs2 (lookup_insert_eq _ _ _) Hx2) as [Ha _].
    pose proof (status_flags _ _ c Hs2) as Hf2. rewrite lookup_insert_eq, Hx2 in Hf2. injection Hf2 as Hf2.
    pose proof (status_flags _ _ c Hs1) as Hf1. rewrite lookup_insert_eq, Hx1' in Hf1. injection Hf1 as Hf1.
    change (Channel.is_event_handling_ x2 = Channel.is_event_handling_ x1') in Hf2. change (Channel.is_event_handling_ x1' = Channel.is_event_handling_ x) in Hf1.
    rewrite Hf2, Hf1, Hh, Ha. cbn [set_added is_added_to_loop_ negb cassert mbind outcome_bind].
    by rewrite (inv_has _ _ _ _ _ Hi2 Hx2 Hno).
  - split; [by apply inv_free|]. assert (∀ c', c' ≠ c → Channel.is_event_handling_ <$> h2 !! c' = Channel.is_event_handling_ <$> h !! c') as Hk.
    { intros c' Hne. rewrite (status_flags _ _ c' Hs2), lookup_insert_ne by done.
      rewrite (status_flags _ _ c' Hs1). by rewrite lookup_insert_ne. }
    split; [intros c' Hne; rewrite lookup_delete_ne by done; by apply Hk|].
    apply set_eq. intros c'. rewrite dom_delete_L, !elem_of_difference, !elem_of_dom, elem_of_singleton.
    split; intros [[z Hz'] Hne]; (split; [|done]); specialize (Hk c' Hne); rewrite Hz' in Hk.
    + destruct (h !! c'); [by eexists|done].
    + destruct (h2 !! c'); [by eexists|done].
Qed.
End own.

(** ** The life of a loop *)
Section life.
Context {P : Type} `{PollerInv P inv, !PollerHeap P inv, !PollerStatus P} (tid : Z).
#[local] Hint Extern 0 (Poller (dispatch * P)) => exact (loop_poller tid) : typeclass_instances.
#[local] Hint Extern 0 (PollerInv (dispatch * P) _) => exact (loop_poller_inv tid inv) : typeclass_instances.
#[local] Hint Extern 0 (PollerHeap (dispatch * P) _) => exact (loop_poller_heap tid inv) : typeclass_instances.
#[local] Hint Extern 0 (PollerStatus (dispatch * P)) => exact (loop_poller_status tid) : typeclass_instances.

Lemma own_kept c c' fd h h' r r' :
  own_channel c fd h r → others_kept c' h h' → c ≠ c' → reg r' !! fd = reg r !! fd → own_channel c fd h' r'.
Proof.
  intros [Hr (x & Hx & Hf)] Ho Hne Hr'. split; [by rewrite Hr'|]. specialize (Ho c Hne). rewrite Hx in Ho.
  destruct (h' !! c) as [x'|]; [|done]. injection Ho as Ho. exists x'. split; [done|congruence].
Qed.

(** What a new loop has registered. *)
Definition loop_registry (timerfd evtfd : Z) (c1 c2 : chan) : registry :=
  MkRegistry (<[evtfd := (c2, kReadEvent)]> {[timerfd := (c1, kReadEvent)]}) {[c2; c1]}.

Record loop_made (timerfd evtfd now : Z) (c1 c2 : chan) (o : loop_object) (h : heap) : Prop := MkMade {
  lm_inv : routed_inv tid inv (lo_poller o) h (loop_registry timerfd evtfd c1 c2);
  lm_timer : own_channel c1 timerfd h (loop_registry timerfd evtfd c1 c2);
  lm_wakeup : own_channel c2 evtfd h (loop_registry timerfd evtfd c1 c2);
  lm_dom : dom h = {[c2; c1]};
  lm_timers : lo_timers o = TimerQueue_new now;
  lm_timerfd : lo_timerfd_channel o = c1;
  lm_wakeupfd : lo_wakeup_channel o = c2;
}.

Lemma timer_queue_construct_ok timerfd c p :
  inv p ∅ (MkRegistry ∅ ∅) → 0 ≤ timerfd →
  ∃ p' h', TimerQueue_construct tid timerfd c (MkDispatch tid false [] None, p) ∅ = Ok (p', h') ∧
    routed_inv tid inv p' h' (MkRegistry {[timerfd := (c, kReadEvent)]} {[c]}) ∧
    own_channel c timerfd h' (MkRegistry {[timerfd := (c, kReadEvent)]} {[c]}) ∧ dom h' = {[c]}.
Proof.
  intros Hi Ht. unfold TimerQueue_construct, CreateTimerfd. replace (timerfd <? 0) with false by lia. cbn [mbind outcome_bind].
  destruct (register_ok (inv := routed_inv tid inv) (MkDispatch tid false [] None, p) ∅ (MkRegistry ∅ ∅) c timerfd)
    as (p' & h' & E & Hi' & Ho & _ & Hd); [done..|]. cbn [reg used] in Hi', Ho. rewrite (right_id_L ∅ (∪)) in Hi', Ho.
  rewrite insert_empty in Hi', Ho. exists p', h'. split; [done|]. split; [done|]. split; [done|].
  rewrite Hd, dom_empty_L. apply (right_id_L ∅ (∪)).
Qed.

Lemma construct_ok self timerfd evtfd now c1 c2 p threads :
  inv p ∅ (MkRegistry ∅ ∅) → c1 ≠ c2 → 0 ≤ timerfd → 0 ≤ evtfd → timerfd ≠ evtfd → threads !! tid = None →
  ∃ o h, EventLoop_construct tid self timerfd evtfd now c1 c2 p ∅ threads = Ok (o, h, <[tid := self]> threads) ∧
    loop_made timerfd evtfd now c1 c2 o h.
Proof.
  intros Hi Hc Ht He Hne Hth. destruct (timer_queue_construct_ok timerfd c1 p Hi Ht) as (p1 & h1 & E1 & Hi1 & Ho1 & Hd1).
  unfold EventLoop_construct. rewrite E1. cbn [mbind outcome_bind]. unfold CreateEventfd. replace (evtfd <? 0) with false by lia.
  cbn [mbind outcome_bind]. rewrite Hth.
  destruct (register_ok (inv := routed_inv tid inv) p1 h1 _ c2 evtfd Hi1) as (p2 & h2 & E2 & Hi2 & Ho2 & Hk & Hd2).
  { apply not_elem_of_dom. set_solver. }
  { cbn [used]. set_solver. }
  { done. }
  { cbn [reg]. by rewrite lookup_singleton_ne. }
  rewrite E2. cbn [mbind outcome_bind]. eexists _, h2. split; [done|]. split; cbn; try done.
  - eapply own_kept; [exact Ho1|exact Hk|done|]. cbn [loop_registry reg]. by rewrite lookup_insert_ne.
  - by rewrite Hd2, Hd1.
Qed.

(** C13: a loop lives in its thread.  On a thread without a loop the constructor
    succeeds: the thread then has this loop and the poller watches exactly the
    timer and the wake-up descriptor, for reading.  As long as it lives, a second
    loop in the thread is fatal.  Its destructor, in the same thread, fails no
    assertion, leaves nothing registered and no channel, and the thread free; in
    another thread it is fatal. *)
Theorem loop_lifetime self timerfd evtfd now c1 c2 p threads :
  inv p ∅ (MkRegistry ∅ ∅) → c1 ≠ c2 → 0 ≤ timerfd → 0 ≤ evtfd → timerfd ≠ evtfd → threads !! tid = None →
  ∃ o h, EventLoop_construct tid self timerfd evtfd now c1 c2 p ∅ threads = Ok (o, h, <[tid := self]> threads) ∧
    loop_made timerfd evtfd now c1 c2 o h ∧
    (∀ self' timerfd' evtfd' now' p', inv p' ∅ (MkRegistry ∅ ∅) → 0 ≤ timerfd' → 0 ≤ evtfd' →
       EventLoop_construct tid self' timerfd' evtfd' now' c1 c2 p' ∅ (<[tid := self]> threads) =
         Fail (FatalLog "Another EventLoop exists in this thread")) ∧
    (∃ p', EventLoop_destruct tid o h (<[tid := self]> threads) = Ok (p', ∅, threads) ∧ inv p' ∅ (MkRegistry ∅ {[c2; c1]})) ∧
    (∀ tid', tid' ≠ tid → EventLoop_destruct tid' o h (<[tid := self]> threads) = Fail (FatalLog "EventLoop::abortNotInLoopThread")).
Proof.
  intros Hi Hc Ht He Hne Hth. destruct (construct_ok self timerfd evtfd now c1 c2 p threads Hi Hc Ht He Hne Hth) as (o & h & E & Hm).
  exists o, h. split; [done|]. split; [done|]. split; [|split].
  - intros self' timerfd' evtfd' now' p' Hi' Ht' He'.
    destruct (timer_queue_construct_ok timerfd' c1 p' Hi' Ht') as (p1 & h1 & E1 & _).
    unfold EventLoop_construct. rewrite E1. cbn [mbind outcome_bind]. unfold CreateEventfd. replace (evtfd' <? 0) with false by lia.
    cbn [mbind outcome_bind]. by rewrite lookup_insert_eq.
  - destruct Hm as [Hr Htm Hw Hd _ Htc Hwc]. unfold EventLoop_destruct. rewrite Htc, Hwc.
    destruct (unregister_ok (inv := routed_inv tid inv) _ _ _ _ _ Hr Hw) as (p1 & h1 & p2 & h2 & -> & E2 & E3 & Hi2 & Hk & Hd2).
    cbn [mbind outcome_bind]. rewrite E2. cbn [mbind outcome_bind]. rewrite E3. cbn [mbind outcome_bind].
    cbn [loop_registry reg used] in Hi2. rewrite delete_insert_id in Hi2 by (by rewrite lookup_singleton_ne).
    assert (own_channel c1 timerfd (delete c2 h2) (MkRegistry {[timerfd := (c1, kReadEvent)]} {[c2; c1]})) as Ho.
    { eapply own_kept; [exact Htm|exact Hk|done|]. cbn [loop_registry reg]. by rewrite lookup_insert_ne. }
    destruct (unregister_ok (inv := routed_inv tid inv) _ _ _ _ _ Hi2 Ho) as (p3 & h3 & p4 & h4 & E4 & E5 & E6 & Hi4 & _ & Hd4).
    unfold TimerQueue_destruct. rewrite E4. cbn [mbind outcome_bind]. rewrite E5. cbn [mbind outcome_bind]. rewrite E6. cbn [mbind outcome_bind].
    assert (delete c1 h4 = ∅) as Hemp. { apply dom_empty_inv_L. rewrite Hd4, Hd2, Hd. set_solver. }
    rewrite Hemp in Hi4 |- *. rewrite delete_insert_id by done. exists p4.2. split; [done|].
    cbn [reg used] in Hi4. rewrite delete_singleton_eq in Hi4. apply Hi4.
  - intros tid' Ht'. destruct Hm as [(_ & Htd & _) _ [_ (x & Hx & _)] _ _ _ Hwc]. unfold EventLoop_destruct. rewrite Hwc.
    unfold DisableAll, change_events, Update, deref. rewrite Hx. cbn [mbind outcome_bind]. rewrite lookup_insert_eq. cbn [mbind outcome_bind].
    cbn [Channel.UpdateChannel loop_poller]. unfold EventLoop.UpdateChannel, AssertInLoopThread, IsInLoopThread. rewrite Htd.
    by replace (tid =? tid') with false by lia.
Qed.
End life.

(** ** Timers by delay *)
Section delays.
Context (alloc : gmap Z Timer → Z) (Hal : alloc_ok alloc).

Lemma add_int64_small a b : 0 ≤ a → 0 ≤ b → a + b ≤ time_max → add_int64 a b = Ok (a + b).
Proof. unfold time_max. intros. unfold add_int64. by rewrite bool_decide_true by lia. Qed.

(** A periodic timer is due one interval from now, and armed for it. *)
Lemma RunEvery_ok interval d cb q :
  queue_inv [] q → armed q → Timestamp_of_seconds interval = Ok d → 0 ≤ d → now_ q + d ≤ time_max →
  ∃ q' id, RunEvery alloc interval cb q = Ok (q', id) ∧ queue_inv [] q' ∧ armed q' ∧ now_ q' = now_ q.
Proof.
  intros Hi Ha Hd Hpos Hmax. pose proof (qi_clock _ _ Hi) as [? ?]. unfold RunEvery. rewrite Hd. cbn [mbind outcome_bind].
  rewrite add_int64_small by lia. cbn [mbind outcome_bind].
  destruct (AddTimer_ok (λ _, []) alloc cb (now_ q + d) d (double_lt zero interval) [] q) as (q' & id & -> & Hi' & Ha' & _ & _ & Hn & _);
    [done|split; lia|done|]. exists q', id. auto.
Qed.

(** So is one for once. *)
Lemma RunAfter_ok delay d cb q :
  queue_inv [] q → armed q → Timestamp_of_seconds delay = Ok d → 0 ≤ d → now_ q + d ≤ time_max →
  ∃ q' id, RunAfter alloc delay cb q = Ok (q', id) ∧ queue_inv [] q' ∧ armed q' ∧ now_ q' = now_ q.
Proof.
  intros Hi Ha Hd Hpos Hmax. pose proof (qi_clock _ _ Hi) as [? ?]. unfold RunAfter. rewrite Hd. cbn [mbind outcome_bind].
  rewrite add_int64_small by lia. cbn [mbind outcome_bind]. unfold RunAt.
  destruct (AddTimer_ok (λ _, []) alloc cb (now_ q + d) 0 false [] q) as (q' & id & -> & Hi' & Ha' & _ & _ & Hn & _);
    [done|split; [lia|unfold time_max in *; lia]|done|]. exists q', id. auto.
Qed.
End delays.

(** ** A loop over epoll in thread 1 *)
Lemma loop_lifetime_witness :
  ∃ o h, EventLoop_construct 1 7 3 4 100 1 2 (EPoll.EPollPoller_new (∅ : gmap Z (Z * chan))) ∅ ∅ = Ok (o, h, {[1 := 7]}) ∧
    EventLoop_construct 1 8 5 6 100 1 2 (EPoll.EPollPoller_new (∅ : gmap Z (Z * chan))) ∅ {[1 := 7]} =
      Fail (FatalLog "Another EventLoop exists in this thread") ∧
    (∃ p, EventLoop_destruct 1 o h {[1 := 7]} = Ok (p, ∅, ∅)) ∧
    EventLoop_destruct 2 o h {[1 := 7]} = Fail (FatalLog "EventLoop::abortNotInLoopThread").
Proof.
  assert (epoll_inv (EPoll.EPollPoller_new (∅ : gmap Z (Z * chan))) ∅ (MkRegistry ∅ ∅)) as Hi.
  { split; cbn; [apply common_empty; intros c x; by rewrite lookup_empty|intros fd c ev x; by rewrite lookup_empty|].
    intros fd _. by rewrite lookup_empty. }
  destruct (loop_lifetime (inv := epoll_inv) 1 7 3 4 100 1 2 (EPoll.EPollPoller_new (∅ : gmap Z (Z * chan))) ∅ Hi)
    as (o & h & H1 & _ & H2 & (p & H3 & _) & H4); [lia..|done|].
  exists o, h. split; [exact H1|]. split; [apply H2; [exact Hi|lia..]|]. split; [exists p; exact H3|]. apply H4. lia.
Defined.
