(* ===== verification/ServerBoot.v ===== *)
(** * The server from the ground up: [EventLoop], [HttpServer] and [Start]
    (http/http_server.cc, net/tcp_server.cc, net/acceptor.cc)

    What a program does before [Loop()]: a loop in its thread, the server with
    its acceptor and its tick, and [Start].  The theorem on the server of
    ServiceServing.v then holds from the first line of such a program on.  And
    what happens after [Loop()]: the destructor of the server. *)

From stdpp Require Import base tactics list numbers strings sets gmap.
From Stdlib Require Import ZArith Lia Ascii.
From S2P Require Import Prelude.
From S2P Require Import CString.
From S2P Require Import Buffer.
From S2P Require Import HttpRequest.
From S2P Require Import HttpContext.
From S2P Require Import HttpResponse.
From S2P Require Import Timing.
From S2P Require Import HttpServer.
From S2P Require Import Channel.
From S2P Require Import Poller.
From S2P Require Import EventLoop.
From S2P Require Import InetAddress.
From S2P Require Import TcpServer.
From S2P Require Import TcpConnection.
From S2P Require Import HttpConnection.
From S2P Require Import TimerQueue.
From S2P Require Import Units.
From S2P Require Import Seconds.
From S2P Require Import SharedLoop.
From S2P Require Import HttpService.
From S2P Require Import ServiceLifecycle.
From S2P Require Import ServiceRefinement.
From S2P Require Import ServiceServing.
From S2P Require Import Defaults.
From S2P Require Import LoopObject.

(** What the system answers while the server is set up: descriptors, the results
    of bind(2) and listen(2), the clock, and what the storage of the address
    holds before. *)
Record system := MkSystem {
  sys_timerfd : Z;
  sys_evtfd : Z;
  sys_sockfd : Z;
  sys_idlefd : Z;
  sys_bind : Z;
  sys_listen : Z;
  sys_now : Z;
  sys_junk : bytes;
}.

(** The callback of the server's tick. *)
Definition kOnTimer : Z := 0.

Section boot.
Context {P F T : Type} `{Poller P, FileSystem F, Timing T, Inet} (tid : Z) (alloc : gmap Z Timer → Z).
#[local] Hint Extern 0 (Poller (EventLoop.dispatch * P)) => exact (loop_poller tid) : typeclass_instances.

(** [Acceptor::Acceptor]: the channel [c] is made but not registered. *)
Definition Acceptor_construct (sys : system) (c : chan) (h : heap) : outcome (Acceptor * heap) :=
  fd ← CreateNonblockingOrDie (sys_sockfd sys);
  cassert "idle_fd_ >= 0" (0 <=? sys_idlefd sys);;
  BindOrDie (sys_bind sys);;
  Ok (MkAcceptor false (sys_idlefd sys) {[fd; sys_idlefd sys]}, <[c := Channel_new fd]> h).

(** [Acceptor::Listen]: listen(2), and the channel waits for connections. *)
Definition Acceptor_Listen (sys : system) (c : chan) (p : EventLoop.dispatch * P) (h : heap) : outcome (EventLoop.dispatch * P * heap) :=
  ListenOrDie (sys_listen sys);;
  EnableReading c p h.

(** [HttpServer::HttpServer]: the address, the acceptor and the tick every second. *)
Definition HttpServer_construct (sys : system) (config : HttpServerConfig) (c : chan) (q : TimerQueue) (h : heap)
    : outcome (bytes * Acceptor * TimerQueue * heap) :=
  port ← match port_ config with Some port => Ok port | None => Fail (UndefinedBehaviour "port_ is not initialised") end;
  ip_port ← InetAddress_ToIpPort (InetAddress_any port false false (sys_junk sys));
  '(acc, h) ← Acceptor_construct sys c h;
  '(q, _) ← RunEvery alloc (double_of 1) kOnTimer q;
  Ok (ip_port, acc, q, h).

(** [EventLoop loop; HttpServer server(&loop, name, &config); server.Start();]
    with the channels [first] and the two after it.  ([main] of
    mytinyhttpd/mytinyhttpd.cc also sets eight pool threads before [Start].) *)
Definition boot (sys : system) (self : loop) (name : bytes) (config : HttpServerConfig) (files : F) (timing : T)
    (first : chan) (poller : P) (threads : gmap Z Z) : outcome (service (EventLoop.dispatch * P) F T * TimerQueue * gmap Z Z) :=
  '(o, h, threads) ← EventLoop_construct tid self (sys_timerfd sys) (sys_evtfd sys) (sys_now sys) first (first + 1) poller ∅ threads;
  '(ip_port, acc, q, h) ← HttpServer_construct sys config (first + 2) (lo_timers o) h;
  '(p, h) ← Acceptor_Listen sys (first + 2) (lo_poller o) h;
  v ← service_start self ip_port name acc p h files timing (first + 3);
  Ok (v, q, threads).
End boot.

(** ** The destructor *)
Section destructor.
Context {P F T : Type} `{Poller P, FileSystem F, Timing T}.
Implicit Types v : service P F T.

(** The members go in the reverse order of their declaration: [timing_] is gone
    when [~TcpServer] destroys the connections, whose callback still uses it. *)
Definition gone_timing (w : world (P * TcpServer * session F T)) : outcome (world (P * TcpServer * session F T)) :=
  Fail (UndefinedBehaviour "timing_ after its destruction").

(** [~TcpServer] in the loop's thread; [order] are the connections of the map. *)
Fixpoint destroy_connections (order : list chan) v : outcome (service P F T) :=
  match order with
  | [] => Ok v
  | c :: order => v ← with_peer c (λ _, ConnectDestroyed gone_timing) v; destroy_connections order v
  end.

(** [~Acceptor], and then its members: the channel and the socket. *)
Definition Acceptor_destruct (acceptfd : Z) (c : chan) (acc : Acceptor) (p : P) (h : heap) : outcome (P * heap * gset Z) :=
  '(p, h) ← DisableAll c p h;
  '(p, h) ← Remove c p h;
  h ← Channel_destroy c p h;
  Ok (p, h, open_fds acc ∖ {[idle_fd_ acc; acceptfd]}).
End destructor.

(** The acceptor leaves nothing behind: neither a registration nor a channel nor
    a descriptor. *)
Lemma acceptor_destruct_ok `{PollerInv P inv, !PollerHeap P inv, !PollerStatus P} p h r c acceptfd acc :
  inv p h r → own_channel c acceptfd h r → open_fds acc = {[acceptfd; idle_fd_ acc]} →
  ∃ p' h', Acceptor_destruct acceptfd c acc p h = Ok (p', h', ∅) ∧
    inv p' h' (MkRegistry (delete acceptfd (reg r)) (used r)) ∧ dom h' = dom h ∖ {[c]}.
Proof.
  intros Hi Ho Hf. destruct (unregister_ok p h r c acceptfd Hi Ho) as (p1 & h1 & p2 & h2 & E1 & E2 & E3 & Hi2 & _ & Hd).
  exists p2, (delete c h2). split; [|done]. unfold Acceptor_destruct. rewrite E1. cbn [mbind outcome_bind]. rewrite E2. cbn [mbind outcome_bind].
  rewrite E3. cbn [mbind outcome_bind]. rewrite Hf. repeat f_equal. set_solver.
Qed.

(** ** The boot succeeds *)

(** [InetAddress(port)] prints as the address of every interface and the port. *)
Lemma any_ip_port `{InetLaws} port junk :
  0 ≤ port < 65536 → zlen junk = 28 →
  InetAddress_ToIpPort (InetAddress_any port false false junk) = Ok (inet_ntop4 (replicate 4 NUL) ++ str ":" ++ fmt_u port) ∧
  zlen (inet_ntop4 (replicate 4 NUL) ++ str ":" ++ fmt_u port) ≤ 51.
Proof.
  intros Hp Hj. assert (InetAddress_any port false false junk =
    set_sin_addr (replicate 4 NUL) (set_port (HostToNetwork16 port) (set_family AF_INET (bzero 16 junk)))) as ->.
  { unfold InetAddress_any. rewrite <-v4_any. destruct (two_bytes (HostToNetwork16 port)) as (a & b & E). unfold set_port. by rewrite E. }
  destruct (v4_stores (replicate 4 NUL) port junk) as [Hl Hf Hpo Ha]; [done..|]. set (addr := set_sin_addr _ _) in *. split.
  - rewrite InetAddress_ToIpPort_text by (done || by left). unfold ip_port_text, ip_text. by rewrite Hf, Hpo, Ha.
  - pose proof (ntop4_size (replicate 4 NUL) eq_refl) as Hs. pose proof (fmt_port_size port Hp). unfold INET_ADDRSTRLEN in Hs.
    rewrite !zlen_app. change (zlen (str ":")) with 1. lia.
Qed.

Section boots.
Context {P F T : Type} `{PollerInv P inv, !PollerHeap P inv, !PollerStatus P, FileSystem F, TimingOrderly T, InetLaws}.
Context (tid : Z) (alloc : gmap Z Timer → Z) (Hal : alloc_ok alloc).
#[local] Hint Extern 0 (Poller (EventLoop.dispatch * P)) => exact (loop_poller tid) : typeclass_instances.
#[local] Hint Extern 0 (PollerInv (EventLoop.dispatch * P) _) => exact (loop_poller_inv tid inv) : typeclass_instances.
#[local] Hint Extern 0 (PollerHeap (EventLoop.dispatch * P) _) => exact (loop_poller_heap tid inv) : typeclass_instances.
#[local] Hint Extern 0 (PollerStatus (EventLoop.dispatch * P)) => exact (loop_poller_status tid) : typeclass_instances.

(** What a system that works answers. *)
Record system_ok (sys : system) : Prop := MkSystemOk {
  so_timerfd : 0 ≤ sys_timerfd sys;
  so_evtfd : 0 ≤ sys_evtfd sys;
  so_sockfd : 0 ≤ sys_sockfd sys;
  so_idlefd : 0 ≤ sys_idlefd sys;
  so_distinct : sys_timerfd sys ≠ sys_evtfd sys ∧ sys_timerfd sys ≠ sys_sockfd sys ∧ sys_evtfd sys ≠ sys_sockfd sys;
  so_bind : 0 ≤ sys_bind sys;
  so_listen : 0 ≤ sys_listen sys;
  so_now : 0 < sys_now sys ∧ sys_now sys + 1000000 ≤ time_max;
  so_junk : zlen (sys_junk sys) = 28;
}.

(** The descriptors that a connection cannot have. *)
Definition reserved_fds (sys : system) : gset Z := {[sys_timerfd sys; sys_evtfd sys; sys_sockfd sys]}.

Lemma tick_timer_ok now : 0 < now → now + 1000000 ≤ time_max →
  ∃ q id, RunEvery alloc (double_of 1) kOnTimer (TimerQueue_new now) = Ok (q, id) ∧ queue_inv [] q ∧ armed q ∧ now_ q = now.
Proof.
  intros Hn Hm. destruct (RunEvery_ok alloc Hal (double_of 1) 1000000 kOnTimer (TimerQueue_new now)) as (q & id & E & Hi & Ha & Hnow);
    [apply new_queue_inv; lia|done|exact tick_delay|lia|exact Hm|].
  exists q, id. split; [exact E|]. split; [exact Hi|]. split; [exact Ha|exact Hnow].
Qed.

Lemma boot_ready sys self name config port (files : F) (timing : T) first p threads :
  system_ok sys → port_ config = Some port → 0 ≤ port < 65536 → inv p ∅ (MkRegistry ∅ ∅) → threads !! tid = None →
  ∃ ip_port acc p' h q,
    boot tid alloc sys self name config files timing first p threads =
      (v ← service_start self ip_port name acc p' h files timing (first + 3); Ok (v, q, <[tid := self]> threads)) ∧
    loop_ready (inv := routed_inv tid inv) (reserved_fds sys) p' h (first + 3) ∧ zlen ip_port ≤ 51 ∧
    queue_inv [] q ∧ armed q.
Proof.
  intros [] Hport Hrange Hi Hth. destruct so_distinct0 as (Hd1 & Hd2 & Hd3).
  destruct (construct_ok (inv := inv) tid self (sys_timerfd sys) (sys_evtfd sys) (sys_now sys) first (first + 1) p threads)
    as (o & h & E & [Hr Htm Hw Hd Hti _ _]); [done|lia|done|done|done|done|].
  destruct (any_ip_port port (sys_junk sys)) as [Eip Hip]; [done..|]. set (ip_port := _ ++ _) in *.
  destruct (tick_timer_ok (sys_now sys)) as (q & id & Eq & Hq & Ha & _); [lia..|].
  destruct (register_ok (inv := routed_inv tid inv) (lo_poller o) h _ (first + 2) (sys_sockfd sys) Hr)
    as (p' & h' & E' & Hr' & Ho & Hk & Hd').
  { apply not_elem_of_dom. rewrite Hd, not_elem_of_union, !not_elem_of_singleton. lia. }
  { cbn [loop_registry used]. rewrite not_elem_of_union, !not_elem_of_singleton. lia. }
  { done. }
  { cbn [loop_registry reg]. by rewrite lookup_insert_ne, lookup_singleton_ne. }
  exists ip_port. eexists. exists p', h', q. split; [|split; [|split; [exact Hip|split; [exact Hq|exact Ha]]]].
  - unfold boot. rewrite E. cbn [mbind outcome_bind]. unfold HttpServer_construct. rewrite Hport. cbn [mbind outcome_bind]. rewrite Eip.
    cbn [mbind outcome_bind]. unfold Acceptor_construct, CreateNonblockingOrDie, BindOrDie, or_die.
    replace (sys_sockfd sys <? 0) with false by lia. replace (0 <=? sys_idlefd sys) with true by lia. replace (sys_bind sys <? 0) with false by lia.
    cbn [cassert mbind outcome_bind]. rewrite Hti, Eq. cbn [mbind outcome_bind].
    unfold Acceptor_Listen, ListenOrDie, or_die. replace (sys_listen sys <? 0) with false by lia. cbn [mbind outcome_bind].
    rewrite E'. cbn [mbind outcome_bind]. reflexivity.
  - clear E Eq E' Eip. split. eexists. split; [exact Hr'|]. split; [|split].
    + cbn [loop_registry reg]. unfold reserved_fds. rewrite !dom_insert_L, dom_singleton_L. set_solver.
    + intros c ch Hch. assert (c ∈ dom h') as Hc by (by eapply elem_of_dom_2). cbn [loop_registry used]. split; [set_solver|].
      destruct (decide (c = first + 2)) as [->|Hne].
      * destruct (oc_flags _ _ _ _ Ho) as (x & Hx & Hf). congruence.
      * specialize (Hk c Hne). rewrite Hch in Hk.
        assert (c = first ∨ c = first + 1) as [->| ->] by set_solver.
        -- destruct (oc_flags _ _ _ _ Htm) as (x & Hx & Hf). rewrite Hx in Hk. cbn in Hk. congruence.
        -- destruct (oc_flags _ _ _ _ Hw) as (x & Hx & Hf). rewrite Hx in Hk. cbn in Hk. congruence.
    + intros c Hc. cbn [loop_registry used]. split; [apply not_elem_of_dom; rewrite Hd', Hd|];
      rewrite !not_elem_of_union, !not_elem_of_singleton; lia.
Qed.
End boots.

(** ** The end of the server *)
Section end_of_server.
Context {P F T : Type} `{Poller P, FileSystem F, Timing T}.
Implicit Types v : service P F T.

Lemma destroy_connected_fails (w : world (P * TcpServer * session F T)) :
  state_ (conn w) = kConnected → ∃ f, ConnectDestroyed gone_timing w = Fail f.
Proof.
  intros Hst. unfold ConnectDestroyed. rewrite bool_decide_true by done.
  destruct (on_channel DisableAll (SetState kDisconnected w)); cbn; by eexists.
Qed.

Lemma with_peer_others c c' f v v' : with_peer c f v = Ok v' → c' ≠ c → v_peers v' !! c' = v_peers v !! c'.
Proof.
  intros E Hne. unfold with_peer in E. destruct (v_peers v !! c) as [x|]; [|done].
  apply bind_Ok in E as (w & _ & [= <-]). cbn. by rewrite lookup_insert_ne.
Qed.

(** A server cannot be destroyed while a connection is up.  Whatever the state
    of the others and the order of the map, as soon as it has a connection in
    state kConnected, [~HttpServer] does not return: [timing_] was declared last
    and is destroyed first, and the connection callback that [~TcpServer] makes
    each connection call uses it. *)
Theorem server_destructor_undefined order v c x :
  c ∈ order → v_peers v !! c = Some x → state_ (p_conn x) = kConnected → ∃ f, destroy_connections order v = Fail f.
Proof.
  revert v. induction order as [|c' order IH]; intros v Hc Hx Hst; [by apply elem_of_nil in Hc|]. cbn [destroy_connections].
  destruct (decide (c' = c)) as [->|Hne].
  - unfold with_peer at 1. rewrite Hx. destruct (destroy_connected_fails (load x v)) as [f ->]; [done|]. by exists f.
  - destruct (with_peer c' _ v) as [v'|f] eqn:E; cbn [mbind outcome_bind]; [|by exists f].
    apply IH; [set_solver| |done]. by rewrite (with_peer_others _ _ _ _ _ E).
Qed.
End end_of_server.

(** ** A program: two connections, a default poller, the timing list *)
Definition sample_system : system := MkSystem 3 4 5 6 0 0 1000000 (replicate 28 NUL).
Definition sample_getenv (name : bytes) : option bytes := None.

Lemma sample_system_ok : system_ok sample_system.
Proof. split; cbn; unfold time_max; lia || done. Qed.

