(* ===== verification/ConnectionApi.v ===== *)
(** * The rest of [TcpConnection] (net/tcp_connnection.h, net/tcp_connnection.cc)

    The overloads of [Send] and [SendInLoop], the default callbacks, the setters
    of the callbacks, and what the kernel says of the connection; and when the
    callback for much buffered output is queued. *)

From stdpp Require Import base tactics list numbers strings sets gmap.
From Stdlib Require Import ZArith Lia Ascii.
From S2P Require Import Prelude.
From S2P Require Import CString.
From S2P Require Import Buffer.
From S2P Require Import Channel.
From S2P Require Import Poller.
From S2P Require Import TcpConnection.
From S2P Require Import HttpConnection.
From S2P Require Import InetAddress.

(** ** The setters and the callbacks *)
Section api.
Context {P : Type} `{Poller P, Inet}.
Implicit Types w : world P.

Definition SetWriteCompleteCallback (cb : bool) w : world P :=
  let c := conn w in
  set_conn (MkConn (state_ c) (is_reading_ c) (channel_ c) cb (has_high_water_mark_callback c) (high_water_mark_ c)
              (input_buffer_ c) (output_buffer_ c)) w.

Definition SetHighWaterMarkCallback (cb : bool) (high_water_mark : Z) w : world P :=
  let c := conn w in
  set_conn (MkConn (state_ c) (is_reading_ c) (channel_ c) (has_write_complete_callback c) cb high_water_mark
              (input_buffer_ c) (output_buffer_ c)) w.

(** The line that [DefaultConnectionCallback] logs. *)
Definition DefaultConnectionCallback (local_addr peer_addr : bytes) w : outcome bytes :=
  local ← InetAddress_ToIpPort local_addr;
  remote ← InetAddress_ToIpPort peer_addr;
  Ok (local ++ str " -> " ++ remote ++ str " is " ++ (if IsConnected w then str "UP" else str "DOWN")).

(** [DefaultMessageCallback(conn, buf, time)] drops what arrived. *)
Definition DefaultMessageCallback (receive_time : Z) w : outcome (world P) :=
  Ok (set_input (RetrieveAll (input_buffer_ (conn w))) w).

(** [GetTcpInfoString()]: an array of 1024 characters, empty at first. *)
Definition Conn_GetTcpInfoString (info : option tcp_info) (junk : bytes) : bytes :=
  c_string (GetTcpInfoString info 1024 (zstore 0 [NUL] junk)).2.

Definition Conn_SetTcpNoDelay (on : bool) (o : sock_options) : sock_options := SetTcpNoDelay on o.

(** ** The overloads *)

(** [Send(const void* data, int len)]: the length becomes a [size_t]. *)
Definition Send_data (connection_callback_ close_callback_ : world P → outcome (world P))
    (in_loop_thread : bool) (data : bytes) (len : Z) w : outcome (world P) :=
  if bool_decide (0 ≤ len ≤ zlen data)
  then Send connection_callback_ close_callback_ in_loop_thread (ztake len data) w
  else Fail (UndefinedBehaviour "Slice behind the end of the data").

(** [SendInLoop(std::string&&)] and [SendInLoop(const Slice&)]. *)
Definition SendInLoop_string (message : bytes) w : outcome (world P) := SendInLoop message w.

(** [SendInLoop(Buffer&& message)]: [HasWritten] on the buffer it has sent. *)
Definition SendInLoop_Buffer (message : Buffer) w : outcome (world P * Buffer) :=
  w ← SendInLoop (contents message) w;
  message ← HasWritten (readable_bytes message) message;
  Ok (w, message).
End api.

Section theorems.
Context {P : Type} `{Poller P}.
Implicit Types w : world P.

(** A buffer sent as an rvalue is not emptied but grows.  [SendInLoop(Buffer&&)]
    calls [HasWritten] where the bytes should be retrieved: on a buffer with as
    much room as content, what was sent is still readable afterwards, followed by
    as many bytes of whatever the block holds; on a fuller one the assertion of
    [HasWritten] fails. *)
Theorem send_buffer_doubled message w w' :
  wf message → SendInLoop (contents message) w = Ok w' →
  (readable_bytes message ≤ writable_bytes message →
     ∃ m', SendInLoop_Buffer message w = Ok (w', m') ∧ zlen (contents m') = 2 * zlen (contents message) ∧
       ztake (zlen (contents message)) (contents m') = contents message) ∧
  (writable_bytes message < readable_bytes message →
     SendInLoop_Buffer message w = Fail (AssertionFailed "len <= writable_bytes()")).
Proof.
  intros Hwf Hs. unfold SendInLoop_Buffer. rewrite Hs. cbn [mbind outcome_bind]. unfold HasWritten. split.
  - intros Hle. replace (_ <=? _) with true by lia. cbn [cassert mbind outcome_bind]. eexists. split; [done|].
    rewrite (zlen_contents message) by done. rewrite readable_bytes_wf, writable_bytes_wf in Hle by done. rewrite readable_bytes_wf by done.
    destruct Hwf as [H1 H2 H3 H4 H5]. unfold capacity in *. destruct message as [m n r i]. cbn in *.
    assert (i +# (i - r) = i + (i - r)) as Hadd by (apply add64_small; unfold vector_max_size in *; lia).
    unfold contents, range. cbn [reader_index_ writer_index_ mem]. rewrite Hadd. split.
    + rewrite zlen_zsub; lia.
    + by rewrite ztake_zsub by lia.
  - intros Hlt. by replace (_ <=? _) with false by lia.
Qed.

Lemma on_channel_same f w w' : on_channel f w = Ok w' → conn w' = conn w ∧ tasks w' = tasks w.
Proof. unfold on_channel. intros E. by inv_ok. Qed.

(** The callback is queued with the change of the buffer that crosses the mark. *)
Definition crossing (w w' : world P) : list task :=
  let old_len := zlen (contents (output_buffer_ (conn w))) in
  let new_len := zlen (contents (output_buffer_ (conn w'))) in
  if (old_len <? high_water_mark_ (conn w)) && (high_water_mark_ (conn w) <=? new_len) then [HighWaterMarkTask new_len] else [].

Lemma no_crossing w w' : conn w' = conn w → crossing w w' = [].
Proof.
  intros E. unfold crossing. rewrite E. cbv zeta. set (n := zlen _). set (mark := high_water_mark_ _).
  destruct (Z.ltb_spec n mark); [|done]. by replace (mark <=? n) with false by lia.
Qed.

(** What the socket did not take goes to the buffer. *)
Lemma send_rest_tasks rest w w' :
  good (output_buffer_ (conn w)) → room (output_buffer_ (conn w)) (zlen rest) → has_high_water_mark_callback (conn w) = true →
  (let old_len := readable_bytes (output_buffer_ (conn w)) in
   let w := if (high_water_mark_ (conn w) <=? old_len + zlen rest) && (old_len <? high_water_mark_ (conn w))
               && has_high_water_mark_callback (conn w)
            then QueueInLoop (HighWaterMarkTask (old_len + zlen rest)) w else w in
   b ← Append rest (output_buffer_ (conn w));
   let w := set_output b w in
   writing ← channel_is IsWriting w;
   if negb writing then on_channel EnableWriting w else Ok w) = Ok w' →
  tasks w' = tasks w ++ crossing w w'.
Proof.
  intros Hg Hr Hh E. unfold crossing. cbv zeta in *. rewrite Hh, andb_true_r in E. rewrite <-zlen_contents in E by apply Hg.
  set (n := zlen (contents (output_buffer_ (conn w)))) in *. set (mark := high_water_mark_ (conn w)) in *.
  set (w1 := if _ && _ then _ else _) in E. assert (conn w1 = conn w) as Hw1 by (unfold w1; by destruct (_ && _)).
  rewrite Hw1 in E. destruct (Append_good rest (output_buffer_ (conn w)) Hg Hr) as (b & Eb & _ & Hc & _). rewrite Eb in E.
  cbn [mbind outcome_bind] in E. apply bind_Ok in E as (writing & _ & E).
  assert (conn w' = conn (set_output b w1) ∧ tasks w' = tasks w1) as [Hcw Htw].
  { destruct (negb writing); [exact (on_channel_same _ _ _ E)|by injection E as <-]. }
  rewrite Htw, Hcw. cbn. rewrite Hc, zlen_app. fold n. unfold w1. rewrite (andb_comm (n <? mark)).
  destruct (_ && _); cbn; [done|by rewrite app_nil_r].
Qed.

Lemma send_finish_tasks data n remaining fault w w0 w' :
  good (output_buffer_ (conn w)) → room (output_buffer_ (conn w)) (zlen data) → has_high_water_mark_callback (conn w) = true →
  conn w0 = conn w → tasks w0 = tasks w → 0 ≤ n ≤ zlen data → remaining = zlen data - n →
  (cassert "remaining <= len" (remaining <=? zlen data);;
   if negb fault && (0 <? remaining) then
     let old_len := readable_bytes (output_buffer_ (conn w0)) in
     let w := if (high_water_mark_ (conn w0) <=? old_len + remaining) && (old_len <? high_water_mark_ (conn w0))
                 && has_high_water_mark_callback (conn w0)
              then QueueInLoop (HighWaterMarkTask (old_len + remaining)) w0 else w0 in
     b ← Append (zdrop n data) (output_buffer_ (conn w));
     let w := set_output b w in
     writing ← channel_is IsWriting w;
     if negb writing then on_channel EnableWriting w else Ok w
   else Ok w0) = Ok w' → tasks w' = tasks w ++ crossing w w'.
Proof.
  intros Hg Hr Hh Hc Ht Hn -> E. replace (_ <=? zlen data) with true in E by lia. cbn [cassert mbind outcome_bind] in E.
  destruct (negb fault && _).
  - assert (zlen data - n = zlen (zdrop n data)) as Hz by (rewrite zlen_zdrop; lia). rewrite Hz in E.
    assert (crossing w w' = crossing w0 w') as -> by (unfold crossing; by rewrite Hc).
    rewrite <-Ht. apply (send_rest_tasks (zdrop n data)); [by rewrite Hc| |by rewrite Hc|exact E].
    rewrite Hc. unfold room in *. rewrite <-Hz. lia.
  - injection E as <-. by rewrite no_crossing, app_nil_r.
Qed.

(** The callback for much buffered output is queued when the mark is crossed.
    Whatever the socket takes, [SendInLoop] queues it exactly when the output
    buffer held less than the mark before and holds at least the mark after, once
    and with the number of bytes now buffered. *)
Theorem high_water_mark_crossing data w w' :
  good (output_buffer_ (conn w)) → room (output_buffer_ (conn w)) (zlen data) →
  has_high_water_mark_callback (conn w) = true → has_write_complete_callback (conn w) = false →
  SendInLoop data w = Ok w' →
  tasks w' = tasks w ++ crossing w w'.
Proof.
  intros Hg Hr Hh Hc E. pose proof (zlen_nonneg data) as Hd.
  unfold SendInLoop in E. case_bool_decide; [injection E as <-; by rewrite no_crossing, app_nil_r|].
  apply bind_Ok in E as (writing & _ & E). destruct (negb writing && _).
  - unfold socket_Write in E. destruct (kernel w) as [|[m|e] k]; cbn [Z.leb Z.compare] in E.
    + apply (send_finish_tasks data 0 (zlen data) _ w _ w' Hg Hr Hh) in E; (done || lia).
    + replace (0 <=? Z.max 0 (Z.min m (zlen data))) with true in E by lia. cbn [conn] in E. rewrite Hc, andb_false_r in E.
      apply (send_finish_tasks data (Z.max 0 (Z.min m (zlen data))) _ _ w _ w' Hg Hr Hh) in E; (done || lia).
    + apply (send_finish_tasks data 0 (zlen data) _ w _ w' Hg Hr Hh) in E; (done || lia).
  - apply (send_finish_tasks data 0 (zlen data) false w _ w' Hg Hr Hh) in E; (done || lia).
Qed.
End theorems.
