(* ===== verification/Descriptors.v ===== *)
(** * Flags of descriptors, and SIGPIPE (net/socket_ops.cc, net/event_loop.cc)

    Sockets must not block their loop and must not be inherited by other programs.
    With accept4(2) and the flags of socket(2) the kernel sees to it at once; built
    with VALGRIND or NO_ACCEPT4 the code sets the flags afterwards.  The table of
    descriptors behaves as fcntl(2), socket(2) and accept4(2) document; in that build
    the calls that set the flags also hide why accept(2) failed.  A write to
    a connection that the peer has reset raises SIGPIPE, which the library ignores
    from before [main] on. *)

From stdpp Require Import base tactics list numbers strings gmap.
From Stdlib Require Import ZArith Lia.
From S2P Require Import Prelude.
From S2P Require Import Channel.
From S2P Require Import TcpConnection.
From S2P Require Import CString.
From S2P Require Import InetAddress.

(** ** Flags *)
Definition O_RDWR : Z := 2.
Definition O_NONBLOCK : Z := 2048.
Definition FD_CLOEXEC : Z := 1.
Definition SOCK_STREAM : Z := 1.
Definition SOCK_NONBLOCK : Z := 2048.
Definition SOCK_CLOEXEC : Z := 524288.

(** An open descriptor: file status flags and descriptor flags. *)
Record descriptor := MkDescriptor { status_flags : Z; fd_flags : Z }.
Abbreviation descriptors := (gmap Z descriptor).
Implicit Types t : descriptors.

Definition fcntl_getfl (fd : Z) t : Z := match t !! fd with Some d => status_flags d | None => -1 end.
Definition fcntl_setfl (fd flags : Z) t : descriptors := alter (λ d, MkDescriptor flags (fd_flags d)) fd t.
Definition fcntl_getfd (fd : Z) t : Z := match t !! fd with Some d => fd_flags d | None => -1 end.
Definition fcntl_setfd (fd flags : Z) t : descriptors := alter (λ d, MkDescriptor (status_flags d) flags) fd t.

(** socket(2), and accept4(2), that gave [fd] for [type]. *)
Definition open_socket (fd type : Z) t : descriptors :=
  <[fd := MkDescriptor (if has type SOCK_NONBLOCK then Z.lor O_RDWR O_NONBLOCK else O_RDWR)
            (if has type SOCK_CLOEXEC then FD_CLOEXEC else 0)]> t.

Definition SetNonBlockAndCloseOnExec (sockfd : Z) t : descriptors :=
  let flags := fcntl_getfl sockfd t in
  let flags := Z.lor flags O_NONBLOCK in
  let t := fcntl_setfl sockfd flags t in
  let flags := fcntl_getfd sockfd t in
  let flags := Z.lor flags FD_CLOEXEC in
  fcntl_setfd sockfd flags t.

(** [CreateNonblockingOrDie] in the two builds; socket(2) gives [sockfd]. *)
Definition create_socket (valgrind : bool) (sockfd : Z) t : descriptors :=
  if valgrind then SetNonBlockAndCloseOnExec sockfd (open_socket sockfd SOCK_STREAM t)
  else open_socket sockfd (Z.lor SOCK_STREAM (Z.lor SOCK_NONBLOCK SOCK_CLOEXEC)) t.

(** [Accept] in the two builds; accept(2) or accept4(2) gives [connfd]. *)
Definition accept_socket (no_accept4 : bool) (connfd : Z) t : descriptors :=
  if no_accept4 then SetNonBlockAndCloseOnExec connfd (open_socket connfd 0 t)
  else open_socket connfd (Z.lor SOCK_NONBLOCK SOCK_CLOEXEC) t.

Lemma set_flags_spec fd t d :
  t !! fd = Some d →
  SetNonBlockAndCloseOnExec fd t = <[fd := MkDescriptor (Z.lor (status_flags d) O_NONBLOCK) (Z.lor (fd_flags d) FD_CLOEXEC)]> t.
Proof.
  intros Hd. unfold SetNonBlockAndCloseOnExec, fcntl_getfl. rewrite Hd. unfold fcntl_setfd, fcntl_getfd, fcntl_setfl.
  rewrite lookup_alter_eq, Hd. cbn [fmap option_fmap option_map status_flags fd_flags].
  apply map_eq. intros fd'. destruct (decide (fd' = fd)) as [->|Hne].
  - by rewrite !lookup_alter_eq, lookup_insert_eq, Hd.
  - by rewrite !lookup_alter_ne, lookup_insert_ne by done.
Qed.

(** Both builds make the same descriptor, and touch no other. *)
Theorem builds_agree fd t :
  create_socket true fd t = create_socket false fd t ∧ accept_socket true fd t = accept_socket false fd t ∧
  create_socket false fd t = accept_socket false fd t ∧
  accept_socket false fd t !! fd = Some (MkDescriptor (Z.lor O_RDWR O_NONBLOCK) FD_CLOEXEC) ∧
  ∀ fd', fd' ≠ fd → accept_socket false fd t !! fd' = t !! fd'.
Proof.
  unfold create_socket, accept_socket. assert (∀ ty, open_socket fd ty t !! fd = Some (MkDescriptor
    (if has ty SOCK_NONBLOCK then Z.lor O_RDWR O_NONBLOCK else O_RDWR) (if has ty SOCK_CLOEXEC then FD_CLOEXEC else 0))) as Ho.
  { intros ty. apply lookup_insert_eq. }
  rewrite !(set_flags_spec fd _ _ (Ho _)). unfold open_socket. rewrite !insert_insert_eq. split_and!; try done.
  - apply lookup_insert_eq.
  - intros fd' Hne. by apply lookup_insert_ne.
Qed.

(** ** A failed accept *)

(** What [errno] holds after fcntl(2): EBADF when the descriptor is not open. *)
Definition fcntl_errno (fd : Z) t (errno : Z) : Z := if t !! fd is Some _ then errno else EBADF.

(** [Accept] in the two builds, down to its switch: without accept4(2) the four
    calls of [SetNonBlockAndCloseOnExec] come before [errno] is read. *)
Definition accept_in_build (no_accept4 : bool) (answer : accept_answer) (addr : bytes) t : outcome (Z * bytes) :=
  match answer with
  | AcceptError e => Accept (AcceptError (if no_accept4 then Nat.iter 4 (fcntl_errno (-1) t) e else e)) addr
  | AcceptedFd _ _ => Accept answer addr
  end.

(** No descriptor is -1, so in that build an error that passes in the other one,
    such as EAGAIN or EMFILE, ends the program. *)
Theorem failed_accept_aborts e addr t :
  t !! (-1) = None → e ∈ accept_transient →
  accept_in_build false (AcceptError e) addr t = Ok (-1, addr) ∧
  accept_in_build true (AcceptError e) addr t = Fail (FatalLog "unexpected error of ::accept").
Proof.
  intros Ht He. unfold accept_in_build, Accept. split; [by rewrite bool_decide_eq_true_2|].
  assert (∀ n, fcntl_errno (-1) t n = EBADF) as Hbad by (intros n; unfold fcntl_errno; by rewrite Ht).
  simpl. by rewrite Hbad.
Qed.

(** ** SIGPIPE *)
Inductive disposition := SIG_DFL | SIG_IGN.
Definition SIGPIPE : Z := 13.
Implicit Types d : gmap Z disposition.

(** The constructor of the global object [detail::ignore]. *)
Definition IgnoreSigPipe d : gmap Z disposition := <[SIGPIPE := SIG_IGN]> d.

(** write(2) to a socket whose connection is gone. *)
Definition write_broken d : outcome write_answer :=
  match default SIG_DFL (d !! SIGPIPE) with
  | SIG_DFL => Fail (Exception "killed by SIGPIPE")
  | SIG_IGN => Ok (WriteError EPIPE)
  end.

(** With it such a write is a fault that [SendInLoop] handles; without it the
    server would end. *)
Theorem broken_write_is_a_fault :
  write_broken ∅ = Fail (Exception "killed by SIGPIPE") ∧
  ∀ d, ∃ a, write_broken (IgnoreSigPipe d) = Ok a ∧ is_fault a = true.
Proof.
  split; [done|]. intros d. exists (WriteError EPIPE). unfold write_broken, IgnoreSigPipe. by rewrite lookup_insert_eq.
Qed.
