(* ===== verification/HttpText.v ===== *)
(** * Status codes, and requests as text (http/http_response.h,
    http/http_request.h, http/http_request.cc), and the setters of
    http/http_server.h *)

From stdpp Require Import base tactics list numbers strings sets gmap sorting.
From Stdlib Require Import ZArith Lia Ascii.
From S2P Require Import Prelude.
From S2P Require Import CString.
From S2P Require Import Buffer.
From S2P Require Import HttpRequest.
From S2P Require Import HttpResponse.
From S2P Require Import HttpServer.
From S2P Require Import TcpServer.
From S2P Require Import Calendar.

(** ** [HttpResponse::HttpStatusCode] *)
Module Status.
Inductive HttpStatusCode :=
| kUnknown
| k100Continue | k101SwitchingProtocols
| k200Ok | k201Created | k202Accepted | k203NonAuthoritativeInformation | k204NoContent | k205ResetContent | k206PartialContent
| k300MultipleChoices | k301MovedPermanently | k302Found | k303SeeOther | k304NotModified | k305UseProxy | k307TemporaryRedirect
| k400BadRequest | k401Unauthorized | k402PaymentRequired | k403Forbidden | k404NotFound | k405MethodNotAllowd
| k406NotAcceptable | k407ProxyAuthenticationRequired | k408RequestTimeout | k409Conflict | k410Conflict | k411LengthRequired
| k412PreconditionFailed | k413RequestEntityTooLarge | k414RequestUrlTooLong | k415UnsupportedMediaType
| k416RequestedRangeNotSatisfiable | k417ExpectationFailed
| k500InternalServerError | k501NotImplemented | k502BadGateway | k503ServiceUnavailable | k504GatewayTimeout
| k505HttpVersionNotSupported.

Definition status_value (s : HttpStatusCode) : Z :=
  match s with
  | kUnknown => 0
  | k100Continue => 100 | k101SwitchingProtocols => 101
  | k200Ok => 200 | k201Created => 201 | k202Accepted => 202 | k203NonAuthoritativeInformation => 203 | k204NoContent => 204
  | k205ResetContent => 205 | k206PartialContent => 206
  | k300MultipleChoices => 300 | k301MovedPermanently => 301 | k302Found => 302 | k303SeeOther => 303 | k304NotModified => 304
  | k305UseProxy => 305 | k307TemporaryRedirect => 307
  | k400BadRequest => 400 | k401Unauthorized => 401 | k402PaymentRequired => 402 | k403Forbidden => 403 | k404NotFound => 404
  | k405MethodNotAllowd => 405 | k406NotAcceptable => 406 | k407ProxyAuthenticationRequired => 407 | k408RequestTimeout => 408
  | k409Conflict => 409 | k410Conflict => 410 | k411LengthRequired => 411 | k412PreconditionFailed => 412
  | k413RequestEntityTooLarge => 413 | k414RequestUrlTooLong => 414 | k415UnsupportedMediaType => 415
  | k416RequestedRangeNotSatisfiable => 416 | k417ExpectationFailed => 417
  | k500InternalServerError => 500 | k501NotImplemented => 501 | k502BadGateway => 502 | k503ServiceUnavailable => 503
  | k504GatewayTimeout => 504 | k505HttpVersionNotSupported => 505
  end.

(** No two constants share a value, and every one but the unknown one is three
    digits in the status line. *)
Lemma status_value_inj s s' : status_value s = status_value s' → s = s'.
Proof. destruct s, s'; (done || discriminate). Qed.
Lemma status_three_digits s : s ≠ kUnknown → 100 ≤ status_value s < 600 ∧ zlen (fmt_u (status_value s)) = 3.
Proof. by destruct s. Qed.

(** Those that the server sends. *)
Lemma statuses_used :
  HttpResponse.k200Ok = status_value k200Ok ∧ HttpResponse.k404NotFound = status_value k404NotFound ∧
  HttpResponse.k405MethodNotAllowd = status_value k405MethodNotAllowd ∧
  HttpResponse.k500InternalServerError = status_value k500InternalServerError.
Proof. done. Qed.
End Status.

(** ** [HttpRequest::ToDebugString] *)

(** [std::less<std::string>]: bytes compared as unsigned characters, a prefix first. *)
Fixpoint string_le (a b : bytes) : bool :=
  match a, b with
  | [], _ => true
  | _ :: _, [] => false
  | x :: a, y :: b => (byte_val x <? byte_val y) || (byte_val x =? byte_val y) && string_le a b
  end.

Lemma string_le_total a b : string_le a b = true ∨ string_le b a = true.
Proof.
  revert b. induction a as [|x a IH]; intros [|y b]; cbn; auto. destruct (IH b) as [E|E]; rewrite E, ?andb_true_r.
  - destruct (Z.ltb_spec (byte_val x) (byte_val y)), (Z.eqb_spec (byte_val x) (byte_val y)), (Z.ltb_spec (byte_val y) (byte_val x)); auto; lia.
  - destruct (Z.ltb_spec (byte_val x) (byte_val y)), (Z.eqb_spec (byte_val y) (byte_val x)), (Z.ltb_spec (byte_val y) (byte_val x)); auto; lia.
Qed.

Lemma string_le_trans a b c : string_le a b = true → string_le b c = true → string_le a c = true.
Proof.
  revert b c. induction a as [|x a IH]; intros [|y b] [|z c]; cbn; auto; [done|]. rewrite !orb_true_iff, !andb_true_iff, !Z.ltb_lt, !Z.eqb_eq.
  intros [?|[? ?]] [?|[? ?]]; [left; lia..|]. right. split; [lia|by eapply IH].
Qed.

Lemma string_le_antisym a b : string_le a b = true → string_le b a = true → a = b.
Proof.
  revert b. induction a as [|x a IH]; intros [|y b]; cbn; auto; [done..|]. rewrite !orb_true_iff, !andb_true_iff, !Z.ltb_lt, !Z.eqb_eq.
  intros [?|[Hx ?]] [?|[? ?]]; try lia. f_equal; [|by apply IH]. rewrite <-(byte_of_val x), <-(byte_of_val y). by rewrite Hx.
Qed.

Definition header_le (x y : bytes * bytes) : Prop := string_le x.1 y.1 = true.
#[local] Instance header_le_dec x y : Decision (header_le x y).
Proof. unfold header_le. apply _. Defined.
#[local] Instance header_le_total : Total header_le.
Proof. intros x y. apply string_le_total. Qed.
#[local] Instance header_le_trans : Transitive header_le.
Proof. intros x y z. apply string_le_trans. Qed.

(** [for (auto &header : headers_)] goes through the map in the order of its keys. *)
Definition headers_in_order (m : gmap bytes bytes) : list (bytes * bytes) := merge_sort header_le (map_to_list m).

Definition debug_header (header : bytes * bytes) : bytes := header.1 ++ str ": " ++ header.2 ++ LF :: [].

(** [gmtime_r] fails on no time within the years of [Calendar]. *)
Definition ToDebugString (r : HttpRequest) : outcome bytes :=
  time ← ToFormattedString true (receive_time_ r);
  Ok (time ++ str ": receive a http request" ++ LF :: ToMethodString r ++ str " " ++ path_ r ++ str " " ++ query_ r ++
      LF :: concat (debug_header <$> headers_in_order (headers_ r)) ++ body_ r).

(** Every header once, in the order of the names. *)
Lemma headers_in_order_sorted m : StronglySorted header_le (headers_in_order m).
Proof. apply StronglySorted_merge_sort; apply _. Qed.
Lemma headers_in_order_elem m k v : (k, v) ∈ headers_in_order m ↔ m !! k = Some v.
Proof. unfold headers_in_order. by rewrite merge_sort_Permutation, elem_of_map_to_list. Qed.
Lemma headers_in_order_NoDup m : NoDup (headers_in_order m).*1.
Proof. unfold headers_in_order. rewrite merge_sort_Permutation. apply NoDup_fst_map_to_list. Qed.

(** The order is that of the names as unsigned bytes, so it does not depend on
    the order of arrival. *)
Example ToDebugString_1 :
  ToDebugString (MkHttpRequest kGet kHttp11 (str "/a") (str "?q") 951827696000007
    {[ str "host" := str "h"; str "Accept" := str "*/*" ]} (str "body")) =
  Ok (str "20000229 12:34:56.000007: receive a http request" ++ LF :: str "GET /a ?q" ++ LF :: str "Accept: */*" ++
      LF :: str "host: h" ++ LF :: str "body").
Proof. reflexivity. Qed.

(** ** The setters of [HttpServerConfig] and [HttpServer::SetThreadNum] *)
Definition SetPort (port : Z) (c : HttpServerConfig) : HttpServerConfig :=
  MkConfig (is_valid_ c) (Some (wrapU 16 port)) (domain_ c) (docroot_ c) (option_ c).
Definition SetDomain (domain : bytes) (c : HttpServerConfig) : HttpServerConfig :=
  MkConfig (is_valid_ c) (port_ c) domain (docroot_ c) (option_ c).
Definition SetDocroot (docroot : bytes) (c : HttpServerConfig) : HttpServerConfig :=
  MkConfig (is_valid_ c) (port_ c) (domain_ c) docroot (option_ c).
Definition SetOption (option : Option_) (c : HttpServerConfig) : HttpServerConfig :=
  MkConfig (is_valid_ c) (port_ c) (domain_ c) (docroot_ c) (Some option).

Definition HttpServer_SetThreadNum (num_threads : Z) (server : TcpServer) : outcome TcpServer := SetThreadNum num_threads server.
