(* ===== verification/Logging.v ===== *)
(** * [Logger] (base/logging.h, base/logging.cc), [CurrentThread]
    (base/current_thread.h, base/current_thread.cc) and the names of log files
    (base/log_file.cc)

    A log statement builds a line in the stream of a temporary [Logger], whose
    destructor hands it to the output function.  The text of the date and of the
    thread identifier are cached per thread.  A process is the global variables,
    the thread-local variables of each thread and what the output function got;
    the clock, [gettid] and [errno] answer with the event of a log statement. *)

From stdpp Require Import base tactics list numbers strings gmap.
From Stdlib Require Import ZArith Lia Ascii.
From S2P Require Import Prelude.
From S2P Require Import CString.
From S2P Require Import Calendar.
From S2P Require Import TimeZone.
From S2P Require Import LogStream.

(** ** Thread-local variables *)
Record thread_locals := MkTls {
  t_cached_tid : Z;
  t_tid_string : bytes;
  t_tid_string_length : Z;
  t_thread_name : option bytes;
  t_time : bytes;
  t_last_second : Z;
}.
(** Zero-initialised. *)
Definition tls_new : thread_locals := MkTls 0 [] 0 None [] 0.

(** ** [CurrentThread] *)

(** ["%5d "] in a buffer of 32. *)
Definition tid_text (tid : Z) : bytes := pad " "%char 5 (fmt_d tid) ++ str " ".

Definition CacheTid (gettid : Z) (t : thread_locals) : thread_locals :=
  if t_cached_tid t =? 0 then
    MkTls gettid (ztake 31 (tid_text gettid)) (wrapS 8 (zlen (tid_text gettid))) (t_thread_name t) (t_time t) (t_last_second t)
  else t.
Definition tid (gettid : Z) (t : thread_locals) : Z * thread_locals :=
  let t := if t_cached_tid t =? 0 then CacheTid gettid t else t in
  (t_cached_tid t, t).
Definition IsMainThread (gettid getpid : Z) (t : thread_locals) : bool * thread_locals :=
  let '(i, t) := tid gettid t in (i =? getpid, t).

(** [ThreadNameInitializer] and [AfterFork]. *)
Definition set_name (name : bytes) (t : thread_locals) : thread_locals :=
  MkTls (t_cached_tid t) (t_tid_string t) (t_tid_string_length t) (Some name) (t_time t) (t_last_second t).
Definition ThreadNameInitializer (gettid : Z) (t : thread_locals) : thread_locals :=
  (tid gettid (set_name (str "main") t)).2.
Definition AfterFork (gettid : Z) (t : thread_locals) : thread_locals :=
  (tid gettid (set_name (str "main")
     (MkTls 0 (t_tid_string t) (t_tid_string_length t) (t_thread_name t) (t_time t) (t_last_second t)))).2.

(** [SleepForUsec]: the [timespec] given to [nanosleep]. *)
Definition SleepForUsec (usec : Z) : Z * Z := (Z.quot usec 1000000, Z.rem usec 1000000 * 1000).

(** ** Levels and source files *)
Inductive LogLevel := kTrace | kDebug | kInfo | kWarn | kError | kFatal | kNumLogLevels.
Definition level_val (l : LogLevel) : Z :=
  match l with kTrace => 0 | kDebug => 1 | kInfo => 2 | kWarn => 3 | kError => 4 | kFatal => 5 | kNumLogLevels => 6 end.

#[global] Instance LogLevel_eq_dec : EqDecision LogLevel.
Proof. solve_decision. Defined.

Definition LogLevelName : list bytes :=
  [str "kTrace "; str "kDebug "; str "kInfo  "; str "kWarn  "; str "kError "; str "kFatal "].

(** [getenv] of the two variables. *)
Definition InitLogLevel (log_trace log_debug : option bytes) : LogLevel :=
  match log_trace, log_debug with
  | Some _, _ => kTrace
  | None, Some _ => kDebug
  | None, None => kInfo
  end.

(** [strrchr]: the offset of the last [c] before the terminating null. *)
Definition last_index (c : ascii) (s : bytes) : option Z :=
  let r := reverse s in
  if std_find c r <? zlen r then Some (zlen s - 1 - std_find c r) else None.
Definition strrchr (s : bytes) (c : ascii) : option Z := last_index c (Slice.of_cstring s).

(** [data_], the bytes it points to, and [size_]. *)
Record SourceFile := MkSourceFile { sf_data : bytes; sf_size : Z }.
(** From an array of [N] characters, the last of them the null. *)
Definition SourceFile_array (arr : bytes) : SourceFile :=
  match strrchr arr "/"%char with
  | Some slash => MkSourceFile (zdrop (slash + 1) arr) (zlen arr - (slash + 1))
  | None => MkSourceFile arr (zlen arr)
  end.
(** From a pointer. *)
Definition SourceFile_pointer (filename : bytes) : SourceFile :=
  let data := match strrchr filename "/"%char with Some slash => zdrop (slash + 1) filename | None => filename end in
  MkSourceFile data (zlen (Slice.of_cstring data)).

(** ** The stream operators of logging.cc *)

(** [T(str, len)] and its operator. *)
Definition put_T (s : bytes) (len : Z) (b : FixedBuffer) : outcome FixedBuffer :=
  cassert "strlen(str) == len_" (zlen (Slice.of_cstring s) =? wrapU 32 len);;
  Ok (Append (ztake (wrapU 32 len) s) b).
Definition put_SourceFile (v : SourceFile) (b : FixedBuffer) : FixedBuffer := Append (ztake (sf_size v) (sf_data v)) b.

(** [Fmt]: a number formatted by [snprintf] in 32 bytes; [text] is the whole text. *)
Definition Fmt (text : bytes) : outcome bytes :=
  cassert "static_cast<size_t>(length_) < sizeof buf_" (zlen text <? 32);;
  Ok text.

(** ** [Logger::Impl] *)
Record Impl := MkImpl {
  time_ : Z;
  stream_ : FixedBuffer;
  level_ : LogLevel;
  line_ : Z;
  basename_ : SourceFile;
}.
Definition with_stream (b : FixedBuffer) (i : Impl) : Impl := MkImpl (time_ i) b (level_ i) (line_ i) (basename_ i).

(** The broken-down time, and ["%4d%02d%02d %02d:%02d:%02d"]. *)
Definition civil_time (g_log_time_zone : option Rep) (seconds : Z) : outcome tm :=
  if TimeZone_IsValid g_log_time_zone then ToLocalTime g_log_time_zone seconds else ToUtcTime seconds true.
Definition date_text (t : tm) : bytes :=
  fmt_4d (tm_year t + 1900) ++ fmt_02d (tm_mon t + 1) ++ fmt_02d (tm_mday t) ++ str " " ++
  fmt_02d (tm_hour t) ++ str ":" ++ fmt_02d (tm_min t) ++ str ":" ++ fmt_02d (tm_sec t).

Definition FormatTime (g_log_time_zone : option Rep) (t : thread_locals) (i : Impl) : outcome (thread_locals * Impl) :=
  let seconds := Z.quot (time_ i) 1000000 in
  let microseconds := wrapS 32 (Z.rem (time_ i) 1000000) in
  t ← (if negb (seconds =? t_last_second t) then
         tm_time ← civil_time g_log_time_zone seconds;
         cassert "len == 17" (zlen (date_text tm_time) =? 17);;
         Ok (MkTls (t_cached_tid t) (t_tid_string t) (t_tid_string_length t) (t_thread_name t)
               (ztake 63 (date_text tm_time)) seconds)
       else Ok t);
  if TimeZone_IsValid g_log_time_zone then
    us ← Fmt (str "." ++ fmt_06d microseconds ++ str " ");
    cassert "us.length() == 8" (zlen us =? 8);;
    b ← put_T (t_time t) 17 (stream_ i); b ← put_T us 8 b;
    Ok (t, with_stream b i)
  else
    us ← Fmt (str "." ++ fmt_06d microseconds ++ str "Z ");
    cassert "us.length() == 9" (zlen us =? 9);;
    b ← put_T (t_time t) 17 (stream_ i); b ← put_T us 9 b;
    Ok (t, with_stream b i).

Section errors.
(** [strerror_r], from the C library. *)
Context (strerror : Z → bytes).

(** The constructor, at the time [now] of a thread whose [gettid] is given. *)
Definition Impl_new (g_log_time_zone : option Rep) (gettid now : Z) (level : LogLevel) (old_errno : Z)
    (file : SourceFile) (line : Z) (t : thread_locals) : outcome (thread_locals * Impl) :=
  '(t, i) ← FormatTime g_log_time_zone t (MkImpl now (fb_new kSmallBuffer) level line file);
  let t := (tid gettid t).2 in
  b ← put_T (t_tid_string t) (t_tid_string_length t) (stream_ i);
  name ← match LogLevelName !! Z.to_nat (level_val level) with
         | Some name => Ok name | None => Fail (UndefinedBehaviour "LogLevelName[level]") end;
  b ← put_T name 7 b;
  b ← (if negb (old_errno =? 0) then
         b ← put_int old_errno (put_cstring (Some (str " (errno=")) (put_cstring (Some (strerror old_errno)) b));
         Ok (put_cstring (Some (str ") ")) b)
       else Ok b);
  Ok (t, with_stream b i).

Definition Finish (i : Impl) : outcome Impl :=
  b ← put_int (line_ i) (put_char ":"%char (put_SourceFile (basename_ i) (put_cstring (Some (str " - ")) (stream_ i))));
  Ok (with_stream (put_char LF b) i).

(** ** A log statement *)

(** The four constructors of [Logger]. *)
Inductive ctor :=
| Logger_line                                   (* (file, line) *)
| Logger_level_func (level : LogLevel) (func : bytes)
| Logger_level (level : LogLevel)
| Logger_sys (to_abort : bool).

Definition Logger_new (zone : option Rep) (gettid now errno : Z) (c : ctor) (file : SourceFile) (line : Z)
    (t : thread_locals) : outcome (thread_locals * Impl) :=
  match c with
  | Logger_line => Impl_new zone gettid now kInfo 0 file line t
  | Logger_level_func level func =>
      '(t, i) ← Impl_new zone gettid now level 0 file line t;
      Ok (t, with_stream (put_char " "%char (put_cstring (Some func) (stream_ i))) i)
  | Logger_level level => Impl_new zone gettid now level 0 file line t
  | Logger_sys to_abort => Impl_new zone gettid now (if to_abort then kFatal else kError) errno file line t
  end.

(** What a statement puts into the stream. *)
Inductive item :=
| PutBool (v : bool)
| PutChar (c : ascii)
| PutCString (s : option bytes)
| PutString (s : bytes)
| PutInt (v : Z).
Definition put (x : item) (b : FixedBuffer) : outcome FixedBuffer :=
  match x with
  | PutBool v => Ok (put_bool v b)
  | PutChar c => Ok (put_char c b)
  | PutCString s => Ok (put_cstring s b)
  | PutString s => Ok (put_string s b)
  | PutInt v => put_int v b
  end.
Fixpoint put_all (l : list item) (b : FixedBuffer) : outcome FixedBuffer :=
  match l with [] => Ok b | x :: l => b ← put x b; put_all l b end.

(** The process: [out] is what [g_output_func] got, [flushed] how many of its
    calls came before the last call of [g_flush_func]. *)
Record process := MkProcess {
  g_log_level : LogLevel;
  g_log_time_zone : option Rep;
  out : list bytes;
  flushed : nat;
  aborted : bool;
  locals : gmap nat thread_locals;
}.
Definition process_new (level : LogLevel) : process := MkProcess level None [] 0 false ∅.
Definition locals_of (th : nat) (p : process) : thread_locals := default tls_new (locals p !! th).
Definition with_locals (th : nat) (t : thread_locals) (p : process) : process :=
  MkProcess (g_log_level p) (g_log_time_zone p) (out p) (flushed p) (aborted p) (<[th := t]> (locals p)).

Definition SetLogLevel (level : LogLevel) (p : process) : process :=
  MkProcess level (g_log_time_zone p) (out p) (flushed p) (aborted p) (locals p).
Definition SetTimeZone (tz : option Rep) (p : process) : process :=
  MkProcess (g_log_level p) tz (out p) (flushed p) (aborted p) (locals p).

(** The destructor. *)
Definition Logger_destroy (i : Impl) (p : process) : outcome process :=
  i ← Finish i;
  let out := out p ++ [fb_data (stream_ i)] in
  Ok (if bool_decide (level_ i = kFatal)
      then MkProcess (g_log_level p) (g_log_time_zone p) out (length out) true (locals p)
      else MkProcess (g_log_level p) (g_log_time_zone p) out (flushed p) (aborted p) (locals p)).

Inductive log_macro := LOG_TRACE | LOG_DEBUG | LOG_INFO | LOG_WARN | LOG_ERROR | LOG_FATAL | LOG_SYSERR | LOG_SYSFATAL.

(** The [if] of a macro, and its constructor; [func] is [__func__]. *)
Definition enabled (level : LogLevel) (m : log_macro) : bool :=
  match m with
  | LOG_TRACE => level_val level <=? level_val kTrace
  | LOG_DEBUG => level_val level <=? level_val kDebug
  | LOG_INFO => level_val level <=? level_val kInfo
  | _ => true
  end.
Definition macro_ctor (m : log_macro) (func : bytes) : ctor :=
  match m with
  | LOG_TRACE => Logger_level_func kTrace func
  | LOG_DEBUG => Logger_level_func kDebug func
  | LOG_INFO => Logger_line
  | LOG_WARN => Logger_level kWarn
  | LOG_ERROR => Logger_level kError
  | LOG_FATAL => Logger_level kFatal
  | LOG_SYSERR => Logger_sys false
  | LOG_SYSFATAL => Logger_sys true
  end.

(** A statement as it is reached: by a thread, at a time, with an [errno]. *)
Record log_event := MkEvent {
  ev_thread : nat;
  ev_now : Z;
  ev_errno : Z;
  ev_macro : log_macro;
  ev_file : bytes;
  ev_line : Z;
  ev_func : bytes;
  ev_items : list item;
}.

(** [gettid] of each thread. *)
Context (gettid : nat → Z).

Definition log_with (c : ctor) (file : SourceFile) (e : log_event) (p : process) : outcome process :=
  let th := ev_thread e in
  '(t, i) ← Logger_new (g_log_time_zone p) (gettid th) (ev_now e) (ev_errno e) c file (ev_line e) (locals_of th p);
  b ← put_all (ev_items e) (stream_ i);
  Logger_destroy (with_stream b i) (with_locals th t p).

Definition log_statement (e : log_event) (p : process) : outcome process :=
  if enabled (g_log_level p) (ev_macro e)
  then log_with (macro_ctor (ev_macro e) (ev_func e)) (SourceFile_array (ev_file e)) e p
  else Ok p.

(** [CHECK_NOTNULL]: its temporary logs [names] when the pointer is null. *)
Definition CheckNotNull {A} (ptr : option A) (names : bytes) (e : log_event) (p : process) : outcome process :=
  match ptr with
  | Some _ => Ok p
  | None => log_with (Logger_level kFatal) (SourceFile_array (ev_file e))
              (MkEvent (ev_thread e) (ev_now e) (ev_errno e) (ev_macro e) (ev_file e) (ev_line e) (ev_func e) [PutCString (Some names)]) p
  end.

(** The statements of all threads, in the order they run; [abort] ends it. *)
Fixpoint log_run (l : list log_event) (p : process) : outcome process :=
  match l with
  | [] => Ok p
  | e :: l => if aborted p then Ok p else p ← log_statement e p; log_run l p
  end.

End errors.

(** ** Text without nulls *)
Definition nul : ascii := "000"%char.
Definition nul_free (s : bytes) : Prop := nul ∉ s.

#[global] Instance nul_free_dec s : Decision (nul_free s).
Proof. unfold nul_free. apply _. Defined.

Lemma nul_free_app s t : nul_free s → nul_free t → nul_free (s ++ t).
Proof. unfold nul_free. rewrite elem_of_app. tauto. Qed.
Lemma nul_free_pad c w s : c ≠ nul → nul_free s → nul_free (pad c w s).
Proof. intros Hc Hs. apply nul_free_app; [|done]. unfold nul_free. rewrite elem_of_replicate. naive_solver. Qed.
Lemma nul_free_fmt_u n : 0 ≤ n → nul_free (fmt_u n).
Proof.
  intros Hn H. destruct (fmt_u_spec n Hn) as (_ & Hd & _). rewrite Forall_forall in Hd. apply Hd in H. discriminate H.
Qed.
Lemma nul_free_fmt_d n : nul_free (fmt_d n).
Proof.
  unfold fmt_d. destruct (Z.ltb_spec n 0); [|by apply nul_free_fmt_u].
  unfold nul_free. rewrite elem_of_cons. pose proof (nul_free_fmt_u (- n) ltac:(lia)). unfold nul_free in *. naive_solver.
Qed.
Lemma nul_free_fmt_02d n : nul_free (fmt_02d n).
Proof.
  unfold fmt_02d. destruct (Z.ltb_spec n 0); [apply nul_free_app; [vm_compute; set_solver|]|];
    apply nul_free_pad; try done; apply nul_free_fmt_u; lia.
Qed.
Lemma nul_free_fmt_06d n : nul_free (fmt_06d n).
Proof.
  unfold fmt_06d. destruct (Z.ltb_spec n 0); [apply nul_free_app; [vm_compute; set_solver|]|];
    apply nul_free_pad; try done; apply nul_free_fmt_u; lia.
Qed.

Create HintDb nul_free.
#[export] Hint Resolve nul_free_app nul_free_fmt_u nul_free_fmt_d nul_free_fmt_02d nul_free_fmt_06d : nul_free.
#[export] Hint Extern 1 (nul_free (pad _ _ _)) => apply nul_free_pad; [done|] : nul_free.
#[export] Hint Extern 1 (nul_free (str _)) => by apply (bool_decide_unpack _); vm_compute : nul_free.

Lemma of_cstring_nul_free s : nul_free s → Slice.of_cstring s = s.
Proof.
  intros H. unfold Slice.of_cstring. apply std_find_absent in H. change "000"%char with nul. rewrite H.
  unfold ztake, zlen. rewrite Nat2Z.id. apply firstn_all.
Qed.

(** A [T] whose length is right appends its text. *)
Lemma put_T_fits sz s t len :
  nul_free t → zlen t = len → len < 2 ^ 32 → zlen s + len < sz → put_T t len (MkFixed sz s) = Ok (MkFixed sz (s ++ t)).
Proof.
  intros Hn Hl Hb Hs. pose proof (zlen_nonneg t). unfold put_T. rewrite of_cstring_nul_free, wrapU_small by (done || lia).
  replace (zlen t =? len) with true by lia. cbn [cassert mbind outcome_bind]. f_equal.
  rewrite ztake_all by lia. apply Append_fits. lia.
Qed.

Lemma tid_text_nul_free n : nul_free (tid_text n).
Proof. unfold tid_text. auto with nul_free. Qed.
Lemma date_text_nul_free t : nul_free (date_text t).
Proof. unfold date_text, fmt_4d. auto 12 with nul_free. Qed.

Lemma tid_text_len n : 0 < n < 2 ^ 31 → 6 ≤ zlen (tid_text n) ≤ 11.
Proof.
  intros Hn. unfold tid_text, fmt_d. replace (n <? 0) with false by lia. rewrite zlen_app, zlen_pad.
  change (zlen (str " ")) with 1. pose proof (fmt_u_len n 10 ltac:(lia) ltac:(lia)). lia.
Qed.

Lemma date_text_len t :
  0 ≤ tm_year t + 1900 ≤ 9999 → 1 ≤ tm_mon t + 1 ≤ 12 → 1 ≤ tm_mday t ≤ 31 → 0 ≤ tm_hour t ≤ 23 → 0 ≤ tm_min t ≤ 59 →
  0 ≤ tm_sec t ≤ 59 → zlen (date_text t) = 17.
Proof.
  intros. unfold date_text. rewrite !zlen_app, fmt_4d_len, !fmt_02d_len by lia. reflexivity.
Qed.

(** ** The basename *)
Lemma strrchr_found a b c : nul_free (a ++ c :: b) → c ∉ b → strrchr (a ++ c :: b) c = Some (zlen a).
Proof.
  intros Hn Hc. unfold strrchr. rewrite of_cstring_nul_free by done. unfold last_index.
  rewrite reverse_app, reverse_cons, <-app_assoc. cbn [app].
  rewrite std_find_app_cons by (by rewrite elem_of_reverse).
  unfold zlen. rewrite !length_app. rewrite !length_reverse. cbn [length].
  rewrite length_reverse. destruct (Z.ltb_spec (Z.of_nat (length b)) (Z.of_nat (length b + S (length a)))); [f_equal|]; lia.
Qed.

Lemma strrchr_absent s c : nul_free s → c ∉ s → strrchr s c = None.
Proof.
  intros Hn Hc. unfold strrchr. rewrite of_cstring_nul_free by done. unfold last_index.
  replace (std_find c (reverse s)) with (zlen (reverse s)); [by rewrite Z.ltb_irrefl|].
  symmetry. apply std_find_absent. by rewrite elem_of_reverse.
Qed.

(** The text after the last slash. *)
Definition basename (f : bytes) : bytes := reverse (take_while (λ c, negb (bool_decide (c = "/"%char))) (reverse f)).

Lemma last_split (c : ascii) s : c ∉ s ∨ ∃ a b, s = a ++ c :: b ∧ c ∉ b.
Proof.
  induction s as [|x s [IH|(a & b & -> & Hb)]]; [left; set_solver| |right; by exists (x :: a), b].
  destruct (decide (x = c)) as [->|]; [right; by exists [], s|left; set_solver].
Qed.

Lemma basename_slash a b : "/"%char ∉ b → basename (a ++ "/"%char :: b) = b.
Proof.
  intros Hb. unfold basename. rewrite reverse_app, reverse_cons, <-app_assoc. cbn [app].
  assert (Forall (λ c, negb (bool_decide (c = "/"%char)) = true) (reverse b)) as Hf.
  { apply Forall_forall. intros c Hc. rewrite elem_of_reverse in Hc. case_bool_decide; [by subst|done]. }
  rewrite <-(reverse_involutive b) at 2. f_equal.
  induction Hf as [|x l Hx _ IH]; [done|]. cbn [app take_while]. by rewrite Hx, IH.
Qed.

Lemma basename_plain s : "/"%char ∉ s → basename s = s.
Proof.
  intros Hs. unfold basename. rewrite take_while_all; [apply reverse_involutive|].
  apply Forall_forall. intros c Hc. rewrite elem_of_reverse in Hc. case_bool_decide; [by subst|done].
Qed.

(** Both constructors of [SourceFile] find it. *)
Lemma source_file_basename f :
  nul_free f → SourceFile_array f = MkSourceFile (basename f) (zlen (basename f)) ∧ SourceFile_pointer f = SourceFile_array f.
Proof.
  intros Hf. unfold SourceFile_array, SourceFile_pointer.
  destruct (last_split "/"%char f) as [Hs|(a & b & -> & Hb)].
  - rewrite strrchr_absent, basename_plain, of_cstring_nul_free by done. done.
  - rewrite strrchr_found, basename_slash by done.
    assert (zdrop (zlen a + 1) (a ++ "/"%char :: b) = b) as ->.
    { unfold zdrop, zlen. replace (Z.to_nat (Z.of_nat (length a) + 1)) with (length a + 1)%nat by lia.
      rewrite <-drop_drop, drop_app_length. done. }
    rewrite of_cstring_nul_free by (unfold nul_free in *; set_solver). split; [|f_equal]; autorewrite with zlen; try f_equal; lia.
Qed.

(** ** The reference: a line formatted from scratch *)

(** The offset of the zone, when the zone answers. *)
Definition zone_offset (zone : option Rep) (s : Z) : option Z :=
  match zone with
  | None => Some 0
  | Some rep =>
      match FindLocaltime rep (MkTransition s 0 0) true with
      | Ok lt => if is_ok (zone_name rep (arrb_idx lt)) then Some (gmt_offset lt) else None
      | Fail _ => None
      end
  end.

(** The fields of a time in a zone are those of UTC at the shifted time. *)
Lemma civil_time_ok zone s off :
  zone_offset zone s = Some off → 0 ≤ s + off ≤ end_of_9999 →
  ∃ t, civil_time zone s = Ok t ∧ FromUtcTime t = Ok (s + off) ∧ zlen (date_text t) = 17.
Proof.
  intros Ho Hs. unfold civil_time, TimeZone_IsValid. destruct zone as [rep|]; cbn [zone_offset] in Ho.
  - rewrite bool_decide_true by (by eexists). cbn [ToLocalTime].
    destruct (FindLocaltime _ _ _) as [lt|]; [|done]. cbn [mbind outcome_bind].
    destruct (zone_name rep (arrb_idx lt)) as [zn|] eqn:Ez; [|done]. cbn [is_ok] in Ho. injection Ho as ->.
    destruct (utc_fields (s + off) true Hs) as (t & -> & Hb & Hf). cbn [mbind outcome_bind].
    eexists. split; [done|]. split; [exact Hb|]. apply date_text_len; cbn; lia.
  - rewrite bool_decide_false by (by intros []). injection Ho as <-. rewrite Z.add_0_r in *.
    destruct (utc_fields s true Hs) as (t & -> & Hb & Hf). exists t. split; [done|]. split; [done|]. apply date_text_len; lia.
Qed.

Definition us_text (zone : option Rep) (us : Z) : bytes :=
  str "." ++ fmt_06d us ++ (if TimeZone_IsValid zone then str " " else str "Z ").

Definition macro_level (m : log_macro) : LogLevel :=
  match m with
  | LOG_TRACE => kTrace | LOG_DEBUG => kDebug | LOG_INFO => kInfo | LOG_WARN => kWarn
  | LOG_ERROR | LOG_SYSERR => kError | LOG_FATAL | LOG_SYSFATAL => kFatal
  end.
Definition level_name (l : LogLevel) : bytes := default [] (LogLevelName !! Z.to_nat (level_val l)).

Definition item_text (x : item) : bytes :=
  match x with
  | PutBool v => if v then str "1" else str "0"
  | PutChar c => [c]
  | PutCString s => match s with Some s => Slice.of_cstring s | None => str "(null)" end
  | PutString s => s
  | PutInt v => fmt_d v
  end.
Definition item_ok (x : item) : Prop := match x with PutInt v => - 2 ^ 63 ≤ v < 2 ^ 64 | _ => True end.

Section reference.
Context (strerror : Z → bytes) (gettid : nat → Z).

Definition errno_text (n : Z) : bytes :=
  if n =? 0 then [] else Slice.of_cstring (strerror n) ++ str " (errno=" ++ fmt_d n ++ str ") ".

(** What comes between the level and the message. *)
Definition extra_text (e : log_event) : bytes :=
  match ev_macro e with
  | LOG_TRACE | LOG_DEBUG => Slice.of_cstring (ev_func e) ++ str " "
  | LOG_SYSERR | LOG_SYSFATAL => errno_text (ev_errno e)
  | _ => []
  end.

Definition line_text (zone : option Rep) (e : log_event) : bytes :=
  match civil_time zone (ev_now e / 1000000) with
  | Ok t =>
      date_text t ++ us_text zone (ev_now e mod 1000000) ++ tid_text (gettid (ev_thread e)) ++ level_name (macro_level (ev_macro e)) ++
      extra_text e ++ concat (item_text <$> ev_items e) ++ str " - " ++ basename (ev_file e) ++ str ":" ++ fmt_d (ev_line e) ++ [LF]
  | Fail _ => []
  end.

(** The lines of the statements enabled, up to the first fatal one. *)
Fixpoint reference_log (level : LogLevel) (zone : option Rep) (l : list log_event) : list bytes * bool :=
  match l with
  | [] => ([], false)
  | e :: l =>
      if enabled level (ev_macro e) then
        if bool_decide (macro_level (ev_macro e) = kFatal) then ([line_text zone e], true)
        else let '(lines, fatal) := reference_log level zone l in (line_text zone e :: lines, fatal)
      else reference_log level zone l
  end.

(** What a statement needs: a time after the first second of 1970 that the zone
    can tell and that has four-digit years, numbers of their types, and a line
    that leaves room for one more number in the stream. *)
Record loggable (zone : option Rep) (e : log_event) : Prop := MkLoggable {
  lg_time : 1000000 ≤ ev_now e;
  lg_zone : ∃ off, zone_offset zone (ev_now e / 1000000) = Some off ∧ 0 ≤ ev_now e / 1000000 + off ≤ end_of_9999;
  lg_errno : - 2 ^ 31 ≤ ev_errno e < 2 ^ 31;
  lg_line : 0 ≤ ev_line e < 2 ^ 31;
  lg_file : nul_free (ev_file e);
  lg_items : Forall item_ok (ev_items e);
  lg_fits : zlen (line_text zone e) + kMaxNumericSize ≤ kSmallBuffer;
}.

(** The caches of a thread: empty, or right. *)
Definition tls_ok (zone : option Rep) (th : nat) (t : thread_locals) : Prop :=
  (t_cached_tid t = 0 ∨
   t_cached_tid t = gettid th ∧ t_tid_string t = tid_text (gettid th) ∧ t_tid_string_length t = zlen (tid_text (gettid th))) ∧
  (t_last_second t = 0 ∨ ∃ tm, civil_time zone (t_last_second t) = Ok tm ∧ zlen (date_text tm) = 17 ∧ t_time t = date_text tm).

Lemma FormatTime_ok zone th t now level line file tm :
  1000000 ≤ now → tls_ok zone th t → civil_time zone (now / 1000000) = Ok tm → zlen (date_text tm) = 17 →
  ∃ t', FormatTime zone t (MkImpl now (fb_new kSmallBuffer) level line file) =
    Ok (t', MkImpl now (MkFixed kSmallBuffer (date_text tm ++ us_text zone (now mod 1000000))) level line file) ∧ tls_ok zone th t'.
Proof.
  intros Hnow [Ht1 Ht2] Hc Hl. unfold FormatTime. cbn [time_ stream_].
  rewrite Z.quot_div_nonneg, Z.rem_mod_nonneg by lia. assert (0 ≤ now mod 1000000 < 1000000) as Hus by (apply Z.mod_pos_bound; lia).
  rewrite wrapS_small by lia. assert (1 ≤ now / 1000000) as Hsec by (apply Z.div_le_lower_bound; lia).
  assert (∃ t', (if negb (now / 1000000 =? t_last_second t) then
      tm_time ← civil_time zone (now / 1000000); cassert "len == 17" (zlen (date_text tm_time) =? 17);;
      Ok (MkTls (t_cached_tid t) (t_tid_string t) (t_tid_string_length t) (t_thread_name t) (ztake 63 (date_text tm_time)) (now / 1000000))
    else Ok t) = Ok t' ∧ t_time t' = date_text tm ∧ tls_ok zone th t') as (t' & -> & Htime & Hok).
  { destruct (Z.eqb_spec (now / 1000000) (t_last_second t)) as [E|E]; cbn [negb].
    - exists t. split; [done|]. split; [|by split]. destruct Ht2 as [?|(tm' & Hc' & _ & ->)]; [lia|]. rewrite <-E, Hc in Hc'. congruence.
    - rewrite Hc. cbn [mbind outcome_bind]. rewrite Hl, Z.eqb_refl. cbn [cassert mbind outcome_bind].
      eexists. split; [done|]. rewrite ztake_all by lia. split; [done|]. split; [exact Ht1|]. right. exists tm. done. }
  exists t'. split; [|done]. cbn [mbind outcome_bind]. unfold us_text, fb_new.
  pose proof (fmt_06d_len (now mod 1000000) ltac:(lia)) as Hu.
  destruct (TimeZone_IsValid zone); unfold Fmt;
    (do 2 (step_assert ltac:(autorewrite with zlen; rewrite Hu; reflexivity)));
    rewrite Htime;
    (rewrite put_T_fits; [|apply date_text_nul_free|done|lia|change (zlen (@nil ascii)) with 0; unfold kSmallBuffer; lia]);
    cbn [mbind outcome_bind app];
    (rewrite put_T_fits; [|auto with nul_free|autorewrite with zlen; rewrite Hu; reflexivity|lia|unfold kSmallBuffer; lia]); done.
Qed.
(** [tid] fills its cache once and for all. *)
Lemma tid_ok zone th t :
  0 < gettid th < 2 ^ 31 → tls_ok zone th t →
  ∃ t', (tid (gettid th) t).2 = t' ∧ tls_ok zone th t' ∧
    t_tid_string t' = tid_text (gettid th) ∧ t_tid_string_length t' = zlen (tid_text (gettid th)).
Proof.
  intros Hg [Ht1 Ht2]. unfold tid, CacheTid. pose proof (tid_text_len _ Hg). eexists. split; [reflexivity|].
  destruct (Z.eqb_spec (t_cached_tid t) 0) as [E|E]; cbn [snd].
  - rewrite ztake_all, wrapS_small by lia. unfold tls_ok. cbn. split; [split; [right|]|]; done.
  - destruct Ht1 as [?|(? & ? & ?)]; [done|]. split; [split; [by right|done]|done].
Qed.

Lemma level_name_ok l : l ≠ kNumLogLevels →
  LogLevelName !! Z.to_nat (level_val l) = Some (level_name l) ∧ zlen (level_name l) = 7 ∧ nul_free (level_name l).
Proof. intros H. destruct l; try done; (split; [reflexivity|]; split; [reflexivity|]; by apply (bool_decide_unpack _); vm_compute). Qed.

Lemma Impl_new_ok zone th t now level n file line tm :
  0 < gettid th < 2 ^ 31 → 1000000 ≤ now → tls_ok zone th t → civil_time zone (now / 1000000) = Ok tm → zlen (date_text tm) = 17 →
  level ≠ kNumLogLevels → - 2 ^ 31 ≤ n < 2 ^ 31 →
  let head := date_text tm ++ us_text zone (now mod 1000000) ++ tid_text (gettid th) ++ level_name level ++ errno_text n in
  zlen head + kMaxNumericSize ≤ kSmallBuffer →
  ∃ t', Impl_new strerror zone (gettid th) now level n file line t = Ok (t', MkImpl now (MkFixed kSmallBuffer head) level line file) ∧
    tls_ok zone th t'.
Proof.
  intros Hg Hnow Ht Hc Hl Hlev Hn head Hfit. unfold Impl_new.
  destruct (FormatTime_ok zone th t now level line file tm) as (t1 & -> & Ht1); [done..|]. cbn [mbind outcome_bind].
  destruct (tid_ok zone th t1 Hg Ht1) as (t2 & -> & Ht2 & Es & El). exists t2. split; [|done]. rewrite Es, El. cbn [stream_].
  destruct (level_name_ok level Hlev) as (Elv & Llv & Nlv). pose proof (tid_text_len _ Hg).
  unfold head in *. rewrite !zlen_app in Hfit. unfold kMaxNumericSize, kSmallBuffer in *.
  pose proof (zlen_nonneg (us_text zone (now mod 1000000))). pose proof (zlen_nonneg (errno_text n)).
  rewrite put_T_fits; [|apply tid_text_nul_free|done|lia|rewrite !zlen_app; lia]. cbn [mbind outcome_bind]. rewrite Elv. cbn [mbind outcome_bind].
  rewrite put_T_fits; [|done|done|lia|rewrite !zlen_app; lia]. cbn [mbind outcome_bind].
  unfold errno_text in *. destruct (Z.eqb_spec n 0) as [|E]; cbn [negb mbind outcome_bind with_stream].
  - by rewrite app_nil_r, <-!app_assoc.
  - rewrite !zlen_app in Hfit. pose proof (zlen_nonneg (Slice.of_cstring (strerror n))). pose proof (zlen_nonneg (fmt_d n)).
    change (zlen (str " (errno=")) with 8 in *. change (zlen (str ") ")) with 2 in *. unfold put_cstring.
    change (Slice.of_cstring (str " (errno=")) with (str " (errno="). change (Slice.of_cstring (str ") ")) with (str ") ").
    rewrite !Append_fits by (rewrite ?zlen_app; change (zlen (str " (errno=")) with 8; lia).
    rewrite put_int_fits by (rewrite ?zlen_app; change (zlen (str " (errno=")) with 8; unfold kMaxNumericSize; lia).
    cbn [mbind outcome_bind].
    rewrite !Append_fits by (rewrite ?zlen_app; change (zlen (str " (errno=")) with 8; change (zlen (str ") ")) with 2; lia).
    by rewrite <-!app_assoc.
Qed.

Lemma put_all_fits l s :
  Forall item_ok l → zlen s + zlen (concat (item_text <$> l)) + kMaxNumericSize ≤ kSmallBuffer →
  put_all l (MkFixed kSmallBuffer s) = Ok (MkFixed kSmallBuffer (s ++ concat (item_text <$> l))).
Proof.
  intros Hl. revert s. induction Hl as [|x l Hx _ IH]; intros s Hs; [by rewrite app_nil_r|].
  cbn [fmap list_fmap concat] in Hs |- *. rewrite zlen_app in Hs. pose proof (zlen_nonneg (item_text x)).
  pose proof (zlen_nonneg (concat (item_text <$> l))) as Hc. unfold kMaxNumericSize, kSmallBuffer in *. cbn [put_all].
  assert (put x (MkFixed 4000 s) = Ok (MkFixed 4000 (s ++ item_text x))) as ->.
  { destruct x as [| |[]| |]; cbn [put item_text] in *;
      first [apply put_int_fits; [done|unfold kMaxNumericSize; lia]
            |f_equal; unfold put_bool, put_char, put_cstring, put_string; apply Append_fits; lia]. }
  cbn [mbind outcome_bind]. rewrite IH by (rewrite zlen_app; unfold list_fmap in *; lia). by rewrite <-app_assoc.
Qed.

Lemma Finish_fits now s level line f :
  nul_free f → 0 ≤ line < 2 ^ 31 →
  zlen s + zlen (str " - " ++ basename f ++ str ":" ++ fmt_d line ++ [LF]) + kMaxNumericSize ≤ kSmallBuffer →
  Finish (MkImpl now (MkFixed kSmallBuffer s) level line (SourceFile_array f)) =
    Ok (MkImpl now (MkFixed kSmallBuffer (s ++ str " - " ++ basename f ++ str ":" ++ fmt_d line ++ [LF])) level line (SourceFile_array f)).
Proof.
  intros Hf Hline Hs. unfold Finish. cbn [stream_ line_ basename_]. destruct (source_file_basename f Hf) as [-> _].
  unfold put_SourceFile, put_cstring, put_char. cbn [sf_size sf_data]. change (Slice.of_cstring (str " - ")) with (str " - ").
  rewrite !zlen_app in Hs. pose proof (zlen_nonneg (basename f)). pose proof (zlen_nonneg (fmt_d line)).
  change (zlen (str " - ")) with 3 in *. change (zlen (str ":")) with 1 in *. change (zlen [LF]) with 1 in *.
  rewrite ztake_all by lia. unfold kMaxNumericSize, kSmallBuffer in *. change [":"%char] with (str ":").
  rewrite (Append_fits _ s) by (change (zlen (str " - ")) with 3; lia).
  rewrite (Append_fits _ (s ++ str " - ")) by (rewrite zlen_app; change (zlen (str " - ")) with 3; lia).
  rewrite Append_fits by (rewrite !zlen_app; change (zlen (str " - ")) with 3; change (zlen (str ":")) with 1; lia).
  rewrite put_int_fits by (rewrite ?zlen_app; change (zlen (str " - ")) with 3; change (zlen (str ":")) with 1; unfold kMaxNumericSize; lia).
  cbn [mbind outcome_bind]. rewrite Append_fits by (rewrite !zlen_app; change (zlen (str " - ")) with 3; change (zlen (str ":")) with 1; change (zlen [LF]) with 1; lia).
  by rewrite <-!app_assoc.
Qed.

(** The constructor a macro chooses, with its own text. *)
Lemma Logger_new_ok zone t e tm :
  0 < gettid (ev_thread e) < 2 ^ 31 → loggable zone e → tls_ok zone (ev_thread e) t →
  civil_time zone (ev_now e / 1000000) = Ok tm → zlen (date_text tm) = 17 →
  let head := date_text tm ++ us_text zone (ev_now e mod 1000000) ++ tid_text (gettid (ev_thread e)) ++
              level_name (macro_level (ev_macro e)) ++ extra_text e in
  ∃ t', Logger_new strerror zone (gettid (ev_thread e)) (ev_now e) (ev_errno e) (macro_ctor (ev_macro e) (ev_func e))
          (SourceFile_array (ev_file e)) (ev_line e) t =
    Ok (t', MkImpl (ev_now e) (MkFixed kSmallBuffer head) (macro_level (ev_macro e)) (ev_line e) (SourceFile_array (ev_file e))) ∧
    tls_ok zone (ev_thread e) t'.
Proof.
  intros Hg [Hnow _ Herr _ _ _ Hfit] Ht Hc Hl head. unfold line_text in Hfit. rewrite Hc in Hfit.
  set (rest := concat _ ++ _) in Hfit. pose proof (zlen_nonneg rest).
  assert (∀ level n, level ≠ kNumLogLevels → - 2 ^ 31 ≤ n < 2 ^ 31 → zlen (level_name level) + zlen (errno_text n) ≤
      zlen (level_name (macro_level (ev_macro e))) + zlen (extra_text e) →
    ∃ t', Impl_new strerror zone (gettid (ev_thread e)) (ev_now e) level n (SourceFile_array (ev_file e)) (ev_line e) t =
      Ok (t', MkImpl (ev_now e) (MkFixed kSmallBuffer (date_text tm ++ us_text zone (ev_now e mod 1000000) ++
                tid_text (gettid (ev_thread e)) ++ level_name level ++ errno_text n)) level (ev_line e) (SourceFile_array (ev_file e))) ∧
      tls_ok zone (ev_thread e) t') as Hnew.
  { intros level n Hlev Hn Hle. apply Impl_new_ok; try done. rewrite !zlen_app in *. lia. }
  unfold head, Logger_new, macro_ctor, extra_text, macro_level in *. rewrite !zlen_app in Hfit.
  assert (∀ level, level ≠ kNumLogLevels → zlen (level_name level) = 7) as H7 by (intros; by apply level_name_ok).
  destruct (ev_macro e); try (apply Hnew; [by repeat case_match|lia|done]).
  1: destruct (Hnew kTrace 0) as (t' & -> & Ht'); [done|done|apply Z.add_le_mono_l, zlen_nonneg|].
  2: destruct (Hnew kDebug 0) as (t' & -> & Ht'); [done|done|apply Z.add_le_mono_l, zlen_nonneg|].
  all: exists t'; split; [|done]; cbn [mbind outcome_bind with_stream stream_]; unfold put_char, put_cstring;
    change (errno_text 0) with (@nil ascii); change [" "%char] with (str " "); rewrite app_nil_r;
    rewrite zlen_app in Hfit; change (zlen (str " ")) with 1 in Hfit; rewrite H7 in Hfit by done; unfold kMaxNumericSize, kSmallBuffer in *;
    pose proof (zlen_nonneg (Slice.of_cstring (ev_func e)));
    (rewrite Append_fits by (rewrite !zlen_app, H7 by done; lia));
    (rewrite Append_fits by (rewrite !zlen_app, H7 by done; change (zlen (str " ")) with 1; lia)); by rewrite <-!app_assoc.
Qed.

(** The globals and the caches of all threads. *)
Record process_ok (level : LogLevel) (zone : option Rep) (p : process) : Prop := MkProcessOk {
  po_level : g_log_level p = level;
  po_zone : g_log_time_zone p = zone;
  po_locals : ∀ th, tls_ok zone th (locals_of th p);
}.

Definition fatal (e : log_event) : bool := bool_decide (macro_level (ev_macro e) = kFatal).

Lemma log_statement_ok level zone e p :
  0 < gettid (ev_thread e) < 2 ^ 31 → process_ok level zone p → loggable zone e → enabled level (ev_macro e) = true →
  ∃ p', log_statement strerror gettid e p = Ok p' ∧ process_ok level zone p' ∧ out p' = out p ++ [line_text zone e] ∧
    aborted p' = aborted p || fatal e ∧ (fatal e = true → flushed p' = length (out p')).
Proof.
  intros Hg [El Ez Hloc] He Hen. unfold log_statement. rewrite El, Hen. unfold log_with. rewrite Ez.
  pose proof He as [_ (off & Ho & Hoff) _ Hline Hfile Hitems Hfit].
  destruct (civil_time_ok zone _ off Ho Hoff) as (tm & Hc & _ & H17).
  destruct (Logger_new_ok zone _ e tm Hg He (Hloc (ev_thread e)) Hc H17) as (t' & -> & Ht'). cbn [mbind outcome_bind stream_].
  unfold line_text in *. rewrite Hc in *. rewrite !zlen_app in Hfit.
  pose proof (zlen_nonneg (basename (ev_file e))). pose proof (zlen_nonneg (fmt_d (ev_line e))). pose proof (zlen_nonneg [LF]).
  pose proof (zlen_nonneg (str " - ")). pose proof (zlen_nonneg (str ":")).
  rewrite put_all_fits by (try done; rewrite !zlen_app; lia). cbn [mbind outcome_bind]. unfold Logger_destroy, with_stream.
  cbn [time_ level_ line_ basename_].
  rewrite Finish_fits by (try done; rewrite !zlen_app; lia). cbn [mbind outcome_bind stream_ fb_data level_]. rewrite <-!app_assoc.
  assert (∀ th, tls_ok zone th (default tls_new (<[ev_thread e := t']> (locals p) !! th))) as Hloc'.
  { intros th. destruct (decide (th = ev_thread e)) as [->|]; [by rewrite lookup_insert_eq|]. rewrite lookup_insert_ne by done. apply Hloc. }
  eexists. split; [reflexivity|]. unfold fatal.
  case_bool_decide; cbn; (split; [by split|]; split; [done|]; split; [by rewrite ?orb_true_r, ?orb_false_r|done]).
Qed.

Lemma log_run_ok level zone l p :
  (∀ th, 0 < gettid th < 2 ^ 31) → process_ok level zone p → Forall (loggable zone) l → aborted p = false →
  let '(lines, dead) := reference_log level zone l in
  ∃ p', log_run strerror gettid l p = Ok p' ∧ out p' = out p ++ lines ∧ aborted p' = dead ∧
    (dead = true → flushed p' = length (out p')).
Proof.
  intros Hg Hp Hl. revert p Hp. induction Hl as [|e l He _ IH]; intros p Hp Ha; cbn [reference_log log_run].
  { exists p. rewrite app_nil_r. done. }
  rewrite Ha. destruct (enabled level (ev_macro e)) eqn:Hen.
  - destruct (log_statement_ok level zone e p (Hg _) Hp He Hen) as (p1 & -> & Hp1 & Ho & Hab & Hfl). cbn [mbind outcome_bind].
    rewrite Ha in Hab. cbn [orb] in Hab. fold (fatal e). destruct (fatal e).
    + exists p1. split; [destruct l; cbn [log_run]; [done|by rewrite Hab]|]. split; [done|]. split; [done|]. intros _. by apply Hfl.
    + specialize (IH p1 Hp1 Hab). destruct (reference_log level zone l) as [lines dead]. destruct IH as (p' & -> & Ho' & Hd).
      exists p'. split; [done|]. split; [|done]. rewrite Ho', Ho, <-app_assoc. done.
  - unfold log_statement. destruct Hp as [El ? ?]. rewrite El, Hen. cbn [mbind outcome_bind]. by apply IH.
Qed.

End reference.


(** ** Long lines *)

Lemma Append_drops s t : kSmallBuffer ≤ zlen s + zlen t → Append t (MkFixed kSmallBuffer s) = MkFixed kSmallBuffer s.
Proof. intros H. unfold Append, avail, length_. cbn [fb_size fb_data]. by replace (zlen t <? kSmallBuffer - zlen s) with false by lia. Qed.

Lemma put_int_drops s v : kSmallBuffer < zlen s + kMaxNumericSize → put_int v (MkFixed kSmallBuffer s) = Ok (MkFixed kSmallBuffer s).
Proof.
  intros H. unfold put_int, FormatInteger, avail, length_. cbn [fb_size fb_data].
  by replace (kMaxNumericSize <=? kSmallBuffer - zlen s) with false by lia.
Qed.

(** The end of a long line.  The pieces of " - file:line\n" are dropped one by
    one: a message that fills the stream (3999 bytes) is written without its place
    and without its newline, so that the next line runs into it; and a line
    number that has fewer than 48 bytes left is missing though it would fit. *)
Theorem long_line_loses_its_end p now s level line f :
  nul_free f → basename f ≠ [] →
  let i := MkImpl now (MkFixed kSmallBuffer s) level line (SourceFile_array f) in
  (zlen s = 3999 → ∃ p', Logger_destroy i p = Ok p' ∧ out p' = out p ++ [s]) ∧
  (3952 < zlen s → zlen s + zlen (basename f) < 3995 →
   ∃ p', Logger_destroy i p = Ok p' ∧ out p' = out p ++ [s ++ str " - " ++ basename f ++ str ":" ++ [LF]]).
Proof.
  intros Hf Hne i. unfold i, Logger_destroy, Finish, put_SourceFile, put_cstring, put_char. cbn [stream_ line_ basename_].
  destruct (source_file_basename f Hf) as [-> _]. cbn [sf_data sf_size]. rewrite ztake_all by lia.
  assert (1 ≤ zlen (basename f)) as Hb by (destruct (basename f) as [|c b]; [done|rewrite zlen_cons; pose proof (zlen_nonneg b); lia]).
  change (Slice.of_cstring (str " - ")) with (str " - "). change [":"%char] with (str ":").
  assert (kSmallBuffer = 4000) as HK by done. assert (kMaxNumericSize = 48) as HM by done. split.
  - intros Hl. rewrite (Append_drops s (str " - ")) by (change (zlen (str " - ")) with 3; lia).
    rewrite (Append_drops s (basename f)) by lia. rewrite (Append_drops s (str ":")) by (change (zlen (str ":")) with 1; lia).
    rewrite put_int_drops by lia. cbn [mbind outcome_bind].
    rewrite Append_drops by (change (zlen [LF]) with 1; lia).
    eexists. split; [reflexivity|]. case_bool_decide; done.
  - intros Hl Hl'.
    rewrite (Append_fits _ s) by (change (zlen (str " - ")) with 3; lia).
    rewrite (Append_fits _ (s ++ str " - ")) by (rewrite zlen_app; change (zlen (str " - ")) with 3; lia).
    rewrite Append_fits by (rewrite !zlen_app; change (zlen (str " - ")) with 3; change (zlen (str ":")) with 1; lia).
    rewrite put_int_drops by (rewrite !zlen_app; change (zlen (str " - ")) with 3; change (zlen (str ":")) with 1; lia).
    cbn [mbind outcome_bind].
    rewrite Append_fits by (rewrite !zlen_app; change (zlen (str " - ")) with 3; change (zlen (str ":")) with 1; change (zlen [LF]) with 1; lia).
    eexists. split; [reflexivity|]. rewrite <-!app_assoc. case_bool_decide; done.
Qed.

Lemma long_line_loses_its_end_witness :
  ∃ p', Logger_destroy (MkImpl 0 (MkFixed kSmallBuffer (replicate 3999 "x"%char)) kInfo 7 (SourceFile_array (str "a/b.cc"))) (process_new kInfo) = Ok p' ∧
    out p' = [replicate 3999 "x"%char].
Proof.
  destruct (long_line_loses_its_end (process_new kInfo) 0 (replicate 3999 "x"%char) kInfo 7 (str "a/b.cc")) as [H _].
  - by apply (bool_decide_unpack _); vm_compute.
  - by vm_compute.
  - apply H. by vm_compute.
Defined.

(** ** A change of the zone *)

(** The cached date does not know its zone: after [SetTimeZone], a thread that
    logged in the same second writes the date of the old zone, with the suffix of
    the new one. *)
Theorem set_time_zone_stale :
  let gettid := λ _ : nat, 77 in
  let e now := MkEvent 0 now 0 LOG_WARN (str "m.cc") 3 [] [PutString (str "hi")] in
  ∃ p p', log_run (λ _, []) gettid [e 951827696000007] (process_new kInfo) = Ok p ∧
    log_run (λ _, []) gettid [e 951827696000008; e 951827697000000] (SetTimeZone (TimeZone_fixed 3600 []) p) = Ok p' ∧
    out p' = [str "20000229 12:34:56.000007Z    77 kWarn  hi - m.cc:3" ++ [LF];
              str "20000229 12:34:56.000008    77 kWarn  hi - m.cc:3" ++ [LF];
              str "20000229 13:34:57.000000    77 kWarn  hi - m.cc:3" ++ [LF]].
Proof.
  intros gettid e.
  destruct (log_run (λ _, []) gettid [e 951827696000007] (process_new kInfo)) as [p|] eqn:E1; [|by vm_compute in E1].
  vm_compute in E1. injection E1 as <-. eexists _, _. split; [reflexivity|]. split; vm_compute; reflexivity.
Qed.
