(* ===== verification/Streaming.v ===== *)
(** * The rest of [LogStream] (base/log_stream.h, base/log_stream.cc): [double]s
    and the small operators

    [operator<<(double)] prints with [%.12g] into the 48 bytes it has checked
    for.  [%g] is written out on the exact value of the double: the twelve
    digits nearest to it, the choice of style by the exponent, and the removal of
    trailing zeros. *)

From stdpp Require Import base tactics list numbers strings.
From Stdlib Require Import ZArith Lia Ascii.
From S2P Require Import Prelude.
From S2P Require Import CString.
From S2P Require Import LogStream.
From S2P Require Import Units.
From S2P Require Import Logging.

(** ** [%.12g] *)

(** The exponent [x] with [10 ^ x <= p / q < 10 ^ (x + 1)]. *)
Definition decimal_exponent (p q : Z) : Z :=
  if q <=? p then zlen (fmt_u (p / q)) - 1 else - zlen (fmt_u ((q - 1) / p)).

(** Twelve digits and the exponent of the first; rounding up may carry. *)
Definition twelve_digits (p q : Z) : Z * Z :=
  let x := decimal_exponent p q in
  let r := nearest (p * 10 ^ Z.max 0 (11 - x)) (q * 10 ^ Z.max 0 (x - 11)) in
  if r =? 10 ^ 12 then (10 ^ 11, x + 1) else (r, x).

Fixpoint drop_zeros (s : bytes) : bytes :=
  match s with c :: s' => if bool_decide (c = "0"%char) then drop_zeros s' else s | [] => [] end.
Definition drop_point (s : bytes) : bytes :=
  match s with c :: s' => if bool_decide (c = "."%char) then s' else s | [] => [] end.
(** Trailing zeros of a fraction are removed, and its point if nothing is left. *)
Definition strip_zeros (s : bytes) : bytes := reverse (drop_point (drop_zeros (reverse s))).

(** The exponent has at least two digits. *)
Definition fmt_exponent (x : Z) : bytes :=
  (if x <? 0 then str "-" else str "+") ++ (if Z.abs x <? 10 then str "0" else []) ++ fmt_u (Z.abs x).

Definition fixed_stripped (k : nat) (v : Z) : bytes := if bool_decide (k = 0%nat) then fixed k v else strip_zeros (fixed k v).

(** The text of the positive number [p / q]. *)
Definition fmt_g (p q : Z) : bytes :=
  let '(r, x) := twelve_digits p q in
  if (-4 <=? x) && (x <? 12) then fixed_stripped (Z.to_nat (11 - x)) r
  else fixed_stripped 11 r ++ str "e" ++ fmt_exponent x.

(** A value of type [double]. *)
Inductive double_value :=
| Zero (negative : bool)
| Finite (d : double)
| Infinite (negative : bool)
| NotANumber (negative : bool).

Definition minus (negative : bool) : bytes := if negative then str "-" else [].
Definition fmt_double (v : double_value) : bytes :=
  match v with
  | Zero s => minus s ++ str "0"
  | Finite d => minus (mantissa d <? 0) ++ fmt_g (Z.abs (num d)) (den d)
  | Infinite s => minus s ++ str "inf"
  | NotANumber s => minus s ++ str "nan"
  end.

Example fmt_double_1 : fmt_double (Finite (round_double 1 3)) = str "0.333333333333".
Proof. vm_compute. reflexivity. Qed.
Example fmt_double_2 : fmt_double (Finite (double_of (-1234567890123456))) = str "-1.23456789012e+15".
Proof. vm_compute. reflexivity. Qed.
Example fmt_double_3 : fmt_double (Finite (round_double 99999999999999 100000000)) = str "1000000".
Proof. vm_compute. reflexivity. Qed.
Example fmt_double_4 : fmt_double (Finite (round_double 35 10000000)) = str "3.5e-06".
Proof. vm_compute. reflexivity. Qed.

(** ** The operators *)

(** [snprintf] writes at most 47 characters and a null, and returns the length
    of the whole text. *)
Definition put_double (v : double_value) (b : FixedBuffer) : outcome FixedBuffer :=
  if kMaxNumericSize <=? avail b then
    if zlen (fmt_double v) <? kMaxNumericSize then Add (fmt_double v) b
    else Fail (UndefinedBehaviour "FixedBuffer holds bytes that were not written")
  else Ok b.

(** A [float] is a [double]. *)
Definition put_float (v : double_value) (b : FixedBuffer) : outcome FixedBuffer := put_double v b.
(** [const unsigned char*], [Slice] and [Buffer]. *)
Definition put_ucstring (s : bytes) (b : FixedBuffer) : FixedBuffer := put_cstring (Some s) b.
Definition put_slice (v : bytes) (b : FixedBuffer) : FixedBuffer := Append v b.
Definition put_buffer (v b : FixedBuffer) : FixedBuffer := put_slice (fb_data v) b.
(** [Append], [ResetBuffer] and [operator<<] on [Fmt]. *)
Definition LogStream_Append (data : bytes) (b : FixedBuffer) : FixedBuffer := Append data b.
Definition ResetBuffer (b : FixedBuffer) : FixedBuffer := fb_Reset b.
Definition put_Fmt (text : bytes) (b : FixedBuffer) : outcome FixedBuffer := t ← Fmt text; Ok (LogStream_Append t b).
(** [ToString], [ToSlice] and [ToDebugString] of the buffer: the last one writes
    a null behind the text, where there must be room for it. *)
Definition fb_ToString (b : FixedBuffer) : bytes := fb_data b.
Definition fb_ToDebugString (b : FixedBuffer) : outcome bytes :=
  if 0 <? avail b then Ok (Slice.of_cstring (fb_data b)) else Fail (UndefinedBehaviour "null behind the end of the buffer").

(** ** What [%.12g] prints *)
Lemma pow10_pos k : 0 < 10 ^ Z.max 0 k.
Proof. apply Z.pow_pos_nonneg; lia. Qed.
#[local] Hint Resolve pow10_pos : core.

Lemma fmt_u_digits n : 0 < n → 10 ^ (zlen (fmt_u n) - 1) ≤ n < 10 ^ zlen (fmt_u n).
Proof.
  intros Hn. assert (0 < zlen (fmt_u n)) as Hl by (destruct (fmt_u_spec n) as (H & _ & _); [lia|]; destruct (fmt_u n); [done|]; rewrite zlen_cons; pose proof (zlen_nonneg l); lia).
  split.
  - apply Z.nlt_ge. intros Hlt. destruct (Z.eq_dec (zlen (fmt_u n)) 1) as [E|]; [rewrite E in Hlt; cbn in Hlt; lia|].
    pose proof (fmt_u_len n (zlen (fmt_u n) - 1) ltac:(lia) ltac:(lia)). lia.
  - apply Z.nle_gt. intros Hge. pose proof (fmt_u_len_ge n _ Hge (zlen_nonneg _)). lia.
Qed.

Lemma decimal_exponent_spec p q :
  0 < p → 0 < q → let x := decimal_exponent p q in
  q * 10 ^ Z.max 0 x ≤ p * 10 ^ Z.max 0 (- x) ∧ p * 10 ^ Z.max 0 (- x - 1) < q * 10 ^ Z.max 0 (x + 1).
Proof.
  intros Hp Hq x. subst x. unfold decimal_exponent. destruct (Z.leb_spec q p).
  - assert (0 < p / q) as Hd by (apply Z.div_str_pos; lia). pose proof (fmt_u_digits (p / q) Hd) as [H1 H2].
    pose proof (Z_div_mod_eq_full p q) as E. pose proof (Z.mod_pos_bound p q Hq). set (d := p / q) in *. set (n := zlen (fmt_u d)) in *.
    assert (1 ≤ n) by (destruct (Z.le_gt_cases n 0); [|lia]; assert (10 ^ n ≤ 1) by (destruct (Z.eq_dec n 0) as [->|]; [done|rewrite Z.pow_neg_r; lia]); lia).
    replace (Z.max 0 (n - 1)) with (n - 1) by lia. replace (Z.max 0 (- (n - 1))) with 0 by lia. replace (Z.max 0 (- (n - 1) - 1)) with 0 by lia.
    replace (Z.max 0 (n - 1 + 1)) with n by lia. rewrite Z.pow_0_r. nia.
  - assert (0 < (q - 1) / p) as Hd by (apply Z.div_str_pos; lia). pose proof (fmt_u_digits _ Hd) as [H1 H2].
    pose proof (Z_div_mod_eq_full (q - 1) p) as E. pose proof (Z.mod_pos_bound (q - 1) p Hp). set (d := (q - 1) / p) in *. set (n := zlen (fmt_u d)) in *.
    assert (1 ≤ n) by (destruct (Z.le_gt_cases n 0); [|lia]; assert (10 ^ n ≤ 1) by (destruct (Z.eq_dec n 0) as [->|]; [done|rewrite Z.pow_neg_r; lia]); lia).
    replace (Z.max 0 (- n)) with 0 by lia. replace (Z.max 0 (- - n)) with n by lia. replace (Z.max 0 (- - n - 1)) with (n - 1) by lia.
    replace (Z.max 0 (- n + 1)) with 0 by lia. rewrite Z.pow_0_r. nia.
Qed.

Lemma twelve_digits_raw p q :
  0 < p → 0 < q → let x := decimal_exponent p q in
  let P := p * 10 ^ Z.max 0 (11 - x) in let Q := q * 10 ^ Z.max 0 (x - 11) in 10 ^ 11 * Q ≤ P < 10 ^ 12 * Q.
Proof.
  intros Hp Hq. pose proof (decimal_exponent_spec p q Hp Hq) as H. cbv zeta in *. set (x := decimal_exponent p q) in *. clearbody x.
  destruct H as [H1 H2].
  assert (10 ^ Z.max 0 x * 10 ^ Z.max 0 (11 - x) = 10 ^ 11 * (10 ^ Z.max 0 (- x) * 10 ^ Z.max 0 (x - 11))) as E1.
  { rewrite <-!Z.pow_add_r by lia. f_equal. lia. }
  assert (10 ^ Z.max 0 (x + 1) * 10 ^ Z.max 0 (11 - x) = 10 ^ 12 * (10 ^ Z.max 0 (- x - 1) * 10 ^ Z.max 0 (x - 11))) as E2.
  { rewrite <-!Z.pow_add_r by lia. f_equal. lia. }
  pose proof (pow10_pos (- x)) as Hb. pose proof (pow10_pos (- x - 1)) as Hb'. pose proof (pow10_pos (11 - x)) as HA.
  set (a := 10 ^ Z.max 0 x) in *. set (b := 10 ^ Z.max 0 (- x)) in *. set (a' := 10 ^ Z.max 0 (x + 1)) in *. set (b' := 10 ^ Z.max 0 (- x - 1)) in *.
  set (A := 10 ^ Z.max 0 (11 - x)) in *. set (B := 10 ^ Z.max 0 (x - 11)) in *. clearbody a b a' b' A B.
  split.
  - apply (Z.mul_le_mono_pos_l _ _ b); [done|]. transitivity (q * a * A); [|nia]. rewrite <-Z.mul_assoc, E1. nia.
  - apply (Z.mul_lt_mono_pos_l b'); [done|]. apply (Z.lt_le_trans _ (q * a' * A)); [nia|]. rewrite <-Z.mul_assoc, E2. nia.
Qed.

(** The digits are twelve, and no twelve digits with that exponent are nearer. *)
Lemma twelve_digits_nearest p q r x :
  0 < p → 0 < q → twelve_digits p q = (r, x) →
  10 ^ 11 ≤ r < 10 ^ 12 ∧ decimal_exponent p q ≤ x ≤ decimal_exponent p q + 1 ∧
  2 * Z.abs (r * (q * 10 ^ Z.max 0 (x - 11)) - p * 10 ^ Z.max 0 (11 - x)) ≤ q * 10 ^ Z.max 0 (x - 11).
Proof.
  intros Hp Hq E. pose proof (twelve_digits_raw p q Hp Hq) as Hr. unfold twelve_digits in E. cbv zeta in *. set (e := decimal_exponent p q) in *. clearbody e.
  assert (0 < q * 10 ^ Z.max 0 (e - 11)) as HQ by (pose proof (pow10_pos (e - 11)); nia).
  pose proof (nearest_error (p * 10 ^ Z.max 0 (11 - e)) _ HQ) as Hn.
  assert (10 ^ 11 ≤ nearest (p * 10 ^ Z.max 0 (11 - e)) (q * 10 ^ Z.max 0 (e - 11))) as Hlo by (apply nearest_ge; lia).
  assert (nearest (p * 10 ^ Z.max 0 (11 - e)) (q * 10 ^ Z.max 0 (e - 11)) ≤ 10 ^ 12) as Hhi by (apply nearest_le; lia).
  destruct (Z.eqb_spec (nearest (p * 10 ^ Z.max 0 (11 - e)) (q * 10 ^ Z.max 0 (e - 11))) (10 ^ 12)) as [Er|Er]; injection E as <- <-;
    [|split_and!; lia].
  split; [lia|]. split; [lia|]. rewrite Er in Hn. clear Er Hlo Hhi Hr.
  assert (10 ^ Z.max 0 (e + 1 - 11) * 10 ^ Z.max 0 (11 - e) = 10 ^ 1 * (10 ^ Z.max 0 (11 - (e + 1)) * 10 ^ Z.max 0 (e - 11))) as E'.
  { rewrite <-!Z.pow_add_r by lia. f_equal. lia. }
  pose proof (pow10_pos (e + 1 - 11)). pose proof (pow10_pos (e - 11)).
  set (B' := 10 ^ Z.max 0 (e + 1 - 11)) in *. set (A' := 10 ^ Z.max 0 (11 - (e + 1))) in *.
  set (A := 10 ^ Z.max 0 (11 - e)) in *. set (B := 10 ^ Z.max 0 (e - 11)) in *. clearbody A B A' B'. change (10 ^ 1) with 10 in E'.
  apply (Z.mul_le_mono_pos_l _ _ (10 * B)); [lia|].
  replace (10 * B * (2 * Z.abs (10 ^ 11 * (q * B') - p * A'))) with (B' * (2 * Z.abs (10 ^ 12 * (q * B) - p * A))); [nia|].
  assert (B' * Z.abs (10 ^ 12 * (q * B) - p * A) = 10 * B * Z.abs (10 ^ 11 * (q * B') - p * A')); [|lia].
  rewrite <-(Z.abs_eq B') at 1 by lia. rewrite <-Z.abs_mul. rewrite <-(Z.abs_eq (10 * B)) by lia. rewrite <-Z.abs_mul. f_equal. nia.
Qed.

(** ** How long it is *)
Lemma drop_zeros_len s : zlen (drop_zeros s) ≤ zlen s.
Proof. induction s as [|c s IH]; [done|]. cbn [drop_zeros]. case_bool_decide; [|lia]. rewrite zlen_cons. lia. Qed.
Lemma drop_point_len s : zlen (drop_point s) ≤ zlen s.
Proof. destruct s as [|c s]; [done|]. cbn [drop_point]. case_bool_decide; [|lia]. rewrite zlen_cons. lia. Qed.
Lemma zlen_reverse (s : bytes) : zlen (reverse s) = zlen s.
Proof. unfold zlen. by rewrite length_reverse. Qed.
Lemma strip_zeros_len s : zlen (strip_zeros s) ≤ zlen s.
Proof. unfold strip_zeros. rewrite zlen_reverse. etrans; [apply drop_point_len|]. etrans; [apply drop_zeros_len|]. by rewrite zlen_reverse. Qed.

(** Digits, a point and exactly [k] decimals. *)
Lemma fixed_zlen k v n :
  0 ≤ v → v < 10 ^ (n + Z.of_nat k) → 1 ≤ n → zlen (fixed k v) ≤ n + 1 + Z.of_nat k.
Proof.
  intros Hv Hlt Hn. destruct k as [|k]; [cbn [fixed]; rewrite Z.add_0_r in Hlt; pose proof (fmt_u_len v n ltac:(lia) Hn); lia|].
  set (K := Z.of_nat (S k)) in *. assert (0 < 10 ^ K) as HK by (apply Z.pow_pos_nonneg; lia).
  pose proof (Z.mod_pos_bound v _ HK) as Hm. pose proof (fmt_u_len (v `mod` 10 ^ K) K ltac:(lia) ltac:(lia)) as Hf.
  assert (zlen (fmt_u (v / 10 ^ K)) ≤ n).
  { apply fmt_u_len; [|done]. split; [by apply Z.div_pos|]. apply Z.div_lt_upper_bound; [done|]. rewrite <-Z.pow_add_r by lia. by rewrite Z.add_comm. }
  cbn [fixed]. fold K. rewrite !zlen_app. change (zlen (str ".")) with 1. unfold zlen in *. rewrite length_replicate. lia.
Qed.

Lemma fixed_stripped_zlen k v n :
  0 ≤ v → v < 10 ^ (n + Z.of_nat k) → 1 ≤ n → zlen (fixed_stripped k v) ≤ n + 1 + Z.of_nat k.
Proof.
  intros Hv Hlt Hn. pose proof (fixed_zlen k v n Hv Hlt Hn). unfold fixed_stripped. case_bool_decide; [done|].
  pose proof (strip_zeros_len (fixed k v)). lia.
Qed.

Lemma fmt_exponent_zlen x : Z.abs x < 1000 → zlen (fmt_exponent x) ≤ 4.
Proof.
  intros Hx. unfold fmt_exponent. rewrite !zlen_app. assert (zlen (if x <? 0 then str "-" else str "+") = 1) as -> by (by destruct (x <? 0)).
  destruct (Z.ltb_spec (Z.abs x) 10).
  - pose proof (fmt_u_len (Z.abs x) 1 ltac:(lia) ltac:(lia)). change (zlen (str "0")) with 1. lia.
  - pose proof (fmt_u_len (Z.abs x) 3 ltac:(lia) ltac:(lia)). change (zlen (@nil ascii)) with 0. lia.
Qed.

Lemma fmt_g_zlen p q : 0 < p → 0 < q → Z.abs (decimal_exponent p q) < 999 → zlen (fmt_g p q) ≤ 18.
Proof.
  intros Hp Hq He. unfold fmt_g. destruct (twelve_digits p q) as [r x] eqn:E.
  apply twelve_digits_nearest in E as (Hr & Hx & _); [|done..]. set (e := decimal_exponent p q) in *. clearbody e.
  destruct (_ && _) eqn:Es.
  - apply andb_prop in Es as [H1%Z.leb_le H2%Z.ltb_lt]. destruct (Z.le_gt_cases 0 x).
    + pose proof (fixed_stripped_zlen (Z.to_nat (11 - x)) r (x + 1) ltac:(lia)) as Hg. rewrite Z2Nat.id in Hg by lia.
      replace (x + 1 + (11 - x)) with 12 in Hg by lia. specialize (Hg ltac:(lia) ltac:(lia)). lia.
    + pose proof (fixed_stripped_zlen (Z.to_nat (11 - x)) r 1 ltac:(lia)) as Hg. rewrite Z2Nat.id in Hg by lia.
      assert (10 ^ 12 ≤ 10 ^ (1 + (11 - x))) by (apply Z.pow_le_mono_r; lia). specialize (Hg ltac:(lia) ltac:(lia)). lia.
  - rewrite !zlen_app. change (zlen (str "e")) with 1. pose proof (fixed_stripped_zlen 11 r 1 ltac:(lia) ltac:(cbn; lia) ltac:(lia)).
    pose proof (fmt_exponent_zlen x ltac:(lia)). lia.
Qed.

(** The finite doubles: subnormal ones have the least exponent. *)
Definition is_finite (d : double) : Prop := 0 < Z.abs (mantissa d) < 2 ^ 53 ∧ -1074 ≤ exponent d ≤ 971.

Lemma finite_exponent d : is_finite d → 0 < Z.abs (num d) ∧ Z.abs (decimal_exponent (Z.abs (num d)) (den d)) ≤ 325.
Proof.
  intros [Hm He]. unfold num, den. rewrite Z.abs_mul, (Z.abs_eq (2 ^ _)) by (apply Z.pow_nonneg; lia).
  set (m := Z.abs (mantissa d)) in *. set (e := exponent d) in *. clearbody m e.
  pose proof (pow2_max_pos e) as Ha. pose proof (pow2_max_pos (- e)) as Hb.
  assert (2 ^ Z.max 0 e ≤ 2 ^ 971) by (apply Z.pow_le_mono_r; lia). assert (2 ^ Z.max 0 (- e) ≤ 2 ^ 1074) by (apply Z.pow_le_mono_r; lia).
  set (a := 2 ^ Z.max 0 e) in *. set (b := 2 ^ Z.max 0 (- e)) in *. clearbody a b. assert (0 < m * a) as Hp by nia. split; [done|].
  assert (2 ^ 53 * 2 ^ 971 < 10 ^ 325) as B1 by (vm_compute; reflexivity). assert (2 ^ 1074 < 10 ^ 325) as B2 by (vm_compute; reflexivity).
  assert (m * a < 10 ^ 325) as H1 by (apply (Z.le_lt_trans _ (2 ^ 53 * 2 ^ 971)); [apply Z.mul_le_mono_nonneg; lia|done]).
  unfold decimal_exponent. destruct (Z.leb_spec b (m * a)).
  - assert (m * a / b ≤ m * a) by (apply Z.div_le_upper_bound; [done|nia]). assert (0 < m * a / b) by (apply Z.div_str_pos; lia).
    pose proof (fmt_u_len (m * a / b) 325 ltac:(lia) ltac:(lia)). pose proof (zlen_nonneg (fmt_u (m * a / b))). lia.
  - assert ((b - 1) / (m * a) ≤ b - 1) by (apply Z.div_le_upper_bound; [done|nia]). assert (0 ≤ (b - 1) / (m * a)) by (apply Z.div_pos; lia).
    pose proof (fmt_u_len ((b - 1) / (m * a)) 325 ltac:(lia) ltac:(lia)). pose proof (zlen_nonneg (fmt_u ((b - 1) / (m * a)))). lia.
Qed.

Definition well_formed (v : double_value) : Prop := match v with Finite d => is_finite d | _ => True end.

Lemma fmt_double_zlen v : well_formed v → zlen (fmt_double v) ≤ 19.
Proof.
  destruct v as [s|d|s|s]; cbn [well_formed fmt_double]; [by destruct s| |by destruct s..].
  intros Hd. destruct (finite_exponent d Hd) as [Hp He]. pose proof (fmt_g_zlen _ (den d) Hp (den_pos d) ltac:(lia)) as H.
  rewrite zlen_app. assert (zlen (minus (mantissa d <? 0)) ≤ 1) by (by destruct (mantissa d <? 0)). lia.
Qed.

(** A double is logged whole or not at all.  Every value of the type, infinite
    ones and those that are not numbers included, prints in at most 19
    characters; [operator<<] appends its whole text when 48 bytes are left and
    nothing otherwise, and never leaves the buffer. *)
Theorem put_double_whole v b :
  well_formed v → put_double v b = Ok (if kMaxNumericSize <=? avail b then MkFixed (fb_size b) (fb_data b ++ fmt_double v) else b).
Proof.
  intros Hv. pose proof (fmt_double_zlen v Hv). unfold put_double, kMaxNumericSize. destruct (Z.leb_spec 48 (avail b)); [|done].
  replace (_ <? 48) with true by lia. unfold Add. by replace (_ <=? avail b) with true by lia.
Qed.

(** ** Integers *)
Lemma drop_zeros_replicate k s : drop_zeros (replicate k "0"%char ++ s) = drop_zeros s.
Proof. by induction k. Qed.

Lemma strip_zeros_integer a k : strip_zeros (a ++ str "." ++ replicate k "0"%char) = a.
Proof.
  unfold strip_zeros. rewrite !reverse_app, reverse_replicate, <-app_assoc, drop_zeros_replicate. cbn. apply reverse_involutive.
Qed.

Lemma fixed_integer k n : 0 ≤ n → fixed_stripped k (n * 10 ^ Z.of_nat k) = fmt_u n.
Proof.
  intros Hn. unfold fixed_stripped. destruct k as [|k]; [cbn; by rewrite Z.mul_1_r|]. cbn [bool_decide decide_rel].
  assert (0 < 10 ^ Z.of_nat (S k)) by (apply Z.pow_pos_nonneg; lia). rewrite bool_decide_eq_false_2 by done. cbn [fixed].
  rewrite Z.mod_mul, Z.div_mul by lia. change (fmt_u 0) with (["0"%char] : bytes). cbn [length].
  change (["0"%char] : bytes) with (replicate 1 "0"%char). rewrite <-replicate_add. apply strip_zeros_integer.
Qed.

(** Integers of at most twelve digits print as themselves. *)
Lemma fmt_g_integer n q : 0 < n < 10 ^ 12 → 0 < q → fmt_g (n * q) q = fmt_u n.
Proof.
  intros Hn Hq. pose proof (fmt_u_digits n ltac:(lia)) as [H1 H2]. pose proof (fmt_u_len n 12 ltac:(lia) ltac:(lia)) as Hle.
  assert (0 < zlen (fmt_u n)) as Hl by (destruct (Z.le_gt_cases (zlen (fmt_u n)) 0); [|lia]; pose proof (zlen_nonneg (fmt_u n));
    replace (zlen (fmt_u n)) with 0 in H2 by lia; cbn in H2; lia).
  unfold fmt_g, twelve_digits. assert (decimal_exponent (n * q) q = zlen (fmt_u n) - 1) as ->.
  { unfold decimal_exponent. replace (q <=? n * q) with true by nia. by rewrite Z.div_mul by lia. }
  set (l := zlen (fmt_u n)) in *. clearbody l. cbv zeta. replace (Z.max 0 (l - 1 - 11)) with 0 by lia. replace (Z.max 0 (11 - (l - 1))) with (12 - l) by lia.
  rewrite Z.pow_0_r, Z.mul_1_r, <-Z.mul_assoc, (Z.mul_comm q), Z.mul_assoc, nearest_exact by done.
  assert (n * 10 ^ (12 - l) < 10 ^ 12).
  { replace (10 ^ 12) with (10 ^ l * 10 ^ (12 - l)) by (rewrite <-Z.pow_add_r by lia; f_equal; lia). apply Z.mul_lt_mono_pos_r; [|done]. apply Z.pow_pos_nonneg; lia. }
  replace (_ =? 10 ^ 12) with false by lia. replace (-4 <=? l - 1) with true by lia. replace (l - 1 <? 12) with true by lia. cbn [andb].
  replace (12 - l) with (Z.of_nat (Z.to_nat (11 - (l - 1)))) by lia. apply fixed_integer. lia.
Qed.

Lemma fmt_double_integer n : 0 < Z.abs n < 10 ^ 12 → fmt_double (Finite (double_of n)) = fmt_d n.
Proof.
  intros Hn. cbn [fmt_double]. unfold fmt_d, double_of. replace (n =? 0) with false by lia.
  assert (∀ s, 0 < s < 10 ^ 12 → mantissa (round_double s 1) > 0 ∧ fmt_g (num (round_double s 1)) (den (round_double s 1)) = fmt_u s) as H.
  { intros s Hs. split; [pose proof (mantissa_int s ltac:(lia)); lia|]. pose proof (double_of_exact s ltac:(lia)) as E.
    rewrite double_of_pos in E by lia. rewrite E. apply fmt_g_integer; [lia|apply den_pos]. }
  destruct (Z.ltb_spec n 0) as [Hneg|Hpos].
  - destruct (H (- n) ltac:(lia)) as [Hm Hg]. cbn [mantissa double_neg]. replace (- _ <? 0) with true by lia.
    replace (Z.abs (num (double_neg (round_double (- n) 1)))) with (num (round_double (- n) 1)); [exact (f_equal (cons "-"%char) Hg)|].
    pose proof (num_pos (- n) 1 ltac:(lia) ltac:(lia)). unfold num in *. cbn [mantissa exponent double_neg]. rewrite Z.mul_opp_l, Z.abs_opp. lia.
  - destruct (H n ltac:(lia)) as [Hm Hg]. replace (_ <? 0) with false by lia. rewrite Z.abs_eq; [exact Hg|].
    pose proof (num_pos n 1 ltac:(lia) ltac:(lia)). lia.
Qed.

(** A double that holds an integer of at most twelve digits is logged as the
    integer is. *)
Theorem put_double_integer n b :
  0 < Z.abs n < 10 ^ 12 → put_double (Finite (double_of n)) b = put_llong n b.
Proof.
  intros Hn. unfold put_llong. destruct (FormatInteger_all n b) as (E & Hl & ->); [lia|].
  unfold put_double. rewrite fmt_double_integer by done. rewrite E in Hl. unfold kMaxNumericSize.
  destruct (Z.leb_spec 48 (avail b)); [|done]. replace (_ <? 48) with true by lia. unfold Add. by replace (_ <=? avail b) with true by lia.
Qed.
