(* ===== verification/Sync.v ===== *)
(** * Mutexes, conditions, atomics and singletons (base/mutex.h, base/condition.h,
    base/condition.cc, base/atomic.h, base/singleton.h, base/thread_local.h,
    base/thread_local_singleton.h)

    Threads that lock a mutex through a guard and wait on its conditions are a
    step relation whose steps are the pthread calls and the assignments of
    [holder_] around them.  The pthread functions behave as documented: a mutex
    is taken by one thread at a time, and a wait releases it and takes it again
    before it returns. *)

From stdpp Require Import base tactics list numbers strings gmap relations.
From Stdlib Require Import ZArith Lia.
From S2P Require Import Prelude.

(** ** [MutexLock] and [Condition] *)

(** Where a thread is: outside, just behind [pthread_mutex_lock] and before
    [AssignHolder], in the critical section, behind [UnassignHolder] of
    [Unlock], behind the constructor of the [UnassignGuard] of a wait, in
    [pthread_cond_wait] or [pthread_cond_timedwait], and behind it. *)
Inductive mutex_pc := Outside | Locked | Critical | Unlocking | BeforeWait | InWait | AfterWait.
#[global] Instance mutex_pc_eq_dec : EqDecision mutex_pc.
Proof. solve_decision. Defined.

(** [mutex_]: whether some thread has it; [holder_]; the threads. *)
Record MutexLock := MkMutex {
  mutex_ : bool;
  holder_ : Z;
  pcs : gmap nat mutex_pc;
}.

Definition MutexLock_new : MutexLock := MkMutex false 0 ∅.
Definition pc_of (th : nat) (m : MutexLock) : mutex_pc := default Outside (pcs m !! th).
Definition set_pc (th : nat) (pc : mutex_pc) (m : MutexLock) : MutexLock := MkMutex (mutex_ m) (holder_ m) (<[th := pc]> (pcs m)).
Definition set_mutex (b : bool) (m : MutexLock) : MutexLock := MkMutex b (holder_ m) (pcs m).

Section mutex.
(** [CurrentThread::tid()] of each thread. *)
Context (tid : nat → Z).

Definition UnassignHolder (m : MutexLock) : MutexLock := MkMutex (mutex_ m) 0 (pcs m).
Definition AssignHolder (th : nat) (m : MutexLock) : MutexLock := MkMutex (mutex_ m) (tid th) (pcs m).
Definition IsLockedByThisThread (th : nat) (m : MutexLock) : bool := holder_ m =? tid th.
Definition AssertLocked (th : nat) (m : MutexLock) : outcome unit := cassert "IsLockedByThisThread()" (IsLockedByThisThread th m).
Definition MutexLock_destroy (m : MutexLock) : outcome unit := cassert "holder_ == 0" (holder_ m =? 0).

(** The steps of [Lock], [Unlock], [Wait] and [WaitForSeconds]; a wait may end at
    any time. *)
Inductive mutex_step : MutexLock → MutexLock → Prop :=
| step_lock th m : pc_of th m = Outside → mutex_ m = false → mutex_step m (set_pc th Locked (set_mutex true m))
| step_assign th m : pc_of th m = Locked → mutex_step m (set_pc th Critical (AssignHolder th m))
| step_unassign th m : pc_of th m = Critical → mutex_step m (set_pc th Unlocking (UnassignHolder m))
| step_unlock th m : pc_of th m = Unlocking → mutex_step m (set_pc th Outside (set_mutex false m))
| step_guard th m : pc_of th m = Critical → mutex_step m (set_pc th BeforeWait (UnassignHolder m))
| step_wait th m : pc_of th m = BeforeWait → mutex_step m (set_pc th InWait (set_mutex false m))
| step_wake th m : pc_of th m = InWait → mutex_ m = false → mutex_step m (set_pc th AfterWait (set_mutex true m))
| step_reassign th m : pc_of th m = AfterWait → mutex_step m (set_pc th Critical (AssignHolder th m)).

(** The places where a thread has the mutex. *)
Definition has_mutex (pc : mutex_pc) : bool :=
  match pc with Outside | InWait => false | _ => true end.

Record mutex_inv (m : MutexLock) : Prop := MkMutexInv {
  mi_one : ∀ th th', has_mutex (pc_of th m) = true → has_mutex (pc_of th' m) = true → th = th';
  mi_free : mutex_ m = false → ∀ th, has_mutex (pc_of th m) = false;
  mi_holder : ∀ th, pc_of th m = Critical → holder_ m = tid th;
  mi_none : holder_ m = 0 ∨ ∃ th, pc_of th m = Critical;
}.

Lemma pc_of_set th pc m th' : pc_of th' (set_pc th pc m) = if decide (th' = th) then pc else pc_of th' m.
Proof.
  unfold pc_of, set_pc. cbn [pcs]. destruct (decide (th' = th)) as [->|]; [by rewrite lookup_insert_eq|by rewrite lookup_insert_ne].
Qed.

Lemma mutex_step_inv m m' : mutex_inv m → mutex_step m m' → mutex_inv m'.
Proof.
  intros [H1 Hf Hh Hn] Hs.
  assert (∀ th pc m0, (∀ th', pc_of th' m0 = pc_of th' m) →
    (has_mutex pc = true → ∀ th', has_mutex (pc_of th' m) = true → th' = th) →
    (mutex_ m0 = false → has_mutex pc = false ∧ ∀ th', th' ≠ th → has_mutex (pc_of th' m) = false) →
    (pc = Critical → holder_ m0 = tid th) → (∀ th', th' ≠ th → pc_of th' m = Critical → holder_ m0 = tid th') →
    (pc = Critical ∨ holder_ m0 = 0 ∨ ∃ th', th' ≠ th ∧ pc_of th' m = Critical) → mutex_inv (set_pc th pc m0)) as Hset.
  { intros th pc m0 Hpc Ho Hfr Hcr Hoth Hno. split.
    - intros a b. rewrite !pc_of_set, !Hpc. destruct (decide (a = th)), (decide (b = th)); intros Ha Hb; subst; try done.
      + by apply Ho in Hb.
      + by apply Ho in Ha.
      + by apply H1.
    - cbn. intros E a. rewrite pc_of_set, Hpc. destruct (Hfr E) as [? Hx]. destruct (decide (a = th)); [done|by apply Hx].
    - intros a. rewrite pc_of_set, Hpc. cbn. destruct (decide (a = th)) as [->|]; [by apply Hcr|by apply Hoth].
    - cbn. destruct Hno as [->|[?|(th' & Hne & Hc)]]; [right|by left|right].
      + exists th. by rewrite pc_of_set, decide_True.
      + exists th'. by rewrite pc_of_set, decide_False, Hpc. }
  assert (∀ th th', has_mutex (pc_of th m) = true → th' ≠ th → has_mutex (pc_of th' m) = false) as Hex.
  { intros a b Ha Hb. destruct (has_mutex (pc_of b m)) eqn:E; [|done]. by destruct Hb; apply H1. }
  assert (∀ th th', has_mutex (pc_of th m) = true → th' ≠ th → pc_of th' m ≠ Critical) as Hexc.
  { intros a b Ha Hb Hc. pose proof (Hex a b Ha Hb) as E. by rewrite Hc in E. }
  destruct Hs as [th m Hpc Hm|th m Hpc|th m Hpc|th m Hpc|th m Hpc|th m Hpc|th m Hpc Hm|th m Hpc]; apply Hset; try done; cbn.
  all: try (intros _ th' Ht'; apply H1; [done|by rewrite Hpc]).
  all: try (intros _ th' Ht'; by rewrite (Hf Hm) in Ht').
  all: try (intros E; exfalso; pose proof (Hf E th) as Hx; by rewrite Hpc in Hx).
  all: try (intros th' Ht' Hc; exfalso; by apply (Hexc th th'); [rewrite Hpc| |]).
  all: try (intros th' Ht' Hc; by apply Hh).
  all: try (intros _; split; [done|]; intros th' Ht'; apply (Hex th); [by rewrite Hpc|done]).
  all: try (first [by left|by right; left]).
  all: right; destruct Hn as [?|(a & Ha)]; [by left|right; exists a; split; [intros ->; congruence|done]].
Qed.

(** C32: the holder of a mutex is known.  Whatever threads lock, unlock and wait in
    whatever order, at most one of them is in a critical section;
    [IsLockedByThisThread] answers [true] exactly to the thread that is in it,
    waits excluded; and the destructor's assertion holds whenever none is. *)
Theorem mutex_holder_exact m th :
  (∀ t, 0 < tid t) → (∀ t t', tid t = tid t' → t = t') → rtc mutex_step MutexLock_new m →
  (∀ th', pc_of th m = Critical → pc_of th' m = Critical → th = th') ∧
  IsLockedByThisThread th m = bool_decide (pc_of th m = Critical) ∧
  ((∀ t, pc_of t m ≠ Critical) → MutexLock_destroy m = Ok tt).
Proof.
  intros Hpos Hinj Hr. assert (mutex_inv m) as [H1 Hf Hh Hn].
  { assert (mutex_inv MutexLock_new) as H0.
    { assert (∀ t, pc_of t MutexLock_new = Outside) as E by (intros t; unfold pc_of; cbn; by rewrite lookup_empty).
      split; [intros a b; by rewrite E|intros _ a; by rewrite E|intros a; by rewrite E|by left]. }
    revert H0. induction Hr as [|m0 m1 m2 Hs _ IH]; [done|]. intros H0. apply IH. by eapply mutex_step_inv. }
  split; [intros th' Ha Hb; apply H1; [by rewrite Ha|by rewrite Hb]|]. split.
  - unfold IsLockedByThisThread. case_bool_decide as E; [rewrite (Hh th E); lia|].
    destruct Hn as [-> |(t & Ht)]; [specialize (Hpos th); lia|].
    rewrite (Hh t Ht). apply Z.eqb_neq. intros ->%Hinj. done.
  - intros Hno. unfold MutexLock_destroy. destruct Hn as [-> |(t & Ht)]; [done|]. by destruct (Hno t).
Qed.
End mutex.

Lemma mutex_holder_exact_witness :
  let tid := λ t : nat, 100 + Z.of_nat t in
  ∃ m, rtc (mutex_step tid) MutexLock_new m ∧ IsLockedByThisThread tid 2 m = true ∧ IsLockedByThisThread tid 1 m = false.
Proof.
  intros tid.
  pose (m := set_pc 2 Critical (AssignHolder tid 2 (set_pc 2 Locked (set_mutex true (set_pc 1 InWait (set_mutex false
    (set_pc 1 BeforeWait (UnassignHolder (set_pc 1 Critical (AssignHolder tid 1 (set_pc 1 Locked (set_mutex true MutexLock_new)))))))))))).
  assert (rtc (mutex_step tid) MutexLock_new m) as Hr.
  { eapply rtc_l; [by apply (step_lock _ 1)|]. eapply rtc_l; [by apply (step_assign _ 1)|]. eapply rtc_l; [by apply (step_guard _ 1)|].
    eapply rtc_l; [by apply (step_wait _ 1)|]. eapply rtc_l; [by apply (step_lock _ 2)|]. eapply rtc_l; [by apply (step_assign _ 2)|]. apply rtc_refl. }
  assert (∀ t, 0 < tid t) as Hpos by (intros t; unfold tid; lia).
  assert (∀ t t', tid t = tid t' → t = t') as Hinj by (intros t t'; unfold tid; lia).
  exists m. split; [exact Hr|]. split.
  - destruct (mutex_holder_exact tid m 2 Hpos Hinj Hr) as (_ & E & _). rewrite E. reflexivity.
  - destruct (mutex_holder_exact tid m 1 Hpos Hinj Hr) as (_ & E & _). rewrite E. reflexivity.
Defined.

(** ** [Condition::WaitForSeconds] *)

(** The deadline: [clock_gettime] gave [tv_sec] and [tv_nsec], the [double] is
    [nanoseconds] as an [int64_t]. *)
Definition WaitForSeconds_deadline (tv_sec tv_nsec nanoseconds : Z) : Z * Z :=
  (tv_sec + Z.quot (tv_nsec + nanoseconds) 1000000000, Z.rem (tv_nsec + nanoseconds) 1000000000).
(** Whether it timed out. *)
Definition ETIMEDOUT : Z := 110.
Definition WaitForSeconds (pthread_cond_timedwait : Z) : bool := ETIMEDOUT =? pthread_cond_timedwait.

(** A wait for a time that is not negative has a valid deadline, that much later. *)
Lemma deadline_valid tv_sec tv_nsec ns :
  0 ≤ tv_nsec < 1000000000 → 0 ≤ ns →
  let '(s, n) := WaitForSeconds_deadline tv_sec tv_nsec ns in
  0 ≤ n < 1000000000 ∧ s * 1000000000 + n = tv_sec * 1000000000 + tv_nsec + ns.
Proof. intros Hn Hs. cbn. Z.to_euclidean_division_equations. lia. Qed.

(** ** [Atomic<T>] for a [w]-bit signed type *)
Record Atomic := MkAtomic { value_ : Z }.
Section atomic.
Context (w : Z).

Definition Atomic_new (value : Z) : Atomic := MkAtomic (wrapS w value).
Definition Load (a : Atomic) : Z * Atomic := (value_ a, a).      (* compare 0 and swap 0 *)
Definition fetch (f : Z → Z → Z) (x : Z) (a : Atomic) : Z * Atomic := (value_ a, MkAtomic (wrapS w (f (value_ a) x))).
Definition FetchAdd : Z → Atomic → Z * Atomic := fetch Z.add.
Definition FetchSub : Z → Atomic → Z * Atomic := fetch Z.sub.
Definition FetchAnd : Z → Atomic → Z * Atomic := fetch Z.land.
Definition FetchOr : Z → Atomic → Z * Atomic := fetch Z.lor.
Definition FetchXor : Z → Atomic → Z * Atomic := fetch Z.lxor.
Definition FetchSet : Z → Atomic → Z * Atomic := fetch (λ _ x, x).

(** The sums of [AddFetch] and [SubFetch] are signed: an overflow is undefined. *)
Definition int_w (x : Z) : outcome Z :=
  if bool_decide (- 2 ^ (w - 1) ≤ x < 2 ^ (w - 1)) then Ok x else Fail (UndefinedBehaviour "signed overflow").
Definition AddFetch (x : Z) (a : Atomic) : outcome (Z * Atomic) :=
  let '(v, a) := FetchAdd x a in r ← int_w (v + x); Ok (r, a).
Definition SubFetch (x : Z) (a : Atomic) : outcome (Z * Atomic) :=
  let '(v, a) := FetchSub x a in r ← int_w (v - x); Ok (r, a).
Definition Atomic_Add (x : Z) (a : Atomic) : Atomic := (FetchAdd x a).2.
Definition Atomic_Sub (x : Z) (a : Atomic) : Atomic := (FetchSub x a).2.

(** [++a], [a++], [--a] and [a--]: what the expression gives and the object after. *)
Definition pre_increment (a : Atomic) : Atomic * Atomic := let a := Atomic_Add 1 a in (a, a).
Definition post_increment (a : Atomic) : Atomic * Atomic := let prev := Atomic_new 0 in (prev, Atomic_Add 1 a).
Definition pre_decrement (a : Atomic) : Atomic * Atomic := let a := Atomic_Sub 1 a in (a, a).
Definition post_decrement (a : Atomic) : Atomic * Atomic := let prev := Atomic_new 0 in (prev, Atomic_Sub 1 a).

(** The postfix operators give 0 instead of the value before. *)
Theorem postfix_value_lost a : 1 ≤ w → value_ (post_increment a).1 = 0 ∧ value_ (post_decrement a).1 = 0.
Proof.
  intros Hw. cbn. assert (0 < 2 ^ (w - 1)) by (apply Z.pow_pos_nonneg; lia).
  assert (2 ^ (w - 1) < 2 ^ w) by (apply Z.pow_lt_mono_r; lia).
  unfold wrapS. rewrite Z.mod_small by lia. lia.
Qed.

(** Without an overflow the two styles agree. *)
Lemma add_fetch_agrees x a r a' : AddFetch x a = Ok (r, a') → 1 ≤ w → value_ a' = r.
Proof.
  unfold AddFetch. cbn. unfold int_w. case_bool_decide as Hb; [|done]. intros [= <- <-] Hw. cbn. unfold wrapS.
  assert (2 ^ w = 2 * 2 ^ (w - 1)) by (rewrite <-Z.pow_succ_r by lia; f_equal; lia). rewrite Z.mod_small; lia.
Qed.
End atomic.

(** ** [Singleton<T>] *)

(** [ponce_] and [value_]; [None] is a null pointer. *)
Record Singleton (T : Type) := MkSingleton { ponce_ : bool; singleton_value : option T; at_exit : bool }.
Arguments MkSingleton {T} _ _ _.
Arguments ponce_ {T} _.
Arguments singleton_value {T} _.
Arguments at_exit {T} _.

Section singleton.
Context {T : Type} (new_T : T) (has_no_destroy : bool).

Definition Singleton_new : Singleton T := MkSingleton false None false.
Definition Init (s : Singleton T) : Singleton T :=
  MkSingleton (ponce_ s) (Some new_T) (if negb has_no_destroy then true else at_exit s).
Definition Instance_ (s : Singleton T) : outcome (T * Singleton T) :=
  let s := if ponce_ s then s else let s := Init s in MkSingleton true (singleton_value s) (at_exit s) in
  match singleton_value s with
  | Some v => Ok (v, s)
  | None => Fail (AssertionFailed "value_ != nullptr")
  end.
Definition Destroy (s : Singleton T) : Singleton T := MkSingleton (ponce_ s) None (at_exit s).

(** Always the same object; after the destruction at exit, an assertion. *)
Lemma instance_same s v s' : Instance_ s = Ok (v, s') → Instance_ s' = Ok (v, s').
Proof. destruct s as [[] [x|] e]; cbn; by intros [= <- <-]. Qed.
Lemma instance_after_destroy s v s' : Instance_ s = Ok (v, s') → Instance_ (Destroy s') = Fail (AssertionFailed "value_ != nullptr").
Proof. unfold Instance_. destruct s as [[] [x|] e]; cbn; intros E; simplify_eq; done. Qed.
End singleton.

(** ** [ThreadLocal<T>] and [ThreadLocalSingleton<T>]: a value per thread, made on
    first use; the former is deleted when its thread ends *)
Section thread_local.
Context {T : Type} (new_T : T).

Definition ThreadLocal_deref (th : nat) (key : gmap nat T) : T * gmap nat T :=
  match key !! th with
  | Some value => (value, key)
  | None => (new_T, <[th := new_T]> key)
  end.
Definition ThreadLocal_set (th : nat) (v : T) (key : gmap nat T) : gmap nat T := <[th := v]> (ThreadLocal_deref th key).2.
(** [Destructor], which pthread calls for the value of a thread that ends. *)
Definition ThreadLocal_Destructor (th : nat) (key : gmap nat T) : gmap nat T := delete th key.

(** [ThreadLocalSingleton<T>::Instance] and [Pointer]; its [Destructor] is not
    registered anywhere. *)
Definition ThreadLocalSingleton_Instance (th : nat) (t_value_ : gmap nat T) : T * gmap nat T :=
  let t_value_ := match t_value_ !! th with None => <[th := new_T]> t_value_ | Some _ => t_value_ end in
  (default new_T (t_value_ !! th), t_value_).
Definition ThreadLocalSingleton_Pointer (th : nat) (t_value_ : gmap nat T) : option T := t_value_ !! th.

(** Both classes give the same values. *)
Lemma thread_local_singleton_same th key : ThreadLocalSingleton_Instance th key = ThreadLocal_deref th key.
Proof.
  unfold ThreadLocalSingleton_Instance, ThreadLocal_deref. destruct (key !! th) as [v|] eqn:E; [by rewrite E|by rewrite lookup_insert_eq].
Qed.

Lemma thread_local_private th th' v key :
  th ≠ th' → (ThreadLocal_deref th (ThreadLocal_set th v key)).1 = v ∧
    (ThreadLocal_deref th' (ThreadLocal_set th v key)).1 = (ThreadLocal_deref th' key).1.
Proof.
  intros Hne. unfold ThreadLocal_deref, ThreadLocal_set. rewrite lookup_insert_eq. split; [done|].
  rewrite lookup_insert_ne by done. unfold ThreadLocal_deref. destruct (key !! th) eqn:E; cbn; [|rewrite lookup_insert_ne by done]; by destruct (key !! th').
Qed.
End thread_local.
