(* ===== verification/ThreadPool.v ===== *)
(** * [ThreadPool] (base/thread_pool.h, base/thread_pool.cc), [BlockingQueue],
    [BoundedBlockingQueue] and [CountDownLatch] (base/blocking_queue.h,
    base/bounded_blocking_queue.h, base/count_down_latch.h)

    Objects shared by threads.  A critical section (from taking the mutex, or
    waking up with it, to releasing it or waiting) is one step; [None] is a
    thread that waits on a condition.  The pool is a step relation over its
    workers, each of which is between two points of [RunInThread]. *)

From stdpp Require Import base tactics list numbers strings relations.
From Stdlib Require Import ZArith Lia.
From S2P Require Import Prelude.

(** ** Queues and the latch *)
Section queues.
Context {T : Type}.

(** [BlockingQueue<T>]. *)
Definition bq_push (x : T) (q : list T) : list T := q ++ [x].
Definition bq_pop (q : list T) : option (T * list T) :=
  match q with [] => None | x :: q => Some (x, q) end.
(** [clear]: the elements, and the queue left. *)
Definition bq_clear (q : list T) : list T * list T := (q, []).
Definition bq_size (q : list T) : Z := zlen q.

(** [BoundedBlockingQueue<T>] with room for [max_size]. *)
Definition bbq_full (max_size : Z) (q : list T) : bool := zlen q =? max_size.
Definition bbq_push (max_size : Z) (x : T) (q : list T) : option (list T) :=
  if bbq_full max_size q then None else Some (q ++ [x]).
Definition bbq_pop (q : list T) : option (T * list T) :=
  match q with [] => None | x :: q => Some (x, q) end.

(** Any interleaving of pushes and pops keeps the order and the bound. *)
Lemma bbq_fifo max_size x q q' :
  zlen q ≤ max_size → bbq_push max_size x q = Some q' → q' = q ++ [x] ∧ zlen q' ≤ max_size.
Proof.
  unfold bbq_push, bbq_full. intros Hq. destruct (Z.eqb_spec (zlen q) max_size); [done|]. intros [= <-].
  split; [done|]. rewrite zlen_app. change (zlen [x]) with 1. lia.
Qed.
End queues.

(** [CountDownLatch]. *)
Definition latch_Wait (count_ : Z) : option unit := if 0 <? count_ then None else Some tt.
Definition latch_CountDown (count_ : Z) : Z * bool := (count_ - 1, count_ - 1 =? 0).

(** ** The pool *)
Section pool.
Context {task : Type}.

Record ThreadPool := MkPool {
  threads_ : nat;            (* the threads the pool holds *)
  queue_ : list task;
  max_queue_size_ : Z;       (* 0: no limit *)
  running_ : bool;
}.

Definition ThreadPool_new (max_queue_size : Z) : ThreadPool := MkPool 0 [] max_queue_size false.
Definition SetMaxQueueSize (max_size : Z) (p : ThreadPool) : ThreadPool :=
  MkPool (threads_ p) (queue_ p) max_size (running_ p).
Definition queue_size (p : ThreadPool) : Z := zlen (queue_ p).

(** [Start]: with it, how many threads were created. *)
Definition Start (num_threads : nat) (p : ThreadPool) : outcome (ThreadPool * nat) :=
  cassert "threads_.empty()" (bool_decide (threads_ p = 0%nat));;
  Ok (MkPool num_threads (queue_ p) (max_queue_size_ p) true, num_threads).

Definition IsFull (p : ThreadPool) : bool :=
  (0 <? max_queue_size_ p) && (max_queue_size_ p <=? zlen (queue_ p)).

Inductive run_result :=
| RanHere                                (* the caller ran the task itself *)
| RunWaits                               (* waits for room *)
| RunReturns (m : outcome ThreadPool).

(** [Run]: a stopped pool drops the task. *)
Definition Run (t : task) (p : ThreadPool) : run_result :=
  if bool_decide (threads_ p = 0%nat) then RanHere
  else if running_ p && IsFull p then RunWaits
  else if negb (running_ p) then RunReturns (Ok p)
  else RunReturns (cassert "!IsFull()" (negb (IsFull p));;
                   Ok (MkPool (threads_ p) (queue_ p ++ [t]) (max_queue_size_ p) (running_ p))).

(** [ResizeThreadNum]: with it, how many threads were created.  A thread that the
    pool lets go is detached by [Thread::~Thread] and goes on. *)
Definition ResizeThreadNum (num_threads : nat) (p : ThreadPool) : outcome (ThreadPool * nat) :=
  cassert "running_" (running_ p);;
  Ok (MkPool num_threads (queue_ p) (max_queue_size_ p) (running_ p), (num_threads - threads_ p)%nat).

(** [Pop]: [None] while it waits; an empty [std::function] when the pool stopped. *)
Definition Pop (p : ThreadPool) : option (option task * ThreadPool) :=
  match queue_ p with
  | [] => if running_ p then None else Some (None, p)
  | t :: q => Some (Some t, MkPool (threads_ p) q (max_queue_size_ p) (running_ p))
  end.

Definition Stop (p : ThreadPool) : ThreadPool := MkPool (threads_ p) (queue_ p) (max_queue_size_ p) false.

(** Where a worker is in [RunInThread]. *)
Inductive worker :=
| AtLoop                    (* about to test running_ *)
| AtPop                     (* in Pop() *)
| Running (t : task)        (* calling the task *)
| Exited.

(** The pool, its workers, and what happened: the tasks that [Run] queued and
    those that a worker started, in order. *)
Record system := MkSystem {
  pool : ThreadPool;
  workers : list worker;
  submitted : list task;
  started : list task;
}.

(** A new pool after [Start]. *)
Definition system_new (num_threads : nat) (max_queue_size : Z) : system :=
  match Start num_threads (ThreadPool_new max_queue_size) with
  | Ok (p, n) => MkSystem p (replicate n AtLoop) [] []
  | Fail _ => MkSystem (ThreadPool_new max_queue_size) [] [] []
  end.

Inductive step : system → system → Prop :=
| step_run t p ws sub st p' :
    Run t p = RunReturns (Ok p') →
    step (MkSystem p ws sub st) (MkSystem p' ws (if running_ p then sub ++ [t] else sub) st)
| step_stop p ws sub st : step (MkSystem p ws sub st) (MkSystem (Stop p) ws sub st)
| step_resize n p ws sub st p' k :
    ResizeThreadNum n p = Ok (p', k) →
    step (MkSystem p ws sub st) (MkSystem p' (ws ++ replicate k AtLoop) sub st)
| step_loop i p ws sub st :
    ws !! i = Some AtLoop →
    step (MkSystem p ws sub st) (MkSystem p (<[i := if running_ p then AtPop else Exited]> ws) sub st)
| step_pop_task i p ws sub st t p' :
    ws !! i = Some AtPop → Pop p = Some (Some t, p') →
    step (MkSystem p ws sub st) (MkSystem p' (<[i := Running t]> ws) sub (st ++ [t]))
| step_pop_none i p ws sub st p' :
    ws !! i = Some AtPop → Pop p = Some (None, p') →
    step (MkSystem p ws sub st) (MkSystem p' (<[i := AtLoop]> ws) sub st)
| step_done i p ws sub st t :
    ws !! i = Some (Running t) → step (MkSystem p ws sub st) (MkSystem p (<[i := AtLoop]> ws) sub st).

Record pool_inv (m : Z) (s : system) : Prop := MkPoolInv {
  pv_order : submitted s = started s ++ queue_ (pool s);
  pv_bound : 0 < m → zlen (queue_ (pool s)) ≤ m;
  pv_max : max_queue_size_ (pool s) = m;
  pv_workers : (threads_ (pool s) ≤ length (workers s))%nat;
}.

(** The branches of [Run] that return: [assert(!IsFull())] never fails. *)
Lemma Run_returns t p r :
  Run t p = RunReturns r →
  threads_ p ≠ 0%nat ∧
  ((running_ p = false ∧ r = Ok p) ∨
   (running_ p = true ∧ IsFull p = false ∧ r = Ok (MkPool (threads_ p) (queue_ p ++ [t]) (max_queue_size_ p) (running_ p)))).
Proof.
  unfold Run. case_bool_decide as Ht; [done|]. split; [done|]. revert H.
  destruct (running_ p) eqn:Er, (IsFull p) eqn:Ef; cbn; intros [= <-]; auto.
Qed.

Lemma Pop_cases p r p' :
  Pop p = Some (r, p') →
  (∃ t, r = Some t ∧ queue_ p = t :: queue_ p' ∧ max_queue_size_ p' = max_queue_size_ p ∧ threads_ p' = threads_ p) ∨
  (r = None ∧ p' = p ∧ queue_ p = []).
Proof.
  unfold Pop. destruct (queue_ p) as [|t q] eqn:Eq; [destruct (running_ p); [done|]; intros [= <- <-]; by right|].
  intros [= <- <-]. left. by exists t.
Qed.

Lemma pool_step_inv m s s' : step s s' → pool_inv m s → pool_inv m s'.
Proof.
  intros [t p ws sub st p' Hr|p ws sub st|n p ws sub st p' k Hr|i p ws sub st Hw|i p ws sub st t p' Hw Hp|i p ws sub st p' Hw Hp|i p ws sub st t Hw]
    [Ho Hb Hm Hn]; cbn in *; try (split; cbn; rewrite ?length_insert; done).
  - apply Run_returns in Hr as (_ & [[Er [= ->]]|(Er & Ef & [= ->])]); rewrite Er; [done|].
    split; cbn; [by rewrite Ho, app_assoc| |done|done].
    intros Hpos. rewrite zlen_app. change (zlen [t]) with 1. unfold IsFull in Ef. apply andb_false_iff in Ef. lia.
  - unfold ResizeThreadNum in Hr. destruct (running_ p); cbn in Hr; [|done]. injection Hr as <- <-.
    split; cbn; try done. rewrite length_app, length_replicate. lia.
  - apply Pop_cases in Hp as [(t' & [= <-] & Eq & Em & Et)|(? & _)]; [|done].
    split; cbn; [by rewrite Ho, Eq, <-app_assoc| |by rewrite Em|by rewrite length_insert, Et].
    intros Hpos. specialize (Hb Hpos). rewrite Eq, zlen_cons in Hb. lia.
  - apply Pop_cases in Hp as [(t' & ? & _)|(_ & -> & _)]; [done|].
    split; cbn; rewrite ?length_insert; done.
Qed.

(** C33: the thread pool runs tasks once, in order, within its bound.  In every
    state a started pool can reach, under any interleaving of clients, workers,
    [Stop] and [ResizeThreadNum], the tasks started so far followed by those in
    the queue are exactly the tasks that [Run] queued, in that order; the queue
    never holds more than [max_queue_size_] tasks; there is a worker for every
    thread of the pool; and a worker at [Pop] with a task in the queue can take
    the oldest one. *)
Theorem thread_pool_fifo n m s :
  rtc step (system_new n m) s →
  submitted s = started s ++ queue_ (pool s) ∧ (0 < m → zlen (queue_ (pool s)) ≤ m) ∧
  (threads_ (pool s) ≤ length (workers s))%nat ∧
  ∀ i t q, workers s !! i = Some AtPop → queue_ (pool s) = t :: q →
    ∃ s', step s s' ∧ started s' = started s ++ [t] ∧ queue_ (pool s') = q.
Proof.
  intros Hr. assert (pool_inv m s) as [Ho Hb Hm Hn].
  { change (system_new n m) with (MkSystem (MkPool n [] m true) (replicate n AtLoop) [] []) in Hr.
    revert Hr. apply (rtc_ind_r (λ s, pool_inv m s)); [|by intros; eapply pool_step_inv].
    split; cbn; [done|intros; rewrite zlen_nil; lia|done|by rewrite length_replicate]. }
  split; [done|]. split; [done|]. split; [done|]. intros i t q Hw Hq. destruct s as [p ws sub st]. cbn in *.
  eexists. split; [eapply step_pop_task; [exact Hw|]|]; [unfold Pop; by rewrite Hq|done].
Qed.

(** A stopped pool with work left: its idle workers exit, the queue stays. *)
Lemma stop_drops_queue t :
  let s := MkSystem (Stop (MkPool 1 [t] 0 true)) [AtLoop] [t] [] in
  step s (MkSystem (Stop (MkPool 1 [t] 0 true)) [Exited] [t] []).
Proof. exact (step_loop 0 _ [AtLoop] [t] [] eq_refl). Qed.

(** Resized to no thread at all, a pool leaves what is queued to the workers it
    let go, and a later task runs at once, before them. *)
Lemma resize_to_none_overtakes t1 t2 :
  ResizeThreadNum 0 (MkPool 1 [t1] 0 true) = Ok (MkPool 0 [t1] 0 true, 0%nat) ∧
  Run t2 (MkPool 0 [t1] 0 true) = RanHere.
Proof. done. Qed.

End pool.

Lemma thread_pool_fifo_witness :
  let s := MkSystem (MkPool 1 [8] 2 true) [AtPop] [7; 8] [7] in
  submitted s = started s ++ queue_ (pool s) ∧ (0 < 2 → zlen (queue_ (pool s)) ≤ 2).
Proof.
  intros s. destruct (thread_pool_fifo (task := Z) 1 2 s) as (H1 & H2 & _); [|split; [exact H1|exact H2]].
  eapply rtc_l; [exact (step_run 7 (MkPool 1 [] 2 true) [AtLoop] [] [] (MkPool 1 [7] 2 true) eq_refl)|].
  eapply rtc_l; [exact (step_loop 0 (MkPool 1 [7] 2 true) [AtLoop] [7] [] eq_refl)|].
  eapply rtc_l; [exact (step_pop_task 0 (MkPool 1 [7] 2 true) [AtPop] [7] [] 7 (MkPool 1 [] 2 true) eq_refl eq_refl)|].
  eapply rtc_l; [exact (step_run 8 (MkPool 1 [] 2 true) [Running 7] [7] [7] (MkPool 1 [8] 2 true) eq_refl)|].
  eapply rtc_l; [exact (step_done 0 (MkPool 1 [8] 2 true) [Running 7] [7; 8] [7] 7 eq_refl)|].
  eapply rtc_l; [exact (step_loop 0 (MkPool 1 [8] 2 true) [AtLoop] [7; 8] [7] eq_refl)|].
  apply rtc_refl.
Defined.
