(* ===== verification/Monitor.v ===== *)
(** * Conditions and the objects that wait on them (base/condition.h,
    base/blocking_queue.h, base/bounded_blocking_queue.h, base/count_down_latch.h,
    base/thread_pool.cc)

    A monitor is an object, its mutex and its conditions.  A critical section is
    one step, from taking the mutex to releasing it or waiting; [Notify] and
    [NotifyAll] wake threads up as pthread_cond_signal and
    pthread_cond_broadcast do, and a wait may also end by itself.  A thread that
    was woken up has to take the mutex again and may find that another thread was
    faster.  The theorems say that no thread is left asleep while its call could
    go on. *)

From stdpp Require Import base tactics list numbers strings gmap relations.
From Stdlib Require Import ZArith Lia.
From S2P Require Import Prelude.
From S2P Require Import ThreadPool.

(** ** Monitors *)
Section monitor.
Context {S op cond : Type} `{EqDecision cond}.

Inductive signal := Notify (c : cond) | NotifyAll (c : cond).

(** What the critical section of a call does: it waits, returns, or stops the
    program. *)
Inductive section_result :=
| Sleep (c : cond)
| Done (s : S) (signals : list signal)
| Stops (f : failure).

Context (section : op → S → section_result).

(** The threads that are in a call, by the call and the condition they sleep on. *)
Abbreviation calls := (gmap nat (op * option cond)).
Implicit Types m : calls.

Record monitor := MkMonitor { object : S; in_call : calls }.

Definition wake_up (c : cond) (x : op * option cond) : op * option cond :=
  (x.1, if decide (x.2 = Some c) then None else x.2).

(** [Notify] and [NotifyAll]. *)
Inductive wakes : signal → calls → calls → Prop :=
| wakes_nobody c m : (∀ th o, m !! th ≠ Some (o, Some c)) → wakes (Notify c) m m
| wakes_one c th o m : m !! th = Some (o, Some c) → wakes (Notify c) m (<[th := (o, None)]> m)
| wakes_all c m : wakes (NotifyAll c) m (wake_up c <$> m).

Inductive wake_list : list signal → calls → calls → Prop :=
| wake_nil m : wake_list [] m m
| wake_cons s ss m1 m2 m3 : wakes s m1 m2 → wake_list ss m2 m3 → wake_list (s :: ss) m1 m3.

Inductive mon_step : monitor → monitor → Prop :=
| mon_call th o s m : m !! th = None → mon_step (MkMonitor s m) (MkMonitor s (<[th := (o, None)]> m))
| mon_wait th o c s m :
    m !! th = Some (o, None) → section o s = Sleep c → mon_step (MkMonitor s m) (MkMonitor s (<[th := (o, Some c)]> m))
| mon_return th o s s' ss m m' :
    m !! th = Some (o, None) → section o s = Done s' ss → wake_list ss (delete th m) m' → mon_step (MkMonitor s m) (MkMonitor s' m')
| mon_spurious th o c s m : m !! th = Some (o, Some c) → mon_step (MkMonitor s m) (MkMonitor s (<[th := (o, None)]> m)).

(** ** Counting the threads that are awake *)
Definition awake (k : op → bool) m : nat := size (filter (λ x, k x.2.1 = true ∧ x.2.2 = None) m).
Definition asleep (c : cond) m : Prop := ∃ th o, m !! th = Some (o, Some c).

Lemma awake_insert_new k th o m : m !! th = None → awake k (<[th := (o, None)]> m) = ((if k o then 1 else 0) + awake k m)%nat.
Proof.
  intros Hn. unfold awake. rewrite map_filter_insert. cbn [fst snd]. case_decide as Hd.
  - destruct Hd as [-> _]. rewrite map_size_insert_None; [done|]. by rewrite map_lookup_filter_None; left.
  - rewrite delete_id by done. destruct (k o); [|done]. by destruct Hd.
Qed.

Lemma awake_delete k th o m : m !! th = Some (o, None) → awake k m = ((if k o then 1 else 0) + awake k (delete th m))%nat.
Proof.
  intros Hm. rewrite <-(awake_insert_new k th o (delete th m)) by apply lookup_delete_eq. by rewrite insert_delete_eq, insert_id.
Qed.

Lemma awake_asleep k th o c m : awake k (<[th := (o, Some c)]> m) = awake k (delete th m).
Proof. unfold awake. rewrite map_filter_insert. cbn [fst snd]. rewrite decide_False; [done|]. by intros [_ ?]. Qed.

Lemma awake_wake k th o c m : m !! th = Some (o, Some c) → awake k (<[th := (o, None)]> m) = ((if k o then 1 else 0) + awake k m)%nat.
Proof.
  intros Hm. rewrite <-insert_delete_eq, awake_insert_new by apply lookup_delete_eq.
  rewrite <-(insert_id m th (o, Some c)) at 2 by done. by rewrite awake_asleep.
Qed.

Lemma awake_pos k m : (0 < awake k m)%nat → ∃ th o, m !! th = Some (o, None) ∧ k o = true.
Proof.
  unfold awake. intros Hs. destruct (map_choose (filter (λ x, k x.2.1 = true ∧ x.2.2 = None) m)) as (th & [o w] & Hx).
  { intros E. rewrite E, map_size_empty in Hs. lia. }
  apply map_lookup_filter_Some in Hx as [Hm [Hk Hw]]. cbn in *. subst w. by exists th, o.
Qed.

(** ** Enough threads are awake *)

(** While a thread sleeps on [c], at least [n] threads in calls of the kind [k]
    are awake; only such calls sleep on [c]. *)
Record enough (c : cond) (k : op → bool) (n : nat) m : Prop := MkEnough {
  en_awake : asleep c m → (n ≤ awake k m)%nat;
  en_kind th o : m !! th = Some (o, Some c) → k o = true;
}.

Lemma asleep_insert c th x m : asleep c (<[th := x]> m) → x.2 = Some c ∨ asleep c (delete th m).
Proof.
  intros (th' & o & Hm). destruct (decide (th' = th)) as [->|Hne].
  - rewrite lookup_insert_eq in Hm. injection Hm as ->. by left.
  - right. exists th', o. rewrite lookup_insert_ne in Hm by done. by rewrite lookup_delete_ne.
Qed.
Lemma asleep_delete c th m : asleep c (delete th m) → asleep c m.
Proof. intros (th' & o & [_ Hm]%lookup_delete_Some). by exists th', o. Qed.

Lemma enough_none c k n : enough c k n ∅.
Proof. split; [intros (th & o & Hm)|intros th o Hm]; by rewrite lookup_empty in Hm. Qed.

Lemma enough_mono c k n n' m : (n' ≤ n)%nat → enough c k n m → enough c k n' m.
Proof. intros Hn [Ha Hk]. split; [|done]. intros Hs. specialize (Ha Hs). lia. Qed.

Lemma enough_awake c k n th o m : (m !! th = None ∨ ∃ c', m !! th = Some (o, Some c')) → enough c k n m → enough c k n (<[th := (o, None)]> m).
Proof.
  intros Hm [Ha Hk]. split.
  - intros [?|?%asleep_delete]%asleep_insert; [done|]. specialize (Ha H). destruct Hm as [Hm|[c' Hm]];
      [rewrite awake_insert_new by done|erewrite awake_wake by done]; lia.
  - intros th' o'. rewrite lookup_insert_Some. intros [[_ [=]]|[_ ?]]. by eapply Hk.
Qed.

Lemma enough_return c k n th o m : m !! th = Some (o, None) → enough c k ((if k o then 1 else 0) + n) m → enough c k n (delete th m).
Proof.
  intros Hm [Ha Hk]. split.
  - intros Hs%asleep_delete%Ha. rewrite (awake_delete k th o m Hm) in Hs. lia.
  - intros th' o' [_ ?]%lookup_delete_Some. by eapply Hk.
Qed.

Lemma enough_delete0 c k th m : enough c k 0 m → enough c k 0 (delete th m).
Proof. intros [_ Hk]. split; [lia|]. intros th' o' [_ ?]%lookup_delete_Some. by eapply Hk. Qed.

(** A thread goes to sleep on its own condition when nothing is there for it, or on
    another one. *)
Lemma enough_wait_own c k th o m : k o = true → enough c k 0 m → enough c k 0 (<[th := (o, Some c)]> m).
Proof.
  intros Ho [Ha Hk]. split; [lia|]. intros th' o'. rewrite lookup_insert_Some. intros [[_ [= <-]]|[_ ?]]; [done|by eapply Hk].
Qed.
Lemma enough_wait_other c c' k n th o m : m !! th = Some (o, None) → c' ≠ c → k o = false → enough c k n m → enough c k n (<[th := (o, Some c')]> m).
Proof.
  intros Hm Hc Ho [Ha Hk]. split.
  - intros [[=]|Hs%asleep_delete%Ha]%asleep_insert; [done|]. rewrite awake_asleep. rewrite (awake_delete k th o m Hm), Ho in Hs. lia.
  - intros th' o'. rewrite lookup_insert_Some. intros [[_ [= _ ?]]|[_ ?]]; [done|by eapply Hk].
Qed.

Lemma enough_notify c k n m m' : wakes (Notify c) m m' → enough c k n m → enough c k (1 + n) m'.
Proof.
  intros Hw [Ha Hk]. inversion Hw as [? ? Hno|? th o ? Hm|]; subst.
  - split; [|done]. intros (th & o & Hm). by apply Hno in Hm.
  - split.
    + intros [?|?%asleep_delete]%asleep_insert; [done|]. rewrite (awake_wake k th o c m Hm), (Hk _ _ Hm). specialize (Ha H). lia.
    + intros th' o'. rewrite lookup_insert_Some. intros [[_ [=]]|[_ ?]]. by eapply Hk.
Qed.
Lemma enough_notify_other c c' k n m m' : wakes (Notify c') m m' → enough c k n m → enough c k n m'.
Proof.
  intros Hw He. inversion Hw as [? ? Hno|? th o ? Hm|]; subst; [done|]. apply enough_awake; [right; by exists c'|done].
Qed.

(** A call that could go on: one like it is awake. *)
Lemma enough_runnable c k n m th o w :
  enough c k n m → (0 < n)%nat → m !! th = Some (o, w) → k o = true → (∀ c', w = Some c' → c' = c) →
  ∃ th' o', m !! th' = Some (o', None) ∧ k o' = true.
Proof.
  intros [Ha _] Hn Hm Hk Hw. destruct w as [c'|]; [|by exists th, o]. specialize (Hw c' eq_refl). subst c'.
  apply awake_pos. assert (asleep c m) as Hs by (by exists th, o). specialize (Ha Hs). lia.
Qed.

(** Some call of the kind [k] returns as soon as its thread has the mutex. *)
Definition returning (k : op → bool) (s : monitor) : Prop :=
  ∃ th o s' ss, in_call s !! th = Some (o, None) ∧ k o = true ∧ section o (object s) = Done s' ss.

Lemma asleep_wake_up c c' m : asleep c (wake_up c' <$> m) → c ≠ c' ∧ asleep c m.
Proof.
  intros (th & o & Hm). rewrite lookup_fmap, fmap_Some in Hm. destruct Hm as ([o' w] & Hm & [= -> Hw]). cbn in Hw.
  case_decide; [done|]. subst w. split; [congruence|by exists th, o'].
Qed.

Lemma wake_list_nil m m' : wake_list [] m m' → m' = m.
Proof. by inversion 1. Qed.
Lemma wake_list_one s m m' : wake_list [s] m m' → wakes s m m'.
Proof. inversion 1 as [|? ? ? m2 ? Hw Hl]; subst. by inversion Hl; subst. Qed.
End monitor.
Arguments signal : clear implicits.
Arguments section_result : clear implicits.
Arguments monitor : clear implicits.
Arguments MkMonitor {S op cond} _ _.

(** ** The queues *)
Inductive queue_cond := not_empty_ | not_full_.
#[global] Instance queue_cond_eq_dec : EqDecision queue_cond.
Proof. solve_decision. Defined.

Section queues.
Context {T : Type}.

Inductive queue_call := PushCall (x : T) | PopCall | ClearCall.
Definition is_pop (o : queue_call) : bool := match o with PopCall => true | _ => false end.
Definition is_push (o : queue_call) : bool := match o with PushCall _ => true | _ => false end.

(** [BlockingQueue<T>]. *)
Definition bq_section (o : queue_call) (q : list T) : section_result (list T) queue_cond :=
  match o with
  | PushCall x => Done (bq_push x q) [Notify not_empty_]
  | PopCall => match bq_pop q with Some (_, q) => Done q [] | None => Sleep not_empty_ end
  | ClearCall => Done (bq_clear q).2 []
  end.

(** [BoundedBlockingQueue<T>], which has no [clear]. *)
Definition bbq_section (max_size : Z) (o : queue_call) (q : list T) : section_result (list T) queue_cond :=
  match o with
  | PushCall x => match bbq_push max_size x q with Some q => Done q [Notify not_empty_] | None => Sleep not_full_ end
  | PopCall => match bbq_pop q with Some (_, q) => Done q [Notify not_full_] | None => Sleep not_empty_ end
  | ClearCall => Done q []
  end.

Record bq_inv (m : monitor (list T) queue_call queue_cond) : Prop := MkBqInv {
  qi_pop : enough not_empty_ is_pop (length (object m)) (in_call m);
  qi_other : enough not_full_ (λ _, false) 0 (in_call m);
}.

Lemma bq_step_inv m m' : mon_step bq_section m m' → bq_inv m → bq_inv m'.
Proof.
  intros [th o q m0 Hm|th o c q m0 Hm Hs|th o q q' ss m0 m1 Hm Hs Hw|th o c q m0 Hm] [He Hn]; cbn [object in_call] in *.
  - split; cbn [object in_call]; by apply enough_awake; [left|].
  - destruct o as [x| |]; cbn in Hs; try done. destruct q as [|y q]; [|done]. injection Hs as <-.
    split; cbn [object in_call]; [by apply enough_wait_own|by apply enough_wait_other].
  - destruct o as [x| |]; cbn in Hs.
    + injection Hs as <- <-. apply wake_list_one in Hw. unfold bq_push. split; cbn [object in_call].
      * rewrite length_app, Nat.add_comm. eapply enough_notify; [done|]. by eapply enough_return.
      * eapply enough_notify_other; [done|]. by eapply enough_return.
    + destruct q as [|y q]; [done|]. injection Hs as <- <-. apply wake_list_nil in Hw as ->. split; cbn [object in_call]; by eapply enough_return.
    + injection Hs as <- <-. apply wake_list_nil in Hw as ->. split; cbn [object in_call]; [|by eapply enough_return].
      eapply enough_return; [done|]. cbn. eapply enough_mono; [|done]. lia.
  - split; cbn [object in_call]; apply enough_awake; (done || right; by exists c).
Qed.

Definition room (max_size : Z) (q : list T) : nat := Z.to_nat (max_size - zlen q).

Record bbq_inv (max_size : Z) (m : monitor (list T) queue_call queue_cond) : Prop := MkBbqInv {
  bi_pop : enough not_empty_ is_pop (length (object m)) (in_call m);
  bi_push : enough not_full_ is_push (room max_size (object m)) (in_call m);
  bi_size : zlen (object m) ≤ max_size;
}.

Lemma bbq_step_inv max_size m m' : mon_step (bbq_section max_size) m m' → bbq_inv max_size m → bbq_inv max_size m'.
Proof.
  intros [th o q m0 Hm|th o c q m0 Hm Hs|th o q q' ss m0 m1 Hm Hs Hw|th o c q m0 Hm] [Hp Hf Hb]; cbn [object in_call] in *.
  - split; cbn [object in_call]; try done; by apply enough_awake; [left|].
  - destruct o as [x| |]; cbn in Hs; try done.
    + unfold bbq_push in Hs. destruct (bbq_full max_size q) eqn:E; [|done]. injection Hs as <-. unfold bbq_full in E.
      assert (room max_size q = 0)%nat as Hr by (unfold room; lia).
      split; cbn [object in_call]; [by apply enough_wait_other|rewrite Hr in *; by apply enough_wait_own|done].
    + destruct q as [|y q]; [|done]. injection Hs as <-. split; cbn [object in_call]; [by apply enough_wait_own|by apply enough_wait_other|done].
  - destruct o as [x| |]; cbn in Hs.
    + unfold bbq_push in Hs. destruct (bbq_full max_size q) eqn:E; [done|]. injection Hs as <- <-. apply wake_list_one in Hw. unfold bbq_full in E.
      assert (room max_size q = 1 + room max_size (q ++ [x]))%nat as Hr by (unfold room; rewrite zlen_app; change (zlen [x]) with 1; lia).
      split; cbn [object in_call]; [| |rewrite zlen_app; change (zlen [x]) with 1; lia].
      * rewrite length_app, Nat.add_comm. eapply enough_notify; [done|]. by eapply enough_return.
      * eapply enough_notify_other; [done|]. eapply enough_return; [done|]. by rewrite Hr in Hf.
    + destruct q as [|y q]; [done|]. injection Hs as <- <-. apply wake_list_one in Hw. rewrite zlen_cons in Hb.
      assert (room max_size q = 1 + room max_size (y :: q))%nat as Hr by (unfold room; rewrite zlen_cons; lia).
      split; cbn [object in_call]; [| |lia].
      * eapply enough_notify_other; [done|]. by eapply enough_return.
      * rewrite Hr. eapply enough_notify; [done|]. by eapply enough_return.
    + injection Hs as <- <-. apply wake_list_nil in Hw as ->. split; cbn [object in_call]; try done; by eapply enough_return.
  - split; cbn [object in_call]; try done; apply enough_awake; (done || right; by exists c).
Qed.

Definition pending (m : monitor (list T) queue_call queue_cond) (o : queue_call) : Prop := ∃ th w, in_call m !! th = Some (o, w).

(** The blocking queue leaves nobody asleep next to an element. *)
Theorem blocking_queue_never_stalls m :
  rtc (mon_step bq_section) (MkMonitor [] ∅) m → pending m PopCall → object m ≠ [] → returning bq_section is_pop m.
Proof.
  intros Hr (th & w & Hm) Hq. assert (bq_inv m) as [He Hn].
  { revert Hr. apply (rtc_ind_r bq_inv); [|by intros; eapply bq_step_inv]. split; apply enough_none. }
  destruct (object m) as [|y q] eqn:Eq; [done|].
  destruct (enough_runnable not_empty_ is_pop (length (y :: q)) (in_call m) th PopCall w) as (th' & o & Hm' & Ho); try done; [cbn; lia| |].
  { intros [] ->; [done|]. by apply (en_kind _ _ _ _ Hn) in Hm. }
  destruct o; try done. exists th', PopCall, q, []. by rewrite Eq.
Qed.

(** The bounded queue never stalls.  Whatever threads push and pop, and
    whichever sleepers [Notify] picks, the queue keeps to its bound; while it is not
    empty and some thread is in [pop], a thread in [pop] is awake and returns with
    an element once it has the mutex; and while it is not full the same holds of
    [push]: no wake-up is lost. *)
Theorem bounded_queue_never_stalls max_size m :
  0 ≤ max_size → rtc (mon_step (bbq_section max_size)) (MkMonitor [] ∅) m →
  zlen (object m) ≤ max_size ∧
  (pending m PopCall → object m ≠ [] → returning (bbq_section max_size) is_pop m) ∧
  (∀ x, pending m (PushCall x) → bbq_full max_size (object m) = false → returning (bbq_section max_size) is_push m).
Proof.
  intros Hmax Hr. assert (bbq_inv max_size m) as [Hp Hf Hb].
  { revert Hr. apply (rtc_ind_r (bbq_inv max_size)); [|by intros; eapply bbq_step_inv].
    split; [apply enough_none..|]. cbn. by rewrite zlen_nil. }
  split; [done|]. split.
  - intros (th & w & Hm) Hq. destruct (object m) as [|y q] eqn:Eq; [done|].
    destruct (enough_runnable not_empty_ is_pop (length (y :: q)) (in_call m) th PopCall w) as (th' & o & Hm' & Ho); try done; [cbn; lia| |].
    { intros [] ->; [done|]. by apply (en_kind _ _ _ _ Hf) in Hm. }
    destruct o; try done. exists th', PopCall, q, [Notify not_full_]. by rewrite Eq.
  - intros x (th & w & Hm) Hq. assert (0 < room max_size (object m))%nat as Hn by (unfold bbq_full in Hq; unfold room; lia).
    destruct (enough_runnable not_full_ is_push (room max_size (object m)) (in_call m) th (PushCall x) w) as (th' & o & Hm' & Ho); try done.
    { intros [] ->; [|done]. by apply (en_kind _ _ _ _ Hp) in Hm. }
    destruct o as [y| |]; try done. exists th', (PushCall y), (object m ++ [y]), [Notify not_empty_]. split; [done|]. split; [done|].
    cbn. unfold bbq_push. by rewrite Hq.
Qed.
End queues.

(** ** The thread pool *)
Section pool.
Context {task : Type}.

(** The calls that take the pool's mutex; the workers are in [Pop]. *)
Inductive pool_call := RunCall (t : task) | TakeCall | StopCall.
Definition is_take (o : pool_call) : bool := match o with TakeCall => true | _ => false end.
Definition is_run (o : pool_call) : bool := match o with RunCall _ => true | _ => false end.

Definition run_section (t : task) (p : ThreadPool) : section_result ThreadPool queue_cond :=
  match Run t p with
  | RanHere => Done p []
  | RunWaits => Sleep not_full_
  | RunReturns (Ok p') => Done p' (if running_ p then [Notify not_empty_] else [])
  | RunReturns (Fail f) => Stops f
  end.
Definition take_section (p : ThreadPool (task := task)) : section_result ThreadPool queue_cond :=
  match Pop p with
  | None => Sleep not_empty_
  | Some (Some _, p') => Done p' (if 0 <? max_queue_size_ p then [Notify not_full_] else [])
  | Some (None, p') => Done p' []
  end.
Definition stop_section (p : ThreadPool (task := task)) : section_result ThreadPool queue_cond :=
  Done (Stop p) [NotifyAll not_empty_; NotifyAll not_full_].

Definition pool_section (o : pool_call) (p : ThreadPool) : section_result ThreadPool queue_cond :=
  match o with
  | RunCall t => run_section t p
  | TakeCall => take_section p
  | StopCall => stop_section p
  end.

Implicit Types m : gmap nat (pool_call * option queue_cond).
Definition all_awake m : Prop := ∀ th o w, m !! th = Some (o, w) → w = None.

Implicit Types p : ThreadPool (task := task).
Definition pool_room p : nat :=
  if 0 <? max_queue_size_ p then Z.to_nat (max_queue_size_ p - zlen (queue_ p)) else 0.

Record sleepers_ok (p : ThreadPool) m : Prop := MkSleepersOk {
  sl_take : enough not_empty_ is_take (length (queue_ p)) m;
  sl_run : enough not_full_ is_run (pool_room p) m;
  sl_limited : asleep not_full_ m → 0 < max_queue_size_ p;
}.

Record pool_mon_inv (s : monitor ThreadPool pool_call queue_cond) : Prop := MkPoolMonInv {
  pm_running : running_ (object s) = true → sleepers_ok (object s) (in_call s);
  pm_stopped : running_ (object s) = false → all_awake (in_call s);
  pm_bound : 0 < max_queue_size_ (object s) → zlen (queue_ (object s)) ≤ max_queue_size_ (object s);
  pm_threads : threads_ (object s) ≠ 0%nat;
}.

Lemma all_awake_wake_list ss m m' : wake_list ss m m' → all_awake m → all_awake m'.
Proof.
  induction 1 as [|s ss m1 m2 m3 Hw _ IH]; [done|]. intros Ha. apply IH. destruct Hw as [| c th o m Hm|c m].
  - done.
  - by apply Ha in Hm.
  - intros th o w. rewrite lookup_fmap, fmap_Some. intros ([o' w'] & Hm & [= -> ->]). cbn. apply Ha in Hm as ->. by case_decide.
Qed.

(** [Stop] wakes everybody. *)
Lemma stop_wakes m m' : wake_list [NotifyAll not_empty_; NotifyAll not_full_] m m' → all_awake m'.
Proof.
  inversion 1 as [|? ? ? m2 ? Hw Hl]; subst. apply wake_list_one in Hl. inversion Hw; subst. inversion Hl; subst.
  intros th o [c|] Hm; [|done]. exfalso. assert (asleep c (wake_up not_full_ <$> (wake_up not_empty_ <$> m))) as Hs by (by exists th, o).
  apply asleep_wake_up in Hs as [? Hs]. apply asleep_wake_up in Hs as [? _]. by destruct c.
Qed.

Lemma sleepers_awake p th o m : (m !! th = None ∨ ∃ c, m !! th = Some (o, Some c)) → sleepers_ok p m → sleepers_ok p (<[th := (o, None)]> m).
Proof.
  intros Hm [Ht Hr Hl]. split; [by apply enough_awake..|]. intros [?|?%asleep_delete]%asleep_insert; [done|by apply Hl].
Qed.

Lemma sleepers_wait p th o c m :
  sleepers_ok p m → running_ p = true → m !! th = Some (o, None) → pool_section o p = Sleep c → sleepers_ok p (<[th := (o, Some c)]> m).
Proof.
  intros [Ht Hr Hl] Hrun Hm Hs. destruct o as [t| |]; cbn in Hs; [| |done].
  - unfold run_section, Run in Hs. case_bool_decide; [done|]. rewrite Hrun in Hs. destruct (IsFull p) eqn:Ef; cbn in Hs; [|done]. injection Hs as <-.
    unfold IsFull in Ef. apply andb_true_iff in Ef as [E1 E2]. assert (pool_room p = 0)%nat as Hz by (unfold pool_room; rewrite E1; lia).
    split; [by apply enough_wait_other|rewrite Hz in *; by apply enough_wait_own|lia].
  - unfold take_section, Pop in Hs. destruct (queue_ p) as [|t q] eqn:Eq; [|done]. rewrite Hrun in Hs. injection Hs as <-.
    split; [rewrite Eq; by apply enough_wait_own|by apply enough_wait_other|]. intros [[=]|?%asleep_delete]%asleep_insert. by apply Hl.
Qed.

Lemma sleepers_notify p p' c m m' :
  wakes (Notify c) m m' → enough not_empty_ is_take (length (queue_ p') - match c with not_empty_ => 1 | not_full_ => 0 end) m →
  enough not_full_ is_run (pool_room p' - match c with not_empty_ => 0 | not_full_ => 1 end) m → (asleep not_full_ m → 0 < max_queue_size_ p) →
  max_queue_size_ p' = max_queue_size_ p → sleepers_ok p' m'.
Proof.
  intros Hw Ht Hr Hl Hm. split.
  - destruct c; cbn in Ht; [eapply enough_notify in Ht; [|done]|eapply enough_notify_other in Ht; [|done]]; (eapply enough_mono; [|done]; lia).
  - destruct c; cbn in Hr; [eapply enough_notify_other in Hr; [|done]|eapply enough_notify in Hr; [|done]]; (eapply enough_mono; [|done]; lia).
  - intros Hs. rewrite Hm. apply Hl. inversion Hw; subst; [done|]. by apply asleep_insert in Hs as [?|?%asleep_delete].
Qed.

Lemma sleepers_run p t p' th m m' :
  sleepers_ok p m → running_ p = true → (0 < max_queue_size_ p → zlen (queue_ p) ≤ max_queue_size_ p) → m !! th = Some (RunCall t, None) →
  Run t p = RunReturns (Ok p') → wakes (Notify not_empty_) (delete th m) m' → sleepers_ok p' m'.
Proof.
  intros [Ht Hr Hl] Hrun Hb Hm Hret Hw. apply Run_returns in Hret as (_ & [[E _]|(_ & Ef & [= ->])]); [congruence|].
  eapply (sleepers_notify p); [done| | |by intros ?%asleep_delete%Hl|done]; cbn [queue_].
  - rewrite length_app. cbn. rewrite Nat.add_sub. by eapply enough_return.
  - unfold pool_room in *. cbn [max_queue_size_ queue_]. rewrite Nat.sub_0_r. destruct (Z.ltb_spec 0 (max_queue_size_ p)) as [Hpos|]; [|by apply enough_delete0].
    eapply enough_return; [done|]. eapply enough_mono; [|done]. cbn [is_run]. unfold IsFull in Ef.
    rewrite zlen_app. change (zlen [t]) with 1. apply andb_false_iff in Ef. lia.
Qed.

Lemma sleepers_take p t p' th m m' :
  sleepers_ok p m → (0 < max_queue_size_ p → zlen (queue_ p) ≤ max_queue_size_ p) → m !! th = Some (TakeCall, None) →
  Pop p = Some (Some t, p') → wake_list (if 0 <? max_queue_size_ p then [Notify not_full_] else []) (delete th m) m' → sleepers_ok p' m'.
Proof.
  intros [Ht Hr Hl] Hb Hm Hpop Hw. apply Pop_cases in Hpop as [(t' & _ & Eq & Em & _)|[? _]]; [|done].
  assert (enough not_empty_ is_take (length (queue_ p')) (delete th m)) as Ht'.
  { eapply enough_return; [done|]. by rewrite Eq in Ht. }
  unfold pool_room in Hr. destruct (Z.ltb_spec 0 (max_queue_size_ p)) as [Hpos|Hneg].
  - apply wake_list_one in Hw. eapply (sleepers_notify p); [done| | |by intros ?%asleep_delete%Hl|done].
    + by rewrite Nat.sub_0_r.
    + unfold pool_room. rewrite Em. replace (0 <? max_queue_size_ p) with true by lia. eapply enough_return; [done|]. eapply enough_mono; [|done].
      specialize (Hb Hpos). rewrite Eq, zlen_cons in *. cbn. lia.
  - apply wake_list_nil in Hw as ->. split; [done| |intros ?%asleep_delete%Hl; lia].
    unfold pool_room. rewrite Em. replace (0 <? max_queue_size_ p) with false by lia. by apply enough_delete0.
Qed.

Lemma pool_mon_return th o s s' ss m m' :
  pool_mon_inv (MkMonitor s m) → m !! th = Some (o, None) → pool_section o s = Done s' ss → wake_list ss (delete th m) m' →
  pool_mon_inv (MkMonitor s' m').
Proof.
  intros [Hru Hst Hb Hth] Hm Hs Hw. cbn [object in_call] in *.
  assert (all_awake m → all_awake m') as Haw.
  { intros Ha. eapply all_awake_wake_list; [done|]. intros th' o' w [_ ?]%lookup_delete_Some. by eapply Ha. }
  destruct o as [t| |]; cbn [pool_section] in Hs; unfold run_section, take_section, stop_section in Hs.
  - destruct (Run t s) as [| |[p'|f]] eqn:Hret; try done.
    { unfold Run in Hret. case_bool_decide; [done|]. by destruct (running_ s && IsFull s), (negb (running_ s)). }
    injection Hs as <- <-. pose proof Hret as Hret'. apply Run_returns in Hret as (_ & [[Er [= ->]]|(Er & Ef & [= ->])]).
    + rewrite Er in *. split; cbn [object in_call]; try done; [congruence|by intros _; apply Haw, Hst].
    + rewrite Er in Hw. apply wake_list_one in Hw. split; cbn [object in_call running_ max_queue_size_ queue_ threads_]; try done; [intros _|congruence|].
      * by eapply sleepers_run; [apply Hru| | | | |].
      * intros Hpos. unfold IsFull in Ef. rewrite zlen_app. change (zlen [t]) with 1. apply andb_false_iff in Ef. lia.
  - destruct (Pop s) as [[[t|] p']|] eqn:Hpop; try done; injection Hs as <- <-.
    + pose proof Hpop as Hpop'. apply Pop_cases in Hpop' as [(t' & _ & Eq & Em & Et)|[? _]]; [|done].
      assert (running_ p' = running_ s) as Er by (unfold Pop in Hpop; destruct (queue_ s); [by destruct (running_ s)|by injection Hpop as _ <-]).
      split; cbn [object in_call]; rewrite ?Er, ?Em, ?Et; try done.
      * intros E. by eapply sleepers_take; [apply Hru| | | |].
      * intros E. by apply Haw, Hst.
      * intros Hpos. specialize (Hb Hpos). rewrite Eq, zlen_cons in Hb. lia.
    + assert (running_ s = false ∧ p' = s) as [Er ->] by (unfold Pop in Hpop; destruct (queue_ s), (running_ s); by simplify_eq).
      split; cbn [object in_call]; try done; [congruence|]. intros _. by apply Haw, Hst.
  - injection Hs as <- <-. split; cbn [object in_call Stop running_ max_queue_size_ queue_ threads_]; try done. intros _. by eapply stop_wakes.
Qed.

Lemma pool_mon_step s s' : mon_step pool_section s s' → pool_mon_inv s → pool_mon_inv s'.
Proof.
  intros [th o p m Hm|th o c p m Hm Hs|th o p p' ss m m' Hm Hs Hw|th o c p m Hm] Hi; [| |by eapply pool_mon_return|];
    destruct Hi as [Hru Hst Hb Hth]; cbn [object in_call] in *; split; cbn [object in_call]; try done.
  - intros Hr. apply sleepers_awake; [by left|auto].
  - intros Hr th' o' w. rewrite lookup_insert_Some. intros [[_ [= _ <-]]|[_ ?]]; [done|by eapply Hst].
  - intros Hr. apply sleepers_wait; auto.
  - intros Hr. exfalso. destruct o as [t| |]; cbn in Hs; [| |done].
    + unfold run_section, Run in Hs. rewrite Hr in Hs. by case_bool_decide.
    + unfold take_section, Pop in Hs. rewrite Hr in Hs. by destruct (queue_ p).
  - intros Hr. apply sleepers_awake; [right; by exists c|auto].
  - intros Hr th' o' w. rewrite lookup_insert_Some. intros [[_ [= _ <-]]|[_ ?]]; [done|by eapply Hst].
Qed.

Lemma pool_mon_reach n max s :
  n ≠ 0%nat → rtc (mon_step pool_section) (MkMonitor (MkPool n [] max true) ∅) s → pool_mon_inv s.
Proof.
  intros Hn. apply (rtc_ind_r pool_mon_inv); [|by intros; eapply pool_mon_step].
  split; cbn [object in_call queue_ max_queue_size_ threads_ running_]; try done; [|unfold zlen; cbn; lia].
  intros _. split; [apply enough_none..|]. intros (th & o & Hm). by rewrite lookup_empty in Hm.
Qed.

(** C34: the thread pool never stalls.  Whatever clients call [Run] and [Stop],
    whatever workers call [Pop] and whichever sleepers [Notify] picks: no assertion
    fails; while a running pool has a task and some worker is in [Pop], a worker in
    [Pop] is awake and will take a task; while it has room the same holds of [Run];
    and in a stopped pool nobody sleeps and every call returns, so that the workers
    can be joined. *)
Theorem pool_never_stalls n max s :
  n ≠ 0%nat → 0 ≤ max → rtc (mon_step pool_section) (MkMonitor (MkPool n [] max true) ∅) s →
  (∀ o f, pool_section o (object s) ≠ Stops f) ∧
  (∀ th w, in_call s !! th = Some (TakeCall, w) → queue_ (object s) ≠ [] → returning pool_section is_take s) ∧
  (∀ th t w, in_call s !! th = Some (RunCall t, w) → IsFull (object s) = false → returning pool_section is_run s) ∧
  (running_ (object s) = false → ∀ th o w, in_call s !! th = Some (o, w) →
     w = None ∧ ∃ p ss, pool_section o (object s) = Done p ss).
Proof.
  intros Hn Hmax Hr. destruct (pool_mon_reach _ _ _ Hn Hr) as [Hru Hst Hb Hth]. destruct s as [p m]. cbn [object in_call] in *.
  assert (∀ t, IsFull p = false ∨ running_ p = false → ∃ p' ss, pool_section (RunCall t) p = Done p' ss) as Hrun.
  { intros t Hf. unfold pool_section, run_section, Run. rewrite bool_decide_false by done. destruct (running_ p), (IsFull p); cbn; destruct Hf; eauto; done. }
  assert (∀ q t, queue_ p = t :: q → ∃ p' ss, pool_section TakeCall p = Done p' ss) as Htake.
  { intros q t Hq. unfold pool_section, take_section, Pop. rewrite Hq. eauto. }
  split_and!.
  - intros [t| |] f; cbn; unfold run_section, take_section; [| |done].
    + destruct (Run t p) as [| |[|]] eqn:E; try done. by apply Run_returns in E as (_ & [[_ ?]|(_ & _ & ?)]).
    + by destruct (Pop p) as [[[|]]|].
  - intros th w Hm Hq. destruct (queue_ p) as [|t q] eqn:Eq; [done|]. destruct (Htake q t eq_refl) as (p' & ss & Hs).
    assert (∃ th' o', m !! th' = Some (o', None) ∧ is_take o' = true) as (th' & [| |] & Hm' & ?); try done; [|by exists th', TakeCall, p', ss].
    destruct (running_ p) eqn:Er; [|apply (Hst eq_refl) in Hm as E; subst w; by exists th, TakeCall].
    destruct (Hru eq_refl) as [Ht Hf _]. eapply (enough_runnable not_empty_ is_take); [exact Ht|rewrite Eq; cbn; lia|exact Hm|done|].
    intros [] ->; [done|]. by apply (en_kind _ _ _ _ Hf) in Hm.
  - intros th t w Hm Hq. destruct (Hrun t) as (p' & ss & Hs); [by left|].
    assert (∃ th' o', m !! th' = Some (o', None) ∧ is_run o' = true) as (th' & [t'| |] & Hm' & ?); try done;
      [|destruct (Hrun t') as (p1 & ss1 & Hs1); [by left|]; by exists th', (RunCall t'), p1, ss1].
    destruct (running_ p) eqn:Er; [|apply (Hst eq_refl) in Hm as E; subst w; by exists th, (RunCall t)]. destruct w as [c|]; [|by exists th, (RunCall t)].
    destruct (Hru eq_refl) as [Ht Hf Hl]. assert (c = not_full_) as -> by (destruct c; [|done]; by apply (en_kind _ _ _ _ Ht) in Hm).
    assert (0 < max_queue_size_ p) as Hpos by (apply Hl; by exists th, (RunCall t)).
    eapply (enough_runnable not_full_ is_run); [exact Hf| |exact Hm|done|by intros ? [= <-]].
    unfold pool_room. replace (0 <? max_queue_size_ p) with true by lia. unfold IsFull in Hq. specialize (Hb Hpos). lia.
  - intros Er th o w Hm. split; [by eapply Hst|]. destruct o as [t| |]; [apply Hrun; by right| |by eexists _, _].
    unfold pool_section, take_section, Pop. rewrite Er. destruct (queue_ p); eauto.
Qed.
End pool.

(** ** The latch *)
Inductive latch_call := WaitCall | CountDownCall.
Definition latch_section (o : latch_call) (count : Z) : section_result Z unit :=
  match o with
  | WaitCall => match latch_Wait count with None => Sleep () | Some _ => Done count [] end
  | CountDownCall => let '(count, zero) := latch_CountDown count in Done count (if zero then [NotifyAll ()] else [])
  end.

(** A latch at zero leaves nobody behind: every thread in a call is awake and
    returns. *)
Theorem latch_releases_all n s :
  rtc (mon_step latch_section) (MkMonitor n ∅) s → object s ≤ 0 →
  ∀ th o w, in_call s !! th = Some (o, w) → w = None ∧ ∃ c ss, latch_section o (object s) = Done c ss.
Proof.
  intros Hr Hz. assert (object s ≤ 0 → ¬ asleep () (in_call s)) as Hi.
  { clear Hz. revert Hr. apply (rtc_ind_r (λ s, object s ≤ 0 → ¬ asleep () (in_call s))).
    { intros _ (th & o & Hm). cbn in Hm. by rewrite lookup_empty in Hm. }
    intros s1 s2 _ [th o c m Hm|th o [] c m Hm Hs|th o c c' ss m m' Hm Hs Hw|th o [] c m Hm] IH Hc; cbn [object in_call] in *.
    - intros [?|?%asleep_delete]%asleep_insert; [done|by apply IH].
    - destruct o; cbn in Hs; [|by destruct (c - 1 =? 0)]. unfold latch_Wait in Hs. destruct (Z.ltb_spec 0 c); [lia|done].
    - destruct o; cbn in Hs.
      + unfold latch_Wait in Hs. destruct (0 <? c); [done|]. injection Hs as <- <-. apply wake_list_nil in Hw as ->.
        intros ?%asleep_delete. by apply IH.
      + injection Hs as <- <-. destruct (Z.eqb_spec (c - 1) 0).
        * apply wake_list_one in Hw. inversion Hw; subst. by intros [? _]%asleep_wake_up.
        * apply wake_list_nil in Hw as ->. intros ?%asleep_delete. apply IH; [lia|done].
    - intros [?|?%asleep_delete]%asleep_insert; [done|by apply IH]. }
  intros th o w Hm. split.
  - destruct w as [[]|]; [|done]. destruct (Hi Hz). by exists th, o.
  - destruct o; cbn; [|by eexists _, _]. unfold latch_Wait. destruct (Z.ltb_spec 0 (object s)); [lia|]. by eexists _, _.
Qed.

(** ** A pool with one worker and room for one task *)
Lemma pool_never_stalls_witness :
  let s := MkMonitor (MkPool (task := Z) 1 [7] 1 true) {[1%nat := (RunCall 8, Some not_full_); 2%nat := (TakeCall, None)]} in
  rtc (mon_step pool_section) (MkMonitor (MkPool 1 [] 1 true) ∅) s ∧ returning pool_section is_take s.
Proof.
  intros s. assert (rtc (mon_step pool_section) (MkMonitor (MkPool 1 [] 1 true) ∅) s) as Hr.
  { eapply rtc_l; [apply (mon_call _ 1 (RunCall 7)); reflexivity|].
    eapply rtc_l; [apply (mon_return _ 1 (RunCall 7) _ (MkPool 1 [7] 1 true) [Notify not_empty_] _ ∅); [reflexivity..|]|].
    { eapply wake_cons; [|apply wake_nil]. apply wakes_nobody. intros th o. vm_compute. destruct th; discriminate. }
    eapply rtc_l; [apply (mon_call _ 1 (RunCall 8)); reflexivity|].
    eapply rtc_l; [apply (mon_wait _ 1 (RunCall 8) not_full_); reflexivity|].
    eapply rtc_l; [apply (mon_call _ 2 TakeCall); reflexivity|]. apply rtc_refl. }
  split; [exact Hr|]. destruct (pool_never_stalls (task := Z) 1 1 s) as (_ & H & _ & _).
  - discriminate.
  - lia.
  - exact Hr.
  - apply (H 2%nat None); [reflexivity|discriminate].
Defined.
