(* ===== verification/Files.v ===== *)
(** * [ReadSmallFile] and [AppendFile] (utils/file.h, utils/file.cc)

    The system calls answer from a script: [read(2)] with bytes or an error
    number, [fstat] with the attributes, [fwrite_unlocked] with a count and
    whether [ferror] is set. *)

From stdpp Require Import base tactics list numbers strings.
From Stdlib Require Import ZArith Lia Ascii.
From S2P Require Import Prelude.
From S2P Require Import CString.

(** ** [ReadSmallFile] *)
Definition kBufferSize : Z := 64 * 1024.
Definition EISDIR : Z := 21.

Record ReadSmallFile := MkReadSmallFile { fd_ : Z; err_ : Z; buf_ : bytes }.

(** The constructor: [open] answers with a descriptor or an error number. *)
Definition ReadSmallFile_open (answer : Z + Z) : ReadSmallFile :=
  match answer with
  | inl fd => MkReadSmallFile fd 0 []
  | inr errno => MkReadSmallFile (-1) errno []
  end.

Inductive file_type := Regular | Directory | OtherType.
Record stat := MkStat { st_mode : file_type; st_size : Z; st_mtime : Z; st_ctime : Z }.

(** The loop over [read(2)].  A file is what [read] has left to give: each call
    gives some of the bytes asked for, none at the end; [answers] says how many a
    call may give at most, or its error number. *)
Fixpoint read_loop (fuel : nat) (max_size : Z) (answers : list (Z + Z)) (rest content : bytes) (err : Z) : bytes * Z :=
  match fuel with
  | O => (content, err)
  | S fuel =>
      if zlen content <? max_size then
        let to_read := Z.min (max_size - zlen content) kBufferSize in
        match answers with
        | inr errno :: _ => (content, errno)
        | _ =>
            let given := match answers with inl n :: _ => Z.min (Z.max 1 n) to_read | _ => to_read end in
            let got := ztake given rest in
            if 0 <? zlen got then read_loop fuel max_size (tail answers) (zdrop given rest) (content ++ got) err
            else (content, err)
        end
      else (content, err)
  end.

(** What the optional pointer arguments got. *)
Record read_result := MkRead {
  r_err : Z;
  r_content : bytes;
  r_file_size : option Z;
  r_modify_time : option Z;
  r_create_time : option Z;
}.

Definition fuel_for (rest : bytes) : nat := S (length rest).

(** [ReadToString] with [file_size], [modify_time] and [create_time] given
    ([want_size], [want_m], [want_c]); [content] is what the string held. *)
Definition ReadToString (max_size : Z) (content : bytes) (want_size want_m want_c : bool) (fstat : stat + Z)
    (answers : list (Z + Z)) (file : bytes) (r : ReadSmallFile) : read_result :=
  if 0 <=? fd_ r then
    let '(err, size, mt, ct) :=
      if want_size then
        match fstat with
        | inl st =>
            (match st_mode st with Directory => EISDIR | _ => err_ r end,
             match st_mode st with Regular => Some (st_size st) | _ => None end,
             (if want_m then Some (st_mtime st) else None),
             (if want_c then Some (st_ctime st) else None))
        | inr errno => (errno, None, None, None)
        end
      else (err_ r, None, None, None) in
    let '(content, err) := read_loop (fuel_for file) (wrapU 64 max_size) answers file [] err in
    MkRead err content size mt ct
  else MkRead (err_ r) content None None None.

(** [ReadToBuffer]: one [read(2)]; the null ends the buffer. *)
Definition ReadToBuffer (answer : bytes + Z) (r : ReadSmallFile) : Z * option Z * ReadSmallFile :=
  if 0 <=? fd_ r then
    match answer with
    | inl got =>
        let got := ztake (kBufferSize - 1) got in
        (err_ r, Some (zlen got), MkReadSmallFile (fd_ r) (err_ r) (got ++ ["000"%char]))
    | inr errno => (errno, None, r)
    end
  else (err_ r, None, r).

Definition is_inl {A B} (a : A + B) : bool := match a with inl _ => true | inr _ => false end.

Lemma read_loop_reads fuel max_size answers rest content err :
  (length rest < fuel)%nat → zlen content ≤ max_size → Forall (λ a, is_inl a = true) answers →
  read_loop fuel max_size answers rest content err = (ztake max_size (content ++ rest), err).
Proof.
  revert answers rest content. induction fuel as [|fuel IH]; intros answers rest content Hf Hc Ha; [lia|].
  cbn [read_loop]. pose proof (zlen_nonneg content) as Hc0.
  destruct (Z.ltb_spec (zlen content) max_size) as [Hlt|Hge];
    [|rewrite ztake_app by lia; rewrite ztake_all, (ztake_0 _ rest), app_nil_r by lia; done].
  assert (1 ≤ Z.min (max_size - zlen content) kBufferSize ≤ max_size - zlen content) as Hr by (unfold kBufferSize; lia).
  revert Hr. generalize (Z.min (max_size - zlen content) kBufferSize) as to_read. intros to_read Hr.
  assert (∀ given, 1 ≤ given ≤ to_read → ∀ answers', Forall (λ a, is_inl a = true) answers' →
    (if 0 <? zlen (ztake given rest) then
       read_loop fuel max_size answers' (zdrop given rest) (content ++ ztake given rest) err else (content, err)) =
    (ztake max_size (content ++ rest), err)) as Hstep.
  { intros given Hg answers' Ha'. destruct rest as [|c rest].
    - rewrite ztake_all by (rewrite zlen_nil; lia). rewrite app_nil_r. change (zlen (@nil ascii)) with 0.
      cbn. by rewrite ztake_all by lia.
    - assert (zlen (ztake given (c :: rest)) = Z.min given (zlen (c :: rest))) as El
        by (unfold zlen, ztake; rewrite length_take; lia).
      assert (0 < zlen (c :: rest)) as Hl by (rewrite zlen_cons; pose proof (zlen_nonneg rest); lia).
      replace (0 <? zlen (ztake given (c :: rest))) with true by lia.
      rewrite IH, <-app_assoc, ztake_zdrop; [done| |rewrite zlen_app; lia|done].
      unfold zdrop. rewrite length_drop. cbn [length] in *. lia. }
  destruct answers as [|[n|e] answers]; [apply Hstep; [lia|done]| |by inversion Ha].
  apply Forall_cons in Ha as [_ Ha]. apply Hstep; [lia|done].
Qed.

(** A file that opens and reads without an error is read up to [max_size]. *)
Theorem read_to_string_prefix max_size old want_size want_m want_c st answers file r :
  0 ≤ fd_ r → 0 ≤ max_size < 2 ^ 31 → st_mode st ≠ Directory → Forall (λ a, is_inl a = true) answers →
  let res := ReadToString max_size old want_size want_m want_c (inl st) answers file r in
  r_content res = ztake max_size file ∧ r_err res = err_ r.
Proof.
  intros Hfd Hm Hd Ha. unfold ReadToString. replace (0 <=? fd_ r) with true by lia.
  assert (∀ err, read_loop (fuel_for file) (wrapU 64 max_size) answers file [] err = (ztake max_size file, err)) as E.
  { intros err. rewrite wrapU_small by lia. rewrite read_loop_reads; unfold fuel_for; [done|lia|by rewrite zlen_nil; lia|done]. }
  destruct want_size; rewrite E; [|done]. by destruct (st_mode st).
Qed.

(** ** [AppendFile] *)

(** What the stream was given, how much of it [fflush] or [fclose] had to write
    out, and the count of [Append]. *)
Record AppendFile := MkAppendFile { af_data : bytes; af_flushed : Z; written_bytes_ : Z }.
Definition AppendFile_new : AppendFile := MkAppendFile [] 0 0.

(** The constructor: [fopen] answers with a stream or not. *)
Definition AppendFile_open (opened : bool) : outcome AppendFile :=
  cassert "fp_" opened;; Ok AppendFile_new.

Definition Flush (f : AppendFile) : AppendFile := MkAppendFile (af_data f) (zlen (af_data f)) (written_bytes_ f).

(** The destructor: [fclose] flushes. *)
Definition AppendFile_destroy (f : AppendFile) : AppendFile := Flush f.

Definition flushed (f : AppendFile) : Prop := af_flushed f = zlen (af_data f).

(** The loop: returns what the stream took and [written]; the bytes of a call
    that fails are not counted. *)
Fixpoint append_file_loop (answers : list (Z * bool)) (logline : bytes) : bytes * Z :=
  match logline, answers with
  | [], _ => ([], 0)
  | _, [] => (logline, zlen logline)            (* all the rest at once *)
  | _, (n, err) :: answers =>
      let n := Z.max 0 (Z.min n (zlen logline)) in
      if negb (n =? zlen logline) && err then (ztake n logline, 0)
      else
        let '(data, written) := append_file_loop answers (zdrop n logline) in
        (ztake n logline ++ data, n + written)
  end.

Definition AppendFile_Append (answers : list (Z * bool)) (logline : bytes) (f : AppendFile) : AppendFile :=
  let '(data, written) := append_file_loop answers logline in
  MkAppendFile (af_data f ++ data) (af_flushed f) (written_bytes_ f + written).

Definition no_error (answers : list (Z * bool)) : bool := forallb (λ a, negb a.2) answers.

Lemma append_file_loop_all answers logline :
  no_error answers = true → append_file_loop answers logline = (logline, zlen logline).
Proof.
  revert logline. induction answers as [|[n err] answers IH]; intros [|c l] He; try done.
  cbn [no_error forallb snd] in He. apply andb_prop in He as [He He']. apply negb_true_iff in He. subst err.
  cbn [append_file_loop]. rewrite andb_false_r, IH by done.
  assert (0 ≤ Z.max 0 (Z.min n (zlen (c :: l))) ≤ zlen (c :: l)) as Hb by (pose proof (zlen_nonneg (c :: l)); lia).
  rewrite ztake_zdrop, zlen_zdrop by done. f_equal. lia.
Qed.

Lemma append_file_all answers logline f :
  no_error answers = true →
  AppendFile_Append answers logline f = MkAppendFile (af_data f ++ logline) (af_flushed f) (written_bytes_ f + zlen logline).
Proof. intros H. unfold AppendFile_Append. by rewrite append_file_loop_all. Qed.
