(* ===== verification/AsyncLogging.v ===== *)
(** * [AsyncLogging] (base/async_logging.h, base/async_logging.cc) and [LogFile]
    (base/log_file.h, base/log_file.cc)

    The front end appends lines to a current buffer under a mutex; a background
    thread takes the full buffers and the current one, writes them to a log file
    and gives two of them back for reuse.  The critical section of the background
    thread and the rest of its loop body are two steps, between which lines may
    be appended.  A log file is rolled by size and by day. *)

From stdpp Require Import base tactics list numbers strings.
From Stdlib Require Import ZArith Lia Ascii.
From S2P Require Import Prelude.
From S2P Require Import CString.
From S2P Require Import Calendar.
From S2P Require Import LogStream.
From S2P Require Import Files.

(** ** [LogFile] *)
Record LogFile := MkLogFile {
  roll_size_ : Z;
  flush_interval_ : Z;
  check_every_n_ : Z;
  count_ : Z;
  start_of_period_ : Z;
  last_roll_ : Z;
  last_flush_ : Z;
  closed_files : list AppendFile;      (* the files rolled away, oldest first *)
  file_ : option AppendFile;
}.

Definition kRollPerSeconds_ : Z := 60 * 60 * 24.
Definition period_of (now : Z) : Z := Z.quot now kRollPerSeconds_ * kRollPerSeconds_.

(** [RollFile] when [time] gives [now] and [fopen] a stream or not: at most one
    new file per second; the old one is closed when the new one is open. *)
Definition RollFile (opened : bool) (now : Z) (f : LogFile) : outcome (LogFile * bool) :=
  if last_roll_ f <? now then
    file ← AppendFile_open opened;
    Ok (MkLogFile (roll_size_ f) (flush_interval_ f) (check_every_n_ f) (count_ f) (period_of now) now now
          (closed_files f ++ option_list (AppendFile_destroy <$> file_ f)) (Some file), true)
  else Ok (f, false).

(** The constructor. *)
Definition LogFile_new (opened : bool) (basename : bytes) (roll_size flush_interval check_every_n now : Z) : outcome LogFile :=
  cassert "basename.find('/') == std::string::npos" (negb (bool_decide ("/"%char ∈ basename)));;
  fst <$> RollFile opened now (MkLogFile roll_size flush_interval check_every_n 0 0 0 0 [] None).

(** What the system answers during one [Append]: to [fwrite_unlocked], to
    [time] in [AppendUnlocked], and to [time] and [fopen] in [RollFile]. *)
Record answers := MkAnswers { fwrites : list (Z * bool); now_check : Z; now_roll : Z; opens : bool }.

Definition with_file (file : option AppendFile) (f : LogFile) : LogFile :=
  MkLogFile (roll_size_ f) (flush_interval_ f) (check_every_n_ f) (count_ f) (start_of_period_ f)
    (last_roll_ f) (last_flush_ f) (closed_files f) file.
Definition with_count (n : Z) (f : LogFile) : LogFile :=
  MkLogFile (roll_size_ f) (flush_interval_ f) (check_every_n_ f) n (start_of_period_ f)
    (last_roll_ f) (last_flush_ f) (closed_files f) (file_ f).
Definition with_last_flush (t : Z) (f : LogFile) : LogFile :=
  MkLogFile (roll_size_ f) (flush_interval_ f) (check_every_n_ f) (count_ f) (start_of_period_ f)
    (last_roll_ f) t (closed_files f) (file_ f).

Definition AppendUnlocked (w : answers) (logline : bytes) (f : LogFile) : outcome LogFile :=
  match file_ f with
  | None => Fail (UndefinedBehaviour "file_ is null")
  | Some file =>
      let file := AppendFile_Append (fwrites w) logline file in
      let f := with_file (Some file) f in
      if roll_size_ f <? written_bytes_ file then fst <$> RollFile (opens w) (now_roll w) f
      else
        let f := with_count (count_ f + 1) f in
        if check_every_n_ f <=? count_ f then
          let f := with_count 0 f in
          let now := now_check w in
          if negb (period_of now =? start_of_period_ f) then fst <$> RollFile (opens w) (now_roll w) f
          else if flush_interval_ f <? now - last_flush_ f then Ok (with_file (Some (Flush file)) (with_last_flush now f))
          else Ok f
        else Ok f
  end.

(** [Append] and [Flush] take the mutex if there is one; the logger below has a
    file of its own without one. *)
Definition LogFile_Append (w : answers) (logline : bytes) (f : LogFile) : outcome LogFile := AppendUnlocked w logline f.

Definition LogFile_Flush (f : LogFile) : outcome LogFile :=
  match file_ f with
  | None => Fail (UndefinedBehaviour "file_ is null")
  | Some file => Ok (with_file (Some (Flush file)) f)
  end.

(** Everything a log file ever got, in order. *)
Definition all_bytes (f : LogFile) : bytes := concat (af_data <$> (closed_files f ++ option_list (file_ f))).

(** Closed files are flushed. *)
Definition closed_flushed (f : LogFile) : Prop := Forall flushed (closed_files f).

Lemma RollFile_bytes now f :
  is_Some (file_ f) →
  returns (fst <$> RollFile true now f)
    (λ f', all_bytes f' = all_bytes f ∧ is_Some (file_ f') ∧ (closed_flushed f → closed_flushed f')).
Proof.
  intros Hf. unfold RollFile. destruct (last_roll_ f <? now); cbn [AppendFile_open cassert mbind outcome_bind fmap outcome_fmap returns]; [|done].
  destruct Hf as [file Ef]. rewrite Ef. split_and!; [|by eexists|].
  - unfold all_bytes. rewrite Ef. cbn [fst closed_files file_]. rewrite !fmap_app, !concat_app. cbn. by rewrite !app_nil_r.
  - intros H. apply Forall_app. split; [done|]. by apply Forall_singleton.
Qed.

Lemma LogFile_Flush_bytes f :
  is_Some (file_ f) → closed_flushed f →
  returns (LogFile_Flush f) (λ f', all_bytes f' = all_bytes f ∧ is_Some (file_ f') ∧ closed_flushed f' ∧
    Forall flushed (closed_files f' ++ option_list (file_ f'))).
Proof.
  intros [file Ef] Hc. unfold LogFile_Flush. rewrite Ef. cbn [returns]. split_and!; [|by eexists|done|].
  - unfold all_bytes. cbn [with_file closed_files file_]. by rewrite Ef, !fmap_app.
  - apply Forall_app. split; [done|]. by apply Forall_singleton.
Qed.

Definition takes_all (w : answers) : Prop := no_error (fwrites w) = true ∧ opens w = true.

Lemma AppendUnlocked_bytes w logline f :
  is_Some (file_ f) → takes_all w →
  returns (AppendUnlocked w logline f)
    (λ f', all_bytes f' = all_bytes f ++ logline ∧ is_Some (file_ f') ∧ (closed_flushed f → closed_flushed f')).
Proof.
  intros [file Ef] [Hw Hop]. unfold AppendUnlocked. rewrite Ef, Hop, append_file_all by done.
  set (g := with_file _ f).
  assert (∀ h, closed_files h = closed_files g → option_map af_data (file_ h) = option_map af_data (file_ g) →
            all_bytes h = all_bytes f ++ logline ∧ is_Some (file_ h) ∧ (closed_flushed f → closed_flushed h)) as E.
  { intros h Hc Hh. unfold closed_flushed. rewrite Hc. unfold g in Hc, Hh. cbn in Hc, Hh.
    destruct (file_ h) as [file'|] eqn:Eh; [|done]. injection Hh as Hh. split_and!; [|by eexists|done].
    unfold all_bytes. rewrite Hc, Eh, Ef. rewrite !fmap_app, !concat_app. cbn. by rewrite Hh, !app_nil_r, app_assoc. }
  assert (∀ now h, closed_files h = closed_files g → option_map af_data (file_ h) = option_map af_data (file_ g) →
            returns (fst <$> RollFile true now h) (λ f',
              all_bytes f' = all_bytes f ++ logline ∧ is_Some (file_ f') ∧ (closed_flushed f → closed_flushed f'))) as R.
  { intros now h Hc Hh. destruct (E h Hc Hh) as (Eh & Sh & Ch). eapply returns_impl; [by apply RollFile_bytes|].
    intros f' (-> & ? & ?). rewrite Eh. auto. }
  repeat case_match; first [by apply E|by apply R].
Qed.

(** ** [AsyncLogging] *)
Record AsyncLogging := MkAsync {
  is_running_ : bool;
  current_buffer_ : FixedBuffer;
  next_buffer_ : option FixedBuffer;
  buffers_ : list FixedBuffer;
}.

(** The locals of [ThreadFunc]. *)
Record backend := MkBackend {
  new_buffer1 : option FixedBuffer;
  new_buffer2 : option FixedBuffer;
  buffers_to_write : list FixedBuffer;
}.

Definition Buffer_new : FixedBuffer := fb_new kLargeBuffer.

Definition AsyncLogging_new : AsyncLogging := MkAsync false Buffer_new (Some Buffer_new) [].
Definition Start (a : AsyncLogging) : AsyncLogging := MkAsync true (current_buffer_ a) (next_buffer_ a) (buffers_ a).
Definition Stop (a : AsyncLogging) : AsyncLogging := MkAsync false (current_buffer_ a) (next_buffer_ a) (buffers_ a).
Definition backend_new : backend := MkBackend (Some Buffer_new) (Some Buffer_new) [].

Definition Append (logline : bytes) (a : AsyncLogging) : AsyncLogging :=
  if zlen logline <? avail (current_buffer_ a) then
    MkAsync (is_running_ a) (LogStream.Append logline (current_buffer_ a)) (next_buffer_ a) (buffers_ a)
  else
    let full := buffers_ a ++ [current_buffer_ a] in
    match next_buffer_ a with
    | Some b => MkAsync (is_running_ a) (LogStream.Append logline b) None full
    | None => MkAsync (is_running_ a) (LogStream.Append logline Buffer_new) None full
    end.

Definition is_fresh (b : option FixedBuffer) : bool :=
  match b with Some b => length_ b =? 0 | None => false end.
Definition nonempty {A} (l : list A) : bool := match l with [] => false | _ => true end.

(** The start of the loop body and its critical section; a wait in it lets
    appends in, as if they came before. *)
Definition swap_buffers (a : AsyncLogging) (t : backend) : outcome (AsyncLogging * backend) :=
  cassert "new_buffer1 && new_buffer1->length() == 0" (is_fresh (new_buffer1 t));;
  cassert "new_buffer2 && new_buffer2->length() == 0" (is_fresh (new_buffer2 t));;
  cassert "buffers_to_write.empty()" (negb (nonempty (buffers_to_write t)));;
  match new_buffer1 t with
  | Some b1 =>
      let write := buffers_ a ++ [current_buffer_ a] in
      Ok (match next_buffer_ a with
          | Some nb => (MkAsync (is_running_ a) b1 (Some nb) [], MkBackend None (new_buffer2 t) write)
          | None => (MkAsync (is_running_ a) b1 (new_buffer2 t) [], MkBackend None None write)
          end)
  | None => Fail (UndefinedBehaviour "new_buffer1 is null")
  end.

(** [new_buffer = std::move(buffers_to_write.back())] and [Reset], when it is null. *)
Definition refill (nb : option FixedBuffer) (l : list FixedBuffer) : outcome (option FixedBuffer * list FixedBuffer) :=
  match nb with
  | Some b => Ok (Some b, l)
  | None =>
      cassert "!buffers_to_write.empty()" (nonempty l);;
      Ok (fb_Reset <$> last l, take (length l - 1) l)
  end.

(** The loop over the buffers; the system answers each append. *)
Fixpoint write_all (w : nat → answers) (i : nat) (l : list FixedBuffer) (f : LogFile) : outcome LogFile :=
  match l with
  | [] => Ok f
  | b :: l => f ← LogFile_Append (w i) (fb_data b) f; write_all w (S i) l f
  end.

(** The message about dropped buffers, in an array of 256 characters. *)
Definition dropped_message (now : Z) (n : Z) : outcome bytes :=
  time ← ToFormattedString true now;
  Ok (ztake 255 (str "Dropped log messages at " ++ time ++ str ", " ++ fmt_d (n - 2) ++ str " larger buffers" ++ [LF])).

(** The rest of the loop body; [now] is what the clock gives for the message. *)
Definition write_buffers (w : nat → answers) (now : Z) (t : backend) (output : LogFile) : outcome (backend * LogFile) :=
  cassert "!buffers_to_write.empty()" (nonempty (buffers_to_write t));;
  '(write, output) ←
    (if 25 <? zlen (buffers_to_write t) then
       dropped ← dropped_message now (zlen (buffers_to_write t));
       output ← LogFile_Append (w 0%nat) dropped output; Ok (take 2 (buffers_to_write t), output)
     else Ok (buffers_to_write t, output));
  output ← write_all w 1 write output;
  let write := if 2 <? zlen write then take 2 write else write in
  '(nb1, write) ← refill (new_buffer1 t) write;
  '(nb2, write) ← refill (new_buffer2 t) write;
  output ← LogFile_Flush output;
  Ok (MkBackend nb1 nb2 [], output).

(** ** The whole *)
Record logging := MkLogging { front : AsyncLogging; back : backend; output : LogFile }.

Inductive log_op :=
| OpAppend (logline : bytes)
| OpStop
| OpSwap
| OpWrite (w : nat → answers) (now : Z).

(** A step of the front end or of the background thread, which is before its
    critical section when it has nothing to write, and before its writes
    otherwise.  [while (is_running_)] is tested before the critical section; when
    it fails the thread flushes the file and ends. *)
Definition log_step (o : log_op) (s : logging) : outcome logging :=
  match o with
  | OpAppend logline => Ok (MkLogging (Append logline (front s)) (back s) (output s))
  | OpStop => Ok (MkLogging (Stop (front s)) (back s) (output s))
  | OpSwap =>
      if nonempty (buffers_to_write (back s)) then Ok s
      else if is_running_ (front s) then
        '(a, t) ← swap_buffers (front s) (back s); Ok (MkLogging a t (output s))
      else f ← LogFile_Flush (output s); Ok (MkLogging (front s) (back s) f)
  | OpWrite w now =>
      if nonempty (buffers_to_write (back s)) then
        '(t, f) ← write_buffers w now (back s) (output s); Ok (MkLogging (front s) t f)
      else Ok s
  end.

Fixpoint log_run (os : list log_op) (s : logging) : outcome logging :=
  match os with
  | [] => Ok s
  | o :: os => s ← log_step o s; log_run os s
  end.

(** [Start] and the beginning of [ThreadFunc]. *)
Definition logging_new (opened : bool) (basename : bytes) (roll_size now : Z) : outcome logging :=
  let front := Start AsyncLogging_new in
  cassert "is_running_ == true" (is_running_ front);;
  output ← LogFile_new opened basename roll_size 3 1024 now;
  Ok (MkLogging front backend_new output).

(** [~AsyncLogging]. *)
Definition AsyncLogging_destroy (a : AsyncLogging) : AsyncLogging := if is_running_ a then Stop a else a.

Definition data_of (l : list FixedBuffer) : bytes := concat (fb_data <$> l).

(** What is on its way to the file. *)
Definition in_flight (s : logging) : bytes :=
  data_of (buffers_to_write (back s)) ++ data_of (buffers_ (front s)) ++ fb_data (current_buffer_ (front s)).

Fixpoint appended (os : list log_op) : bytes :=
  match os with
  | [] => []
  | OpAppend l :: os => l ++ appended os
  | _ :: os => appended os
  end.

(** Lines fit in a buffer and the file takes what it is given. *)
Definition op_ok (o : log_op) : Prop :=
  match o with
  | OpAppend l => zlen l < kLargeBuffer
  | OpWrite w _ => ∀ i, takes_all (w i)
  | _ => True
  end.

(** No more than 25 buffers pile up before a write. *)
Fixpoint keeps_up (os : list log_op) (s : logging) : bool :=
  match os with
  | [] => true
  | o :: os =>
      match o with OpWrite _ _ => zlen (buffers_to_write (back s)) <=? 25 | _ => true end &&
      match log_step o s with Ok s => keeps_up os s | Fail _ => true end
  end.

(** ** The four buffers *)
Definition large (b : FixedBuffer) : Prop := fb_size b = kLargeBuffer.

(** Before the critical section the thread has two fresh buffers; after it, it
    gave away one, or two for which it then has two buffers to write. *)
Definition backend_inv (t : backend) : Prop :=
  Forall large (buffers_to_write t) ∧
  match buffers_to_write t with
  | [] => new_buffer1 t = Some Buffer_new ∧ new_buffer2 t = Some Buffer_new
  | l => new_buffer1 t = None ∧
         (new_buffer2 t = Some Buffer_new ∨ (new_buffer2 t = None ∧ (2 ≤ length l)%nat))
  end.

Record logging_inv (s : logging) : Prop := MkLoggingInv {
  li_current : large (current_buffer_ (front s));
  li_next : next_buffer_ (front s) = Some Buffer_new ∨ (next_buffer_ (front s) = None ∧ buffers_ (front s) ≠ []);
  li_buffers : Forall large (buffers_ (front s));
  li_backend : backend_inv (back s);
  li_file : is_Some (file_ (output s));
  li_closed : closed_flushed (output s);
  li_flushed : buffers_to_write (back s) = [] → Forall flushed (closed_files (output s) ++ option_list (file_ (output s)));
}.

Lemma append_fits logline b :
  zlen logline < avail b → LogStream.Append logline b = MkFixed (fb_size b) (fb_data b ++ logline).
Proof. intros H. unfold LogStream.Append. by replace (zlen logline <? avail b) with true by lia. Qed.

Lemma data_of_snoc l b : data_of (l ++ [b]) = data_of l ++ fb_data b.
Proof. unfold data_of. rewrite fmap_app, concat_app. cbn. by rewrite app_nil_r. Qed.

Lemma fb_Reset_large b : large b → fb_Reset b = Buffer_new.
Proof. unfold large, fb_Reset, Buffer_new, fb_new. by intros ->. Qed.

Lemma append_inv logline s :
  logging_inv s → zlen logline < kLargeBuffer →
  let s' := MkLogging (Append logline (front s)) (back s) (output s) in
  logging_inv s' ∧ in_flight s' = in_flight s ++ logline.
Proof.
  intros [Hc Hn Hl Hb Hf Hcl Hfl] Hlen s'. unfold s', Append, in_flight. cbn [front back output].
  destruct (Z.ltb_spec (zlen logline) (avail (current_buffer_ (front s)))) as [Hfit|Hfull].
  - rewrite append_fits by done. split; [by split|]. cbn [current_buffer_ buffers_ fb_data]. by rewrite <-!app_assoc.
  - assert (zlen logline < avail Buffer_new) as Hfit by (unfold avail, length_; cbn [fb_data fb_size Buffer_new fb_new]; rewrite zlen_nil; lia).
    destruct Hn as [-> | [-> _]]; rewrite append_fits by done;
      (split; [split; cbn [front back output current_buffer_ next_buffer_ buffers_]; try done;
                 [right; split; [done|by destruct (buffers_ (front s))]|by apply Forall_app; split; [|apply Forall_singleton]]|]);
      cbn [current_buffer_ buffers_ fb_data Buffer_new fb_new]; by rewrite data_of_snoc, <-!app_assoc.
Qed.

Lemma swap_inv s :
  logging_inv s → buffers_to_write (back s) = [] →
  returns ('(a, t) ← swap_buffers (front s) (back s); Ok (MkLogging a t (output s)))
    (λ s', logging_inv s' ∧ in_flight s' = in_flight s ∧ output s' = output s).
Proof.
  intros [Hc Hn Hl [Hw Hb] Hf Hcl Hfl] Ew. rewrite Ew in Hb. destruct Hb as [E1 E2].
  unfold swap_buffers. rewrite E1, E2, Ew. cbn -[kLargeBuffer].
  assert (in_flight s = data_of (buffers_ (front s) ++ [current_buffer_ (front s)])) as Ei
    by (unfold in_flight; by rewrite Ew, data_of_snoc).
  assert (Forall large (buffers_ (front s) ++ [current_buffer_ (front s)])) as Hl'
    by (apply Forall_app; split; [|apply Forall_singleton]; done).
  rewrite Ei. destruct Hn as [-> | [-> Hne]]; cbn -[kLargeBuffer];
    (split; [split; [done|by left|by apply Forall_nil|split; [done|]|done|done|cbn [back buffers_to_write]; by destruct (buffers_ (front s))]|by unfold in_flight; cbn -[kLargeBuffer]; rewrite app_nil_r]);
    cbn [back buffers_to_write new_buffer1 new_buffer2];
    destruct (buffers_ (front s)) as [|b l] eqn:El; cbn [app];
    first [by split; [|left] | done | split; [done|right; split; [done|]; cbn; rewrite length_app; cbn; lia]].
Qed.

Lemma write_all_bytes w i l f :
  is_Some (file_ f) → closed_flushed f → (∀ i, takes_all (w i)) →
  returns (write_all w i l f) (λ f', all_bytes f' = all_bytes f ++ data_of l ∧ is_Some (file_ f') ∧ closed_flushed f').
Proof.
  revert i f. induction l as [|b l IH]; intros i f Hf Hc Hw; cbn [write_all].
  - cbn. by rewrite app_nil_r.
  - eapply returns_bind; [by apply AppendUnlocked_bytes|]. intros f1 (E1 & H1 & C1).
    eapply returns_impl; [by apply IH; auto|]. intros f2 (E2 & H2 & C2). split; [|done].
    rewrite E2, E1, <-app_assoc. done.
Qed.

(** Two buffers of those written refill the thread's. *)
Lemma refill_inv {A} t (k : option FixedBuffer → option FixedBuffer → outcome A) :
  backend_inv t → buffers_to_write t ≠ [] →
  let write := if 2 <? zlen (buffers_to_write t) then take 2 (buffers_to_write t) else buffers_to_write t in
  ('(nb1, write) ← refill (new_buffer1 t) write;
   '(nb2, write) ← refill (new_buffer2 t) write;
   k nb1 nb2) = k (Some Buffer_new) (Some Buffer_new).
Proof.
  intros [Hl Hb] Hne write.
  assert (∃ b l, write = b :: l ∧ (2 ≤ length (buffers_to_write t) → ∃ b2, l = [b2])%nat ∧ Forall large write ∧ (length write ≤ 2)%nat)
    as (b & l & Ew & H2 & Hw & Hle).
  { unfold write. destruct (buffers_to_write t) as [|b1 [|b2 [|b3 l]]]; [done| | |];
      rewrite ?zlen_cons, ?(@zlen_nil FixedBuffer).
    - exists b1, []. change (2 <? 0 + 1) with false. cbn. split_and!; [done|intros ?; lia|done|lia].
    - exists b1, [b2]. change (2 <? 0 + 1 + 1) with false. cbn. split_and!; [done|by eauto|done|lia].
    - exists b1, [b2]. pose proof (zlen_nonneg l). replace (2 <? zlen l + 1 + 1 + 1) with true by lia. cbn [take].
      split_and!; [done|by eauto| |cbn; lia]. by do 2 (apply Forall_cons in Hl as [? Hl]; apply Forall_cons; split; [done|]); by apply Forall_nil. }
  rewrite Ew in Hw |- *. destruct (buffers_to_write t) as [|b' l'] eqn:Eb; [done|].
  destruct Hb as [-> Hb]. apply Forall_cons in Hw as [Hlb Hw].
  destruct Hb as [-> | [-> Hlen]].
  - destruct l as [|b2 [|b3 l]]; [| |exfalso; rewrite Ew in Hle; cbn in Hle; lia]; cbn -[fb_Reset kLargeBuffer].
    + by rewrite fb_Reset_large.
    + apply Forall_cons in Hw as [Hl2 _]. by rewrite fb_Reset_large.
  - destruct (H2 Hlen) as [b2 ->]. apply Forall_cons in Hw as [Hl2 _]. cbn -[fb_Reset kLargeBuffer].
    by rewrite !fb_Reset_large.
Qed.

Lemma write_inv w now s :
  logging_inv s → buffers_to_write (back s) ≠ [] → zlen (buffers_to_write (back s)) ≤ 25 → (∀ i, takes_all (w i)) →
  returns ('(t, f) ← write_buffers w now (back s) (output s); Ok (MkLogging (front s) t f))
    (λ s', logging_inv s' ∧ all_bytes (output s') ++ in_flight s' = all_bytes (output s) ++ in_flight s).
Proof.
  intros [Hc Hn Hl Hb Hf Hcl _] Hne Hle Hw. unfold write_buffers.
  replace (nonempty (buffers_to_write (back s))) with true by (by destruct (buffers_to_write (back s))).
  replace (25 <? zlen (buffers_to_write (back s))) with false by lia. cbn [cassert mbind outcome_bind].
  pose proof (write_all_bytes w 1 (buffers_to_write (back s)) (output s) Hf Hcl Hw) as Hall.
  destruct (write_all w 1 (buffers_to_write (back s)) (output s)) as [f|]; [|done]. destruct Hall as (Ea & Hf' & Hcl').
  cbn [mbind outcome_bind]. rewrite (refill_inv (back s) (λ nb1 nb2, f ← LogFile_Flush f; Ok (MkBackend nb1 nb2 [], f)) Hb Hne).
  pose proof (LogFile_Flush_bytes f Hf' Hcl') as Hfl. destruct (LogFile_Flush f) as [f'|]; [|done].
  destruct Hfl as (Eb & Hf2 & Hcl2 & Hfl). cbn [mbind outcome_bind returns]. split.
  - by split; [..|split; [by apply Forall_nil|]| | |].
  - cbn [output]. rewrite Eb, Ea. unfold in_flight. cbn [front back backend_new buffers_to_write data_of]. by rewrite <-app_assoc.
Qed.

Lemma logging_new_inv basename roll_size now :
  0 < now → "/"%char ∉ basename →
  returns (logging_new true basename roll_size now) (λ s, logging_inv s ∧ all_bytes (output s) ++ in_flight s = []).
Proof.
  intros Hnow Hb. unfold logging_new, LogFile_new, RollFile. rewrite bool_decide_eq_false_2 by done. cbn [last_roll_].
  replace (0 <? now) with true by lia. cbn -[kLargeBuffer]. split; [|done].
  by split; [|left|apply Forall_nil|split; [apply Forall_nil|]|eexists|apply Forall_nil|intros _; apply Forall_singleton].
Qed.

(** No step fails, and each moves bytes on towards the file. *)
Lemma log_step_inv o s :
  logging_inv s → op_ok o → match o with OpWrite _ _ => zlen (buffers_to_write (back s)) <=? 25 | _ => true end = true →
  returns (log_step o s) (λ s', logging_inv s' ∧ all_bytes (output s') ++ in_flight s' = (all_bytes (output s) ++ in_flight s) ++ appended [o]).
Proof.
  intros Hi Ho Hle. destruct o as [l| | |w now]; cbn [log_step appended].
  - destruct (append_inv l s Hi Ho) as [Hi' E]. split; [done|]. by rewrite E, app_nil_r, <-!app_assoc.
  - split; [by destruct Hi; split|]. by rewrite app_nil_r.
  - rewrite app_nil_r. destruct (nonempty _) eqn:En; [done|]. destruct (is_running_ _).
    + eapply returns_impl; [apply swap_inv; [done|by destruct (buffers_to_write (back s))]|]. intros s' (Hi' & E & Eo). by rewrite E, Eo.
    + pose proof (LogFile_Flush_bytes (output s) (li_file s Hi) (li_closed s Hi)) as Hf. destruct (LogFile_Flush _) as [f|]; [|done].
      destruct Hf as (Eb & Hf & Hc & Hfl). destruct Hi. split; [by split|]. by rewrite <-Eb.
  - rewrite app_nil_r. destruct (nonempty _) eqn:En; [|done].
    eapply returns_impl; [apply write_inv; [done|by destruct (buffers_to_write (back s))|lia|done]|]. done.
Qed.

(** C30: as long as the background thread keeps up (never more than 25 buffers to
    write), lines fit in a buffer and the stream takes what it is given, no
    assertion of the logger fails whatever the interleaving of appends, swaps
    and writes; the log files hold, followed by what is still in the buffers,
    exactly the lines appended, in order, rolling included; and whenever the
    thread has nothing to write, all the files are flushed to their ends. *)
Theorem async_logging_in_order os basename roll_size now :
  0 < now → "/"%char ∉ basename → Forall op_ok os →
  (∀ s, logging_new true basename roll_size now = Ok s → keeps_up os s = true) →
  returns (s ← logging_new true basename roll_size now; log_run os s) (λ s,
    all_bytes (output s) ++ in_flight s = appended os ∧
    (buffers_to_write (back s) = [] → Forall flushed (closed_files (output s) ++ option_list (file_ (output s))))).
Proof.
  intros Hnow Hb Hok Hk. pose proof (logging_new_inv basename roll_size now Hnow Hb) as Hi.
  destruct (logging_new _ _ _ _) as [s|]; [|done]. specialize (Hk s eq_refl). destruct Hi as [Hi E]. cbn [mbind outcome_bind].
  change (appended os) with ([] ++ appended os). rewrite <-E. clear E. revert s Hk Hi.
  induction Hok as [|o os Ho Hok IH]; intros s Hk Hi; cbn [log_run]; [cbn; rewrite app_nil_r; by destruct Hi|].
  cbn [keeps_up] in Hk. apply andb_prop in Hk as [Ho25 Hk].
  pose proof (log_step_inv o s Hi Ho Ho25) as Hstep. destruct (log_step o s) as [s'|]; [|done]. destruct Hstep as [Hi' E].
  eapply returns_impl; [by apply IH|]. intros s2 [E2 Hf]. split; [|done]. rewrite E2, E, <-app_assoc. f_equal.
  destruct o; cbn [appended]; by rewrite ?app_nil_r.
Qed.

Definition all_taken (i : nat) : answers := MkAnswers [(1, false)] 86400 86401 true.

Lemma async_logging_in_order_witness :
  returns (s ← logging_new true (str "httpd") 1 100;
           log_run [OpAppend (str "ab"); OpSwap; OpAppend (str "c"); OpWrite all_taken 0; OpStop; OpSwap] s)
    (λ s, all_bytes (output s) ++ in_flight s = str "abc" ∧
      (buffers_to_write (back s) = [] → Forall flushed (closed_files (output s) ++ option_list (file_ (output s))))).
Proof.
  apply (async_logging_in_order
    [OpAppend (str "ab"); OpSwap; OpAppend (str "c"); OpWrite all_taken 0; OpStop; OpSwap] (str "httpd") 1 100); [lia|..].
  - by apply (bool_decide_eq_false_1 _); vm_compute.
  - repeat (apply Forall_cons; split); [vm_compute; reflexivity|exact I|vm_compute; reflexivity|by intros i|exact I|exact I|].
    by apply Forall_nil.
  - intros s [= <-]. vm_compute. reflexivity.
Defined.

(** When more than 25 buffers have piled up, the two oldest are written behind a
    message that counts the others, which are dropped; the thread then has its two
    fresh buffers again and goes on. *)
Theorem overload_keeps_two w now t output message :
  backend_inv t → 25 < zlen (buffers_to_write t) → is_Some (file_ output) → closed_flushed output → (∀ i, takes_all (w i)) →
  dropped_message now (zlen (buffers_to_write t)) = Ok message →
  returns (write_buffers w now t output) (λ r, r.1 = backend_new ∧
    all_bytes r.2 = all_bytes output ++ message ++ data_of (take 2 (buffers_to_write t)) ∧
    Forall flushed (closed_files r.2 ++ option_list (file_ r.2))).
Proof.
  intros Hb Hn Hf Hc Hw Em. unfold write_buffers. destruct (buffers_to_write t) as [|b1 [|b2 l]] eqn:El; [by vm_compute in Hn..|].
  replace (25 <? _) with true by lia. rewrite Em. cbn [nonempty cassert mbind outcome_bind]. unfold LogFile_Append.
  pose proof (AppendUnlocked_bytes (w 0%nat) message output Hf (Hw _)) as Ha. destruct (AppendUnlocked _ _ _) as [f|]; [|done].
  destruct Ha as (Ea & Hf1 & Hc1). cbn [mbind outcome_bind]. change (take 2 (b1 :: b2 :: l)) with [b1; b2].
  pose proof (write_all_bytes w 1 [b1; b2] f Hf1 (Hc1 Hc) Hw) as Ht. destruct (write_all w 1 [b1; b2] f) as [f2|]; [|done].
  destruct Ht as (Et & Hf2 & Hc2). cbn [mbind outcome_bind].
  pose proof (refill_inv t (λ nb1 nb2, f ← LogFile_Flush f2; Ok (MkBackend nb1 nb2 [], f)) Hb) as Hr. cbv zeta in Hr. rewrite El in Hr.
  replace (2 <? zlen (b1 :: b2 :: l)) with true in Hr by lia. change (take 2 (b1 :: b2 :: l)) with [b1; b2] in Hr. change (2 <? zlen [b1; b2]) with false.
  cbv iota. rewrite Hr by done.
  pose proof (LogFile_Flush_bytes f2 Hf2 Hc2) as Hfl. destruct (LogFile_Flush f2) as [f3|]; [|done]. destruct Hfl as (Eb & _ & _ & Hfl).
  cbn [mbind outcome_bind returns fst snd]. split_and!; [done| |done]. by rewrite Eb, Et, Ea, <-app_assoc.
Qed.

(** A line appended after the last critical section stays in the buffers when
    the logger stops: the thread leaves its loop without another round. *)
Theorem lines_after_last_round_lost :
  returns (s ← logging_new true (str "httpd") 1 100;
           log_run [OpAppend (str "ab"); OpSwap; OpAppend (str "c"); OpWrite all_taken 0; OpStop; OpSwap] s)
    (λ s, all_bytes (output s) = str "ab" ∧ in_flight s = str "c").
Proof. vm_compute. done. Qed.

(** ** The names of log files *)

(** [strftime(timebuf, 32, ".%Y%m%d-%H%M%S.", &tm)]; a text that does not fit
    leaves the buffer indeterminate. *)
Definition time_suffix (t : tm) : bytes :=
  str "." ++ fmt_d (tm_year t + 1900) ++ fmt_02d (tm_mon t + 1) ++ fmt_02d (tm_mday t) ++ str "-" ++
  fmt_02d (tm_hour t) ++ fmt_02d (tm_min t) ++ fmt_02d (tm_sec t) ++ str ".".

Definition GetLogFilename (hostname : bytes) (pid : Z) (basename : bytes) (now : Z) : outcome bytes :=
  t ← ToUtcTime now true;
  timebuf ← (if zlen (time_suffix t) <? 32 then Ok (time_suffix t) else Fail (UndefinedBehaviour "timebuf"));
  Ok (basename ++ timebuf ++ hostname ++ ztake 31 (str "." ++ fmt_d pid) ++ str ".log").

Example GetLogFilename_1 :
  GetLogFilename (str "host") 321 (str "httpd") 951827696 = Ok (str "httpd.20000229-123456.host.321.log").
Proof. reflexivity. Qed.

(** The names of the files opened by calls of [RollFile] at the times [nows]. *)
Fixpoint roll_names (hostname : bytes) (pid : Z) (basename : bytes) (nows : list Z) (f : LogFile) : outcome (list bytes) :=
  match nows with
  | [] => Ok []
  | now :: nows =>
      r ← RollFile true now f;
      if r.2 : bool then
        name ← GetLogFilename hostname pid basename now;
        names ← roll_names hostname pid basename nows r.1;
        Ok (name :: names)
      else roll_names hostname pid basename nows r.1
  end.

Lemma time_suffix_len t :
  1000 ≤ tm_year t + 1900 ≤ 9999 → 1 ≤ tm_mon t + 1 ≤ 12 → 1 ≤ tm_mday t ≤ 31 → 0 ≤ tm_hour t ≤ 23 → 0 ≤ tm_min t ≤ 59 →
  0 ≤ tm_sec t ≤ 59 → zlen (fmt_d (tm_year t + 1900)) = 4 ∧ zlen (time_suffix t) = 17.
Proof.
  intros. assert (zlen (fmt_d (tm_year t + 1900)) = 4) as Hy.
  { unfold fmt_d. replace (_ <? 0) with false by lia. pose proof (fmt_u_len (tm_year t + 1900) 4 ltac:(lia) ltac:(lia)).
    pose proof (fmt_u_len_ge (tm_year t + 1900) 3 ltac:(lia) ltac:(lia)). lia. }
  split; [done|]. unfold time_suffix. rewrite !zlen_app, Hy, !fmt_02d_len by lia. reflexivity.
Qed.

Lemma app_inj_zlen (a b c d : bytes) : zlen a = zlen b → a ++ c = b ++ d → a = b ∧ c = d.
Proof. unfold zlen. intros H. apply app_inj_1. lia. Qed.

(** The suffix tells the second. *)
Lemma time_suffix_inj s s' :
  0 ≤ s ≤ end_of_9999 → 0 ≤ s' ≤ end_of_9999 →
  ∃ t t', ToUtcTime s true = Ok t ∧ ToUtcTime s' true = Ok t' ∧ zlen (time_suffix t) = 17 ∧ zlen (time_suffix t') = 17 ∧
    (time_suffix t = time_suffix t' → s = s').
Proof.
  intros Hs Hs'. destruct (utc_fields s true Hs) as (t & Et & Hb & Hf). destruct (utc_fields s' true Hs') as (t' & Et' & Hb' & Hf').
  destruct (time_suffix_len t) as [Hy Hl]; [lia..|]. destruct (time_suffix_len t') as [Hy' Hl']; [lia..|].
  exists t, t'. split_and!; [done..|]. unfold time_suffix. intros E.
  apply app_inj_zlen in E as [_ E]; [|done]. apply app_inj_zlen in E as [Ey E]; [|lia].
  apply app_inj_zlen in E as [Em E]; [|rewrite !fmt_02d_len by lia; done].
  apply app_inj_zlen in E as [Ed E]; [|rewrite !fmt_02d_len by lia; done]. apply app_inj_zlen in E as [_ E]; [|done].
  apply app_inj_zlen in E as [Eh E]; [|rewrite !fmt_02d_len by lia; done].
  apply app_inj_zlen in E as [Emin E]; [|rewrite !fmt_02d_len by lia; done].
  apply app_inj_zlen in E as [Es _]; [|rewrite !fmt_02d_len by lia; done].
  apply fmt_02d_inj in Em, Ed, Eh, Emin, Es; try lia.
  unfold fmt_d in Ey. replace (tm_year t + 1900 <? 0) with false in Ey by lia. replace (tm_year t' + 1900 <? 0) with false in Ey by lia.
  apply fmt_u_inj in Ey; [|lia..]. unfold FromUtcTime in Hb, Hb'. rewrite Ey, Em, Ed, Eh, Emin, Es in Hb. congruence.
Qed.

Lemma GetLogFilename_inj hostname pid basename s s' :
  0 ≤ s ≤ end_of_9999 → 0 ≤ s' ≤ end_of_9999 →
  ∃ n n', GetLogFilename hostname pid basename s = Ok n ∧ GetLogFilename hostname pid basename s' = Ok n' ∧ (n = n' → s = s').
Proof.
  intros Hs Hs'. destruct (time_suffix_inj s s' Hs Hs') as (t & t' & Et & Et' & Hl & Hl' & Hi).
  unfold GetLogFilename. rewrite Et, Et'. cbn [mbind outcome_bind]. rewrite Hl, Hl'. cbn [Z.ltb Z.compare Pos.compare Pos.compare_cont mbind outcome_bind].
  eexists _, _. split; [done|]. split; [done|]. intros E. apply app_inv_head in E. apply app_inj_zlen in E as [E _]; [by apply Hi|lia].
Qed.

(** No log file is opened twice.  Whatever the clock gives, times going
    backwards included, the files that a logger opens one after the other, at
    the first and at every later roll, have different names, for all times
    before the year 10000: a roll never reopens a file it has left. *)
Theorem log_files_distinct hostname pid basename nows f :
  Forall (λ now, 0 ≤ now ≤ end_of_9999) nows →
  ∃ names, roll_names hostname pid basename nows f = Ok names ∧ NoDup names.
Proof.
  intros Hn. enough (∃ names, roll_names hostname pid basename nows f = Ok names ∧ NoDup names ∧
    ∀ n, n ∈ names → ∃ s, last_roll_ f < s ∧ 0 ≤ s ≤ end_of_9999 ∧ GetLogFilename hostname pid basename s = Ok n) as (names & ? & ? & _) by (by exists names).
  revert f. induction Hn as [|now nows Hnow _ IH]; intros f; cbn [roll_names].
  { exists []. split; [done|]. split; [constructor|]. intros n Hn. by apply not_elem_of_nil in Hn. }
  unfold RollFile. destruct (Z.ltb_spec (last_roll_ f) now) as [Hlt|]; [|apply IH].
  destruct (GetLogFilename_inj hostname pid basename now now Hnow Hnow) as (name & _ & E & _ & _). cbn [AppendFile_open cassert mbind outcome_bind fst snd].
  rewrite E. cbn [mbind outcome_bind]. destruct (IH (MkLogFile (roll_size_ f) (flush_interval_ f) (check_every_n_ f) (count_ f) (period_of now) now now
       (closed_files f ++ option_list (AppendFile_destroy <$> file_ f)) (Some AppendFile_new))) as (names & -> & Hnd & Hall). cbn [mbind outcome_bind last_roll_] in *.
  exists (name :: names). split; [done|]. split.
  - constructor; [|done]. intros (s & Hs & Hb & Es)%Hall.
    destruct (GetLogFilename_inj hostname pid basename now s Hnow Hb) as (n & n' & E1 & E2 & Hi).
    rewrite E in E1. rewrite Es in E2. injection E1 as <-. injection E2 as <-. specialize (Hi eq_refl). lia.
  - intros n [->|Hn]%elem_of_cons; [by exists now|]. destruct (Hall n Hn) as (s & ? & ? & ?). exists s. split; [lia|done].
Qed.

Lemma log_files_distinct_witness :
  ∃ names, roll_names (str "h") 7 (str "httpd") [951827696; 951827696; 951827690; 951827697] (MkLogFile 1000 3 1024 0 0 0 0 [] None) = Ok names ∧
    NoDup names ∧ names = [str "httpd.20000229-123456.h.7.log"; str "httpd.20000229-123457.h.7.log"].
Proof.
  destruct (log_files_distinct (str "h") 7 (str "httpd") [951827696; 951827696; 951827690; 951827697] (MkLogFile 1000 3 1024 0 0 0 0 [] None)) as (names & H1 & H2).
  - repeat constructor; vm_compute; discriminate.
  - exists names. split; [exact H1|]. split; [exact H2|]. vm_compute in H1. injection H1 as <-. reflexivity.
Defined.
