(* ===== verification/Any.v ===== *)
(** * [Any] and [WeakCallback] (utils/any.h, utils/weak_callback.h)

    [Any] holds a value of any copyable type, or nothing.  The types are those of
    a family [V] indexed by names that can be compared, as [std::type_info] can;
    a holder is owned by one object, and a copy clones it, so that objects are
    values.  [WeakCallback] calls a member function if the object still exists. *)

From stdpp Require Import base tactics list numbers strings proof_irrel.
From Stdlib Require Import ZArith Lia.
From S2P Require Import Prelude.

Section any.
Context {type : Type} `{EqDecision type} (V : type → Type).

(** [Holder<ValueType>], with [held_]; [content_] is null or points to one. *)
Definition Holder : Type := { t : type & V t }.
Record Any := MkAny { content_ : option Holder }.

Definition Any_new : Any := MkAny None.
Definition Any_value (t : type) (value : V t) : Any := MkAny (Some (existT t value)).
(** [Clone] makes another holder of the same value. *)
Definition Clone (h : Holder) : Holder := existT (projT1 h) (projT2 h).
Definition Any_copy (other : Any) : Any := MkAny (Clone <$> content_ other).
(** The new object and what is left in [other]. *)
Definition Any_move (other : Any) : Any * Any := (MkAny (content_ other), MkAny None).

(** [type_info()]; [None] is [typeid(void)]. *)
Definition type_info (a : Any) : option type := projT1 <$> content_ a.
Definition any_empty (a : Any) : bool := negb (bool_decide (is_Some (type_info a))).

Definition any_swap (this rhs : Any) : Any * Any := (rhs, this).
(** The three assignments, as swaps with a temporary. *)
Definition assign_copy (this rhs : Any) : Any := (any_swap (Any_copy rhs) this).2.
Definition assign_move (this rhs : Any) : Any * Any :=
  let '(rhs, this) := any_swap rhs this in (this, (any_swap Any_new rhs).2).
Definition assign_value (this : Any) (t : type) (value : V t) : Any := (any_swap (Any_value t value) this).2.
Definition clear (this : Any) : Any := (any_swap Any_new this).2.

(** [ToPtr<ValueType>()]: the value pointed to; null if the type is another. *)
Definition ToPtr (t : type) (a : Any) : option (V t) :=
  match content_ a with
  | Some h => match decide (projT1 h = t) with left e => Some (eq_rect _ V (projT2 h) _ e) | right _ => None end
  | None => None
  end.
(** [CopyTo(value)]: whether it was copied, and the variable after it. *)
Definition CopyTo (t : type) (value : V t) (a : Any) : bool * V t :=
  match ToPtr t a with Some x => (true, x) | None => (false, value) end.
Definition AnyCast (t : type) (operand : Any) : outcome (V t) :=
  match ToPtr t operand with Some x => Ok x | None => Fail (Exception "bad_cast") end.

Lemma ToPtr_value t v : ToPtr t (Any_value t v) = Some v.
Proof. unfold ToPtr. cbn. destruct (decide (t = t)) as [e|]; [|done]. by rewrite (proof_irrel e eq_refl). Qed.

(** The cast to the type of the value gives the value, and to any other type it
    throws. *)
Lemma AnyCast_value t v t' : AnyCast t (Any_value t v) = Ok v ∧ (t' ≠ t → AnyCast t' (Any_value t v) = Fail (Exception "bad_cast")).
Proof.
  split; [unfold AnyCast; by rewrite ToPtr_value|]. intros Hne. unfold AnyCast, ToPtr. cbn.
  destruct (decide (t = t')); [by subst|done].
Qed.

(** A copy casts as the original does, an assigned object as the right side did;
    a moved-from object is empty. *)
Lemma any_assignments this rhs t :
  AnyCast t (Any_copy rhs) = AnyCast t rhs ∧ AnyCast t (assign_copy this rhs) = AnyCast t rhs ∧
  AnyCast t (assign_move this rhs).1 = AnyCast t rhs ∧ any_empty (assign_move this rhs).2 = true ∧
  any_empty (Any_move rhs).2 = true ∧ AnyCast t (Any_move rhs).1 = AnyCast t rhs ∧ any_empty (clear this) = true.
Proof. destruct rhs as [[[t' v]|]]; done. Qed.

(** Whether [CopyTo] copied says whether the cast would have succeeded. *)
Lemma CopyTo_iff t value a : (CopyTo t value a).1 = is_ok (AnyCast t a) ∧ (is_ok (AnyCast t a) = false → (CopyTo t value a).2 = value).
Proof. unfold CopyTo, AnyCast. by destruct (ToPtr t a). Qed.

(** ** Contexts

    A connection keeps two objects for its users, [context_] for the server's
    callbacks and [timing_context_] for the timing strategy; a loop keeps one. *)
Record contexts := MkContexts { context_ : Any; timing_context_ : Any }.

Definition SetContext (context : Any) (c : contexts) : contexts := MkContexts (assign_copy (context_ c) context) (timing_context_ c).
Definition SetTimingContext (context : Any) (c : contexts) : contexts := MkContexts (context_ c) (assign_copy (timing_context_ c) context).

(** What is written through [AnyCast<T>(mutable_context())]. *)
Definition through (t : type) (f : V t → V t) (a : Any) : outcome Any := v ← AnyCast t a; Ok (Any_value t (f v)).
Definition on_mutable_context (t : type) (f : V t → V t) (c : contexts) : outcome contexts :=
  a ← through t f (context_ c); Ok (MkContexts a (timing_context_ c)).
Definition on_mutable_timing_context (t : type) (f : V t → V t) (c : contexts) : outcome contexts :=
  a ← through t f (timing_context_ c); Ok (MkContexts (context_ c) a).

(** [EventLoop::SetContext]. *)
Definition EventLoop_SetContext (context slot : Any) : Any := assign_copy slot context.

(** What was set is found and can be changed in place; the other object stays. *)
Lemma contexts_separate t v (f : V t → V t) c :
  ∃ c', on_mutable_context t f (SetContext (Any_value t v) c) = Ok c' ∧ AnyCast t (context_ c') = Ok (f v) ∧
    timing_context_ c' = timing_context_ c ∧
  ∃ c'', on_mutable_timing_context t f (SetTimingContext (Any_value t v) c') = Ok c'' ∧ AnyCast t (timing_context_ c'') = Ok (f v) ∧
    context_ c'' = context_ c'.
Proof.
  assert (∀ v, AnyCast t (Any_value t v) = Ok v) as Hc by (intros; by apply AnyCast_value).
  unfold on_mutable_context, on_mutable_timing_context, through. cbn [SetContext SetTimingContext context_ timing_context_].
  change (assign_copy (context_ c) (Any_value t v)) with (Any_value t v). rewrite Hc. cbn [mbind outcome_bind].
  eexists. split; [done|]. cbn [context_ timing_context_]. split; [apply Hc|]. split; [done|].
  change (assign_copy (timing_context_ c) (Any_value t v)) with (Any_value t v). rewrite Hc. cbn [mbind outcome_bind].
  eexists. split; [done|]. split; [apply Hc|done].
Qed.
End any.

(** ** [WeakCallback] *)
Section weak_callback.
Context {S : Type} (alive : S → bool) (function : S → outcome S).

(** [operator()]: [lock()] gives the object while some owner keeps it. *)
Definition WeakCallback_call (s : S) : outcome (bool * S) :=
  if alive s then s ← function s; Ok (true, s) else Ok (false, s).

(** It returns whether the object existed, and does nothing without it. *)
Lemma weak_callback_dead s : alive s = false → WeakCallback_call s = Ok (false, s).
Proof. unfold WeakCallback_call. by intros ->. Qed.
End weak_callback.
