(* ===== verification/ProcessInfo.v ===== *)
(** * [process_info] (base/process_info.h, base/process_info.cc)

    The files of /proc and the answers of the system calls are inputs. *)

From stdpp Require Import base tactics list numbers strings sorting.
From Stdlib Require Import ZArith Lia Ascii.
From S2P Require Import Prelude.
From S2P Require Import CString.
From S2P Require Import Calendar.
From S2P Require Import TimeZone.
From S2P Require Import LogStream.
From S2P Require Import Logging.

(** ** Names *)
Definition pid_string (pid : Z) : bytes := ztake 31 (fmt_d pid).

(** [getpwuid_r] found the user or not. *)
Definition username (result : option bytes) : bytes := default (str "unknownuser") result.

(** [gethostname] filled the buffer of 256 or failed. *)
Definition hostname (answer : option bytes) : bytes :=
  match answer with
  | Some buf => Slice.of_cstring (ztake 255 buf)
  | None => str "unknownhost"
  end.

(** [procname(stat)]: between the first opening and the last closing parenthesis. *)
Definition procname (stat : bytes) : bytes :=
  let lp := std_find "("%char stat in
  match last_index ")"%char stat with
  | Some rp => if (lp <? zlen stat) && (lp <? rp) then ztake (wrapS 32 (rp - lp - 1)) (zdrop (lp + 1) stat) else []
  | None => []
  end.

(** [readlink] of /proc/self/exe: what it gave, at most 1024 bytes, or -1. *)
Definition exe_path (answer : option bytes) : bytes :=
  match answer with Some link => ztake 1024 link | None => [] end.

Definition thread_stat_path (tid : Z) : bytes := ztake 63 (str "/proc/self/task/" ++ fmt_d tid ++ str "/stat").

(** ** Counting threads and descriptors *)
Definition atoi (s : bytes) : Z := wrapS 32 (strtol10 (Slice.of_cstring s)).

Definition num_threads (status : bytes) : Z :=
  let pos := std_search (str "Threads:") status in
  if pos <? zlen status then atoi (zdrop (pos + 8) status) else 0.

(** [isdigit(d->d_name[0])]. *)
Definition starts_with_digit (d_name : bytes) : bool :=
  match d_name with c :: _ => isdigit c | [] => false end.

(** [ScanDir] with [FdDirFilter] and [TaskDirFilter]: what the thread-local
    counter and vector end up as; neither filter keeps an entry. *)
Definition FdDirFilter (n : Z) (d_name : bytes) : Z := if starts_with_digit d_name then n + 1 else n.
Definition TaskDirFilter (pids : list Z) (d_name : bytes) : list Z := if starts_with_digit d_name then pids ++ [atoi d_name] else pids.

Definition opened_files (dir : list bytes) : Z := foldl FdDirFilter 0 dir.
(** [getrlimit] fails, or gives the soft limit. *)
Definition max_open_files (rlim_cur : option Z) (dir : list bytes) : Z :=
  match rlim_cur with None => opened_files dir | Some n => wrapS 32 n end.
Definition threads (dir : list bytes) : list Z := merge_sort Z.le (foldl TaskDirFilter [] dir).

(** ** What they find *)
Lemma last_index_found a b c : c ∉ b → last_index c (a ++ c :: b) = Some (zlen a).
Proof.
  intros Hc. unfold last_index. rewrite reverse_app, reverse_cons, <-app_assoc. cbn [app].
  rewrite std_find_app_cons by (by rewrite elem_of_reverse).
  unfold zlen. rewrite !length_app, !length_reverse. cbn [length]. rewrite length_reverse.
  destruct (Z.ltb_spec (Z.of_nat (length b)) (Z.of_nat (length b + S (length a)))); [f_equal|]; lia.
Qed.

(** The name of the process, whatever parentheses it has itself. *)
Theorem procname_exact before comm after :
  "("%char ∉ before → ")"%char ∉ after → zlen comm < 2 ^ 31 →
  procname (before ++ "("%char :: comm ++ ")"%char :: after) = comm.
Proof.
  intros Hb Ha Hl. unfold procname. rewrite std_find_app_cons by done.
  replace (before ++ "("%char :: comm ++ ")"%char :: after) with ((before ++ "("%char :: comm) ++ ")"%char :: after)
    by (by rewrite <-app_assoc).
  rewrite last_index_found by done. rewrite !zlen_app, zlen_cons. rewrite zlen_cons.
  pose proof (zlen_nonneg before). pose proof (zlen_nonneg comm). pose proof (zlen_nonneg after).
  replace (zlen before <? zlen before + (zlen comm + 1) + (zlen after + 1)) with true by lia.
  replace (zlen before <? zlen before + (zlen comm + 1)) with true by lia. cbn [andb].
  replace (zlen before + (zlen comm + 1) - zlen before - 1) with (zlen comm) by lia. rewrite wrapS_small by lia.
  rewrite <-app_assoc. cbn [app]. unfold zdrop, ztake, zlen.
  replace (Z.to_nat (Z.of_nat (length before) + 1)) with (length before + 1)%nat by lia.
  rewrite <-drop_drop, drop_app_length. cbn [drop]. rewrite Nat2Z.id. apply take_app_length.
Qed.

Lemma procname_exact_witness : procname (str "42 (a) b (c)) S 1 2") = str "a) b (c)".
Proof.
  apply (procname_exact (str "42 ") (str "a) b (c)") (str " S 1 2")); [by apply (bool_decide_unpack _); vm_compute..|by vm_compute].
Defined.

(** [threads] is sorted, and has the number of each directory entry that is one. *)
Theorem threads_sorted dir :
  StronglySorted Z.le (threads dir) ∧ threads dir ≡ₚ atoi <$> filter starts_with_digit dir.
Proof.
  unfold threads. split; [apply StronglySorted_merge_sort; [apply _|intros x y; lia]|]. rewrite merge_sort_Permutation.
  enough (∀ acc, foldl TaskDirFilter acc dir = acc ++ (atoi <$> filter starts_with_digit dir)) as -> by done.
  induction dir as [|d dir IH]; intros acc; cbn [foldl]; [by rewrite app_nil_r|]. rewrite IH. unfold TaskDirFilter.
  rewrite filter_cons. destruct (starts_with_digit d); cbn; [|done]. by rewrite <-app_assoc.
Qed.

Example num_threads_1 : num_threads (str "Name: x" ++ LF :: str "Threads:" ++ "009"%char :: str "12" ++ LF :: str "SigQ: 0") = 12.
Proof. reflexivity. Qed.
