(* ===== verification/Handles.v ===== *)
(** * Who closes what (utils/file.h, base/process_info.cc)

    The objects of utils/file.h own a descriptor or a stream.  The system is a
    table of open descriptors; zlib is a class whose operations act on the stream
    behind a handle, with the null handle as a case of its own.  Objects that can
    be moved, [GzipFile], live in variables. *)

From stdpp Require Import base tactics list numbers strings sets gmap.
From Stdlib Require Import ZArith Lia Ascii.
From S2P Require Import Prelude.
From S2P Require Import CString.
From S2P Require Import Calendar.
From S2P Require Import LogStream.
From S2P Require Import Files.
From S2P Require Import Units.
From S2P Require Import Seconds.
From S2P Require Import ProcessInfo.

(** ** Descriptors *)
Definition close_fd (fd : Z) (open : gset Z) : outcome (gset Z) :=
  if bool_decide (fd ∈ open) then Ok (open ∖ {[fd]}) else Fail (UndefinedBehaviour "close of a descriptor that is not open").

Definition ReadSmallFile_create (answer : Z + Z) (open : gset Z) : ReadSmallFile * gset Z :=
  (ReadSmallFile_open answer, match answer with inl fd => open ∪ {[fd]} | inr _ => open end).

Definition ReadSmallFile_destroy (r : ReadSmallFile) (open : gset Z) : outcome (gset Z) :=
  if 0 <=? fd_ r then close_fd (fd_ r) open else Ok open.

(** What the system answers during one [ReadFile]. *)
Record file_answers := MkFileAnswers { a_open : Z + Z; a_fstat : stat + Z; a_reads : list (Z + Z); a_bytes : bytes }.

(** [ReadFile] with the file's attributes wanted or not. *)
Definition ReadFile (max_size : Z) (content : bytes) (want_size want_m want_c : bool) (w : file_answers) (open : gset Z)
    : outcome (read_result * gset Z) :=
  let '(file, open) := ReadSmallFile_create (a_open w) open in
  let r := ReadToString max_size content want_size want_m want_c (a_fstat w) (a_reads w) (a_bytes w) file in
  open ← ReadSmallFile_destroy file open;
  Ok (r, open).

(** [open(2)] gives a descriptor that is not in use. *)
Definition open_fresh (w : file_answers) (open : gset Z) : Prop :=
  match a_open w with inl fd => 0 ≤ fd ∧ fd ∉ open | inr _ => True end.

(** Whatever [read] and [fstat] answer, no descriptor is left open or closed twice. *)
Lemma ReadFile_closes max_size content b1 b2 b3 w open :
  open_fresh w open → ∃ r, ReadFile max_size content b1 b2 b3 w open = Ok (r, open).
Proof.
  intros Hf. unfold ReadFile, ReadSmallFile_create, ReadSmallFile_destroy, open_fresh in *. destruct (a_open w) as [fd|e]; cbn [ReadSmallFile_open fd_].
  - destruct Hf as [Hfd Hn]. replace (0 <=? fd) with true by lia. unfold close_fd. rewrite bool_decide_eq_true_2 by set_solver.
    cbn [mbind outcome_bind]. eexists. repeat f_equal. set_solver.
  - cbn. by eexists.
Qed.

(** A file that opens and is read without an error is read up to [max_size], with result 0. *)
Lemma ReadFile_reads fd st reads file max_size content b1 b2 b3 open :
  0 ≤ fd → fd ∉ open → 0 ≤ max_size < 2 ^ 31 → st_mode st ≠ Directory → Forall (λ a, is_inl a = true) reads →
  ∃ r, ReadFile max_size content b1 b2 b3 (MkFileAnswers (inl fd) (inl st) reads file) open = Ok (r, open) ∧
    r_err r = 0 ∧ r_content r = ztake max_size file.
Proof.
  intros Hfd Hn Hm Hd Hr. destruct (ReadFile_closes max_size content b1 b2 b3 (MkFileAnswers (inl fd) (inl st) reads file) open) as [r E]; [done|].
  exists r. split; [done|]. unfold ReadFile, ReadSmallFile_create in E. apply bind_Ok in E as (o & _ & E). injection E as <- <-.
  pose proof (read_to_string_prefix max_size content b1 b2 b3 st reads file (ReadSmallFile_open (inl fd)) Hfd Hm Hd Hr) as [Hc He].
  split; [exact He|exact Hc].
Qed.

(** [File]: [fopen] gives a stream or null, and the destructor closes a stream. *)
Definition File_open (answer : option Z) (open : gset Z) : option Z * gset Z :=
  (answer, match answer with Some fp => open ∪ {[fp]} | None => open end).
Definition File_IsValid (fp_ : option Z) : bool := bool_decide (is_Some fp_).
Definition File_destroy (fp_ : option Z) (open : gset Z) : outcome (gset Z) :=
  match fp_ with Some fp => close_fd fp open | None => Ok open end.

(** [GetFileSize(FILE* )]: the position behind the last byte, where the stream then is. *)
Definition GetFileSize_stream (data : bytes) (position : Z) : Z * Z := (zlen data, zlen data).

(** ** What [process_info] reads *)
Section proc.
Variable open : gset Z.

Definition read_proc (w : file_answers) : outcome bytes := '(r, _) ← ReadFile 65536 [] false false false w open; Ok (r_content r).

Definition proc_status (w : file_answers) : outcome bytes := read_proc w.
Definition proc_stat (w : file_answers) : outcome bytes := read_proc w.
Definition thread_stat (w : file_answers) : outcome bytes := read_proc w.
Definition procname_self (w : file_answers) : outcome bytes := stat ← proc_stat w; Ok (procname stat).
Definition num_threads_self (w : file_answers) : outcome Z := status ← proc_status w; Ok (num_threads status).
End proc.

(** [ScanDir]: the entries that the filter keeps; [namelist] stays null if it keeps none. *)
Definition ScanDir {A} (filter : A → bytes → A * bool) (dir : list bytes) (a : A) : outcome (A * Z) :=
  let '(a, kept) := foldl (λ s d_name, let '(a, keep) := filter s.1 d_name in (a, if keep : bool then s.2 + 1 else s.2)) (a, 0) dir in
  cassert "namelist == nullptr" (kept =? 0);;
  Ok (a, kept).

(** Both filters return 0, so that the assertion holds and they see every entry. *)
Lemma ScanDir_all {A} (f : A → bytes → A) dir a : ScanDir (λ a d, (f a d, false)) dir a = Ok (foldl f a dir, 0).
Proof.
  unfold ScanDir. assert (∀ n, foldl (λ (s : A * Z) d_name, (f s.1 d_name, s.2)) (a, n) dir = (foldl f a dir, n)) as E.
  { revert a. induction dir as [|d dir IH]; intros a n; [done|]. cbn. apply IH. }
  rewrite E. done.
Qed.

Definition opened_files_scan (dir : list bytes) : outcome Z :=
  '(n, _) ← ScanDir (λ n d, (FdDirFilter n d, false)) dir 0; Ok n.
Lemma opened_files_scan_ok dir : opened_files_scan dir = Ok (opened_files dir).
Proof. unfold opened_files_scan. by rewrite ScanDir_all. Qed.

(** [CpuTime] and [cpu_time]: zero when [times] fails. *)
Record CpuTime := MkCpuTime { user_seconds : double; system_seconds : double }.
Definition CpuTime_new : CpuTime := MkCpuTime (double_of 0) (double_of 0).
Definition cpu_time (hz : Z) (times : option (Z * Z)) : CpuTime :=
  match times with
  | Some (utime, stime) => MkCpuTime (cpu_seconds utime hz) (cpu_seconds stime hz)
  | None => CpuTime_new
  end.
Definition IsDebugBuild : bool := true.

(** ** [GzipFile] *)
Class Zlib := {
  gz : Type;
  gzopen : bytes → bytes → option gz;
  gzread : Z → option gz → option gz * (bytes * Z);
  gzwrite : bytes → option gz → option gz * Z;
  gztell : option gz → Z;
  gzoffset : option gz → Z;
  gzflush : Z → option gz → option gz * Z;
  gzbuffer : Z → option gz → option gz * Z;
}.

Section gzip.
Context `{Zlib}.

(** The open streams, and the variables of type [GzipFile] with their [file_]. *)
Record gz_world := MkGz { streams : gmap Z gz; vars : gmap nat (option Z) }.

Definition set_var (x : nat) (file : option Z) (w : gz_world) : gz_world := MkGz (streams w) (<[x := file]> (vars w)).

(** A use of a variable that is not there would not compile. *)
Definition var (x : nat) (w : gz_world) : outcome (option Z) :=
  match vars w !! x with Some file => Ok file | None => Fail (UndefinedBehaviour "no such variable") end.

Definition gzclose (h : Z) (w : gz_world) : outcome gz_world :=
  if bool_decide (is_Some (streams w !! h)) then Ok (MkGz (delete h (streams w)) (vars w))
  else Fail (UndefinedBehaviour "gzclose of a handle that is not open").

(** A function of zlib on [file_]. *)
Definition on_stream {A} (f : option gz → option gz * A) (file : option Z) (w : gz_world) : outcome (gz_world * A) :=
  match file with
  | None => Ok (w, (f None).2)
  | Some h =>
      match streams w !! h with
      | None => Fail (UndefinedBehaviour "use of a handle that is not open")
      | Some g =>
          let '(g', a) := f (Some g) in
          Ok (match g' with Some g' => MkGz (<[h := g']> (streams w)) (vars w) | None => w end, a)
      end
  end.

(** [GzipFile(GzipFile&& x)] into a new variable [y]. *)
Definition GzipFile_move (y x : nat) (w : gz_world) : outcome gz_world :=
  file ← var x w; Ok (set_var x None (set_var y file w)).

Definition GzipFile_destroy (x : nat) (w : gz_world) : outcome gz_world :=
  file ← var x w;
  w ← match file with Some h => gzclose h w | None => Ok w end;
  Ok (MkGz (streams w) (delete x (vars w))).

Definition gz_swap (x y : nat) (w : gz_world) : outcome gz_world :=
  fx ← var x w; fy ← var y w; Ok (set_var y fx (set_var x fy w)).

(** [x = std::move(y)]. *)
Definition GzipFile_assign (x y : nat) (w : gz_world) : outcome gz_world := gz_swap x y w.

Definition gz_IsValid (file : option Z) : bool := bool_decide (file ≠ None).
Definition gz_SetBuffer (size : Z) (file : option Z) (w : gz_world) : outcome (gz_world * bool) :=
  '(w, r) ← on_stream (gzbuffer size) file w; Ok (w, r =? 0).
Definition gz_Read (len : Z) (file : option Z) (w : gz_world) : outcome (gz_world * (bytes * Z)) := on_stream (gzread (wrapU 32 len)) file w.
Definition gz_Write (buf : bytes) (file : option Z) (w : gz_world) : outcome (gz_world * Z) := on_stream (gzwrite buf) file w.
Definition gz_Tell (file : option Z) (w : gz_world) : outcome Z := snd <$> on_stream (λ g, (g, gztell g)) file w.
Definition gz_Offset (file : option Z) (w : gz_world) : outcome Z := snd <$> on_stream (λ g, (g, gzoffset g)) file w.
Definition gz_Flush (f : Z) (file : option Z) (w : gz_world) : outcome (gz_world * Z) := on_stream (gzflush f) file w.

(** The four ways to open: [h] is the handle of the new stream. *)
Definition gz_open_with (mode filename : bytes) (x : nat) (h : Z) (w : gz_world) : gz_world :=
  match gzopen filename mode with
  | Some g => MkGz (<[h := g]> (streams w)) (<[x := Some h]> (vars w))
  | None => set_var x None w
  end.
Definition OpenForRead := gz_open_with (str "rbe").
Definition OpenForAppend := gz_open_with (str "abe").
Definition OpenForWriteExclusive := gz_open_with (str "wbxe").
Definition OpenForWriteTruncate := gz_open_with (str "wbe").

Inductive gz_op :=
| GzOpen (mode filename : bytes) (x : nat) (h : Z)
| GzMove (y x : nat)
| GzAssign (x y : nat)
| GzSwap (x y : nat)
| GzDestroy (x : nat)
| GzRead (len : Z) (x : nat)
| GzWrite (buf : bytes) (x : nat)
| GzFlush (f : Z) (x : nat)
| GzSetBuffer (size : Z) (x : nat).

Definition gz_step (o : gz_op) (w : gz_world) : outcome gz_world :=
  match o with
  | GzOpen mode filename x h => Ok (gz_open_with mode filename x h w)
  | GzMove y x => GzipFile_move y x w
  | GzAssign x y => GzipFile_assign x y w
  | GzSwap x y => gz_swap x y w
  | GzDestroy x => GzipFile_destroy x w
  | GzRead len x => file ← var x w; fst <$> gz_Read len file w
  | GzWrite buf x => file ← var x w; fst <$> gz_Write buf file w
  | GzFlush f x => file ← var x w; fst <$> gz_Flush f file w
  | GzSetBuffer size x => file ← var x w; fst <$> gz_SetBuffer size file w
  end.

(** A program declares a variable once before it uses it, and [gzopen] gives a
    handle that is not in use. *)
Definition gz_legal (o : gz_op) (w : gz_world) : Prop :=
  match o with
  | GzOpen _ _ x h => vars w !! x = None ∧ streams w !! h = None
  | GzMove y x => vars w !! y = None ∧ is_Some (vars w !! x)
  | GzAssign x y | GzSwap x y => is_Some (vars w !! x) ∧ is_Some (vars w !! y)
  | GzDestroy x | GzRead _ x | GzWrite _ x | GzFlush _ x | GzSetBuffer _ x => is_Some (vars w !! x)
  end.

Inductive gz_run : list gz_op → gz_world → gz_world → Prop :=
| gz_run_nil w : gz_run [] w w
| gz_run_cons o os w w' w'' : gz_legal o w → gz_step o w = Ok w' → gz_run os w' w'' → gz_run (o :: os) w w''.

(** The streams open are exactly those that a variable holds, each held by one. *)
Record owned (w : gz_world) : Prop := MkOwned {
  own_open : ∀ h, is_Some (streams w !! h) ↔ ∃ x, vars w !! x = Some (Some h);
  own_once : ∀ x y h, vars w !! x = Some (Some h) → vars w !! y = Some (Some h) → x = y;
}.

(** Changing the variables by moving handles between two of them keeps [owned]. *)
Lemma owned_exchange w vs :
  owned w → (∀ h, (∃ x, vs !! x = Some (Some h)) ↔ ∃ x, vars w !! x = Some (Some h)) →
  (∀ x y h, vs !! x = Some (Some h) → vs !! y = Some (Some h) → x = y) → owned (MkGz (streams w) vs).
Proof. intros [Ho _] Hs Hu. split; [|done]. intros h. cbn. by rewrite Ho, Hs. Qed.

Lemma owned_swap x y fx fy w :
  owned w → vars w !! x = Some fx → vars w !! y = Some fy → owned (set_var y fx (set_var x fy w)).
Proof.
  intros Ho Hx Hy. pose proof (own_once w Ho) as Hu. apply (owned_exchange w); [done|..].
  - intros h. split; intros [z Hz].
    + cbn in Hz. rewrite lookup_insert_Some, lookup_insert_Some in Hz. naive_solver.
    + cbn. destruct (decide (z = x)) as [->|]; [exists y; rewrite lookup_insert_eq; congruence|].
      destruct (decide (z = y)) as [->|]; [|exists z; by rewrite !lookup_insert_ne].
      exists x. destruct (decide (x = y)) as [->|]; [done|]. rewrite lookup_insert_ne, lookup_insert_eq by done. congruence.
  - intros a b h Ha Hb. cbn in Ha, Hb. rewrite !lookup_insert_Some in Ha, Hb. naive_solver.
Qed.

Lemma owned_move x y fx w :
  owned w → vars w !! y = None → vars w !! x = Some fx → owned (set_var x None (set_var y fx w)).
Proof.
  intros Ho Hy Hx. pose proof (own_once w Ho) as Hu. assert (x ≠ y) by congruence. apply (owned_exchange w); [done|..].
  - intros h. split; intros [z Hz].
    + cbn in Hz. rewrite !lookup_insert_Some in Hz. naive_solver.
    + cbn. destruct (decide (z = x)) as [->|]; [exists y; rewrite lookup_insert_ne, lookup_insert_eq by done; congruence|].
      destruct (decide (z = y)) as [->|]; [congruence|]. exists z. by rewrite !lookup_insert_ne.
  - intros a b h Ha Hb. cbn in Ha, Hb. rewrite !lookup_insert_Some in Ha, Hb. naive_solver.
Qed.

Lemma owned_opened x h g w :
  owned w → vars w !! x = None → streams w !! h = None → owned (MkGz (<[h := g]> (streams w)) (<[x := Some h]> (vars w))).
Proof.
  intros [Ho Hu] Hx Hh. assert (∀ z, vars w !! z ≠ Some (Some h)) as Hn by (intros z Hz; specialize (Ho h); rewrite Hh in Ho; destruct Ho as [_ Ho]; by destruct Ho; eauto).
  split; cbn.
  - intros h'. rewrite lookup_insert_is_Some, Ho. split.
    + intros [<-|[? [z Hz]]]; [exists x; by rewrite lookup_insert_eq|]. exists z. rewrite lookup_insert_ne; congruence.
    + intros [z Hz]. rewrite lookup_insert_Some in Hz. destruct Hz as [[_ [= ->]]|[? Hz]]; [by left|]. right. split; [intros ->; by eapply Hn|eauto].
  - intros a b h' Ha Hb. rewrite lookup_insert_Some in Ha, Hb. naive_solver.
Qed.

Lemma owned_null x w : owned w → vars w !! x = None → owned (set_var x None w).
Proof.
  intros Ho Hx. pose proof (own_once w Ho) as Hu. apply (owned_exchange w); [done|..].
  - intros h. split; intros [z Hz]; [rewrite lookup_insert_Some in Hz; naive_solver|]. exists z. rewrite lookup_insert_ne; congruence.
  - intros a b h Ha Hb. rewrite lookup_insert_Some in Ha, Hb. naive_solver.
Qed.

Lemma owned_closed x h w :
  owned w → vars w !! x = Some (Some h) → owned (MkGz (delete h (streams w)) (delete x (vars w))).
Proof.
  intros [Ho Hu] Hx. split; cbn.
  - intros h'. rewrite lookup_delete_is_Some, Ho. split.
    + intros [? [z Hz]]. exists z. rewrite lookup_delete_ne; [done|]. intros ->. congruence.
    + intros [z Hz]. rewrite lookup_delete_Some in Hz. destruct Hz as [Hne Hz]. split; [|by eauto]. intros ->. apply Hne. by eapply Hu.
  - intros a b h' Ha Hb. rewrite lookup_delete_Some in Ha, Hb. naive_solver.
Qed.

Lemma owned_dropped x w : owned w → vars w !! x = Some None → owned (MkGz (streams w) (delete x (vars w))).
Proof.
  intros Ho Hx. pose proof (own_once w Ho) as Hu. apply (owned_exchange w); [done|..].
  - intros h. split; intros [z Hz]; [rewrite lookup_delete_Some in Hz; naive_solver|]. exists z. rewrite lookup_delete_ne; congruence.
  - intros a b h Ha Hb. rewrite lookup_delete_Some in Ha, Hb. naive_solver.
Qed.

(** A variable that is there can be used. *)
Lemma on_stream_owned {A} (f : option gz → option gz * A) x file w :
  owned w → vars w !! x = Some file → returns (fst <$> on_stream f file w) owned.
Proof.
  intros Ho Hx. unfold on_stream. destruct file as [h|]; [|done].
  assert (is_Some (streams w !! h)) as [g Hg] by (apply (own_open w Ho); eauto). rewrite Hg.
  destruct (f (Some g)) as [[g'|] a]; [|done]. cbn. destruct Ho as [Ho Hu]. split; [|done]. intros h'. cbn.
  rewrite lookup_insert_is_Some, <-Ho. destruct (decide (h = h')) as [->|]; [|naive_solver]. split; [by eauto|by left].
Qed.

Lemma gz_step_owned o w : owned w → gz_legal o w → returns (gz_step o w) owned.
Proof.
  intros Ho Hl.
  destruct o as [mode filename x h|y x|x y|x y|x|len x|buf x|f x|size x]; cbn [gz_step gz_legal] in *;
    unfold GzipFile_move, GzipFile_assign, gz_swap, GzipFile_destroy, var.
  - destruct Hl as [Hx Hh]. cbn [returns]. unfold gz_open_with. destruct (gzopen filename mode); [by apply owned_opened|by apply owned_null].
  - destruct Hl as [Hy [fx Hx]]. rewrite Hx. by apply owned_move.
  - destruct Hl as [[fx Hx] [fy Hy]]. rewrite Hx. cbn [mbind outcome_bind]. rewrite Hy. by apply owned_swap.
  - destruct Hl as [[fx Hx] [fy Hy]]. rewrite Hx. cbn [mbind outcome_bind]. rewrite Hy. by apply owned_swap.
  - destruct Hl as [[h|] Hx]; rewrite Hx; cbn [mbind outcome_bind]; [|by apply owned_dropped].
    unfold gzclose. rewrite bool_decide_eq_true_2 by (apply (own_open w Ho); eauto). exact (owned_closed x h w Ho Hx).
  - destruct Hl as [file Hx]. rewrite Hx. by apply (on_stream_owned _ x).
  - destruct Hl as [file Hx]. rewrite Hx. by apply (on_stream_owned _ x).
  - destruct Hl as [file Hx]. rewrite Hx. by apply (on_stream_owned _ x).
  - destruct Hl as [file Hx]. rewrite Hx. pose proof (on_stream_owned (gzbuffer size) x file w Ho Hx) as Hr.
    cbn [mbind outcome_bind]. unfold gz_SetBuffer. by destruct (on_stream (gzbuffer size) file w) as [[w' r]|].
Qed.

(** Every gzip stream is closed exactly once.  Whatever a program does with
    variables of type [GzipFile], opening, moving, assigning, swapping and
    destroying them and using moved-from ones included, no call goes to a handle
    that is not open, the streams open are exactly those that a variable holds,
    and once every variable is destroyed none is open. *)
Theorem gzip_closed_once os w :
  gz_run os (MkGz ∅ ∅) w →
  (∀ o, gz_legal o w → is_ok (gz_step o w) = true) ∧ owned w ∧ (vars w = ∅ → streams w = ∅).
Proof.
  intros Hr. assert (owned (MkGz ∅ ∅)) as H0 by (split; [intros h; cbn; split; [by intros [? ?]|by intros [? ?]]|done]).
  assert (owned w) as Ho.
  { revert H0 Hr. generalize (MkGz ∅ ∅). intros w0 H0 Hr. induction Hr as [|o os w w' w'' Hl Hs _ IH]; [done|].
    apply IH. pose proof (gz_step_owned o w H0 Hl) as Hw. by rewrite Hs in Hw. }
  split_and!; [|done|].
  - intros o Hl. pose proof (gz_step_owned o w Ho Hl) as Hs. by destruct (gz_step o w).
  - intros Hv. apply map_empty. intros h. destruct (streams w !! h) eqn:E; [|done].
    destruct (proj1 (own_open w Ho h)) as [x Hx]; [by eauto|]. by rewrite Hv in Hx.
Qed.
End gzip.

(** A zlib that keeps the bytes as they are. *)
#[local] Instance plain_zlib : Zlib := {|
  gz := bytes;
  gzopen _ _ := Some [];
  gzread n g := match g with Some b => (Some (zdrop n b), (ztake n b, zlen (ztake n b))) | None => (None, ([], -1)) end;
  gzwrite d g := match g with Some b => (Some (b ++ d), zlen d) | None => (None, 0) end;
  gztell g := match g with Some b => zlen b | None => -1 end;
  gzoffset g := match g with Some b => zlen b | None => -1 end;
  gzflush _ g := (g, 0);
  gzbuffer _ g := (g, 0);
|}.

Lemma gzip_closed_once_witness :
  ∃ w : gz_world, streams w = ∅ ∧ owned w.
Proof.
  destruct (gzip_closed_once [GzOpen (str "wbe") (str "a") 0 7; GzMove 1 0; GzWrite (str "x") 1; GzRead 3 0; GzDestroy 0; GzDestroy 1] (MkGz ∅ ∅))
    as (_ & Ho & Hv).
  - repeat (eapply gz_run_cons; [vm_compute; eauto|vm_compute; reflexivity|]). apply gz_run_nil.
  - exists (MkGz ∅ ∅). split; [by apply Hv|exact Ho].
Defined.
