(* ===== verification/CommandLine.v ===== *)
(** * The command line and [main] (utils/program_options.cc,
    mytinyhttpd/mytinyhttpd.cc)

    The library that parses [argv] is a parameter: it gives the options that were
    named with their values, or throws.  The map of the options holds these and
    the defaults of the four options that have one. *)

From stdpp Require Import base tactics list numbers strings gmap.
From Stdlib Require Import ZArith Lia.
From S2P Require Import Prelude.
From S2P Require Import CString.
From S2P Require Import HttpServer.

(** ** Checks on options *)

(** [variables_map]: for each option, whether its value is the default. *)
Abbreviation variables_map := (gmap string bool).

Definition given (op : string) (vm : variables_map) : bool :=
  match vm !! op with Some defaulted => negb defaulted | None => false end.

Definition VerifyExclusiveOption (vm : variables_map) (op : string) : outcome unit :=
  if given op vm && bool_decide (1 < size vm)%nat
     && existsb (λ i, negb i.2 && negb (bool_decide (i.1 = op))) (map_to_list vm)
  then Fail (Exception ("Exclusive option '" +:+ op +:+ "'")) else Ok tt.

Definition VerifyConflictingOptions (vm : variables_map) (op1 op2 : string) : outcome unit :=
  if given op1 vm && given op2 vm
  then Fail (Exception ("Conflicting options '" +:+ op1 +:+ "' and '" +:+ op2 +:+ "'.")) else Ok tt.

Definition VerifyOptionDependency (vm : variables_map) (op required_op : string) : outcome unit :=
  if given op vm && negb (given required_op vm)
  then Fail (Exception ("Option '" +:+ op +:+ "' requires option '" +:+ required_op +:+ "'.")) else Ok tt.

Definition VerifyOptions (vm : variables_map) : outcome unit :=
  VerifyExclusiveOption vm "help";; VerifyExclusiveOption vm "version";; VerifyExclusiveOption vm "conf".

(** ** [main] *)

(** The options named on the command line. *)
Record arguments := MkArguments {
  arg_help : bool;
  arg_version : bool;
  arg_port : option Z;
  arg_docroot : option bytes;
  arg_domain : option bytes;
  arg_conf : option bytes;
}.

(** [store] and [notify]: the map, the configuration and the file. *)
Definition options_map (a : arguments) : variables_map :=
  (if arg_help a then {["help" := false]} else ∅) ∪ (if arg_version a then {["version" := false]} else ∅) ∪
  list_to_map [("port", negb (bool_decide (is_Some (arg_port a)))); ("docroot", negb (bool_decide (is_Some (arg_docroot a))));
               ("domain", negb (bool_decide (is_Some (arg_domain a)))); ("conf", negb (bool_decide (is_Some (arg_conf a))))].
Definition cli_config (a : arguments) : HttpServerConfig :=
  MkConfig false (Some (default default_port_ (arg_port a))) (default default_domain_ (arg_domain a))
    (default default_docroot_ (arg_docroot a)) (Some default_option_).
Definition config_file (a : arguments) : bytes := default default_conf_file_ (arg_conf a).

(** What [main] does after the checks: it prints something and returns, or runs
    the server with a configuration. *)
Inductive main_result :=
| PrintUsage
| PrintVersion
| PrintError (what : string)
| Serve (config : HttpServerConfig).

(** [catch (const std::exception&)]. *)
Definition catch_exception (m : outcome main_result) : outcome main_result :=
  match m with Fail (Exception what) => Ok (PrintError what) | _ => m end.

(** [parse] is the command-line library, [files] opens files for reading, [json]
    is the JSON library. *)
Definition main (parse : list bytes → outcome arguments) (files : bytes → option bytes) (json : bytes → json_text)
    (argv : list bytes) : outcome main_result :=
  catch_exception (
    a ← parse argv;
    let vm := options_map a in
    VerifyOptions vm;;
    config ← startup_config json (files (config_file a)) (cli_config a);
    Ok (if bool_decide (is_Some (vm !! "help")) then PrintUsage
        else if bool_decide (is_Some (vm !! "version")) then PrintVersion
        else Serve config)).

(** ** What is exclusive *)
Lemma exclusive_iff vm op :
  VerifyExclusiveOption vm op = Ok tt ↔ given op vm = false ∨ ∀ op', given op' vm = true → op' = op.
Proof.
  unfold VerifyExclusiveOption. destruct (given op vm) eqn:Hg; cbn [andb]; [|split; [by left|done]].
  destruct (existsb _ (map_to_list vm)) eqn:He.
  - apply existsb_exists in He as ([o d] & Hin & [Hd Ho]%andb_true_iff). cbn in Hd, Ho.
    apply negb_true_iff, bool_decide_eq_false in Ho. apply negb_true_iff in Hd. subst d.
    apply list_elem_of_In, elem_of_map_to_list in Hin.
    assert (given o vm = true) as Hgo by (unfold given; by rewrite Hin).
    assert (1 < size vm)%nat as Hs.
    { unfold given in Hg. destruct (vm !! op) as [d|] eqn:E; [|done].
      rewrite <-(insert_delete_id vm op d) by done. rewrite map_size_insert_None by apply lookup_delete_eq.
      assert (delete op vm !! o = Some false) as Hd by (by rewrite lookup_delete_ne).
      rewrite <-(insert_delete_id (delete op vm) o false) by done. rewrite map_size_insert_None by apply lookup_delete_eq. lia. }
    rewrite bool_decide_true by done. cbn. split; [done|]. intros [?|Hall]; [done|]. by destruct Ho; apply Hall.
  - rewrite andb_false_r. split; [|done]. intros _. right. intros o Ho. destruct (decide (o = op)); [done|]. exfalso.
    unfold given in Ho. destruct (vm !! o) as [d|] eqn:E; [|done]. apply negb_true_iff in Ho. subst d.
    apply elem_of_map_to_list, list_elem_of_In in E.
    assert (existsb (λ i, negb i.2 && negb (bool_decide (i.1 = op))) (map_to_list vm) = true) as He'; [|congruence].
    apply existsb_exists. eexists. split; [exact E|]. cbn. by rewrite bool_decide_false.
Qed.

(** The options named, and the first of the exclusive ones that is not alone. *)
Definition named (a : arguments) : list string :=
  (if arg_help a then ["help"] else []) ++ (if arg_version a then ["version"] else []) ++
  (if bool_decide (is_Some (arg_port a)) then ["port"] else []) ++ (if bool_decide (is_Some (arg_docroot a)) then ["docroot"] else []) ++
  (if bool_decide (is_Some (arg_domain a)) then ["domain"] else []) ++ (if bool_decide (is_Some (arg_conf a)) then ["conf"] else []).
Definition clash (a : arguments) : option string :=
  match named a with
  | _ :: _ :: _ => head (filter (λ op, op ∈ named a) ["help"; "version"; "conf"])
  | _ => None
  end.

Lemma VerifyOptions_clash a :
  VerifyOptions (options_map a) =
    match clash a with Some op => Fail (Exception ("Exclusive option '" +:+ op +:+ "'")) | None => Ok tt end.
Proof. destruct a as [[] [] [p|] [d|] [m|] [c|]]; vm_compute; reflexivity. Qed.

Lemma options_map_flags a :
  bool_decide (is_Some (options_map a !! "help")) = arg_help a ∧ bool_decide (is_Some (options_map a !! "version")) = arg_version a.
Proof. destruct a as [[] [] [p|] [d|] [m|] [c|]]; vm_compute; done. Qed.

(** What [main] does with its arguments.  When the command line parses:
    --help, --version and --conf together with any other option end in the
    message of an exclusive option; otherwise, with a configuration file that is
    missing, --help and --version print their text, and everything else starts
    the server with the options given and the defaults for the others.  When the
    command line does not parse, its message is printed. *)
Theorem main_dispatch parse files json argv :
  (∀ what, parse argv = Fail (Exception what) → main parse files json argv = Ok (PrintError what)) ∧
  (∀ a op, parse argv = Ok a → clash a = Some op →
     main parse files json argv = Ok (PrintError ("Exclusive option '" +:+ op +:+ "'"))) ∧
  (∀ a, parse argv = Ok a → clash a = None → files (config_file a) = None →
     main parse files json argv = Ok (if arg_help a then PrintUsage else if arg_version a then PrintVersion else Serve (cli_config a))).
Proof.
  unfold main. split; [intros what ->; done|]. split.
  - intros a op -> Hc. cbn [mbind outcome_bind]. rewrite VerifyOptions_clash, Hc. done.
  - intros a -> Hc Hf. cbn [mbind outcome_bind]. rewrite VerifyOptions_clash, Hc, Hf. cbn [mbind outcome_bind].
    destruct (options_map_flags a) as [-> ->]. done.
Qed.

(** A malformed configuration file stops even --help and --version: the file is
    read first. *)
Theorem bad_config_aborts_help parse files json argv a text :
  parse argv = Ok a → clash a = None → files (config_file a) = Some text → json text = JMalformed →
  main parse files json argv = Fail (FatalLog "HttpServerConfig file parse error").
Proof.
  intros Hp Hc Hf Hj. unfold main. rewrite Hp. cbn [mbind outcome_bind]. rewrite VerifyOptions_clash, Hc, Hf. cbn [mbind outcome_bind].
  unfold startup_config, HttpServerConfig_file. rewrite Hj. done.
Qed.

Lemma bad_config_aborts_help_witness :
  main (λ _, Ok (MkArguments true false None None None None)) (λ _, Some (str "{")) (λ _, JMalformed) [str "mytinyhttpd"; str "--help"] =
  Fail (FatalLog "HttpServerConfig file parse error").
Proof. apply (bad_config_aborts_help _ _ _ _ (MkArguments true false None None None None) (str "{")); reflexivity. Defined.
